(** * PixelStorm-Server: room simulation, matchmaking and gateway

    A shallow embedding of the room engine ([internal/game]: room.go,
    battle.go, server.go, websocket.go), of the entity model
    ([internal/models]: entity.go, game.go) and of the matchmaking queue
    ([internal/match]: service.go), with the properties of the design
    document stated over it; then of the matchmaking endpoints
    ([internal/match]: handler.go) and of the API gateway
    ([internal/gateway]: gateway.go, middleware.go, cache.go), with the
    properties their code shows.

    Conventions of the embedding.
    - Go [int] and [int64] are [Z] with two's-complement wrap-around
      written out ([wrap]); [float64] is Rocq's primitive binary64 float.
    - [time.Time] is the clock reading in nanoseconds ([Z]); a
      [time.Duration] is a number of nanoseconds.
    - A Go map is a [gmap]; where the source ranges over a map and the
      result depends on the (unspecified) iteration order, the order is an
      explicit argument.
    - A pointer to an entity, a connection or a room is the key under
      which the owning map holds the object; mutation through the pointer
      is an update of the map at that key.
    - What the environment supplies ([time.Now], [uuid.New],
      [rand.Float64]) is an explicit argument of the function drawing it. *)

From Stdlib Require Import ZArith Floats Lia Ascii.
From stdpp Require Import gmap strings pretty list fin_maps sorting.

Local Open Scope Z_scope.

(** ** Go primitives *)

Module golang.

(** Two's-complement wrap-around of 64-bit signed arithmetic. *)
Definition wrap (z : Z) : Z := (z + 2 ^ 63) mod 2 ^ 64 - 2 ^ 63.

Definition int_add (a b : Z) : Z := wrap (a + b).
Definition int_sub (a b : Z) : Z := wrap (a - b).

Definition in_int (z : Z) : Prop := - 2 ^ 63 <= z < 2 ^ 63.

(** [int(f)] for a [float64] [f]: truncation toward zero.  For a value
    with no [int] representation (NaN, infinities, magnitude 2^63 or more)
    Go leaves the result to the implementation; amd64 yields the least
    [int64], which is what is written here. *)
Definition int_of_float (f : float) : Z :=
  match Prim2SF f with
  | S754_zero _ => 0
  | S754_finite s m e =>
      let v := if 0 <=? e then Zpos m * 2 ^ e else Zpos m / 2 ^ (- e) in
      let t := if s then - v else v in
      if (- 2 ^ 63 <=? t) && (t <? 2 ^ 63) then t else - 2 ^ 63
  | _ => - 2 ^ 63
  end.

(** [float64(n)] for an integer [n]: rounding to nearest, ties to even. *)
Definition float_of_int (n : Z) : float :=
  SF2Prim (binary_normalize prec emax n 0 false).

(** [time.Time] and [time.Duration]. *)
Definition Time := Z.
Definition Duration := Z.

Definition Millisecond : Duration := 1000000.
Definition Second : Duration := 1000000000.
Definition Minute : Duration := 60 * Second.

Definition minDuration : Duration := - 2 ^ 63.
Definition maxDuration : Duration := 2 ^ 63 - 1.

(** [t.Sub(u)]: the difference, saturated to the range of a Duration. *)
Definition Sub (t u : Time) : Duration :=
  Z.max minDuration (Z.min maxDuration (t - u)).

(** [time.Since(t)] when the clock reads [now]. *)
Definition Since (now t : Time) : Duration := Sub now t.

(** [d.Seconds()]: [float64(d / Second) + float64(d % Second) / 1e9],
    with Go's truncated division and remainder. *)
Definition Seconds (d : Duration) : float :=
  (float_of_int (Z.quot d Second) + float_of_int (Z.rem d Second) / 1e9)%float.

(** A call returns, or blocks for ever on a lock that the calling
    goroutine holds itself ([sync.RWMutex] is not reentrant), or panics
    (a send on, or a second close of, a closed channel). *)
Inductive Outcome (A : Type) :=
  | Returns (a : A)
  | Blocks
  | Panics.
Arguments Returns {A}.
Arguments Blocks {A}.
Arguments Panics {A}.

Definition obind {A B} (o : Outcome A) (k : A → Outcome B) : Outcome B :=
  match o with
  | Returns a => k a
  | Blocks => Blocks
  | Panics => Panics
  end.

(** [sync.RWMutex], as seen by the one goroutine that runs a call: free,
    held for writing, or held for reading [n + 1] times. *)
Inductive RWMutex :=
  | Unlocked
  | WriteLocked
  | ReadLocked (n : nat).

Definition Lock (m : RWMutex) : Outcome RWMutex :=
  match m with
  | Unlocked => Returns WriteLocked
  | _ => Blocks
  end.

Definition RLock (m : RWMutex) : Outcome RWMutex :=
  match m with
  | Unlocked => Returns (ReadLocked 0)
  | ReadLocked n => Returns (ReadLocked (S n))
  | WriteLocked => Blocks
  end.

(** A buffered channel: the pending messages, oldest first, the capacity
    given to [make], and whether [close] has been called. *)
Record Chan (A : Type) := mkChan {
  buf : list A;
  cap : nat;
  closed : bool
}.
Arguments mkChan {A}.
Arguments buf {A}.
Arguments cap {A}.
Arguments closed {A}.

Definition make_chan {A} (n : nat) : Chan A := mkChan [] n false.

(** The three ways [select { case ch <- v: ... default: ... }] can go:
    a send on a closed channel panics, a send into a buffer with room
    succeeds, and otherwise the [default] branch runs. *)
Inductive TrySend (A : Type) :=
  | Sent (ch : Chan A)
  | WouldBlock
  | SendOnClosed.
Arguments Sent {A}.
Arguments WouldBlock {A}.
Arguments SendOnClosed {A}.

Definition try_send {A} (ch : Chan A) (v : A) : TrySend A :=
  if closed ch then SendOnClosed
  else if (length (buf ch) <? cap ch)%nat
       then Sent (mkChan (buf ch ++ [v]) (cap ch) false)
       else WouldBlock.

(** [close(ch)]; closing a closed channel panics. *)
Definition close_chan {A} (ch : Chan A) : Outcome (Chan A) :=
  if closed ch then Panics else Returns (mkChan (buf ch) (cap ch) true).

End golang.

Import golang.

Notation "x ←! o ; k" := (obind o (λ x, k))
  (at level 20, o at level 100, k at level 200, right associativity,
   only parsing).

(** ** The entity model ([internal/models]) *)

Module models.

(** [type GameMode string]: a mode is whatever string a request carries;
    four of them are named. *)
Abbreviation GameMode := string.

Definition DeathMatch : GameMode := "death_match".
Definition TeamDeathMatch : GameMode := "team_death_match".
Definition CapturePoint : GameMode := "capture_point".
Definition FlagCapture : GameMode := "flag_capture".

(** [RoomStatus] and [Team] are only ever assigned their named
    constants. *)
Inductive RoomStatus :=
  | RoomWaiting
  | RoomPlaying
  | RoomEnded.

Inductive Team :=
  | TeamNone
  | TeamRed
  | TeamBlue.

Global Instance RoomStatus_eq_dec : EqDecision RoomStatus.
Proof. solve_decision. Defined.

Global Instance Team_eq_dec : EqDecision Team.
Proof. solve_decision. Defined.

Record Vector2D := mkVector2D {
  X : float;
  Y : float
}.

(** [BaseEntity].  Its [ID] field is the key under which the room's
    entity mapping holds the entity (every insertion in the source is
    [r.entities[e.ID] = e]), and its [Type] field is the constructor of
    [Entity] below (every entity is built with the tag of its Go type);
    neither is stored a second time. *)
Record BaseEntity := mkBaseEntity {
  Position : Vector2D;
  Rotation : float;
  Velocity : Vector2D;
  CreatedAt : Time
}.

Record PlayerEntity := mkPlayerEntity {
  PlayerBase : BaseEntity;
  PlayerID : Z;
  CharacterID : Z;
  team : Team;
  Health : Z;
  MaxHealth : Z;
  IsAlive : bool;
  RespawnTime : Z;
  SkillCooldowns : gmap Z float;
  Kills : Z;
  Deaths : Z;
  Assists : Z
}.

Record ProjectileEntity := mkProjectileEntity {
  ProjectileBase : BaseEntity;
  OwnerID : string;
  SkillID : Z;
  Damage : Z;
  LifeTime : float;
  HitEntities : list string
}.

Record EffectEntity := mkEffectEntity {
  EffectBase : BaseEntity;
  EffectType : string;
  EffectDuration : float;
  Radius : float;
  EffectOwnerID : string
}.

(** The [Entity] interface, closed over its three implementations. *)
Inductive Entity :=
  | EPlayer (e : PlayerEntity)
  | EProjectile (e : ProjectileEntity)
  | EEffect (e : EffectEntity).

Inductive EntityType :=
  | EntityPlayer
  | EntityProjectile
  | EntityEffect.

Definition GetType (e : Entity) : EntityType :=
  match e with
  | EPlayer _ => EntityPlayer
  | EProjectile _ => EntityProjectile
  | EEffect _ => EntityEffect
  end.

Definition GetBase (e : Entity) : BaseEntity :=
  match e with
  | EPlayer p => PlayerBase p
  | EProjectile p => ProjectileBase p
  | EEffect p => EffectBase p
  end.

Definition GetPosition (e : Entity) : Vector2D := Position (GetBase e).
Definition GetVelocity (e : Entity) : Vector2D := Velocity (GetBase e).

Record CollisionInfo := mkCollisionInfo {
  EntityA : string;
  EntityB : string;
  CollisionPosition : Vector2D;
  Normal : Vector2D;
  CollisionTime : Time
}.

(** Field updates, one per field the room engine assigns. *)
Definition set_Position (v : Vector2D) (b : BaseEntity) : BaseEntity :=
  mkBaseEntity v (Rotation b) (Velocity b) (CreatedAt b).

Definition set_Velocity (v : Vector2D) (b : BaseEntity) : BaseEntity :=
  mkBaseEntity (Position b) (Rotation b) v (CreatedAt b).

Definition set_PlayerBase (b : BaseEntity) (e : PlayerEntity) : PlayerEntity :=
  mkPlayerEntity b (PlayerID e) (CharacterID e) (team e) (Health e)
    (MaxHealth e) (IsAlive e) (RespawnTime e) (SkillCooldowns e) (Kills e)
    (Deaths e) (Assists e).

Definition set_Health (h : Z) (e : PlayerEntity) : PlayerEntity :=
  mkPlayerEntity (PlayerBase e) (PlayerID e) (CharacterID e) (team e) h
    (MaxHealth e) (IsAlive e) (RespawnTime e) (SkillCooldowns e) (Kills e)
    (Deaths e) (Assists e).

Definition set_IsAlive (a : bool) (e : PlayerEntity) : PlayerEntity :=
  mkPlayerEntity (PlayerBase e) (PlayerID e) (CharacterID e) (team e)
    (Health e) (MaxHealth e) a (RespawnTime e) (SkillCooldowns e) (Kills e)
    (Deaths e) (Assists e).

Definition set_RespawnTime (t : Z) (e : PlayerEntity) : PlayerEntity :=
  mkPlayerEntity (PlayerBase e) (PlayerID e) (CharacterID e) (team e)
    (Health e) (MaxHealth e) (IsAlive e) t (SkillCooldowns e) (Kills e)
    (Deaths e) (Assists e).

Definition set_SkillCooldowns (c : gmap Z float) (e : PlayerEntity)
  : PlayerEntity :=
  mkPlayerEntity (PlayerBase e) (PlayerID e) (CharacterID e) (team e)
    (Health e) (MaxHealth e) (IsAlive e) (RespawnTime e) c (Kills e)
    (Deaths e) (Assists e).

Definition set_Kills (k : Z) (e : PlayerEntity) : PlayerEntity :=
  mkPlayerEntity (PlayerBase e) (PlayerID e) (CharacterID e) (team e)
    (Health e) (MaxHealth e) (IsAlive e) (RespawnTime e) (SkillCooldowns e) k
    (Deaths e) (Assists e).

Definition set_Deaths (d : Z) (e : PlayerEntity) : PlayerEntity :=
  mkPlayerEntity (PlayerBase e) (PlayerID e) (CharacterID e) (team e)
    (Health e) (MaxHealth e) (IsAlive e) (RespawnTime e) (SkillCooldowns e)
    (Kills e) d (Assists e).

Definition set_ProjectileBase (b : BaseEntity) (e : ProjectileEntity)
  : ProjectileEntity :=
  mkProjectileEntity b (OwnerID e) (SkillID e) (Damage e) (LifeTime e)
    (HitEntities e).

Definition set_LifeTime (t : float) (e : ProjectileEntity) : ProjectileEntity :=
  mkProjectileEntity (ProjectileBase e) (OwnerID e) (SkillID e) (Damage e) t
    (HitEntities e).

Definition set_HitEntities (h : list string) (e : ProjectileEntity)
  : ProjectileEntity :=
  mkProjectileEntity (ProjectileBase e) (OwnerID e) (SkillID e) (Damage e)
    (LifeTime e) h.

End models.

Import models.

(** ** The room engine ([internal/game]) *)

Module game.

(** *** Wire data

    The [protocol] package is generated code outside the sources at hand;
    the frame follows the design document: frame id, timestamp, collision
    events (the two entities, a position, a damage), scores per player and
    the remaining time.  The integer fields are [int32] on the wire; the
    [float32] rounding of the event position is not represented. *)

Definition wrap32 (z : Z) : Z := (z + 2 ^ 31) mod 2 ^ 32 - 2 ^ 31.

Record CollisionEvent := mkCollisionEvent {
  EventEntityA : string;
  EventEntityB : string;
  EventPosition : Vector2D;
  EventDamage : Z
}.

Record GameFrame := mkGameFrame {
  FrameId : Z;
  Timestamp : Z;
  Collisions : list CollisionEvent;
  Scores : gmap Z Z;
  RemainingTime : Z
}.

(** [Message]: a type tag and a raw payload. *)
Record Message := mkMessage {
  MessageType : string;
  Payload : string
}.

(** What [json.Marshal] is applied to before the bytes are queued. *)
Inductive Data :=
  | FrameData (f : GameFrame)
  | MessageData (m : Message).

(** *** Connections, player states and rooms *)

(** [PlayerConnection]; its [ID] is the key under which the connection
    object is held, and [ConnRoom] is the pointer to the room it occupies
    ([None] for nil). *)
Record PlayerConnection := mkPlayerConnection {
  ConnPlayerID : Z;
  ConnRoom : option string;
  LastActive : Time;
  Send : Chan Data;
  ConnIsAlive : bool
}.

(** A connection whose outbound queue is open and has no room left. *)
Definition isFull (pc : PlayerConnection) : Prop :=
  closed (Send pc) = false ∧ (cap (Send pc) <= length (buf (Send pc)))%nat.

Definition set_ConnRoom (o : option string) (c : PlayerConnection)
  : PlayerConnection :=
  mkPlayerConnection (ConnPlayerID c) o (LastActive c) (Send c) (ConnIsAlive c).

Definition set_Send (ch : Chan Data) (c : PlayerConnection) : PlayerConnection :=
  mkPlayerConnection (ConnPlayerID c) (ConnRoom c) (LastActive c) ch
    (ConnIsAlive c).

(** [PlayerState]: [Connection] and [Entity] are pointers, that is, the ID
    of the connection and the ID of the player entity in the room's entity
    mapping. *)
Record PlayerState := mkPlayerState {
  Connection : option string;
  Entity_ : string;
  Ready : bool;
  LastInput : Time
}.

Record Room := mkRoom {
  ID : string;
  Name : string;
  Mode : GameMode;
  Status : RoomStatus;
  MaxPlayers : Z;
  RoomCreatedAt : Time;
  StartedAt : Time;
  EndedAt : Time;
  MapID : Z;
  TimeLimit : Z;
  ScoreLimit : Z;
  FriendlyFire : bool;
  PrivateRoom : bool;
  Password : string;
  players : gmap string PlayerState;
  entities : gmap string Entity;
  frameID : Z;
  lastFrameTime : Time;
  scores : gmap Z Z;
  isRunning : bool;
  lastActivity : Time
}.

Definition set_Status (x : RoomStatus) (r : Room) : Room :=
  mkRoom (ID r) (Name r) (Mode r) x (MaxPlayers r) (RoomCreatedAt r)
    (StartedAt r) (EndedAt r) (MapID r) (TimeLimit r) (ScoreLimit r)
    (FriendlyFire r) (PrivateRoom r) (Password r) (players r) (entities r)
    (frameID r) (lastFrameTime r) (scores r) (isRunning r) (lastActivity r).

Definition set_StartedAt (x : Time) (r : Room) : Room :=
  mkRoom (ID r) (Name r) (Mode r) (Status r) (MaxPlayers r) (RoomCreatedAt r)
    x (EndedAt r) (MapID r) (TimeLimit r) (ScoreLimit r)
    (FriendlyFire r) (PrivateRoom r) (Password r) (players r) (entities r)
    (frameID r) (lastFrameTime r) (scores r) (isRunning r) (lastActivity r).

Definition set_EndedAt (x : Time) (r : Room) : Room :=
  mkRoom (ID r) (Name r) (Mode r) (Status r) (MaxPlayers r) (RoomCreatedAt r)
    (StartedAt r) x (MapID r) (TimeLimit r) (ScoreLimit r)
    (FriendlyFire r) (PrivateRoom r) (Password r) (players r) (entities r)
    (frameID r) (lastFrameTime r) (scores r) (isRunning r) (lastActivity r).

Definition set_players (x : gmap string PlayerState) (r : Room) : Room :=
  mkRoom (ID r) (Name r) (Mode r) (Status r) (MaxPlayers r) (RoomCreatedAt r)
    (StartedAt r) (EndedAt r) (MapID r) (TimeLimit r) (ScoreLimit r)
    (FriendlyFire r) (PrivateRoom r) (Password r) x (entities r)
    (frameID r) (lastFrameTime r) (scores r) (isRunning r) (lastActivity r).

Definition set_entities (x : gmap string Entity) (r : Room) : Room :=
  mkRoom (ID r) (Name r) (Mode r) (Status r) (MaxPlayers r) (RoomCreatedAt r)
    (StartedAt r) (EndedAt r) (MapID r) (TimeLimit r) (ScoreLimit r)
    (FriendlyFire r) (PrivateRoom r) (Password r) (players r) x
    (frameID r) (lastFrameTime r) (scores r) (isRunning r) (lastActivity r).

Definition set_frameID (x : Z) (r : Room) : Room :=
  mkRoom (ID r) (Name r) (Mode r) (Status r) (MaxPlayers r) (RoomCreatedAt r)
    (StartedAt r) (EndedAt r) (MapID r) (TimeLimit r) (ScoreLimit r)
    (FriendlyFire r) (PrivateRoom r) (Password r) (players r) (entities r)
    x (lastFrameTime r) (scores r) (isRunning r) (lastActivity r).

Definition set_lastFrameTime (x : Time) (r : Room) : Room :=
  mkRoom (ID r) (Name r) (Mode r) (Status r) (MaxPlayers r) (RoomCreatedAt r)
    (StartedAt r) (EndedAt r) (MapID r) (TimeLimit r) (ScoreLimit r)
    (FriendlyFire r) (PrivateRoom r) (Password r) (players r) (entities r)
    (frameID r) x (scores r) (isRunning r) (lastActivity r).

Definition set_scores (x : gmap Z Z) (r : Room) : Room :=
  mkRoom (ID r) (Name r) (Mode r) (Status r) (MaxPlayers r) (RoomCreatedAt r)
    (StartedAt r) (EndedAt r) (MapID r) (TimeLimit r) (ScoreLimit r)
    (FriendlyFire r) (PrivateRoom r) (Password r) (players r) (entities r)
    (frameID r) (lastFrameTime r) x (isRunning r) (lastActivity r).

Definition set_isRunning (x : bool) (r : Room) : Room :=
  mkRoom (ID r) (Name r) (Mode r) (Status r) (MaxPlayers r) (RoomCreatedAt r)
    (StartedAt r) (EndedAt r) (MapID r) (TimeLimit r) (ScoreLimit r)
    (FriendlyFire r) (PrivateRoom r) (Password r) (players r) (entities r)
    (frameID r) (lastFrameTime r) (scores r) x (lastActivity r).

Definition set_lastActivity (x : Time) (r : Room) : Room :=
  mkRoom (ID r) (Name r) (Mode r) (Status r) (MaxPlayers r) (RoomCreatedAt r)
    (StartedAt r) (EndedAt r) (MapID r) (TimeLimit r) (ScoreLimit r)
    (FriendlyFire r) (PrivateRoom r) (Password r) (players r) (entities r)
    (frameID r) (lastFrameTime r) (scores r) (isRunning r) x.

(** The errors [fmt.Errorf] builds in room.go, by their meaning. *)
Inductive Error :=
  | ErrRoomFull
  | ErrRoomClosed
  | ErrAlreadyRunning.

(** The zero [time.Time] (January 1, year 1) lies this many nanoseconds
    before the Unix epoch. *)
Definition zeroTime : Time := - 62135596800 * Second.

(** [NewRoom]; [roomID] is the UUID drawn and [now] the clock reading. *)
Definition NewRoom (roomID : string) (now : Time) (name : string)
    (mode : GameMode) (maxPlayers mapID : Z) : Room :=
  {| ID := roomID;
     Name := name;
     Mode := mode;
     Status := RoomWaiting;
     MaxPlayers := maxPlayers;
     RoomCreatedAt := now;
     StartedAt := zeroTime;
     EndedAt := zeroTime;
     MapID := mapID;
     TimeLimit := 300;
     ScoreLimit := 20;
     FriendlyFire := false;
     PrivateRoom := false;
     Password := "";
     players := ∅;
     entities := ∅;
     frameID := 0;
     lastFrameTime := zeroTime;
     scores := ∅;
     isRunning := false;
     lastActivity := now |}.

(** [Start]: the game loop it launches is [gameLoop] below, driven tick
    by tick. *)
Definition Start (now : Time) (r : Room) : Room * option Error :=
  if isRunning r then (r, Some ErrAlreadyRunning)
  else (set_lastActivity now (set_isRunning true r), None).

Definition Stop (now : Time) (r : Room) : Room :=
  if negb (isRunning r) then r
  else set_EndedAt now (set_Status RoomEnded (set_isRunning false r)).

(** [getRandomSpawnPosition]; [u] holds the two draws of [rand.Float64],
    each in the interval from 0 (included) to 1 (excluded). *)
Definition getRandomSpawnPosition (u : float * float) : Vector2D :=
  {| X := (u.1 * 1000)%float; Y := (u.2 * 1000)%float |}.

(** The team of the entity a player state points to. *)
Definition stateTeam (r : Room) (ps : PlayerState) : Team :=
  match entities r !! Entity_ ps with
  | Some (EPlayer e) => team e
  | _ => TeamNone
  end.

(** The loop of [assignTeam] over the roster: the two counters. *)
Definition countTeams (r : Room) : Z * Z :=
  map_fold (λ _ ps acc,
              match stateTeam r ps with
              | TeamRed => (int_add acc.1 1, acc.2)
              | TeamBlue => (acc.1, int_add acc.2 1)
              | TeamNone => acc
              end) (0, 0) (players r).

(** [assignTeam].  For the two modes it treats as team-based it takes
    [r.playerMutex] for reading; [mu] is the state of that mutex as left
    by the caller. *)
Definition assignTeam (mu : RWMutex) (r : Room) : Outcome Team :=
  if negb (String.eqb (Mode r) TeamDeathMatch)
     && negb (String.eqb (Mode r) FlagCapture)
  then Returns TeamNone
  else
    _ ←! RLock mu;
    let '(redCount, blueCount) := countTeams r in
    Returns (if redCount <=? blueCount then TeamRed else TeamBlue).

(** [AddPlayer].  [connID] and [conn] are the connection, [entityID] the
    UUID drawn for the new entity, [u] the draws behind its spawn point
    and [now] the clock reading.  The method holds [r.playerMutex] for
    writing from its first statement to its return. *)
Definition AddPlayer (connID : string) (conn : PlayerConnection)
    (characterID : Z) (entityID : string) (u : float * float) (now : Time)
    (r : Room) : Outcome (Room * option Error) :=
  mu ←! Lock Unlocked;
  if MaxPlayers r <=? Z.of_nat (size (players r)) then
    Returns (r, Some ErrRoomFull)
  else if negb (bool_decide (Status r = RoomWaiting)) then
    Returns (r, Some ErrRoomClosed)
  else
    t ←! assignTeam mu r;
    let playerEntity :=
      {| PlayerBase :=
           {| Position := getRandomSpawnPosition u;
              Rotation := 0%float;
              Velocity := {| X := 0%float; Y := 0%float |};
              CreatedAt := now |};
         PlayerID := ConnPlayerID conn;
         CharacterID := characterID;
         team := t;
         Health := 100;
         MaxHealth := 100;
         IsAlive := true;
         RespawnTime := 0;
         SkillCooldowns := ∅;
         Kills := 0;
         Deaths := 0;
         Assists := 0 |} in
    let playerState :=
      {| Connection := Some connID;
         Entity_ := entityID;
         Ready := false;
         LastInput := now |} in
    let r1 := set_players (<[connID := playerState]> (players r)) r in
    let r2 := set_entities (<[entityID := EPlayer playerEntity]> (entities r1)) r1 in
    Returns (set_lastActivity now r2, None).

(** [RemovePlayer]. *)
Definition RemovePlayer (connID : string) (now : Time) (r : Room) : Room :=
  match players r !! connID with
  | None => r
  | Some player =>
      let r1 := set_entities (delete (Entity_ player) (entities r)) r in
      let r2 := set_players (delete connID (players r1)) r1 in
      set_lastActivity now r2
  end.

Definition GetPlayerCount (r : Room) : Z := Z.of_nat (size (players r)).

Definition IsEmpty (r : Room) : bool := GetPlayerCount r =? 0.

(** [ShouldCleanup] when the clock reads [now]. *)
Definition ShouldCleanup (now : Time) (r : Room) : bool :=
  if IsEmpty r then 5 * Minute <? Since now (lastActivity r)
  else if bool_decide (Status r = RoomEnded) then
    2 * Minute <? Since now (EndedAt r)
  else false.

(** *** The entity update of a tick (room.go) *)

(** One skill cooldown over a tick: a positive cooldown is decreased and
    dropped from the map once it is no longer positive. *)
Definition tickCooldown (deltaTime cooldown : float) : option float :=
  if (0 <? cooldown)%float then
    let c := (cooldown - deltaTime)%float in
    if (c <=? 0)%float then None else Some c
  else Some cooldown.

(** [pos.X += vel.X * deltaTime; pos.Y += vel.Y * deltaTime]. *)
Definition advance (deltaTime : float) (b : BaseEntity) : BaseEntity :=
  set_Position
    {| X := (X (Position b) + X (Velocity b) * deltaTime)%float;
       Y := (Y (Position b) + Y (Velocity b) * deltaTime)%float |} b.

(** The [*models.PlayerEntity] case of [updateEntities]; [u] holds the
    random draws used if the player respawns. *)
Definition updatePlayer (deltaTime : float) (u : float * float)
    (e : PlayerEntity) : PlayerEntity :=
  if IsAlive e then
    set_SkillCooldowns (omap (tickCooldown deltaTime) (SkillCooldowns e))
      (set_PlayerBase (advance deltaTime (PlayerBase e)) e)
  else
    let e1 := set_RespawnTime
                (int_sub (RespawnTime e) (int_of_float deltaTime)) e in
    if RespawnTime e1 <=? 0 then
      set_PlayerBase
        (set_Velocity {| X := 0%float; Y := 0%float |}
           (set_Position (getRandomSpawnPosition u) (PlayerBase e1)))
        (set_Health (MaxHealth e1) (set_IsAlive true e1))
    else e1.

(** The [*models.ProjectileEntity] case; [None] is the deletion of the
    entity from the mapping. *)
Definition updateProjectile (deltaTime : float) (e : ProjectileEntity)
  : option ProjectileEntity :=
  let e1 := set_LifeTime (LifeTime e - deltaTime)%float
              (set_ProjectileBase (advance deltaTime (ProjectileBase e)) e) in
  if (LifeTime e1 <=? 0)%float then None else Some e1.

(** The body of the loop of [updateEntities] for the entity held under
    [id]. *)
Definition updateEntity (deltaTime : float) (rnd : string → float * float)
    (id : string) (entity : Entity) : option Entity :=
  match entity with
  | EPlayer e => Some (EPlayer (updatePlayer deltaTime (rnd id) e))
  | EProjectile e => EProjectile <$> updateProjectile deltaTime e
  | EEffect e => Some (EEffect e)
  end.

(** [updateEntities].  Each entity is updated from its own fields alone,
    so the order in which the mapping is ranged over is immaterial;
    [rnd id] holds the random draws made for entity [id]. *)
Definition updateEntities (deltaTime : float)
    (rnd : string → float * float) (r : Room) : Room :=
  set_entities (map_imap (updateEntity deltaTime rnd) (entities r)) r.

(** *** Collision and combat (battle.go) *)

Definition playerRadius : float := 20%float.
Definition projectileRadius : float := 10%float.

Definition alterPlayer (f : PlayerEntity → PlayerEntity) (k : string)
    (m : gmap string Entity) : gmap string Entity :=
  alter (λ e, match e with EPlayer p => EPlayer (f p) | _ => e end) k m.

(** Whether some player state of the roster points to entity [k]: the
    test of the two bookkeeping loops of [handleCollision]. *)
Definition rosterHas (r : Room) (k : string) : bool :=
  existsb (λ ps, String.eqb (Entity_ ps) k) (map_to_list (players r)).*2.

(** The kill bookkeeping of [handleCollision], run once the victim [b] has
    been marked dead: a kill and a score point for the owner, a death for
    the victim. *)
Definition recordKill (projectile : ProjectileEntity) (b : string) (r : Room)
  : Room :=
  if String.eqb (OwnerID projectile) "" then r
  else
    match entities r !! OwnerID projectile with
    | Some (EPlayer ownerPlayer) =>
        let r1 :=
          if rosterHas r (OwnerID projectile) then
            set_scores
              (<[PlayerID ownerPlayer :=
                   int_add (default 0 (scores r !! PlayerID ownerPlayer)) 1]>
                 (scores r))
              (set_entities
                 (alterPlayer (λ p, set_Kills (int_add (Kills p) 1) p)
                    (OwnerID projectile) (entities r)) r)
          else r in
        if rosterHas r1 b then
          set_entities
            (alterPlayer (λ p, set_Deaths (int_add (Deaths p) 1) p) b
               (entities r1)) r1
        else r1
    | _ => r
    end.

(** [handleCollision] for the projectile held under [a] and the player
    held under [b]. *)
Definition handleCollision (a : string) (projectile : ProjectileEntity)
    (b : string) (player : PlayerEntity) (r : Room) : Room :=
  let projectile1 :=
    set_HitEntities (HitEntities projectile ++ [b]) projectile in
  let r1 := set_entities (<[a := EProjectile projectile1]> (entities r)) r in
  let damage := Damage projectile1 in
  let health := int_sub (Health player) damage in
  if health <=? 0 then
    let player1 :=
      set_RespawnTime 5 (set_IsAlive false (set_Health 0 player)) in
    recordKill projectile1 b
      (set_entities (<[b := EPlayer player1]> (entities r1)) r1)
  else
    set_entities (<[b := EPlayer (set_Health health player)]> (entities r1)) r1.

(** The test [hitID == player.ID] over [projectile.HitEntities]. *)
Definition hasHit (projectile : ProjectileEntity) (b : string) : bool :=
  existsb (λ hitID, String.eqb hitID b) (HitEntities projectile).

(** The friendly-fire test of [detectCollisions]. *)
Definition isFriendlyFire (r : Room) (projectile : ProjectileEntity)
    (player : PlayerEntity) : bool :=
  let ownerEntity :=
    if String.eqb (OwnerID projectile) "" then None
    else entities r !! OwnerID projectile in
  match ownerEntity with
  | Some (EPlayer ownerPlayer) =>
      bool_decide (team ownerPlayer = team player)
      && negb (bool_decide (team ownerPlayer = TeamNone))
      && negb (FriendlyFire r)
  | _ => false
  end.

Definition distance (posA posB : Vector2D) : float :=
  let dx := (X posA - X posB)%float in
  let dy := (Y posA - Y posB)%float in
  PrimFloat.sqrt (dx * dx + dy * dy)%float.

Definition intersects (posA posB : Vector2D) : bool :=
  (distance posA posB <? projectileRadius + playerRadius)%float.

(** The body of the inner loop of [detectCollisions] once the pair has
    been found to be the projectile under [a] and the player under [b]. *)
Definition resolve (now : Time) (a : string) (projectile : ProjectileEntity)
    (b : string) (player : PlayerEntity) (st : Room * list CollisionInfo)
  : Room * list CollisionInfo :=
  let '(r, collisions) := st in
  if IsAlive player then
    if hasHit projectile b then st
    else if isFriendlyFire r projectile player then st
    else
      let posA := Position (ProjectileBase projectile) in
      let posB := Position (PlayerBase player) in
      if intersects posA posB then
        let dx := (X posA - X posB)%float in
        let dy := (Y posA - Y posB)%float in
        let d := distance posA posB in
        let collision :=
          {| EntityA := a;
             EntityB := b;
             CollisionPosition :=
               {| X := ((X posA + X posB) / 2)%float;
                  Y := ((Y posA + Y posB) / 2)%float |};
             Normal := {| X := (dx / d)%float; Y := (dy / d)%float |};
             CollisionTime := now |} in
        (handleCollision a projectile b player r, collisions ++ [collision])
      else st
  else st.

(** The body of the inner loop for the snapshot entries [ka] and [kb]:
    the entities are read through their pointers, that is, in the state
    the earlier pairs have left them in. *)
Definition checkPair (now : Time) (ka kb : string)
    (st : Room * list CollisionInfo) : Room * list CollisionInfo :=
  match entities st.1 !! ka, entities st.1 !! kb with
  | Some (EProjectile projectile), Some (EPlayer player) =>
      resolve now ka projectile kb player st
  | Some (EPlayer player), Some (EProjectile projectile) =>
      resolve now kb projectile ka player st
  | _, _ => st
  end.

(** The index pairs [i < j] of the two nested loops, in the order the
    loops visit them. *)
Fixpoint pairs {A} (l : list A) : list (A * A) :=
  match l with
  | [] => []
  | x :: t => map (pair x) t ++ pairs t
  end.

(** The scan of [detectCollisions]: [order] is the snapshot of the entity
    mapping, in the order the [range] produced it; the result is the room
    after the scan and the collisions collected.  What the function does
    next, handing a non-empty list to [broadcastCollisions], changes no
    field of the room and is [broadcastCollisions] below. *)
Definition detectCollisions (now : Time) (order : list string) (r : Room)
  : Room * list CollisionInfo :=
  fold_left (λ st p, checkPair now p.1 p.2 st) (pairs order) (r, []).

(** A snapshot of the entity mapping: every key once. *)
Definition snapshot (order : list string) (r : Room) : Prop :=
  NoDup order ∧ ∀ k, k ∈ order ↔ is_Some (entities r !! k).

(** *** What the collision scan reads and writes

    Vocabulary for the properties of the scan. *)

(** The projectile, or the player, held under a key. *)
Definition getProjectile (r : Room) (k : string) : option ProjectileEntity :=
  match entities r !! k with
  | Some (EProjectile p) => Some p
  | _ => None
  end.

Definition getPlayer (r : Room) (k : string) : option PlayerEntity :=
  match entities r !! k with
  | Some (EPlayer p) => Some p
  | _ => None
  end.

(** A player entity without its kill and death counters, which are all
    that the kill bookkeeping changes. *)
Definition coreP (p : PlayerEntity) : PlayerEntity :=
  set_Kills 0 (set_Deaths 0 p).

Definition playerCore (r : Room) (k : string) : option PlayerEntity :=
  coreP <$> getPlayer r k.

(** The player after a hit by the projectile: the health assignments of
    [handleCollision]. *)
Definition damaged (player : PlayerEntity) (projectile : ProjectileEntity)
  : PlayerEntity :=
  let health := int_sub (Health player) (Damage projectile) in
  if health <=? 0
  then set_RespawnTime 5 (set_IsAlive false (set_Health 0 player))
  else set_Health health player.

(** The four tests of [resolve] together. *)
Definition wouldHit (r : Room) (projectile : ProjectileEntity) (b : string)
    (player : PlayerEntity) : bool :=
  IsAlive player
  && negb (hasHit projectile b)
  && negb (isFriendlyFire r projectile player)
  && intersects (Position (ProjectileBase projectile))
       (Position (PlayerBase player)).

(** The collisions of projectile [a] with player [b] in a list. *)
Definition hitsOf (a b : string) (cs : list CollisionInfo)
  : list CollisionInfo :=
  filter (λ c, EntityA c = a ∧ EntityB c = b) cs.

(** The health that a hit of damage [d] leaves of the health [h]: the
    health assignments of [handleCollision]. *)
Definition hitHealth (h d : Z) : Z :=
  let health := int_sub h d in
  if health <=? 0 then 0 else health.

(** The health of player [b] once the hits of the list on [b] have been
    applied to the health [h], oldest first, each with the damage of its
    projectile in the room [r]: one damage application for every
    collision recorded. *)
Definition healthAfter (r : Room) (b : string) (cs : list CollisionInfo)
    (h : Z) : Z :=
  fold_left
    (λ h c,
       if decide (EntityB c = b) then
         match getProjectile r (EntityA c) with
         | Some projectile => hitHealth h (Damage projectile)
         | None => h
         end
       else h)
    cs h.

(** The hits on player [b] in a list, whatever the projectile. *)
Definition hitsOn (b : string) (cs : list CollisionInfo)
  : list CollisionInfo :=
  filter (λ c, EntityB c = b) cs.

(** Every player entity of the room has a positive maximum health, a
    health that is not negative, and is alive exactly when its health is
    positive. *)
Definition healthy (p : PlayerEntity) : Prop :=
  0 < MaxHealth p ∧ 0 <= Health p ∧ (IsAlive p = true ↔ 0 < Health p).

Definition healthInvariant (r : Room) : Prop :=
  ∀ k p, getPlayer r k = Some p → healthy p.

(** What a collision scan may change of a projectile (its hit-set grows
    at the end) and of a player (all but its place, team, maximum health
    and owner; a dead player is left as it is). *)
Definition stableProjectile (pr pr' : ProjectileEntity) : Prop :=
  ∃ hs, pr' = set_HitEntities (HitEntities pr ++ hs) pr.

Definition stablePlayer (pl pl' : PlayerEntity) : Prop :=
  PlayerBase pl' = PlayerBase pl
  ∧ team pl' = team pl
  ∧ MaxHealth pl' = MaxHealth pl
  ∧ PlayerID pl' = PlayerID pl
  ∧ (IsAlive pl = false →
     IsAlive pl' = false ∧ Health pl' = Health pl
     ∧ RespawnTime pl' = RespawnTime pl).

Definition scanned (r r' : Room) : Prop :=
  (∀ k, option_Forall2 stableProjectile (getProjectile r k) (getProjectile r' k))
  ∧ (∀ k, option_Forall2 stablePlayer (getPlayer r k) (getPlayer r' k))
  ∧ (∀ k, is_Some (entities r' !! k) ↔ is_Some (entities r !! k))
  ∧ FriendlyFire r' = FriendlyFire r
  ∧ players r' = players r.

(** Projectile [a], if the room holds it, has [b] in its hit-set. *)
Definition spent (a b : string) (r : Room) : Prop :=
  ∀ pr, getProjectile r a = Some pr → b ∈ HitEntities pr.

(** The state of a scan, seen from projectile [a] and player [b], which
    were [pr0] and [pl0] when the scan began.  Before the two are met:
    the player is as at the start, as is its membership in the hit-set,
    and no hit of [a] on [b] is recorded.  After the hit: the player is
    damaged, it is in the hit-set, and one hit is recorded. *)
Definition untouched (a b : string) (pr0 : ProjectileEntity)
    (pl0 : PlayerEntity) (st : Room * list CollisionInfo) : Prop :=
  playerCore st.1 b = Some (coreP pl0)
  ∧ (∀ pr, getProjectile st.1 a = Some pr →
           (b ∈ HitEntities pr ↔ b ∈ HitEntities pr0))
  ∧ hitsOf a b st.2 = [].

Definition struck (a b : string) (pr0 : ProjectileEntity)
    (pl0 : PlayerEntity) (st : Room * list CollisionInfo) : Prop :=
  playerCore st.1 b = Some (coreP (damaged pl0 pr0))
  ∧ spent a b st.1
  ∧ ∃ c, hitsOf a b st.2 = [c].

(** The same in a room that may hold other projectiles.  Before [a] and
    [b] are met, [b] still alive: no hit of [a] on [b] is recorded and the
    membership of [b] in the hit-set of [a] is as at the start.  After
    the hit: one hit is recorded and [b] is in the hit-set.  Or [b] was
    killed by another projectile before the two were met: [b] is dead, a
    hit of another projectile on [b] is recorded and none of [a]. *)
Definition pending (a b : string) (pr0 : ProjectileEntity)
    (st : Room * list CollisionInfo) : Prop :=
  hitsOf a b st.2 = []
  ∧ (∀ pr, getProjectile st.1 a = Some pr →
           (b ∈ HitEntities pr ↔ b ∈ HitEntities pr0))
  ∧ ∃ pl, getPlayer st.1 b = Some pl ∧ IsAlive pl = true.

Definition hitOnce (a b : string) (st : Room * list CollisionInfo) : Prop :=
  (∃ c, hitsOf a b st.2 = [c]) ∧ spent a b st.1.

Definition killedByOther (a b : string) (st : Room * list CollisionInfo)
  : Prop :=
  hitsOf a b st.2 = []
  ∧ (∃ pl, getPlayer st.1 b = Some pl ∧ IsAlive pl = false)
  ∧ ∃ c, c ∈ st.2 ∧ EntityB c = b ∧ EntityA c ≠ a.

(** The pair of snapshot entries is [a] and [b], in either order. *)
Definition touching (a b : string) (p : string * string) : bool :=
  bool_decide ((p.1 = a ∧ p.2 = b) ∨ (p.1 = b ∧ p.2 = a)).

(** Projectile [a] is the only projectile of the room. *)
Definition soleProjectile (a : string) (r : Room) : Prop :=
  ∀ k, k ≠ a → getProjectile r k = None.

(** *** Skills and projectiles (battle.go) *)

Section libm.

(** The functions of Go's [math] package that binary64 arithmetic does
    not determine. *)
Variable Atan2 : float → float → float.
Variables Cos Sin : float → float.

Definition Pi : float := 0x1.921fb54442d18p+1%float.

(** [CreateProjectile]; [projID] is the UUID drawn, [ownerID] the ID of
    [owner]. *)
Definition CreateProjectile (projID : string) (now : Time) (ownerID : string)
    (owner : PlayerEntity) (skillID : Z) (direction : Vector2D) (damage : Z)
    (speed lifetime : float) (r : Room) : Room :=
  let projectile :=
    {| ProjectileBase :=
         {| Position := Position (PlayerBase owner);
            Rotation := (Atan2 (Y direction) (X direction) * 180 / Pi)%float;
            Velocity := {| X := (X direction * speed)%float;
                           Y := (Y direction * speed)%float |};
            CreatedAt := now |};
       OwnerID := ownerID;
       SkillID := skillID;
       Damage := damage;
       LifeTime := lifetime;
       HitEntities := [] |} in
  set_entities (<[projID := EProjectile projectile]> (entities r)) r.

Definition rotateVector (v : Vector2D) (angle : float) : Vector2D :=
  let cos := Cos angle in
  let sin := Sin angle in
  {| X := (X v * cos - Y v * sin)%float;
     Y := (X v * sin + Y v * cos)%float |}.

Definition setCooldown (skillID : Z) (c : float) (e : PlayerEntity)
  : PlayerEntity :=
  set_SkillCooldowns (<[skillID := c]> (SkillCooldowns e)) e.

(** [UseSkill] by the player entity held under [playerID]; [uuid i] is
    the [i]-th UUID drawn.  The function returns [nil] on every path. *)
Definition UseSkill (uuid : nat → string) (now : Time) (playerID : string)
    (skillID : Z) (targetPos : Vector2D) (r : Room) : Room :=
  match entities r !! playerID with
  | Some (EPlayer player) =>
      let onCooldown :=
        match SkillCooldowns player !! skillID with
        | Some cooldown => (0 <? cooldown)%float
        | None => false
        end in
      if onCooldown then r
      else
        let playerPos := Position (PlayerBase player) in
        let dx := (X targetPos - X playerPos)%float in
        let dy := (Y targetPos - Y playerPos)%float in
        let length := PrimFloat.sqrt (dx * dx + dy * dy)%float in
        let direction :=
          if (0 <? length)%float
          then {| X := (dx / length)%float; Y := (dy / length)%float |}
          else {| X := dx; Y := dy |} in
        let cool c r' :=
          set_entities (alterPlayer (setCooldown skillID c) playerID
                          (entities r')) r' in
        if skillID =? 1 then
          cool 0.5%float
            (CreateProjectile (uuid 0%nat) now playerID player skillID
               direction 10 500%float 2%float r)
        else if skillID =? 2 then
          let shot (i : Z) (k : nat) r' :=
            let angle := (float_of_int i * 15 * Pi / 180)%float in
            CreateProjectile (uuid k) now playerID player skillID
              (rotateVector direction angle) 8 450%float 1.5%float r' in
          cool 3%float (shot 1 2%nat (shot 0 1%nat (shot (-1) 0%nat r)))
        else if skillID =? 3 then
          cool 5%float
            (CreateProjectile (uuid 0%nat) now playerID player skillID
               direction 15 400%float 3%float r)
        else r
  | _ => r
  end.

End libm.

(** *** The frame broadcast (battle.go) *)

Definition getDamageForCollision (collision : CollisionInfo)
    (ents : gmap string Entity) : Z :=
  match ents !! EntityA collision, ents !! EntityB collision with
  | Some (EProjectile projectile), _ => Damage projectile
  | _, Some (EProjectile projectile) => Damage projectile
  | _, _ => 0
  end.

Definition buildFrame (now : Time) (collisions : list CollisionInfo)
    (r : Room) : GameFrame :=
  {| FrameId := frameID r;
     Timestamp := Z.quot now Millisecond;
     Collisions :=
       map (λ collision,
              {| EventEntityA := EntityA collision;
                 EventEntityB := EntityB collision;
                 EventPosition := CollisionPosition collision;
                 EventDamage :=
                   wrap32 (getDamageForCollision collision (entities r)) |})
           collisions;
     Scores := wrap32 <$> scores r;
     RemainingTime :=
       wrap32 (int_sub (TimeLimit r)
                 (int_of_float (Seconds (Since now (StartedAt r))))) |}.

(** [json.Marshal] of a frame fails on a number that is not finite, which
    here can only be a coordinate of a collision position: sent as
    [float32], it is finite when its magnitude is below the point from
    which the conversion rounds to infinity. *)
Definition float32Finite (x : float) : bool :=
  (PrimFloat.abs x <? 0x1.ffffffp127)%float.

Definition marshals (f : GameFrame) : bool :=
  forallb (λ e, float32Finite (X (EventPosition e))
                && float32Finite (Y (EventPosition e))) (Collisions f).

(** The [select] of [broadcastCollisions] for one player state: the frame
    is queued if the connection's queue has room and is skipped
    otherwise. *)
Definition offerFrame (data : Data) (ps : PlayerState)
    (conns : Outcome (gmap string PlayerConnection))
  : Outcome (gmap string PlayerConnection) :=
  cs ←! conns;
  match Connection ps with
  | None => Returns cs
  | Some c =>
      match cs !! c with
      | None => Returns cs
      | Some pc =>
          match try_send (Send pc) data with
          | Sent ch => Returns (<[c := set_Send ch pc]> cs)
          | WouldBlock => Returns cs
          | SendOnClosed => Panics
          end
      end
  end.

(** [broadcastCollisions]: [conns] holds the connection objects the
    roster points to. *)
Definition broadcastCollisions (now : Time) (collisions : list CollisionInfo)
    (r : Room) (conns : gmap string PlayerConnection)
  : Outcome (gmap string PlayerConnection) :=
  let frame := buildFrame now collisions r in
  if marshals frame then
    foldr (offerFrame (FrameData frame)) (Returns conns)
      (map_to_list (players r)).*2
  else Returns conns.

(** [detectCollisions] with its broadcast. *)
Definition detectAndBroadcast (now : Time) (order : list string) (r : Room)
    (conns : gmap string PlayerConnection)
  : Outcome (Room * gmap string PlayerConnection) :=
  let '(r1, collisions) := detectCollisions now order r in
  if (0 <? length collisions)%nat then
    cs ←! broadcastCollisions now collisions r1 conns;
    Returns (r1, cs)
  else Returns (r1, conns).

(** *** The game loop (room.go) *)

Definition startGame (now : Time) (r : Room) : Room :=
  set_frameID 0
    (set_lastFrameTime now (set_StartedAt now (set_Status RoomPlaying r))).

Definition checkGameStart (now : Time) (r : Room) : Room :=
  if (size (players r) <? 2)%nat then r
  else if forallb Ready (map_to_list (players r)).*2 then startGame now r
  else r.

Definition endGame (now : Time) (r : Room) : Room :=
  set_EndedAt now (set_Status RoomEnded r).

Definition checkGameEnd (now : Time) (r : Room) : Room :=
  if (float_of_int (TimeLimit r) <=? Seconds (Since now (StartedAt r)))%float
  then endGame now r
  else if existsb (λ score, ScoreLimit r <=? score) (map_to_list (scores r)).*2
  then endGame now r
  else r.

(** [update] on the room: [now] is the clock reading of the tick, [order]
    the snapshot order of the collision scan and [rnd] the random draws of
    the respawns.  The second component is the list of collisions the
    scan collected. *)
Definition update (now : Time) (order : list string)
    (rnd : string → float * float) (r : Room) : Room * list CollisionInfo :=
  let deltaTime := Seconds (Sub now (lastFrameTime r)) in
  let r1 := set_frameID (int_add (frameID r) 1) (set_lastFrameTime now r) in
  let r2 := updateEntities deltaTime rnd r1 in
  let '(r3, collisions) := detectCollisions now order r2 in
  (checkGameEnd now r3, collisions).

(** The room of [update] between its entity update and its collision
    scan. *)
Definition updated (now : Time) (rnd : string → float * float) (r : Room)
  : Room :=
  updateEntities (Seconds (Sub now (lastFrameTime r))) rnd
    (set_frameID (int_add (frameID r) 1) (set_lastFrameTime now r)).

(** One firing of the ticker in [gameLoop]. *)
Definition gameLoopTick (now : Time) (order : list string)
    (rnd : string → float * float) (r : Room) : Room * list CollisionInfo :=
  match Status r with
  | RoomPlaying => update now order rnd r
  | RoomWaiting => (checkGameStart now r, [])
  | RoomEnded => (r, [])
  end.

(** What the environment feeds one tick. *)
Record TickInput := mkTickInput {
  tickNow : Time;
  tickOrder : list string;
  tickRnd : string → float * float
}.

(** A run of the game loop: the room after the ticks and all collisions
    collected, oldest first. *)
Fixpoint runTicks (inputs : list TickInput) (r : Room)
  : Room * list CollisionInfo :=
  match inputs with
  | [] => (r, [])
  | i :: rest =>
      let '(r1, c1) := gameLoopTick (tickNow i) (tickOrder i) (tickRnd i) r in
      let '(r2, c2) := runTicks rest r1 in
      (r2, c1 ++ c2)
  end.

(** *** The server: registries and connection teardown
        (server.go, websocket.go) *)

(** [GameServer].  [rooms] and [connections] are the key sets of the two
    registry maps; [roomObjs] and [connObjs] hold the objects the
    registries, the rosters and the connections' room pointers refer to,
    which outlive their removal from a registry. *)
Record GameServer := mkGameServer {
  rooms : gset string;
  connections : gset string;
  roomObjs : gmap string Room;
  connObjs : gmap string PlayerConnection;
  serverRunning : bool
}.

Definition set_rooms (x : gset string) (s : GameServer) : GameServer :=
  mkGameServer x (connections s) (roomObjs s) (connObjs s) (serverRunning s).

Definition set_connections (x : gset string) (s : GameServer) : GameServer :=
  mkGameServer (rooms s) x (roomObjs s) (connObjs s) (serverRunning s).

Definition set_roomObjs (x : gmap string Room) (s : GameServer) : GameServer :=
  mkGameServer (rooms s) (connections s) x (connObjs s) (serverRunning s).

Definition set_connObjs (x : gmap string PlayerConnection) (s : GameServer)
  : GameServer :=
  mkGameServer (rooms s) (connections s) (roomObjs s) x (serverRunning s).

(** [CreateRoom]; it never fails.  The [Start] it launches in a goroutine
    of its own is applied at once. *)
Definition CreateRoom (roomID : string) (now : Time) (name : string)
    (mode : GameMode) (maxPlayers mapID : Z) (s : GameServer)
  : GameServer * string :=
  let room := (Start now (NewRoom roomID now name mode maxPlayers mapID)).1 in
  (set_roomObjs (<[roomID := room]> (roomObjs s))
     (set_rooms ({[roomID]} ∪ rooms s) s), roomID).

(** The body of the loop of [cleanupRooms] for room [id]. *)
Definition cleanupRoom (now : Time) (id : string) (s : GameServer)
  : GameServer :=
  match roomObjs s !! id with
  | Some room =>
      if ShouldCleanup now room then
        set_rooms (rooms s ∖ {[id]})
          (set_roomObjs (<[id := Stop now room]> (roomObjs s)) s)
      else s
  | None => s
  end.

Definition cleanupRooms (now : Time) (s : GameServer) : GameServer :=
  foldr (cleanupRoom now) s (elements (rooms s)).

(** [closeConnection] of the connection held under [player]. *)
Definition closeConnection (now : Time) (player : string) (s : GameServer)
  : Outcome GameServer :=
  if bool_decide (player ∈ connections s) then
    match connObjs s !! player with
    | None => Returns s
    | Some pc =>
        let s1 :=
          match ConnRoom pc with
          | Some rid =>
              set_roomObjs (alter (RemovePlayer player now) rid (roomObjs s)) s
          | None => s
          end in
        ch ←! close_chan (Send pc);
        Returns
          (set_connections (connections s1 ∖ {[player]})
             (set_connObjs
                (<[player := set_Send ch (set_ConnRoom None pc)]> (connObjs s1))
                s1))
    end
  else Returns s.

(** [sendMessage]; [marshalled] is the result of [json.Marshal] on the
    message, [None] when it fails. *)
Definition sendMessage (now : Time) (player : string)
    (marshalled : option Data) (s : GameServer) : Outcome GameServer :=
  match marshalled, connObjs s !! player with
  | Some data, Some pc =>
      match try_send (Send pc) data with
      | Sent ch =>
          Returns (set_connObjs (<[player := set_Send ch pc]> (connObjs s)) s)
      | WouldBlock => closeConnection now player s
      | SendOnClosed => Panics
      end
  | _, _ => Returns s
  end.

(** [handleLeaveRoom]. *)
Definition handleLeaveRoom (now : Time) (player : string) (s : GameServer)
  : Outcome GameServer :=
  match connObjs s !! player with
  | Some pc =>
      match ConnRoom pc with
      | Some rid =>
          let s1 :=
            set_connObjs (<[player := set_ConnRoom None pc]> (connObjs s))
              (set_roomObjs
                 (alter (RemovePlayer player now) rid (roomObjs s)) s) in
          sendMessage now player
            (Some (MessageData (mkMessage "leave_room_confirm" ""))) s1
      | None => Returns s
      end
  | None => Returns s
  end.

(** No connection of the server refers to a room: the [Room] field of
    every connection object is nil, as [handleWSConnection] leaves it. *)
Definition unlinked (s : GameServer) : Prop :=
  ∀ c pc, connObjs s !! c = Some pc → ConnRoom pc = None.

(** The frame broadcast of room [rid] seen from the server: the room
    queues the frame on the connection objects its roster points to. *)
Definition broadcastFrame (now : Time) (collisions : list CollisionInfo)
    (rid : string) (s : GameServer) : Outcome GameServer :=
  match roomObjs s !! rid with
  | Some r =>
      cs ←! broadcastCollisions now collisions r (connObjs s);
      Returns (set_connObjs cs s)
  | None => Returns s
  end.

End game.

Import game.

(** ** The matchmaking queue ([internal/match], service.go) *)

Module matchmaking.

Record MatchRequest := mkMatchRequest {
  ReqPlayerID : Z;
  ReqCharacterID : Z;
  ReqGameMode : GameMode;
  ReqTimestamp : Time;
  SessionID : string
}.

(** [MatchService]: the queues by mode and the game server it creates
    rooms on. *)
Record MatchService := mkMatchService {
  queues : gmap string (list MatchRequest);
  gameServer : GameServer
}.

Definition AddToQueue (now : Time) (playerID characterID : Z)
    (gameMode : GameMode) (sessionID : string) (s : MatchService)
  : MatchService :=
  let request := mkMatchRequest playerID characterID gameMode now sessionID in
  mkMatchService
    (<[gameMode := default [] (queues s !! gameMode) ++ [request]]> (queues s))
    (gameServer s).

(** The index of the first request of [playerID] in a queue. *)
Fixpoint findRequest (playerID : Z) (queue : list MatchRequest) : option nat :=
  match queue with
  | [] => None
  | req :: rest =>
      if ReqPlayerID req =? playerID then Some 0%nat
      else S <$> findRequest playerID rest
  end.

Definition RemoveFromQueue (playerID : Z) (gameMode : GameMode)
    (s : MatchService) : MatchService * bool :=
  match queues s !! gameMode with
  | None => (s, false)
  | Some queue =>
      match findRequest playerID queue with
      | Some i =>
          (mkMatchService
             (<[gameMode := take i queue ++ drop (S i) queue]> (queues s))
             (gameServer s), true)
      | None => (s, false)
      end
  end.

Definition GetQueueLength (gameMode : GameMode) (s : MatchService) : Z :=
  match queues s !! gameMode with
  | Some queue => Z.of_nat (length queue)
  | None => 0
  end.

Definition GetAllQueueLengths (s : MatchService) : gmap string Z :=
  (λ queue, Z.of_nat (length queue)) <$> queues s.

Definition getPlayersNeededForMode (mode : GameMode) : Z :=
  if String.eqb mode DeathMatch then 4
  else if String.eqb mode TeamDeathMatch then 6
  else if String.eqb mode CapturePoint then 8
  else if String.eqb mode FlagCapture then 6
  else 4.

(** A call of [CreateRoom] as the matching pass issues it. *)
Record RoomRequest := mkRoomRequest {
  RequestName : string;
  RequestMode : GameMode;
  RequestMaxPlayers : Z;
  RequestMapID : Z
}.

(** What a matching pass has done so far: the service, the room-creation
    requests issued and, for every room created, its ID with the requests
    matched into it. *)
Record PassState := mkPassState {
  service : MatchService;
  requested : list RoomRequest;
  matched : list (string * list MatchRequest)
}.

(** The body of the loop of [processMatching] for [mode]; [stamp] is the
    clock reading formatted by layout 150405 and [uuid mode] the UUID
    drawn for the room. *)
Definition matchMode (now : Time) (stamp : string) (uuid : GameMode → string)
    (st : PassState) (mode : GameMode) : PassState :=
  let s := service st in
  match queues s !! mode with
  | None => st
  | Some queue =>
      let playersNeeded := getPlayersNeededForMode mode in
      if Z.of_nat (length queue) <? playersNeeded then st
      else
        let roomName := mode +:+ "-" +:+ stamp in
        let '(gs, roomID) :=
          CreateRoom (uuid mode) now roomName mode playersNeeded 1
            (gameServer s) in
        let matchedPlayers := take (Z.to_nat playersNeeded) queue in
        mkPassState
          (mkMatchService
             (<[mode := drop (Z.to_nat playersNeeded) queue]> (queues s)) gs)
          (requested st ++ [mkRoomRequest roomName mode playersNeeded 1])
          (matched st ++ [(roomID, matchedPlayers)])
  end.

(** [processMatching]: [order] is the order in which the [range] over the
    queues produces the modes. *)
Definition processMatching (now : Time) (stamp : string)
    (uuid : GameMode → string) (order : list GameMode) (s : MatchService)
  : PassState :=
  fold_left (matchMode now stamp uuid) order (mkPassState s [] []).

(** The room-creation requests a pass has issued for [mode]. *)
Definition requestsFor (mode : GameMode) (st : PassState) : list RoomRequest :=
  filter (λ rq, RequestMode rq = mode) (requested st).

(** An order the [range] can produce: every mode that has a queue, once. *)
Definition rangeOrder (order : list GameMode) (s : MatchService) : Prop :=
  NoDup order ∧ ∀ mode, mode ∈ order ↔ is_Some (queues s !! mode).

End matchmaking.

Import matchmaking.

(** ** More of Go's library *)

(** [strconv.ParseInt(s, 10, 64)] and [strconv.Atoi(s)] on a 64-bit
    platform: an optional sign, then one decimal digit or more and nothing
    else, denoting a number of the [int64] range; anything else is an
    error ([None]). *)
Module strconv.

Definition digit (c : Ascii.ascii) : option Z :=
  let n := Z.of_N (Ascii.N_of_ascii c) in
  if (48 <=? n) && (n <=? 57) then Some (n - 48) else None.

Fixpoint digits (s : string) (acc : Z) : option Z :=
  match s with
  | EmptyString => Some acc
  | String c rest =>
      match digit c with
      | Some d => digits rest (10 * acc + d)
      | None => None
      end
  end.

Definition magnitude (s : string) : option Z :=
  match s with
  | EmptyString => None
  | _ => digits s 0
  end.

Definition ParseInt (s : string) : option Z :=
  match s with
  | EmptyString => None
  | String c rest =>
      if Ascii.eqb c "+"%char then
        un ← magnitude rest; if un <? 2 ^ 63 then Some un else None
      else if Ascii.eqb c "-"%char then
        un ← magnitude rest; if un <=? 2 ^ 63 then Some (- un) else None
      else
        un ← magnitude s; if un <? 2 ^ 63 then Some un else None
  end.

Definition Atoi (s : string) : option Z := ParseInt s.

End strconv.

(** [time.Time] once more: [t.Add(d)], [t.After(u)], [t.Before(u)]. *)
Module gotime.

Definition Add (t : Time) (d : Duration) : Time := t + d.

Definition After (t u : Time) : bool := u <? t.

Definition Before (t u : Time) : bool := t <? u.

End gotime.

Import gotime.

(** ** The matchmaking endpoints ([internal/match], handler.go) *)

Module matchapi.

(** The body of a join request as [json.Decode] fills it in: a field the
    body does not carry is left at its zero value. *)
Record joinQueueRequest := mkJoinQueueRequest {
  JoinPlayerID : Z;
  JoinCharacterID : Z;
  JoinGameMode : GameMode;
  JoinSessionID : string
}.

(** What a handler writes: the status code and, for a JSON reply, its
    [success] field. *)
Record Reply := mkReply {
  StatusCode : Z;
  Success : option bool
}.

Definition StatusOK : Z := 200.
Definition StatusBadRequest : Z := 400.
Definition StatusMethodNotAllowed : Z := 405.

Definition httpError (code : Z) : Reply := mkReply code None.

(** [handleJoinQueue]; [body] is the decoded request body, [None] when
    decoding fails. *)
Definition handleJoinQueue (now : Time) (method : string)
    (body : option joinQueueRequest) (s : MatchService)
  : MatchService * Reply :=
  if negb (String.eqb method "POST") then (s, httpError StatusMethodNotAllowed)
  else
    match body with
    | None => (s, httpError StatusBadRequest)
    | Some req =>
        if (JoinPlayerID req <=? 0) || (JoinCharacterID req <=? 0)
           || String.eqb (JoinGameMode req) ""
           || String.eqb (JoinSessionID req) ""
        then (s, httpError StatusBadRequest)
        else
          (AddToQueue now (JoinPlayerID req) (JoinCharacterID req)
             (JoinGameMode req) (JoinSessionID req) s,
           mkReply StatusOK (Some true))
    end.

(** [handleLeaveQueue]; [playerIDStr] and [gameModeStr] are the query
    parameters of those names, empty when absent. *)
Definition handleLeaveQueue (method : string) (playerIDStr gameModeStr : string)
    (s : MatchService) : MatchService * Reply :=
  if negb (String.eqb method "POST") && negb (String.eqb method "DELETE")
  then (s, httpError StatusMethodNotAllowed)
  else if String.eqb playerIDStr "" || String.eqb gameModeStr ""
  then (s, httpError StatusBadRequest)
  else
    match strconv.ParseInt playerIDStr with
    | None => (s, httpError StatusBadRequest)
    | Some playerID =>
        let '(s', success) := RemoveFromQueue playerID gameModeStr s in
        (s', mkReply StatusOK (Some success))
    end.

(** [handleMatchStatus]: the queue lengths by mode. *)
Definition handleMatchStatus (method : string) (s : MatchService)
  : Reply * option (gmap string Z) :=
  if negb (String.eqb method "GET")
  then (httpError StatusMethodNotAllowed, None)
  else (mkReply StatusOK None, Some (GetAllQueueLengths s)).

(** A series of calls of [AddToQueue], one per request, each with the
    fields and the clock reading the request records. *)
Definition enqueue (s : MatchService) (q : MatchRequest) : MatchService :=
  AddToQueue (ReqTimestamp q) (ReqPlayerID q) (ReqCharacterID q)
    (ReqGameMode q) (SessionID q) s.

Definition enqueueAll (qs : list MatchRequest) (s : MatchService)
  : MatchService :=
  fold_left enqueue qs s.

(** *** The match history *)

Record matchHistoryEntry := mkMatchHistoryEntry {
  MatchID : string;
  HistoryGameMode : GameMode;
  JoinTime : string;
  MatchTime : string;
  HistoryStatus : string;
  WaitTime : Z
}.

(** The three entries [getMatchHistory] has for every player. *)
Definition allHistory : list matchHistoryEntry :=
  [ mkMatchHistoryEntry "match_001" DeathMatch "2024-01-15T10:30:00Z"
      "2024-01-15T10:32:15Z" "matched" 135;
    mkMatchHistoryEntry "match_002" TeamDeathMatch "2024-01-15T11:15:00Z"
      "2024-01-15T11:16:45Z" "matched" 105;
    mkMatchHistoryEntry "match_003" DeathMatch "2024-01-15T14:20:00Z"
      "" "cancelled" 300 ].

(** [l[start:end]]: a slice expression panics unless
    [0 <= start <= end <= len(l)]. *)
Definition slice {A} (l : list A) (start end_ : Z) : Outcome (list A) :=
  if (0 <=? start) && (start <=? end_) && (end_ <=? Z.of_nat (length l))
  then Returns (take (Z.to_nat (end_ - start)) (drop (Z.to_nat start) l))
  else Panics.

(** [getMatchHistory]: the page and the total. *)
Definition getMatchHistory (playerID : Z) (limit offset : Z)
  : Outcome (list matchHistoryEntry * Z) :=
  let total := Z.of_nat (length allHistory) in
  let start := offset in
  let end_ := int_add offset limit in
  if total <=? start then Returns ([], total)
  else
    let end_ := if total <? end_ then total else end_ in
    page ←! slice allHistory start end_;
    Returns (page, total).

Record matchHistoryData := mkMatchHistoryData {
  History : list matchHistoryEntry;
  Total : Z;
  Page : Z;
  Limit : Z
}.

(** A query parameter as [handleMatchHistory] reads it: the default
    unless the parameter is present, is a number and passes the test. *)
Definition queryInt (str : string) (accept : Z → bool) (dflt : Z) : Z :=
  if String.eqb str "" then dflt
  else
    match strconv.Atoi str with
    | Some n => if accept n then n else dflt
    | None => dflt
    end.

Definition historyPattern : string := "/match/history/".

(** [handleMatchHistory]; [path] is the request path, which the router
    hands over only if it begins with [historyPattern], and [limitStr],
    [offsetStr] are the query parameters of those names, empty when
    absent. *)
Definition handleMatchHistory (method : string) (path : string)
    (limitStr offsetStr : string)
  : Outcome (Reply * option matchHistoryData) :=
  if negb (String.eqb method "GET")
  then Returns (httpError StatusMethodNotAllowed, None)
  else
    let playerIDStr :=
      String.substring (String.length historyPattern)
        (String.length path - String.length historyPattern) path in
    match strconv.ParseInt playerIDStr with
    | None => Returns (httpError StatusBadRequest, None)
    | Some playerID =>
        let limit := queryInt limitStr (λ l, (0 <? l) && (l <=? 100)) 20 in
        let offset := queryInt offsetStr (λ o, 0 <=? o) 0 in
        res ←! getMatchHistory playerID limit offset;
        Returns
          (mkReply StatusOK (Some true),
           Some {| History := res.1;
                   Total := res.2;
                   Page := int_add (Z.quot offset limit) 1;
                   Limit := limit |})
    end.

End matchapi.

Import matchapi.

(** ** The server once more ([internal/game], server.go, websocket.go) *)

Module server.

(** [GetRoom] and [ListRooms]: the registry read. *)
Definition GetRoom (roomID : string) (s : GameServer) : option Room * bool :=
  if bool_decide (roomID ∈ rooms s)
  then (roomObjs s !! roomID, true)
  else (None, false).

Definition ListRooms (order : list string) (s : GameServer) : list Room :=
  omap (λ id, roomObjs s !! id) order.

(** Whether the cleanup pass at clock reading [now] finds the room held
    under [id] due. *)
Definition dueForCleanup (now : Time) (s : GameServer) (id : string) : bool :=
  match roomObjs s !! id with
  | Some room => ShouldCleanup now room
  | None => false
  end.

(** [parseInt64]: zero unless the string is a decimal [int64]. *)
Definition parseInt64 (s : string) : Z := default 0 (strconv.ParseInt s).

(** [handleWSConnection]; [playerID] and [token] are the query
    parameters of those names, empty when absent, [upgraded] tells
    whether the upgrade to a WebSocket succeeded, [connID] is the UUID
    drawn.  The result holds the ID of the connection registered, if
    one is. *)
Definition handleWSConnection (now : Time) (connID : string)
    (playerID token : string) (upgraded : bool) (s : GameServer)
  : GameServer * option string :=
  if String.eqb playerID "" || String.eqb token "" then (s, None)
  else if negb upgraded then (s, None)
  else
    let playerConn :=
      {| ConnPlayerID := parseInt64 playerID;
         ConnRoom := None;
         LastActive := now;
         Send := make_chan 256;
         ConnIsAlive := true |} in
    (set_connections ({[connID]} ∪ connections s)
       (set_connObjs (<[connID := playerConn]> (connObjs s)) s),
     Some connID).

(** [handleMessage]; [msg] is the message [json.Unmarshal] reads from
    the data, [None] when it fails.  Of the six message types only
    [leave_room] has a handler with a body. *)
Definition handleMessage (now : Time) (player : string) (msg : option Message)
    (s : GameServer) : Outcome GameServer :=
  match msg with
  | None => Returns s
  | Some m =>
      if String.eqb (MessageType m) "leave_room"
      then handleLeaveRoom now player s
      else Returns s
  end.

Definition set_serverRunning (x : bool) (s : GameServer) : GameServer :=
  mkGameServer (rooms s) (connections s) (roomObjs s) (connObjs s) x.

(** The body of the second loop of [Stop] for connection [c]:
    [close(conn.Send)].  ([conn.conn] is nil for every connection
    [handleWSConnection] makes.) *)
Definition closeSend (c : string)
    (conns : Outcome (gmap string PlayerConnection))
  : Outcome (gmap string PlayerConnection) :=
  cs ←! conns;
  match cs !! c with
  | None => Returns cs
  | Some pc =>
      ch ←! close_chan (Send pc);
      Returns (<[c := set_Send ch pc]> cs)
  end.

(** [Stop] of the game server.  [shutdown] is the server's shutdown
    channel, [clock id] the clock reading when room [id] is stopped and
    [httpDown] tells whether the HTTP server shut down without error; the
    last component of the result tells whether [Stop] returned an error.
    A registered room is running only while its own shutdown channel is
    open, for it is started once, by [CreateRoom], so that stopping it
    here is [Stop] of room.go without a panic. *)
Definition Stop (clock : string → Time) (httpDown : bool)
    (shutdown : Chan unit) (s : GameServer)
  : Outcome (GameServer * Chan unit * bool) :=
  if negb (serverRunning s) then Returns (s, shutdown, false)
  else
    sh ←! close_chan shutdown;
    let objs :=
      foldr (λ id m, alter (game.Stop (clock id)) id m) (roomObjs s)
        (elements (rooms s)) in
    cs ←! foldr closeSend (Returns (connObjs s)) (elements (connections s));
    let s1 := set_connObjs cs (set_roomObjs objs s) in
    if httpDown then Returns (set_serverRunning false s1, sh, false)
    else Returns (s1, sh, true).

Global Instance isFull_dec (pc : PlayerConnection) : Decision (isFull pc).
Proof. unfold isFull. apply _. Defined.

(** A connection with one more message at the end of its queue. *)
Definition queued (data : Data) (pc : PlayerConnection) : PlayerConnection :=
  set_Send (mkChan (buf (Send pc) ++ [data]) (cap (Send pc)) false) pc.

(** The [select] of [broadcastMessage] for connection [c]: the message
    is queued if there is room, and otherwise a goroutine is launched
    that will close the connection; the second component lists the
    connections such a goroutine has been launched for. *)
Definition offerMessage (data : Data)
    (st : Outcome (gmap string PlayerConnection * list string)) (c : string)
  : Outcome (gmap string PlayerConnection * list string) :=
  acc ←! st;
  match acc.1 !! c with
  | None => Returns acc
  | Some pc =>
      match try_send (Send pc) data with
      | Sent ch => Returns (<[c := set_Send ch pc]> acc.1, acc.2)
      | WouldBlock => Returns (acc.1, acc.2 ++ [c])
      | SendOnClosed => Panics
      end
  end.

(** [broadcastMessage]; [marshalled] is the result of [json.Marshal] and
    [order] the order in which the registry is ranged over. *)
Definition broadcastMessage (marshalled : option Data) (order : list string)
    (s : GameServer) : Outcome (GameServer * list string) :=
  match marshalled with
  | None => Returns (s, [])
  | Some data =>
      res ←! fold_left (offerMessage data) order (Returns (connObjs s, []));
      Returns (set_connObjs res.1 s, res.2)
  end.

(** The goroutines [broadcastMessage] has launched, run one after the
    other. *)
Definition closeAll (now : Time) (cs : list string) (s : GameServer)
  : Outcome GameServer :=
  fold_left (λ o c, s' ←! o; closeConnection now c s') cs (Returns s).

(** Every registered connection has its object, with an open queue: what
    [handleWSConnection] establishes and [closeConnection] keeps. *)
Definition registryOpen (s : GameServer) : Prop :=
  ∀ c, c ∈ connections s →
       ∃ pc, connObjs s !! c = Some pc ∧ closed (Send pc) = false.

End server.

Import server.

(** ** The life of a room ([internal/game], room.go) *)

Module lifecycle.

(** A room with its [shutdown] channel, which [NewRoom] makes, [Stop]
    closes and nothing makes anew. *)
Record RoomHandle := mkRoomHandle {
  room : Room;
  shutdown : Chan unit
}.

Definition NewRoom (roomID : string) (now : Time) (name : string)
    (mode : GameMode) (maxPlayers mapID : Z) : RoomHandle :=
  mkRoomHandle (game.NewRoom roomID now name mode maxPlayers mapID)
    (make_chan 0).

Definition Start (now : Time) (h : RoomHandle) : RoomHandle * option Error :=
  let '(r, e) := game.Start now (room h) in (mkRoomHandle r (shutdown h), e).

(** [Stop]: [close(r.shutdown)] comes first, then the three
    assignments. *)
Definition Stop (now : Time) (h : RoomHandle) : Outcome RoomHandle :=
  if negb (isRunning (room h)) then Returns h
  else
    sh ←! close_chan (shutdown h);
    Returns
      (mkRoomHandle
         (set_EndedAt now (set_Status RoomEnded (set_isRunning false (room h))))
         sh).

(** [handlePlayerReady] has no body. *)
Definition handlePlayerReady (player : string) (ready : bool) (r : Room)
  : Room := r.

(** The calls that reach a room: the methods of room.go and battle.go
    and the firing of its ticker. *)
Inductive RoomCall :=
  | CallStart (now : Time)
  | CallStop (now : Time)
  | CallAddPlayer (connID : string) (conn : PlayerConnection)
      (characterID : Z) (entityID : string) (u : float * float) (now : Time)
  | CallRemovePlayer (connID : string) (now : Time)
  | CallPlayerReady (player : string) (ready : bool)
  | CallUseSkill (uuid : nat → string) (now : Time) (playerID : string)
      (skillID : Z) (targetPos : Vector2D)
  | CallTick (i : TickInput).

Section calls.

Variable Atan2 : float → float → float.
Variables Cos Sin : float → float.

Definition call (c : RoomCall) (h : RoomHandle) : Outcome RoomHandle :=
  match c with
  | CallStart now => Returns (Start now h).1
  | CallStop now => Stop now h
  | CallAddPlayer connID conn characterID entityID u now =>
      res ←! AddPlayer connID conn characterID entityID u now (room h);
      Returns (mkRoomHandle res.1 (shutdown h))
  | CallRemovePlayer connID now =>
      Returns (mkRoomHandle (RemovePlayer connID now (room h)) (shutdown h))
  | CallPlayerReady player ready =>
      Returns (mkRoomHandle (handlePlayerReady player ready (room h))
                 (shutdown h))
  | CallUseSkill uuid now playerID skillID targetPos =>
      Returns
        (mkRoomHandle
           (UseSkill Atan2 Cos Sin uuid now playerID skillID targetPos
              (room h))
           (shutdown h))
  | CallTick i =>
      Returns
        (mkRoomHandle
           (gameLoopTick (tickNow i) (tickOrder i) (tickRnd i) (room h)).1
           (shutdown h))
  end.

Fixpoint runCalls (cs : list RoomCall) (h : RoomHandle) : Outcome RoomHandle :=
  match cs with
  | [] => Returns h
  | c :: rest => h' ←! call c h; runCalls rest h'
  end.

End calls.

(** No player state of the roster is marked ready. *)
Definition nobodyReady (r : Room) : Prop :=
  ∀ k ps, players r !! k = Some ps → Ready ps = false.

End lifecycle.

(** ** Combat once more ([internal/game], battle.go) *)

Module battle.

(** A [float64] that is neither an infinity nor a NaN. *)
Definition finiteFloat (x : float) : bool :=
  match Prim2SF x with
  | S754_zero _ | S754_finite _ _ _ => true
  | _ => false
  end.

(** The damage [UseSkill] gives the projectiles of a skill. *)
Definition skillDamage (skillID : Z) : Z :=
  if skillID =? 1 then 10 else if skillID =? 2 then 8 else 15.

(** The cooldown [UseSkill] sets for a skill. *)
Definition skillCooldown (skillID : Z) : float :=
  if skillID =? 1 then 0.5%float else if skillID =? 2 then 3%float
  else 5%float.

End battle.

Import battle.

(** ** The API gateway ([internal/gateway], gateway.go) *)

Module gateway.

(** [type ServiceType string]. *)
Abbreviation ServiceType := string.

Definition ServiceGame : ServiceType := "game".
Definition ServiceMatch : ServiceType := "match".
Definition ServiceAuth : ServiceType := "auth".

(** What [url.Parse] yields, as far as the gateway reads it. *)
Record ParsedURL := mkParsedURL {
  Scheme : string;
  Host : string;
  Path : string
}.

Record ServiceInstance := mkServiceInstance {
  ID : string;
  Type_ : ServiceType;
  URL : ParsedURL;
  Health : bool;
  LastCheck : Time
}.

Global Instance ParsedURL_eq_dec : EqDecision ParsedURL.
Proof. solve_decision. Defined.

Global Instance ServiceInstance_eq_dec : EqDecision ServiceInstance.
Proof. solve_decision. Defined.

(** [Gateway]: the instances by service type, each list in the order of
    registration. *)
Record Gateway := mkGateway {
  services : gmap string (list ServiceInstance);
  isRunning : bool;
  shutdown : Chan unit
}.

Definition set_services (x : gmap string (list ServiceInstance)) (g : Gateway)
  : Gateway :=
  mkGateway x (isRunning g) (shutdown g).

Definition set_isRunning (x : bool) (g : Gateway) : Gateway :=
  mkGateway (services g) x (shutdown g).

Definition NewGateway : Gateway :=
  {| services := ∅; isRunning := false; shutdown := make_chan 0 |}.

(** [RegisterService]; [parsed] is the result of [url.Parse] on the URL
    given, [None] when it fails, [unixNano] the clock reading that names
    the instance and [now] the one recorded as its last check.  The
    second component tells whether an error is returned. *)
Definition RegisterService (unixNano : Z) (now : Time)
    (serviceType : ServiceType) (parsed : option ParsedURL) (g : Gateway)
  : Gateway * bool :=
  match parsed with
  | None => (g, true)
  | Some parsedURL =>
      let instance :=
        {| ID := serviceType +:+ "-" +:+ pretty unixNano;
           Type_ := serviceType;
           URL := parsedURL;
           Health := true;
           LastCheck := now |} in
      (set_services
         (<[serviceType :=
              default [] (services g !! serviceType) ++ [instance]]>
            (services g)) g,
       false)
  end.

(** [UnregisterService]: the first instance of the type with the ID is
    taken out. *)
Definition UnregisterService (serviceType : ServiceType) (serviceID : string)
    (g : Gateway) : Gateway * bool :=
  match services g !! serviceType with
  | None => (g, false)
  | Some instances =>
      match list_find (λ instance, ID instance = serviceID) instances with
      | Some (i, _) =>
          (set_services
             (<[serviceType := take i instances ++ drop (S i) instances]>
                (services g)) g,
           true)
      | None => (g, false)
      end
  end.

(** [getServiceInstance]; [unixNano] is the clock reading the instance is
    chosen by.  Go's [%] takes the sign of the dividend, and an index
    below 0 panics. *)
Definition getServiceInstance (unixNano : Z) (serviceType : ServiceType)
    (g : Gateway) : Outcome (option ServiceInstance) :=
  match services g !! serviceType with
  | None => Returns None
  | Some instances =>
      if (length instances =? 0)%nat then Returns None
      else
        let healthyInstances :=
          filter (λ instance, Health instance = true) instances in
        if (length healthyInstances =? 0)%nat then Returns None
        else
          let index := Z.rem unixNano (Z.of_nat (length healthyInstances)) in
          if index <? 0 then Panics
          else
            match healthyInstances !! Z.to_nat index with
            | Some instance => Returns (Some instance)
            | None => Panics
            end
  end.

(** [validateAuth]; [authorization] is the header of that name and
    [tokenParam] the query parameter [token], empty when absent. *)
Definition validateAuth (authorization tokenParam : string) : bool :=
  let token := authorization in
  if String.eqb token "" then
    let token := tokenParam in
    if String.eqb token "" then false else negb (String.eqb token "")
  else negb (String.eqb token "").

(** What [forwardRequest] does with a request. *)
Inductive Forwarding :=
  | Unauthorized
  | Unavailable
  | ForwardedTo (instance : ServiceInstance).

Definition forwardRequest (unixNano : Z) (authorization tokenParam : string)
    (serviceType : ServiceType) (g : Gateway) : Outcome Forwarding :=
  if negb (validateAuth authorization tokenParam)
     && negb (String.eqb serviceType ServiceAuth)
  then Returns Unauthorized
  else
    instance ←! getServiceInstance unixNano serviceType g;
    match instance with
    | None => Returns Unavailable
    | Some i => Returns (ForwardedTo i)
    end.

Definition handleGameRequest (unixNano : Z) (authorization tokenParam : string)
    (g : Gateway) : Outcome Forwarding :=
  forwardRequest unixNano authorization tokenParam ServiceGame g.

Definition handleMatchRequest (unixNano : Z) (authorization tokenParam : string)
    (g : Gateway) : Outcome Forwarding :=
  forwardRequest unixNano authorization tokenParam ServiceMatch g.

(** The result of one health probe: whether the instance answered 200
    in time, and the clock reading after the probe. *)
Record Probe := mkProbe {
  answered : bool;
  checkedAt : Time
}.

(** [checkServicesHealth]; [probe serviceType i] is the probe of the
    [i]-th instance of the type. *)
Definition checkInstance (p : Probe) (instance : ServiceInstance)
  : ServiceInstance :=
  {| ID := ID instance;
     Type_ := Type_ instance;
     URL := URL instance;
     Health := answered p;
     LastCheck := checkedAt p |}.

Definition checkServicesHealth (probe : ServiceType → nat → Probe)
    (g : Gateway) : Gateway :=
  set_services
    (map_imap
       (λ serviceType instances,
          Some (imap (λ i, checkInstance (probe serviceType i)) instances))
       (services g)) g.

(** [registerInternalServices]: the game, the match and the
    authentication service on their configured ports; [clock] gives the
    two clock readings of each registration.  [url.Parse] accepts
    [http://localhost:<port>] when the port is written with digits only,
    and refuses a sign; a failed registration is logged and skipped. *)
Definition localhost (port : Z) : ParsedURL :=
  {| Scheme := "http"; Host := "localhost:" +:+ pretty port; Path := "" |}.

Definition parseLocalhost (port : Z) : option ParsedURL :=
  if 0 <=? port then Some (localhost port) else None.

Definition registerInternalServices (clock : ServiceType → Z * Time)
    (gamePort matchPort gatewayPort : Z) (g : Gateway) : Gateway :=
  let register serviceType port g :=
    (RegisterService (clock serviceType).1 (clock serviceType).2 serviceType
       (parseLocalhost port) g).1 in
  register ServiceAuth gatewayPort
    (register ServiceMatch matchPort (register ServiceGame gamePort g)).

(** [Start] and [Stop] of the gateway; the second component of [Start]
    tells whether an error is returned.  The HTTP server and the
    health-check loop that [Start] launches are not part of the state:
    the loop's rounds are calls of [checkServicesHealth]. *)
Definition Start (clock : ServiceType → Z * Time)
    (gamePort matchPort gatewayPort : Z) (g : Gateway) : Gateway * bool :=
  if isRunning g then (g, true)
  else
    (set_isRunning true
       (registerInternalServices clock gamePort matchPort gatewayPort g),
     false).

Definition Stop (g : Gateway) : Outcome Gateway :=
  if negb (isRunning g) then Returns g
  else
    sh ←! close_chan (shutdown g);
    Returns (mkGateway (services g) false sh).

End gateway.

(** ** The request rate limiter ([internal/gateway], middleware) *)

Module ratelimit.

Record ClientInfo := mkClientInfo {
  Requests : list Time;
  LastSeen : Time
}.

Record RateLimiter := mkRateLimiter {
  clients : gmap string ClientInfo;
  RequestsPerMinute : Z;
  BurstSize : Z;
  CleanupInterval : Z
}.

Definition set_clients (x : gmap string ClientInfo) (rl : RateLimiter)
  : RateLimiter :=
  mkRateLimiter x (RequestsPerMinute rl) (BurstSize rl) (CleanupInterval rl).

Definition NewRateLimiter (requestsPerMinute burstSize : Z) : RateLimiter :=
  {| clients := ∅;
     RequestsPerMinute := requestsPerMinute;
     BurstSize := burstSize;
     CleanupInterval := 5 * Minute |}.

(** [allowRequest]; [now] is its clock reading. *)
Definition allowRequest (now : Time) (clientIP : string) (rl : RateLimiter)
  : RateLimiter * bool :=
  let client :=
    match clients rl !! clientIP with
    | Some client => client
    | None => {| Requests := []; LastSeen := now |}
    end in
  let cutoff := gotime.Add now (- Minute) in
  let validRequests :=
    filter (λ reqTime, gotime.After reqTime cutoff = true) (Requests client) in
  if RequestsPerMinute rl <=? Z.of_nat (length validRequests)
  then
    (set_clients
       (<[clientIP := {| Requests := validRequests; LastSeen := now |}]>
          (clients rl)) rl,
     false)
  else
    (set_clients
       (<[clientIP := {| Requests := validRequests ++ [now]; LastSeen := now |}]>
          (clients rl)) rl,
     true).

(** The request, as far as the limiter reads it: two headers, empty when
    absent, the remote address, and what [net.SplitHostPort] makes of
    the address, [None] when it fails. *)
Record Request := mkRequest {
  XForwardedFor : string;
  XRealIP : string;
  RemoteAddr : string;
  remoteHost : option string
}.

Definition getClientIP (r : Request) : string :=
  if negb (String.eqb (XForwardedFor r) "") then XForwardedFor r
  else if negb (String.eqb (XRealIP r) "") then XRealIP r
  else
    match remoteHost r with
    | None => RemoteAddr r
    | Some ip => ip
    end.

Definition StatusTooManyRequests : Z := 429.

(** [Middleware]: the request is answered 429 or handed on; the second
    component tells whether the next handler is called. *)
Definition Middleware (now : Time) (r : Request) (rl : RateLimiter)
  : RateLimiter * bool :=
  allowRequest now (getClientIP r) rl.

(** One firing of the ticker in [cleanup]; [now] is its clock reading. *)
Definition cleanupTick (now : Time) (rl : RateLimiter) : RateLimiter :=
  let cutoff := gotime.Add now (- (10 * Minute)) in
  set_clients
    (filter (λ kv, ¬ gotime.Before (LastSeen kv.2) cutoff = true) (clients rl))
    rl.

(** What happens to a limiter: requests and firings of the clean-up
    ticker, each with its clock reading. *)
Inductive Event :=
  | Serve (now : Time) (r : Request)
  | Tick (now : Time).

Definition at_ (e : Event) : Time :=
  match e with
  | Serve now _ => now
  | Tick now => now
  end.

(** The log of a run: for each request served, its clock reading, the
    client it is counted for, and whether it was handed on. *)
Record Served := mkServed {
  servedAt : Time;
  client : string;
  passed : bool
}.

Definition step (st : RateLimiter * list Served) (e : Event)
  : RateLimiter * list Served :=
  match e with
  | Serve now r =>
      let '(rl, ok) := Middleware now r st.1 in
      (rl, st.2 ++ [mkServed now (getClientIP r) ok])
  | Tick now => (cleanupTick now st.1, st.2)
  end.

Definition run (es : list Event) (rl : RateLimiter)
  : RateLimiter * list Served :=
  fold_left step es (rl, []).

(** The requests of a client that were handed on after [cutoff]. *)
Definition passedSince (cutoff : Time) (ip : string) (log : list Served)
  : list Served :=
  filter (λ s, client s = ip ∧ passed s = true ∧ cutoff < servedAt s) log.

(** The limiter's records agree with the log of a run that has reached
    the clock reading [T]: a client's record holds the readings of its
    requests handed on in the minute before it was last seen, and no
    request is later than its client was last seen, or than a minute
    before [T] for a client without a record. *)
Definition consistent (T : Time) (rl : RateLimiter) (log : list Served)
  : Prop :=
  (∀ s, s ∈ log →
     match clients rl !! client s with
     | Some ci => servedAt s <= LastSeen ci
     | None => servedAt s <= T - Minute
     end)
  ∧ (∀ ip ci, clients rl !! ip = Some ci →
       Requests ci = servedAt <$> passedSince (LastSeen ci - Minute) ip log
       ∧ LastSeen ci <= T).

End ratelimit.

(** ** The response cache ([internal/gateway/cache.go]) *)

Module cache.

(** [CacheEntry]; the bytes of [Data] are the characters of a string. *)
Record CacheEntry := mkCacheEntry {
  Data : string;
  Headers : gmap string string;
  ExpiresAt : Time;
  ETag : string
}.

Record MemoryCache := mkMemoryCache {
  entries : gmap string CacheEntry;
  DefaultTTL : Duration;
  MaxEntries : Z;
  CleanupInterval : Duration
}.

Definition set_entries (x : gmap string CacheEntry) (mc : MemoryCache)
  : MemoryCache :=
  mkMemoryCache x (DefaultTTL mc) (MaxEntries mc) (CleanupInterval mc).

Definition NewMemoryCache : MemoryCache :=
  {| entries := ∅;
     DefaultTTL := 5 * Minute;
     MaxEntries := 1000;
     CleanupInterval := 1 * Minute |}.

(** [len(mc.entries)]. *)
Definition len (mc : MemoryCache) : Z := Z.of_nat (size (entries mc)).

(** [Get]; [now] is its clock reading.  The second component tells
    whether the removal of the key is handed to a goroutine, which runs
    [removeLater] at some later point. *)
Definition Get (now : Time) (key : string) (mc : MemoryCache)
  : option CacheEntry * bool :=
  match entries mc !! key with
  | None => (None, false)
  | Some entry =>
      if gotime.After now (ExpiresAt entry) then (None, true)
      else (Some entry, false)
  end.

Definition removeLater (key : string) (mc : MemoryCache) : MemoryCache :=
  set_entries (delete key (entries mc)) mc.

(** [evictExpired]; [now] is its clock reading. *)
Definition evictExpired (now : Time) (mc : MemoryCache) : MemoryCache :=
  set_entries
    (filter (λ kv, ¬ gotime.After now (ExpiresAt kv.2) = true) (entries mc))
    mc.

(** The zero [time.Time], January 1 of year 1, in nanoseconds from the
    epoch of the clock readings. *)
Definition zeroTime : Time := -62135596800 * Second.

(** [evictOldest]; [order] is the order in which the loop visits the
    keys of the mapping. *)
Definition oldest (mc : MemoryCache) (acc : string * Time) (key : string)
  : string * Time :=
  match entries mc !! key with
  | None => acc
  | Some entry =>
      if String.eqb acc.1 "" || gotime.Before (ExpiresAt entry) acc.2
      then (key, ExpiresAt entry)
      else acc
  end.

Definition evictOldest (order : list string) (mc : MemoryCache)
  : MemoryCache :=
  let '(oldestKey, _) := fold_left (oldest mc) order ("", zeroTime) in
  if negb (String.eqb oldestKey "")
  then set_entries (delete oldestKey (entries mc)) mc
  else mc.

(** [Set]; [now] is the clock reading of [evictExpired] and [order] the
    order in which [evictOldest] visits the keys. *)
Definition Set_ (now : Time) (order : list string) (key : string)
    (entry : CacheEntry) (mc : MemoryCache) : MemoryCache :=
  let mc1 :=
    if MaxEntries mc <=? len mc then
      let mc' := evictExpired now mc in
      if MaxEntries mc' <=? len mc' then evictOldest order mc' else mc'
    else mc in
  set_entries (<[key := entry]> (entries mc1)) mc1.

(** [CacheMiddleware]. *)
Record CacheMiddleware := mkCacheMiddleware {
  cache_ : MemoryCache;
  CacheablePaths : list string;
  CacheTTL : gmap string Duration
}.

Definition set_cache (x : MemoryCache) (cm : CacheMiddleware)
  : CacheMiddleware :=
  mkCacheMiddleware x (CacheablePaths cm) (CacheTTL cm).

Definition NewCacheMiddleware : CacheMiddleware :=
  {| cache_ := NewMemoryCache;
     CacheablePaths :=
       ["/characters"; "/stats/leaderboard"; "/players/characters/";
        "/players/default-character/"];
     CacheTTL :=
       <["/characters" := 10 * Minute]>
         (<["/stats/leaderboard" := 2 * Minute]>
            (<["/players/" := 1 * Minute]> ∅)) |}.

(** [strings.HasPrefix(path, pattern)]. *)
Definition HasPrefix (path pattern : string) : bool :=
  String.prefix pattern path.

Definition shouldCache (path : string) (cm : CacheMiddleware) : bool :=
  existsb (HasPrefix path) (CacheablePaths cm).

(** [getTTL]; [order] is the order in which the loop visits the
    patterns of [CacheTTL]. *)
Fixpoint getTTL (order : list string) (path : string) (cm : CacheMiddleware)
  : Duration :=
  match order with
  | [] => DefaultTTL (cache_ cm)
  | pattern :: order =>
      match CacheTTL cm !! pattern with
      | Some ttl => if HasPrefix path pattern then ttl else getTTL order path cm
      | None => getTTL order path cm
      end
  end.

(** The request, as far as the cache reads it; [IfNoneMatch] is empty
    when the header is absent. *)
Record Request := mkRequest {
  Method : string;
  Path : string;
  RawQuery : string;
  IfNoneMatch : string
}.

Definition generateCacheKey (r : Request) : string :=
  if negb (String.eqb (RawQuery r) "") then Path r +:+ "?" +:+ RawQuery r
  else Path r.

(** What [cacheResponseRecorder] holds when the next handler has run. *)
Record Recorded := mkRecorded {
  statusCode : Z;
  headers : gmap string string;
  body : string
}.

(** What the middleware does with a request: it hands it on without
    recording, answers 304, answers from the cache, or hands it on and
    records the response, which it then stores or not. *)
Inductive Answer :=
  | Passed
  | NotModified
  | Cached (entry : CacheEntry)
  | Handled (stored : bool).

Section middleware.

(** [generateETag]: the MD5 sum of the body in hexadecimal, in quotes;
    [md5hex] is that sum. *)
Variable md5hex : string → string.

Definition quote : string := String (Ascii.ascii_of_nat 34) EmptyString.

Definition generateETag (data : string) : string :=
  quote +:+ md5hex data +:+ quote.

(** [Middleware]; [now] is the clock reading of [Get], [stamp] the one
    the entry's expiry is counted from, [evictAt] the one of [Set],
    [ttlOrder] and [order] the orders in which [getTTL] and
    [evictOldest] visit their mapping, and [recorded] what the recorder
    holds after the next handler has run, if it is called.  The second
    component of the cache's part tells whether [Get] handed the removal
    of the key to a goroutine. *)
Definition Middleware (now stamp evictAt : Time) (ttlOrder order : list string)
    (r : Request) (recorded : Recorded) (cm : CacheMiddleware)
  : CacheMiddleware * bool * Answer :=
  if negb (String.eqb (Method r) "GET") then (cm, false, Passed)
  else if negb (shouldCache (Path r) cm) then (cm, false, Passed)
  else
    let cacheKey := generateCacheKey r in
    match Get now cacheKey (cache_ cm) with
    | (Some entry, later) =>
        if negb (String.eqb (IfNoneMatch r) "")
           && String.eqb (IfNoneMatch r) (ETag entry)
        then (cm, later, NotModified)
        else (cm, later, Cached entry)
    | (None, later) =>
        if (statusCode recorded =? 200)
           && (0 <? Z.of_nat (String.length (body recorded)))
        then
          let ttl := getTTL ttlOrder (Path r) cm in
          let etag := generateETag (body recorded) in
          let entry :=
            {| Data := body recorded;
               Headers := headers recorded;
               ExpiresAt := gotime.Add stamp ttl;
               ETag := etag |} in
          (set_cache (Set_ evictAt order cacheKey entry (cache_ cm)) cm,
           later, Handled true)
        else (cm, later, Handled false)
    end.

End middleware.

End cache.

(** ** Scenarios

    Concrete rooms, connections and queues on which the properties below
    are evaluated. *)

Module scenarios.

(** A room whose game ended at second 10 and which its players left at
    second 60. *)
Definition endedRoom : Room :=
  set_lastActivity (60 * Second)
    (endGame (10 * Second)
       (startGame 0 (NewRoom "room-1" 0 "death_match-120000" DeathMatch 4 1))).

(** Four requests for death match, in the order they were queued. *)
Definition fourRequests : list MatchRequest :=
  [mkMatchRequest 1 1 DeathMatch 10 "s1"; mkMatchRequest 2 1 DeathMatch 20 "s2";
   mkMatchRequest 3 2 DeathMatch 30 "s3"; mkMatchRequest 4 1 DeathMatch 40 "s4"].

Definition emptyServer : GameServer := mkGameServer ∅ ∅ ∅ ∅ true.

Definition fourQueued : MatchService :=
  mkMatchService {[DeathMatch := fourRequests]} emptyServer.

(** A connection with an empty queue of the capacity [handleWSConnection]
    gives it, and one whose queue is full. *)
Definition freshConn (playerID : Z) (room : option string) : PlayerConnection :=
  mkPlayerConnection playerID room 0 (make_chan 256) true.

Definition fullConn (playerID : Z) (room : option string) : PlayerConnection :=
  mkPlayerConnection playerID room 0
    (mkChan (replicate 256 (MessageData (mkMessage "ping" ""))) 256 false) true.

Definition origin : float * float := (0%float, 0%float).

(** The room of [AddPlayer] when it returns without error. *)
Definition joined (o : Outcome (Room * option Error)) (r : Room) : Room :=
  match o with
  | Returns (r', None) => r'
  | _ => r
  end.

(** Waiting rooms of the four modes, as the matching pass creates them. *)
Definition deathMatchRoom : Room := NewRoom "room-1" 0 "dm" DeathMatch 4 1.
Definition teamRoom : Room := NewRoom "room-2" 0 "tdm" TeamDeathMatch 6 1.
Definition flagRoom : Room := NewRoom "room-3" 0 "flag" FlagCapture 6 1.
Definition captureRoom : Room := NewRoom "room-4" 0 "cp" CapturePoint 8 1.

(** The death match room after connection c1 has joined it. *)
Definition roomWithC1 : Room :=
  joined (AddPlayer "c1" (freshConn 1 None) 1 "e1" origin 5 deathMatchRoom)
    deathMatchRoom.

(** A player entity as [AddPlayer] builds it, on team [t] at position
    [(x, y)]. *)
Definition playerAt (playerID : Z) (t : Team) (x y : float) : PlayerEntity :=
  {| PlayerBase := mkBaseEntity (mkVector2D x y) 0%float
                     (mkVector2D 0%float 0%float) 0;
     PlayerID := playerID; CharacterID := 1; team := t;
     Health := 100; MaxHealth := 100; IsAlive := true; RespawnTime := 0;
     SkillCooldowns := ∅; Kills := 0; Deaths := 0; Assists := 0 |}.

(** The same player just after a lethal hit. *)
Definition killed (e : PlayerEntity) : PlayerEntity :=
  set_RespawnTime 5 (set_IsAlive false (set_Health 0 e)).

(** A projectile at rest at [(x, y)], as the basic shot (skill 1) makes
    it: damage 10, two seconds to live. *)
Definition shotAt (owner : string) (x y : float) : ProjectileEntity :=
  {| ProjectileBase := mkBaseEntity (mkVector2D x y) 0%float
                         (mkVector2D 0%float 0%float) 0;
     OwnerID := owner; SkillID := 1; Damage := 10; LifeTime := 2%float;
     HitEntities := [] |}.

(** The roster in which connection [c] holds entity [e], for every pair
    [(c, e)] of the list. *)
Definition rosterOf (l : list (string * string)) : gmap string PlayerState :=
  list_to_map ((λ ce, (ce.1, mkPlayerState (Some ce.1) ce.2 true 0)) <$> l).

(** A playing room with the given roster and entities. *)
Definition arena (mode : GameMode) (friendlyFire : bool)
    (roster : gmap string PlayerState) (ents : gmap string Entity) : Room :=
  {| ID := "arena"; Name := "arena"; Mode := mode; Status := RoomPlaying;
     MaxPlayers := 8; RoomCreatedAt := 0; StartedAt := 0; EndedAt := zeroTime;
     MapID := 1; TimeLimit := 300; ScoreLimit := 20;
     FriendlyFire := friendlyFire; PrivateRoom := false; Password := "";
     players := roster; entities := ents; frameID := 0; lastFrameTime := 0;
     scores := ∅; isRunning := true; lastActivity := 0 |}.

(** A playing room whose one player has just been killed. *)
Definition killedRoom : Room :=
  arena DeathMatch false (rosterOf [("c1", "p1")])
    {[ "p1" := EPlayer (killed (playerAt 1 TeamNone 0 0)) ]}.

(** A playing death match room: player p1 and, five units from it, a
    projectile at rest whose owner has left the room. *)
Definition duelRoom : Room :=
  arena DeathMatch false (rosterOf [("c1", "p1")])
    {[ "p1" := EPlayer (playerAt 1 TeamNone 0 0);
       "s1" := EProjectile (shotAt "p2" 5 0) ]}.

(** A playing team death match room: two players of the red team, 200
    units apart, and a projectile of p1 at rest five units from p2. *)
Definition squadRoom (friendlyFire : bool) : Room :=
  arena TeamDeathMatch friendlyFire (rosterOf [("c1", "p1"); ("c2", "p2")])
    {[ "p1" := EPlayer (playerAt 1 TeamRed 200 0);
       "p2" := EPlayer (playerAt 2 TeamRed 0 0);
       "s1" := EProjectile (shotAt "p1" 5 0) ]}.

(** A crowd: [n] players standing on one spot and, five units from them,
    one basic shot at rest whose owner has left the room. *)
Definition bystander (i : nat) : string := "p" +:+ pretty i.

Fixpoint crowdEntities (n : nat) : gmap string Entity :=
  match n with
  | O => {[ "s1" := EProjectile (shotAt "q1" 5 0) ]}
  | S m =>
      <[bystander m := EPlayer (playerAt (Z.of_nat m) TeamNone 0 0)]>
        (crowdEntities m)
  end.

Fixpoint crowdRoster (n : nat) : gmap string PlayerState :=
  match n with
  | O => ∅
  | S m =>
      <["c" +:+ pretty m :=
          mkPlayerState (Some ("c" +:+ pretty m)) (bystander m) true 0]>
        (crowdRoster m)
  end.

Definition crowd (n : nat) : Room :=
  arena DeathMatch false (crowdRoster n) (crowdEntities n).

(** A playing death match room in which p2, down to 10 health points,
    stands five units from a basic shot of p1, who is 200 units away. *)
Definition lastHitRoom : Room :=
  arena DeathMatch false (rosterOf [("c1", "p1"); ("c2", "p2")])
    {[ "p1" := EPlayer (playerAt 1 TeamNone 200 0);
       "p2" := EPlayer (set_Health 10 (playerAt 2 TeamNone 0 0));
       "s1" := EProjectile (shotAt "p1" 5 0) ]}.

(** A collision of projectile s1 with the entity of c1, as room-1 would
    broadcast it. *)
Definition someCollision : CollisionInfo :=
  mkCollisionInfo "s1" "e1" (mkVector2D 2.5%float 0%float)
    (mkVector2D 1%float 0%float) 0.

Definition crowdOrder (n : nat) : list string :=
  "s1" :: (bystander <$> seq 0 n).

(** The ticker of [gameLoop] fires every 16 milliseconds. *)
Definition tickPeriod : Duration := 16 * Millisecond.

(** The inputs of [n] ticks at the ticker's period, the first one a
    period after [t]. *)
Fixpoint ticksFrom (t : Time) (order : list string) (n : nat)
  : list TickInput :=
  match n with
  | O => []
  | S m => mkTickInput (t + tickPeriod) order (λ _, origin)
           :: ticksFrom (t + tickPeriod) order m
  end.

(** A room that holds the killed player of [killedRoom] and nothing else,
    whose game has begun, and whose last frame was at [t] if it is still
    playing. *)
Definition stalled (t : Time) (r : Room) : Prop :=
  entities r = entities killedRoom
  ∧ Status r ≠ RoomWaiting
  ∧ (Status r = RoomPlaying → lastFrameTime r = t).

(** A server with room-1 and its one member c1, whose queue is full. *)
Definition crowdedServer : GameServer :=
  {| rooms := {["room-1"]};
     connections := {["c1"]};
     roomObjs := {["room-1" := roomWithC1]};
     connObjs := {["c1" := fullConn 1 (Some "room-1")]};
     serverRunning := true |}.

End scenarios.

Import scenarios.

(** ** Further scenarios *)

Module scenarios2.

(** A match service with no queue and an empty game server. *)
Definition idleService : MatchService := mkMatchService ∅ emptyServer.

End scenarios2.

Import scenarios2.

Module scenarios3.

(** A death match room is started, two connections join and say they
    are ready, one of them fires, and the ticker fires twice. *)
Definition lobbyCalls : list lifecycle.RoomCall :=
  [ lifecycle.CallStart 1;
    lifecycle.CallAddPlayer "c1" (freshConn 1 None) 1 "e1" origin 5;
    lifecycle.CallAddPlayer "c2" (freshConn 2 None) 1 "e2" origin 6;
    lifecycle.CallPlayerReady "c1" true;
    lifecycle.CallPlayerReady "c2" true;
    lifecycle.CallUseSkill (λ i, "shot-" +:+ pretty i) 7 "e1" 1
      (mkVector2D 10 0);
    lifecycle.CallTick (mkTickInput 16000006 ["e1"; "e2"] (λ _, origin));
    lifecycle.CallTick (mkTickInput 32000006 ["e1"; "e2"] (λ _, origin)) ].

Definition lobby : lifecycle.RoomHandle :=
  lifecycle.NewRoom "room-1" 0 "dm" DeathMatch 4 1.

(** A server with room-1 and its one member c1, as [handleWSConnection]
    and [AddPlayer] leave them: the connection has no room pointer. *)
Definition lobbyServer : GameServer :=
  {| rooms := {["room-1"]};
     connections := {["c1"]};
     roomObjs := {["room-1" := roomWithC1]};
     connObjs := {["c1" := freshConn 1 None]};
     serverRunning := true |}.

(** The same server when the queue of c1 is full. *)
Definition fullLobby : GameServer :=
  {| rooms := {["room-1"]};
     connections := {["c1"]};
     roomObjs := {["room-1" := roomWithC1]};
     connObjs := {["c1" := fullConn 1 None]};
     serverRunning := true |}.

(** A server with two connections and no room: the queue of c1 is full,
    that of c2 is empty. *)
Definition twoConnections : GameServer :=
  {| rooms := ∅;
     connections := {["c1"]} ∪ {["c2"]};
     roomObjs := ∅;
     connObjs := <["c1" := fullConn 1 None]> {["c2" := freshConn 2 None]};
     serverRunning := true |}.

Definition ping : Data := MessageData (mkMessage "ping" "").

(** A playing death match room with one player, of no team, at
    [(100, 100)], and no projectile. *)
Definition soloRoom : Room :=
  arena DeathMatch false (rosterOf [("c1", "p1")])
    {[ "p1" := EPlayer (playerAt 1 TeamNone 100 100) ]}.

(** The UUIDs drawn for projectiles: shot-0, shot-1, ... *)
Definition shotID (i : nat) : string := "shot-" +:+ pretty i.

End scenarios3.

Import scenarios3.


(** ** A gateway with two game services *)

Module scenarios4.

Definition gameAt (id : string) (port : Z) (healthy : bool)
  : gateway.ServiceInstance :=
  gateway.mkServiceInstance id gateway.ServiceGame (gateway.localhost port)
    healthy 0.

(** Two instances of the game service, the first one marked unhealthy. *)
Definition twoGames : gateway.Gateway :=
  gateway.set_services
    {[ gateway.ServiceGame :=
         [gameAt "game-1" 8081 false; gameAt "game-2" 8082 true] ]}
    gateway.NewGateway.

End scenarios4.

Import scenarios4.

(** ** Callers of the gateway *)

Module scenarios5.

(** A request without forwarding headers. *)
Definition caller : ratelimit.Request :=
  ratelimit.mkRequest "" "" "10.0.0.1:5000" (Some "10.0.0.1").

(** A request from the same address that names another client in its
    [X-Forwarded-For] header. *)
Definition forwardedFor (ip : string) : ratelimit.Request :=
  ratelimit.mkRequest ip "" "10.0.0.1:5000" (Some "10.0.0.1").

End scenarios5.

Import scenarios5.

(** ** A cache of two pages *)

Module scenarios6.

Definition page (data : string) (expiresAt : Z) : cache.CacheEntry :=
  cache.mkCacheEntry data ∅ expiresAt "etag".

(** A cache for two entries that holds two, neither expired before 10. *)
Definition smallCache : cache.MemoryCache :=
  cache.mkMemoryCache
    (<["/characters" := page "all" 10]>
       (<["/stats/leaderboard" := page "top" 20]> ∅))
    (5 * Minute) 2 (1 * Minute).

(** A request for the list of characters. *)
Definition listCharacters : cache.Request :=
  cache.mkRequest "GET" "/characters" "" "".

End scenarios6.

Import scenarios6.
(** * Properties *)

(** ** Idle cleanup of rooms *)

Section Cleanup.

(** The clock readings of a room's lifetime are far from the ends of the
    range of a Duration, so that [Since] is the plain difference. *)
Lemma Since_plain (now t : Time) :
  minDuration <= now - t <= maxDuration → Since now t = now - t.
Proof. unfold Since, Sub. lia. Qed.

Lemma IsEmpty_true (r : Room) : IsEmpty r = true ↔ players r = ∅.
Proof.
  unfold IsEmpty, GetPlayerCount. rewrite Z.eqb_eq.
  split.
  - intros H. apply map_size_empty_iff. lia.
  - intros ->. by rewrite map_size_empty.
Qed.

(** What [ShouldCleanup] computes: the grace period of an ended room is
    consulted only when the room still has players. *)
Lemma ShouldCleanup_cases (now : Time) (r : Room) :
  ShouldCleanup now r = true ↔
    (players r = ∅ ∧ 5 * Minute < Since now (lastActivity r))
    ∨ (players r ≠ ∅ ∧ Status r = RoomEnded
       ∧ 2 * Minute < Since now (EndedAt r)).
Proof.
  unfold ShouldCleanup.
  destruct (IsEmpty r) eqn:He.
  - apply IsEmpty_true in He. rewrite Z.ltb_lt. tauto.
  - assert (players r ≠ ∅) as Hne.
    { intros Hp. apply IsEmpty_true in Hp. congruence. }
    case_bool_decide as Hs.
    + rewrite Z.ltb_lt. tauto.
    + split; [done | tauto].
Qed.

(** An empty room is not eligible before the idle threshold: this part of
    the rule holds whatever the status. *)
Lemma ShouldCleanup_empty_not_before (now : Time) (r : Room) :
  players r = ∅ → Since now (lastActivity r) <= 5 * Minute →
  ShouldCleanup now r = false.
Proof.
  intros Hp Hle. apply not_true_is_false. rewrite ShouldCleanup_cases.
  intros [[_ ?]|[? _]]; [lia | done].
Qed.

(** C9, as amended.  [ShouldCleanup] answers true exactly when the room
    has no player and more than five minutes have passed since its last
    activity, or the room still has a player, its status is Ended and
    more than two minutes have passed since it ended.  The grace period
    of an ended room counts only while the room has players: a room
    without players, ended or not, is eligible once the five minutes of
    idleness have passed and never before, whatever its status and
    however long ago its game ended. *)
Theorem ShouldCleanup_eligibility (now : Time) (r : Room) :
  (ShouldCleanup now r = true ↔
     (players r = ∅ ∧ 5 * Minute < Since now (lastActivity r))
     ∨ (players r ≠ ∅ ∧ Status r = RoomEnded
        ∧ 2 * Minute < Since now (EndedAt r)))
  ∧ (players r = ∅ →
     (ShouldCleanup now r = true ↔ 5 * Minute < Since now (lastActivity r)))
  ∧ (players r = ∅ → Since now (lastActivity r) <= 5 * Minute →
     ShouldCleanup now r = false)
  ∧ (players r ≠ ∅ →
     (ShouldCleanup now r = true
      ↔ Status r = RoomEnded ∧ 2 * Minute < Since now (EndedAt r)))
  ∧ (minDuration <= now - lastActivity r <= maxDuration →
     Since now (lastActivity r) = now - lastActivity r)
  ∧ (minDuration <= now - EndedAt r <= maxDuration →
     Since now (EndedAt r) = now - EndedAt r).
Proof.
  split; [apply ShouldCleanup_cases|].
  split; [intros Hp; rewrite ShouldCleanup_cases; tauto|].
  split; [apply ShouldCleanup_empty_not_before|].
  split; [intros Hp; rewrite ShouldCleanup_cases; tauto|].
  split; apply Since_plain.
Qed.

(** C9, the counterexample: three minutes after the start, [endedRoom]
    has no player, its status is Ended and its game ended more than two
    minutes ago, yet [ShouldCleanup] answers false, because its players
    left only two minutes ago: a room without players waits for the five
    minutes of idleness, also when it has ended. *)
Lemma ShouldCleanup_ended_empty_room :
  players endedRoom = ∅
  ∧ Status endedRoom = RoomEnded
  ∧ 2 * Minute < Since (180 * Second) (EndedAt endedRoom)
  ∧ Since (180 * Second) (lastActivity endedRoom) <= 5 * Minute
  ∧ ShouldCleanup (180 * Second) endedRoom = false.
Proof. repeat split; vm_compute; try reflexivity; by intros [=]. Qed.

End Cleanup.

(** ** The matching pass *)

Section Matching.

Variables (now : Time) (stamp : string) (uuid : GameMode → string).

Lemma requestsFor_snoc (mode : GameMode) (s : MatchService)
    (rs : list RoomRequest) (ms : list (string * list MatchRequest))
    (rq : RoomRequest) :
  requestsFor mode (mkPassState s (rs ++ [rq]) ms)
  = requestsFor mode (mkPassState s rs ms)
    ++ (if decide (RequestMode rq = mode) then [rq] else []).
Proof.
  unfold requestsFor. simpl. by rewrite filter_app.
Qed.

(** The loop body for one mode leaves every other mode's queue and
    requests alone, and never forgets a match. *)
Lemma matchMode_frame (st : PassState) (m mode : GameMode) :
  m ≠ mode →
  queues (service (matchMode now stamp uuid st m)) !! mode
  = queues (service st) !! mode
  ∧ requestsFor mode (matchMode now stamp uuid st m) = requestsFor mode st
  ∧ ∀ x, x ∈ matched st → x ∈ matched (matchMode now stamp uuid st m).
Proof.
  intros Hne. unfold matchMode.
  destruct (queues (service st) !! m) as [queue|]; [|done].
  destruct (Z.of_nat (length queue) <? getPlayersNeededForMode m); [done|].
  unfold CreateRoom. simpl. split; [|split].
  - by rewrite lookup_insert_ne.
  - rewrite requestsFor_snoc. simpl. rewrite decide_False by done.
    rewrite app_nil_r. by destruct st.
  - intros x Hx. apply elem_of_app. by left.
Qed.

Lemma processMatching_frame (l : list GameMode) (st : PassState)
    (mode : GameMode) :
  mode ∉ l →
  let st' := fold_left (matchMode now stamp uuid) l st in
  queues (service st') !! mode = queues (service st) !! mode
  ∧ requestsFor mode st' = requestsFor mode st
  ∧ ∀ x, x ∈ matched st → x ∈ matched st'.
Proof.
  revert st. induction l as [|m l IH]; intros st Hnin; simpl; [done|].
  apply not_elem_of_cons in Hnin as [Hne Hnin].
  destruct (matchMode_frame st m mode) as (Hq & Hr & Hm); [done|].
  destruct (IH (matchMode now stamp uuid st m) Hnin) as (Hq' & Hr' & Hm').
  split; [|split].
  - by rewrite Hq'.
  - by rewrite Hr'.
  - auto.
Qed.

(** The loop body on a queue shorter than the mode requires. *)
Lemma matchMode_short (st : PassState) (mode : GameMode)
    (queue : list MatchRequest) :
  queues (service st) !! mode = Some queue →
  Z.of_nat (length queue) < getPlayersNeededForMode mode →
  matchMode now stamp uuid st mode = st.
Proof.
  intros Hq Hlt. unfold matchMode. rewrite Hq.
  by apply Z.ltb_lt in Hlt as ->.
Qed.

(** The loop body on a queue that holds enough requests. *)
Lemma matchMode_full (st : PassState) (mode : GameMode)
    (queue : list MatchRequest) :
  queues (service st) !! mode = Some queue →
  getPlayersNeededForMode mode <= Z.of_nat (length queue) →
  let n := Z.to_nat (getPlayersNeededForMode mode) in
  let st' := matchMode now stamp uuid st mode in
  queues (service st') !! mode = Some (drop n queue)
  ∧ requestsFor mode st'
    = requestsFor mode st
      ++ [mkRoomRequest (mode +:+ "-" +:+ stamp) mode
            (getPlayersNeededForMode mode) 1]
  ∧ (uuid mode, take n queue) ∈ matched st'.
Proof.
  intros Hq Hle. unfold matchMode. rewrite Hq.
  apply Z.ltb_ge in Hle as ->.
  unfold CreateRoom. simpl. split; [|split].
  - by rewrite lookup_insert_eq.
  - rewrite requestsFor_snoc. simpl. rewrite decide_True by done.
    by destruct st.
  - apply elem_of_app. right. by apply list_elem_of_singleton.
Qed.

Lemma getPlayersNeededForMode_table :
  getPlayersNeededForMode DeathMatch = 4
  ∧ getPlayersNeededForMode TeamDeathMatch = 6
  ∧ getPlayersNeededForMode FlagCapture = 6
  ∧ getPlayersNeededForMode CapturePoint = 8.
Proof. repeat split. Qed.

Lemma getPlayersNeededForMode_pos (mode : GameMode) :
  0 < getPlayersNeededForMode mode.
Proof.
  unfold getPlayersNeededForMode.
  repeat (match goal with |- context [if ?b then _ else _] => destruct b end);
    lia.
Qed.

(** C5.  One matching pass, whatever the order in which it meets the
    modes.  A queue holding at least the count its mode requires (4 for
    death match, 6 for team death match and flag capture, 8 for capture
    point) yields exactly one room-creation request for the mode, for that
    count and the default map; the requests popped are the first ones of
    the queue in order and the rest stays queued, so a queue holding
    exactly the count is left empty and is matched whole.  A queue holding
    fewer yields no request and is left as it was. *)
Theorem processMatching_queue (order : list GameMode) (s : MatchService)
    (mode : GameMode) (queue : list MatchRequest) :
  rangeOrder order s →
  queues s !! mode = Some queue →
  let st := processMatching now stamp uuid order s in
  let needed := getPlayersNeededForMode mode in
  (getPlayersNeededForMode DeathMatch = 4
   ∧ getPlayersNeededForMode TeamDeathMatch = 6
   ∧ getPlayersNeededForMode FlagCapture = 6
   ∧ getPlayersNeededForMode CapturePoint = 8)
  ∧ (needed <= Z.of_nat (length queue) →
     requestsFor mode st
     = [mkRoomRequest (mode +:+ "-" +:+ stamp) mode needed 1]
     ∧ queues (service st) !! mode = Some (drop (Z.to_nat needed) queue)
     ∧ (uuid mode, take (Z.to_nat needed) queue) ∈ matched st)
  ∧ (Z.of_nat (length queue) = needed →
     requestsFor mode st
     = [mkRoomRequest (mode +:+ "-" +:+ stamp) mode needed 1]
     ∧ queues (service st) !! mode = Some []
     ∧ (uuid mode, queue) ∈ matched st)
  ∧ (Z.of_nat (length queue) < needed →
     requestsFor mode st = []
     ∧ queues (service st) !! mode = Some queue).
Proof.
  intros [Hnd Hdom] Hq st needed.
  assert (mode ∈ order) as Hin by (apply Hdom; eauto).
  apply list_elem_of_split in Hin as (l1 & l2 & ->).
  apply NoDup_app in Hnd as (_ & Hl1 & Hnd2).
  apply NoDup_cons in Hnd2 as [Hl2 _].
  assert (mode ∉ l1) as Hn1.
  { intros Hin1. apply (Hl1 _ Hin1). by left. }
  set (st0 := mkPassState s [] []).
  set (st1 := fold_left (matchMode now stamp uuid) l1 st0).
  assert (st = fold_left (matchMode now stamp uuid) l2
                 (matchMode now stamp uuid st1 mode)) as Hst.
  { unfold st, processMatching. by rewrite fold_left_app. }
  destruct (processMatching_frame l1 st0 mode Hn1) as (Hq1 & Hr1 & _).
  fold st1 in Hq1, Hr1. simpl in Hq1. rewrite Hq in Hq1.
  change (requestsFor mode st0) with (@nil RoomRequest) in Hr1.
  destruct (processMatching_frame l2 (matchMode now stamp uuid st1 mode)
              mode Hl2) as (Hq2 & Hr2 & Hm2).
  rewrite <- Hst in Hq2, Hr2, Hm2.
  assert (needed <= Z.of_nat (length queue) →
     requestsFor mode st
     = [mkRoomRequest (mode +:+ "-" +:+ stamp) mode needed 1]
     ∧ queues (service st) !! mode = Some (drop (Z.to_nat needed) queue)
     ∧ (uuid mode, take (Z.to_nat needed) queue) ∈ matched st) as Hfull.
  { intros Hle.
    destruct (matchMode_full st1 mode queue Hq1 Hle) as (Hq3 & Hr3 & Hm3).
    rewrite Hr2, Hr3, Hr1, Hq2, Hq3. auto. }
  split; [apply getPlayersNeededForMode_table|].
  split; [exact Hfull|]. split.
  - intros Heq. destruct Hfull as (Hr & Hq' & Hm); [lia|].
    assert (Z.to_nat needed = length queue) as Hn by lia.
    rewrite Hn in Hq', Hm. rewrite drop_all in Hq'.
    rewrite firstn_all in Hm. auto.
  - intros Hlt.
    rewrite Hr2, Hq2, (matchMode_short st1 mode queue Hq1 Hlt). auto.
Qed.

End Matching.

Lemma fourQueued_order : rangeOrder [DeathMatch] fourQueued.
Proof.
  split; [apply NoDup_singleton|].
  intros mode. rewrite list_elem_of_singleton. unfold fourQueued. simpl.
  destruct (decide (mode = DeathMatch)) as [->|Hne].
  - rewrite lookup_singleton_eq. split; eauto.
  - rewrite lookup_singleton_ne by done. split; [done | by intros [? [=]]].
Qed.

(** C5, a witness: four requests queued for death match and one matching
    pass. *)
Lemma processMatching_queue_witness :
  requestsFor DeathMatch
    (processMatching 0 "120000" (λ _, "room-1") [DeathMatch] fourQueued)
  = [mkRoomRequest "death_match-120000" DeathMatch 4 1]
  ∧ queues (service (processMatching 0 "120000" (λ _, "room-1") [DeathMatch]
                       fourQueued)) !! DeathMatch = Some []
  ∧ ("room-1", fourRequests)
    ∈ matched (processMatching 0 "120000" (λ _, "room-1") [DeathMatch]
                 fourQueued).
Proof.
  destruct (processMatching_queue 0 "120000" (λ _, "room-1") [DeathMatch]
              fourQueued DeathMatch fourRequests fourQueued_order eq_refl)
    as (_ & _ & H & _).
  apply H. reflexivity.
Defined.

(** ** Joining a room and team assignment *)

Section Joining.

Variables (connID : string) (conn : PlayerConnection) (characterID : Z)
  (entityID : string) (u : float * float) (now : Time).

(** [assignTeam] by mode. *)
Lemma assignTeam_not_team_mode (mu : RWMutex) (r : Room) :
  Mode r ≠ TeamDeathMatch → Mode r ≠ FlagCapture →
  assignTeam mu r = Returns TeamNone.
Proof.
  intros H1 H2. unfold assignTeam.
  apply String.eqb_neq in H1 as ->. by apply String.eqb_neq in H2 as ->.
Qed.

Lemma assignTeam_team_mode_locked (r : Room) :
  Mode r = TeamDeathMatch ∨ Mode r = FlagCapture →
  assignTeam WriteLocked r = Blocks.
Proof.
  intros H. unfold assignTeam.
  destruct H as [-> | ->]; reflexivity.
Qed.

Lemma assignTeam_team_mode_free (r : Room) :
  Mode r = TeamDeathMatch ∨ Mode r = FlagCapture →
  assignTeam Unlocked r
  = Returns (if (countTeams r).1 <=? (countTeams r).2
             then TeamRed else TeamBlue).
Proof.
  intros H. unfold assignTeam.
  destruct H as [-> | ->]; simpl; by destruct (countTeams r).
Qed.

Lemma AddPlayer_full (r : Room) :
  MaxPlayers r <= Z.of_nat (size (players r)) →
  AddPlayer connID conn characterID entityID u now r
  = Returns (r, Some ErrRoomFull).
Proof.
  intros H. unfold AddPlayer. simpl. by apply Z.leb_le in H as ->.
Qed.

Lemma AddPlayer_closed (r : Room) :
  ¬ MaxPlayers r <= Z.of_nat (size (players r)) →
  Status r ≠ RoomWaiting →
  AddPlayer connID conn characterID entityID u now r
  = Returns (r, Some ErrRoomClosed).
Proof.
  intros H Hs. unfold AddPlayer. simpl.
  apply Z.leb_nle in H as ->. by rewrite bool_decide_eq_false_2.
Qed.

Lemma AddPlayer_open (r : Room) :
  ¬ MaxPlayers r <= Z.of_nat (size (players r)) →
  Status r = RoomWaiting →
  AddPlayer connID conn characterID entityID u now r
  = (t ←! assignTeam WriteLocked r;
     Returns
       (set_lastActivity now
          (set_entities
             (<[entityID :=
                  EPlayer
                    (mkPlayerEntity
                       (mkBaseEntity (getRandomSpawnPosition u) 0%float
                          (mkVector2D 0%float 0%float) now)
                       (ConnPlayerID conn) characterID t 100 100 true 0 ∅
                       0 0 0)]> (entities r))
             (set_players
                (<[connID := mkPlayerState (Some connID) entityID false now]>
                   (players r)) r)), None)).
Proof.
  intros H Hs. unfold AddPlayer. simpl.
  apply Z.leb_nle in H as ->. by rewrite bool_decide_eq_true_2.
Qed.

(** In a mode [assignTeam] does not treat as team-based, a room that is
    waiting and not full accepts the player, with no team. *)
Lemma AddPlayer_succeeds (r : Room) :
  ¬ MaxPlayers r <= Z.of_nat (size (players r)) →
  Status r = RoomWaiting →
  Mode r ≠ TeamDeathMatch → Mode r ≠ FlagCapture →
  ∃ r' p, AddPlayer connID conn characterID entityID u now r
          = Returns (r', None)
          ∧ entities r' !! entityID = Some (EPlayer p)
          ∧ team p = TeamNone.
Proof.
  intros Hf Hs H1 H2. rewrite (AddPlayer_open r Hf Hs).
  rewrite assignTeam_not_team_mode by done. simpl.
  eexists _, _. split; [done|]. simpl. rewrite lookup_insert_eq. done.
Qed.

(** In the two modes [assignTeam] treats as team-based, [AddPlayer] on a
    room that is waiting and not full never returns: it holds the roster
    lock for writing when [assignTeam] asks for it for reading. *)
Lemma AddPlayer_blocks_in_team_modes (r : Room) :
  ¬ MaxPlayers r <= Z.of_nat (size (players r)) →
  Status r = RoomWaiting →
  Mode r = TeamDeathMatch ∨ Mode r = FlagCapture →
  AddPlayer connID conn characterID entityID u now r = Blocks.
Proof.
  intros Hf Hs Hm. rewrite (AddPlayer_open r Hf Hs).
  by rewrite assignTeam_team_mode_locked.
Qed.

(** C6, as amended.  [AddPlayer] returns an error exactly when the roster
    is at [MaxPlayers] (the room-full error: the test is that the roster
    holds [MaxPlayers] entries or more, and the roster of a new room is
    within [MaxPlayers] and stays within it when players join and leave)
    or the status is not Waiting (the room-closed error,
    when the room is not full), and then the room, with its roster,
    entities and scores, is unchanged.  On a room that is waiting and not
    full it returns without error in every mode but team death match and
    flag capture, in which it never returns; it never panics.  When it
    returns without error, the connection's ID is bound to a new player
    state: the roster grows by exactly one if the connection was not in
    it and keeps its size if it was (the entry is replaced); a new alive
    player entity with full health is registered under the entity ID;
    the scores are unchanged and the last activity is the clock reading
    of the call. *)
Theorem AddPlayer_outcome (r : Room) :
  let result := AddPlayer connID conn characterID entityID u now r in
  let full := MaxPlayers r <= Z.of_nat (size (players r)) in
  let teamMode := Mode r = TeamDeathMatch ∨ Mode r = FlagCapture in
  ((∃ r' e, result = Returns (r', Some e)) ↔ full ∨ Status r ≠ RoomWaiting)
  ∧ (∀ r' e, result = Returns (r', Some e) →
       r' = r ∧ (e = ErrRoomFull ↔ full) ∧ (e = ErrRoomClosed ↔ ¬ full))
  ∧ (¬ full → Status r = RoomWaiting → ¬ teamMode →
     ∃ r', result = Returns (r', None))
  ∧ (¬ full → Status r = RoomWaiting → teamMode → result = Blocks)
  ∧ result ≠ Panics
  ∧ (∀ r', result = Returns (r', None) →
       (∃ ps, players r' = <[connID := ps]> (players r)
              ∧ Connection ps = Some connID ∧ Entity_ ps = entityID)
       ∧ (players r !! connID = None →
          size (players r') = S (size (players r)))
       ∧ (is_Some (players r !! connID) →
          size (players r') = size (players r))
       ∧ (∃ p, entities r' = <[entityID := EPlayer p]> (entities r)
               ∧ IsAlive p = true ∧ Health p = MaxHealth p ∧ Health p = 100
               ∧ PlayerID p = ConnPlayerID conn
               ∧ CharacterID p = characterID)
       ∧ scores r' = scores r
       ∧ lastActivity r' = now)
  ∧ (Z.of_nat (size (players r)) <= MaxPlayers r →
     (full ↔ Z.of_nat (size (players r)) = MaxPlayers r)
     ∧ (∀ r', result = Returns (r', None) →
          Z.of_nat (size (players r')) <= MaxPlayers r')
     ∧ (∀ c t, Z.of_nat (size (players (RemovePlayer c t r)))
               <= MaxPlayers (RemovePlayer c t r)))
  ∧ (∀ roomID t name mode maxPlayers mapID,
       0 <= maxPlayers →
       Z.of_nat (size (players (NewRoom roomID t name mode maxPlayers mapID)))
       <= MaxPlayers (NewRoom roomID t name mode maxPlayers mapID)).
Proof.
  intros result full teamMode. subst result.
  assert (∀ roomID t name mode maxPlayers mapID,
       0 <= maxPlayers →
       Z.of_nat (size (players (NewRoom roomID t name mode maxPlayers mapID)))
       <= MaxPlayers (NewRoom roomID t name mode maxPlayers mapID)) as Hnew.
  { intros roomID t name mode maxPlayers mapID Hm. simpl.
    rewrite map_size_empty. lia. }
  assert (Z.of_nat (size (players r)) <= MaxPlayers r →
          (full ↔ Z.of_nat (size (players r)) = MaxPlayers r)
          ∧ (∀ c t, Z.of_nat (size (players (RemovePlayer c t r)))
                    <= MaxPlayers (RemovePlayer c t r))) as Hcap.
  { intros Hle. split; [unfold full; lia|]. intros c t. unfold RemovePlayer.
    destruct (players r !! c) as [ps|] eqn:E; [|done]. simpl.
    rewrite map_size_delete, E. simpl. lia. }
  destruct (decide full) as [Hf|Hf].
  { rewrite (AddPlayer_full r Hf). split_and!.
    - split; [auto | eauto].
    - intros r' e [= <- <-]. split; [done|]. split; [done|]. by split.
    - done.
    - done.
    - done.
    - intros r' [=].
    - intros Hle. destruct (Hcap Hle) as (H1 & H2).
      split; [done|]. split; [intros r' [=]|done].
    - exact Hnew. }
  destruct (decide (Status r = RoomWaiting)) as [Hs|Hs].
  2: { rewrite (AddPlayer_closed r Hf Hs). split_and!.
    - split; [auto | eauto].
    - intros r' e [= <- <-]. split; [done|]. split; [|done].
      split; [done | tauto].
    - done.
    - done.
    - done.
    - intros r' [=].
    - intros Hle. destruct (Hcap Hle) as (H1 & H2).
      split; [done|]. split; [intros r' [=]|done].
    - exact Hnew. }
  assert (teamMode ∨ ¬ teamMode) as [Ht|Ht].
  { unfold teamMode. destruct (decide (Mode r = TeamDeathMatch));
      destruct (decide (Mode r = FlagCapture)); tauto. }
  { rewrite (AddPlayer_blocks_in_team_modes r Hf Hs Ht). split_and!.
    - split; [intros (? & ? & [=]) | tauto].
    - intros r' e [=].
    - done.
    - done.
    - done.
    - intros r' [=].
    - intros Hle. destruct (Hcap Hle) as (H1 & H2).
      split; [done|]. split; [intros r' [=]|done].
    - exact Hnew. }
  rewrite (AddPlayer_open r Hf Hs).
  rewrite assignTeam_not_team_mode by (unfold teamMode in Ht; tauto).
  simpl. split_and!.
  - split; [intros (? & ? & [=]) | tauto].
  - intros r' e [=].
  - eauto.
  - done.
  - done.
  - intros r' [= <-]. simpl. split; [eauto|].
    split; [|split; [|split; [eauto 10|done]]].
    + intros Hn. by apply map_size_insert_None.
    + intros Hsome. by apply map_size_insert_Some.
  - intros Hle. destruct (Hcap Hle) as (H1 & H2).
    split; [done|]. split; [|done]. intros r' [= <-]. simpl.
    rewrite map_size_insert. unfold full in Hf.
    destruct (players r !! connID); simpl; lia.
  - exact Hnew.
Qed.

End Joining.

(** C6, the counterexample: a connection that is already in the roster
    joins again; [AddPlayer] returns without error and the roster has the
    size it had. *)
Lemma AddPlayer_roster_may_not_grow :
  ¬ (∀ connID conn characterID entityID u now r r',
       AddPlayer connID conn characterID entityID u now r = Returns (r', None) →
       size (players r') = S (size (players r))).
Proof.
  intros H.
  specialize (H "c1" (freshConn 1 None) 1 "e2" origin 9 roomWithC1
                (joined (AddPlayer "c1" (freshConn 1 None) 1 "e2" origin 9
                           roomWithC1) roomWithC1)).
  assert (size (players roomWithC1) = 1%nat) as Hsz by (vm_compute; reflexivity).
  rewrite Hsz in H.
  assert (size (players (joined (AddPlayer "c1" (freshConn 1 None) 1 "e2"
                                   origin 9 roomWithC1) roomWithC1)) = 1%nat)
    as Hsz' by (vm_compute; reflexivity).
  rewrite Hsz' in H.
  discriminate H. vm_compute. reflexivity.
Qed.

(** C7, at the failing inputs.  Capture point is the 4v4 mode of the mode
    table, yet a player joining a capture point room is given no team;
    and in the two modes that [assignTeam] does treat as team-based (team
    death match and flag capture) [AddPlayer] never returns, so that no
    player is ever assigned to the smaller team. *)
Theorem AddPlayer_team_assignment :
  getPlayersNeededForMode CapturePoint = 8
  ∧ (∃ r' p, AddPlayer "c1" (freshConn 1 None) 1 "e1" origin 5 captureRoom
             = Returns (r', None)
             ∧ entities r' !! "e1" = Some (EPlayer p)
             ∧ team p = TeamNone)
  ∧ AddPlayer "c1" (freshConn 1 None) 1 "e1" origin 5 teamRoom = Blocks
  ∧ AddPlayer "c1" (freshConn 1 None) 1 "e1" origin 5 flagRoom = Blocks.
Proof.
  split; [reflexivity|]. split; [|split].
  - apply AddPlayer_succeeds; by vm_compute.
  - apply AddPlayer_blocks_in_team_modes; [by vm_compute | done | by left].
  - apply AddPlayer_blocks_in_team_modes; [by vm_compute | done | by right].
Qed.


(** ** Respawn *)

Section Respawn.

Lemma wrap_in_int (z : Z) : in_int z → wrap z = z.
Proof.
  unfold in_int, wrap. intros H.
  rewrite Z.mod_small by lia. lia.
Qed.

Lemma wrap_range (z : Z) : in_int (wrap z).
Proof.
  unfold in_int, wrap.
  pose proof (Z.mod_pos_bound (z + 2 ^ 63) (2 ^ 64)). lia.
Qed.

(** The countdown of a dead player after a tick: the whole seconds of the
    elapsed time are taken off it. *)
Lemma updatePlayer_countdown (deltaTime : float) (u : float * float)
    (e : PlayerEntity) :
  IsAlive e = false →
  RespawnTime (updatePlayer deltaTime u e)
  = int_sub (RespawnTime e) (int_of_float deltaTime).
Proof.
  intros Hd. unfold updatePlayer. rewrite Hd.
  by destruct (RespawnTime _ <=? 0).
Qed.

(** The respawn: once the countdown is zero or less the player is alive
    again, at full health, at a spawn point, at rest. *)
Lemma updatePlayer_respawn (deltaTime : float) (u : float * float)
    (e : PlayerEntity) :
  IsAlive e = false →
  int_sub (RespawnTime e) (int_of_float deltaTime) <= 0 →
  let e' := updatePlayer deltaTime u e in
  IsAlive e' = true
  ∧ Health e' = MaxHealth e
  ∧ MaxHealth e' = MaxHealth e
  ∧ Position (PlayerBase e') = getRandomSpawnPosition u
  ∧ Velocity (PlayerBase e') = mkVector2D 0%float 0%float.
Proof.
  intros Hd Hle. unfold updatePlayer. rewrite Hd. simpl.
  by apply Z.leb_le in Hle as ->.
Qed.

(** A dead player whose countdown is still positive after the tick stays
    as it is but for the countdown. *)
Lemma updatePlayer_waiting (deltaTime : float) (u : float * float)
    (e : PlayerEntity) :
  IsAlive e = false →
  0 < int_sub (RespawnTime e) (int_of_float deltaTime) →
  updatePlayer deltaTime u e
  = set_RespawnTime (int_sub (RespawnTime e) (int_of_float deltaTime)) e.
Proof.
  intros Hd Hlt. unfold updatePlayer. rewrite Hd. simpl.
  by apply Z.leb_gt in Hlt as ->.
Qed.

(** A tick shorter than a second takes nothing off the countdown. *)
Lemma updatePlayer_stalls (deltaTime : float) (u : float * float)
    (e : PlayerEntity) :
  IsAlive e = false →
  int_of_float deltaTime = 0 →
  in_int (RespawnTime e) → 0 < RespawnTime e →
  updatePlayer deltaTime u e = e.
Proof.
  intros Hd Hz Hin Hpos.
  assert (int_sub (RespawnTime e) (int_of_float deltaTime) = RespawnTime e)
    as Heq.
  { unfold int_sub. rewrite Hz, Z.sub_0_r. by apply wrap_in_int. }
  rewrite updatePlayer_waiting by (done || lia).
  rewrite Heq. by destruct e.
Qed.

(** The elapsed time of a tick at the ticker's period, and its whole
    seconds. *)
Lemma tickPeriod_seconds : int_of_float (Seconds tickPeriod) = 0.
Proof. vm_compute. reflexivity. Qed.

(** The entity update of such a tick leaves the killed player as it is,
    however often it runs. *)
Lemma killedRoom_fixed (rnd : string → float * float) (n : nat) :
  Nat.iter n (updateEntities (Seconds tickPeriod) rnd) killedRoom = killedRoom.
Proof.
  induction n as [|n IH]; [done|].
  simpl. rewrite IH. vm_compute. reflexivity.
Qed.

End Respawn.

(** ** Full outbound queues *)

Section Backpressure.

Lemma try_send_full (pc : PlayerConnection) (data : Data) :
  isFull pc → try_send (Send pc) data = WouldBlock.
Proof.
  intros [Hc Hl]. unfold try_send. rewrite Hc.
  by apply Nat.ltb_ge in Hl as ->.
Qed.

Lemma RemovePlayer_absent (connID : string) (now : Time) (r : Room) :
  players (RemovePlayer connID now r) !! connID = None.
Proof.
  unfold RemovePlayer. destruct (players r !! connID) eqn:E; [|done].
  simpl. apply lookup_delete_eq.
Qed.

(** [closeConnection] of a registered connection whose channel is open:
    it leaves the registry and the roster of its room, and its channel is
    closed. *)
Lemma closeConnection_registered (now : Time) (player : string)
    (s : GameServer) (pc : PlayerConnection) :
  connObjs s !! player = Some pc →
  player ∈ connections s →
  closed (Send pc) = false →
  ∃ s', closeConnection now player s = Returns s'
        ∧ (player ∉ connections s')
        ∧ (∀ rid room, ConnRoom pc = Some rid →
             roomObjs s' !! rid = Some room → players room !! player = None)
        ∧ (∃ pc', connObjs s' !! player = Some pc'
                  ∧ closed (Send pc') = true ∧ ConnRoom pc' = None)
        ∧ (∀ c, c ≠ player →
             (c ∈ connections s' ↔ c ∈ connections s)
             ∧ connObjs s' !! c = connObjs s !! c).
Proof.
  intros Hobj Hreg Hopen. unfold closeConnection.
  rewrite bool_decide_eq_true_2 by done. rewrite Hobj.
  unfold close_chan. rewrite Hopen. simpl.
  eexists. split; [done|]. simpl.
  split.
  { destruct (ConnRoom pc); simpl;
      intros [_ Hn]%elem_of_difference; apply Hn; by apply elem_of_singleton. }
  split; [|split].
  - intros rid room Hrid. destruct (ConnRoom pc) as [rid'|]; [|done].
    injection Hrid as ->. simpl. rewrite lookup_alter_eq.
    destruct (roomObjs s !! rid) as [r0|]; [|done]. simpl.
    intros [= <-]. apply RemovePlayer_absent.
  - destruct (ConnRoom pc); simpl; rewrite lookup_insert_eq; eauto.
  - intros c Hc. destruct (ConnRoom pc); simpl;
      (split; [|by rewrite lookup_insert_ne]);
      rewrite elem_of_difference, elem_of_singleton; tauto.
Qed.

(** One step of the frame broadcast leaves a full queue as it is. *)
Lemma offerFrame_full (data : Data) (ps : PlayerState)
    (cs cs' : gmap string PlayerConnection) (c : string)
    (pc : PlayerConnection) :
  offerFrame data ps (Returns cs) = Returns cs' →
  cs !! c = Some pc → isFull pc → cs' !! c = Some pc.
Proof.
  unfold offerFrame. simpl. intros H Hc Hfull.
  destruct (Connection ps) as [c0|]; [|by injection H as <-].
  destruct (cs !! c0) as [pc0|] eqn:Hc0; [|by injection H as <-].
  destruct (try_send (Send pc0) data) as [ch| |] eqn:Hsend;
    [|by injection H as <-|done].
  injection H as <-.
  destruct (decide (c0 = c)) as [->|Hne].
  - rewrite Hc in Hc0. injection Hc0 as <-.
    by rewrite try_send_full in Hsend.
  - by rewrite lookup_insert_ne.
Qed.

Lemma broadcastCollisions_full (now : Time) (collisions : list CollisionInfo)
    (r : Room) (conns conns' : gmap string PlayerConnection) (c : string)
    (pc : PlayerConnection) :
  broadcastCollisions now collisions r conns = Returns conns' →
  conns !! c = Some pc → isFull pc → conns' !! c = Some pc.
Proof.
  unfold broadcastCollisions.
  destruct (marshals (buildFrame now collisions r));
    [|by intros [= <-]].
  generalize (FrameData (buildFrame now collisions r)) as data.
  generalize ((map_to_list (players r)).*2) as l.
  intros l data. revert conns'.
  induction l as [|ps l IH]; intros conns' H Hc Hfull; simpl in H.
  - by injection H as <-.
  - destruct (foldr (offerFrame data) (Returns conns) l) as [cs| |] eqn:Hl;
      [|done|done].
    eapply offerFrame_full; eauto.
Qed.

(** The frame broadcast panics only on a closed channel and never
    blocks. *)
Lemma broadcastCollisions_returns (now : Time)
    (collisions : list CollisionInfo) (r : Room)
    (conns : gmap string PlayerConnection) :
  (∀ c pc, conns !! c = Some pc → closed (Send pc) = false) →
  ∃ conns', broadcastCollisions now collisions r conns = Returns conns'.
Proof.
  unfold broadcastCollisions.
  destruct (marshals (buildFrame now collisions r)); [|eauto].
  generalize (FrameData (buildFrame now collisions r)) as data.
  generalize ((map_to_list (players r)).*2) as l.
  intros l data Hopen.
  assert (∃ conns', foldr (offerFrame data) (Returns conns) l = Returns conns'
                    ∧ ∀ c pc, conns' !! c = Some pc → closed (Send pc) = false)
    as (conns' & H & _); [|eauto].
  induction l as [|ps l (cs & Hl & Hcs)]; simpl; [eauto|].
  rewrite Hl. unfold offerFrame. simpl.
  destruct (Connection ps) as [c0|]; [|eauto].
  destruct (cs !! c0) as [pc0|] eqn:Hc0; [|eauto].
  unfold try_send. rewrite (Hcs _ _ Hc0).
  destruct (length (buf (Send pc0)) <? cap (Send pc0))%nat; [|eauto].
  eexists. split; [done|].
  intros c pc. destruct (decide (c0 = c)) as [->|Hne].
  - rewrite lookup_insert_eq. by intros [= <-].
  - rewrite lookup_insert_ne by done. eauto.
Qed.

Lemma broadcastCollisions_never_blocks (now : Time)
    (collisions : list CollisionInfo) (r : Room)
    (conns : gmap string PlayerConnection) :
  broadcastCollisions now collisions r conns ≠ Blocks.
Proof.
  unfold broadcastCollisions.
  destruct (marshals (buildFrame now collisions r)); [|done].
  generalize (FrameData (buildFrame now collisions r)) as data.
  generalize ((map_to_list (players r)).*2) as l.
  intros l data.
  induction l as [|ps l IH]; simpl; [done|].
  destruct (foldr (offerFrame data) (Returns conns) l) as [cs| |]; [|done|done].
  unfold offerFrame. simpl.
  destruct (Connection ps) as [c0|]; [|done].
  destruct (cs !! c0) as [pc0|]; [|done].
  by destruct (try_send (Send pc0) data).
Qed.

(** The frame broadcast changes the queue of a connection and nothing
    else of it. *)
Lemma offerFrame_ConnRoom (data : Data) (ps : PlayerState)
    (cs cs' : gmap string PlayerConnection) :
  offerFrame data ps (Returns cs) = Returns cs' →
  ∀ c pc', cs' !! c = Some pc' →
    ∃ pc, cs !! c = Some pc ∧ ConnRoom pc' = ConnRoom pc.
Proof.
  unfold offerFrame. simpl. intros H c pc' Hc.
  destruct (Connection ps) as [c0|]; [|injection H as <-; eauto].
  destruct (cs !! c0) as [pc0|] eqn:Hc0; [|injection H as <-; eauto].
  destruct (try_send (Send pc0) data) as [ch| |];
    [|injection H as <-; eauto|done].
  injection H as <-. destruct (decide (c0 = c)) as [->|Hne].
  - rewrite lookup_insert_eq in Hc. injection Hc as <-. eauto.
  - rewrite lookup_insert_ne in Hc by done. eauto.
Qed.

Lemma broadcastCollisions_ConnRoom (now : Time)
    (collisions : list CollisionInfo) (r : Room)
    (conns conns' : gmap string PlayerConnection) :
  broadcastCollisions now collisions r conns = Returns conns' →
  ∀ c pc', conns' !! c = Some pc' →
    ∃ pc, conns !! c = Some pc ∧ ConnRoom pc' = ConnRoom pc.
Proof.
  unfold broadcastCollisions.
  destruct (marshals (buildFrame now collisions r));
    [|intros [= <-]; eauto].
  generalize (FrameData (buildFrame now collisions r)) as data.
  generalize ((map_to_list (players r)).*2) as l.
  intros l data. revert conns'.
  induction l as [|ps l IH]; intros conns' H c pc' Hc; simpl in H.
  - injection H as <-. eauto.
  - destruct (foldr (offerFrame data) (Returns conns) l) as [cs| |] eqn:Hl;
      [|done|done].
    destruct (offerFrame_ConnRoom data ps cs conns' H c pc' Hc)
      as (pc1 & Hpc1 & ->).
    by apply (IH cs).
Qed.

Lemma closeConnection_unlinked (now : Time) (player : string)
    (s s' : GameServer) :
  unlinked s → closeConnection now player s = Returns s' → unlinked s'.
Proof.
  intros Hu. unfold closeConnection.
  destruct (bool_decide (player ∈ connections s)); [|by intros [= <-]].
  destruct (connObjs s !! player) as [pc|] eqn:Hpc; [|by intros [= <-]].
  rewrite (Hu player pc Hpc).
  destruct (close_chan (Send pc)) as [ch| |]; simpl; [|done|done].
  intros [= <-] c pc'. simpl.
  destruct (decide (player = c)) as [->|Hne].
  - rewrite lookup_insert_eq. by intros [= <-].
  - rewrite lookup_insert_ne by done. apply Hu.
Qed.

Lemma sendMessage_unlinked (now : Time) (player : string)
    (marshalled : option Data) (s s' : GameServer) :
  unlinked s → sendMessage now player marshalled s = Returns s' →
  unlinked s'.
Proof.
  intros Hu. unfold sendMessage.
  destruct marshalled as [data|]; [|by intros [= <-]].
  destruct (connObjs s !! player) as [pc|] eqn:Hpc; [|by intros [= <-]].
  destruct (try_send (Send pc) data) as [ch| |]; [| |done].
  - intros [= <-] c pc'. simpl.
    destruct (decide (player = c)) as [->|Hne].
    + rewrite lookup_insert_eq. intros [= <-]. simpl. by apply (Hu c pc).
    + rewrite lookup_insert_ne by done. apply Hu.
  - by apply closeConnection_unlinked.
Qed.

(** C8, as amended.  A connection that is registered and whose outbound
    queue is full: the per-connection send ([sendMessage]) closes it,
    which removes it from the registry and closes its queue; it takes the
    connection out of the roster of the room that the connection refers
    to, and leaves every room as it is when the connection refers to
    none.  No connection ever refers to a room: [handleWSConnection]
    registers a connection that refers to none, and closing, sending,
    leaving, message handling and the frame broadcast keep it so.  Hence a member of a room
    whose queue is full is closed by [sendMessage] and stays in the
    roster of its room.  The room's frame broadcast
    ([broadcastCollisions]) skips the connection, leaving it registered,
    its queue as it was and every room as it was.  Neither blocks. *)
Theorem full_queue_policy (now : Time) (s : GameServer) (player : string)
    (pc : PlayerConnection) :
  connObjs s !! player = Some pc →
  player ∈ connections s →
  isFull pc →
  (∀ marshalled, sendMessage now player marshalled s ≠ Blocks)
  ∧ (∀ data, ∃ s',
      sendMessage now player (Some data) s = Returns s'
      ∧ (player ∉ connections s')
      ∧ (∀ rid room, ConnRoom pc = Some rid →
           roomObjs s' !! rid = Some room → players room !! player = None)
      ∧ (ConnRoom pc = None → roomObjs s' = roomObjs s)
      ∧ (∃ pc', connObjs s' !! player = Some pc'
                ∧ closed (Send pc') = true ∧ ConnRoom pc' = None))
  ∧ (∀ now' connID playerID token upgraded s0,
       unlinked s0 →
       unlinked (handleWSConnection now' connID playerID token upgraded s0).1)
  ∧ (∀ now' c s0 s',
       unlinked s0 →
       (closeConnection now' c s0 = Returns s' → unlinked s')
       ∧ (∀ marshalled,
            sendMessage now' c marshalled s0 = Returns s' → unlinked s')
       ∧ (handleLeaveRoom now' c s0 = Returns s' → unlinked s')
       ∧ (∀ msg, handleMessage now' c msg s0 = Returns s' → unlinked s')
       ∧ (∀ collisions rid,
            broadcastFrame now' collisions rid s0 = Returns s' → unlinked s'))
  ∧ (unlinked s → ∀ data, ∃ s',
       sendMessage now player (Some data) s = Returns s'
       ∧ (player ∉ connections s')
       ∧ roomObjs s' = roomObjs s)
  ∧ (∀ collisions rid,
       broadcastFrame now collisions rid s ≠ Blocks
       ∧ (∀ s', broadcastFrame now collisions rid s = Returns s' →
                player ∈ connections s'
                ∧ connObjs s' !! player = Some pc
                ∧ roomObjs s' = roomObjs s)).
Proof.
  intros Hobj Hreg Hfull.
  assert (∀ data, ∃ s',
      sendMessage now player (Some data) s = Returns s'
      ∧ (player ∉ connections s')
      ∧ (∀ rid room, ConnRoom pc = Some rid →
           roomObjs s' !! rid = Some room → players room !! player = None)
      ∧ (ConnRoom pc = None → roomObjs s' = roomObjs s)
      ∧ (∃ pc', connObjs s' !! player = Some pc'
                ∧ closed (Send pc') = true ∧ ConnRoom pc' = None)) as Hsend.
  { intros data. unfold sendMessage. rewrite Hobj.
    rewrite try_send_full by done.
    destruct (closeConnection_registered now player s pc Hobj Hreg
                (proj1 Hfull)) as (s' & Hs' & H1 & H2 & H3 & _).
    exists s'. split; [done|]. split; [done|]. split; [done|].
    split; [|done]. intros Hnone. unfold closeConnection in Hs'.
    rewrite bool_decide_eq_true_2, Hobj, Hnone in Hs' by done.
    unfold close_chan in Hs'. rewrite (proj1 Hfull) in Hs'. simpl in Hs'.
    by injection Hs' as <-. }
  split_and!.
  - intros [data|]; [|done]. by destruct (Hsend data) as (s' & -> & _).
  - exact Hsend.
  - intros now' connID playerID token upgraded s0 Hu.
    unfold handleWSConnection.
    destruct (String.eqb playerID "" || String.eqb token ""); [done|].
    destruct (negb upgraded); [done|]. unfold unlinked. simpl. intros c pc'.
    destruct (decide (connID = c)) as [->|Hne].
    + rewrite lookup_insert_eq. by intros [= <-].
    + rewrite lookup_insert_ne by done. apply Hu.
  - intros now' c s0 s' Hu. split_and!.
    + by apply closeConnection_unlinked.
    + intros marshalled. by apply sendMessage_unlinked.
    + unfold handleLeaveRoom.
      destruct (connObjs s0 !! c) as [pc0|] eqn:Hpc0; [|by intros [= <-]].
      rewrite (Hu c pc0 Hpc0). by intros [= <-].
    + intros [m|]; unfold handleMessage; [|by intros [= <-]].
      destruct (String.eqb (MessageType m) "leave_room"); [|by intros [= <-]].
      unfold handleLeaveRoom.
      destruct (connObjs s0 !! c) as [pc0|] eqn:Hpc0; [|by intros [= <-]].
      rewrite (Hu c pc0 Hpc0). by intros [= <-].
    + intros collisions rid. unfold broadcastFrame.
      destruct (roomObjs s0 !! rid) as [r|]; [|by intros [= <-]].
      destruct (broadcastCollisions now' collisions r (connObjs s0))
        as [cs| |] eqn:Hb; simpl; [|done|done].
      intros [= <-] c' pc' Hc'. simpl in Hc'.
      destruct (broadcastCollisions_ConnRoom now' collisions r (connObjs s0)
                  cs Hb c' pc' Hc') as (pc1 & Hpc1 & ->).
      by apply (Hu c' pc1).
  - intros Hu data.
    destruct (Hsend data) as (s' & Hs' & Hn & _ & Hrooms & _).
    exists s'. split; [done|]. split; [done|].
    apply Hrooms. by apply (Hu player pc).
  - intros collisions rid. unfold broadcastFrame.
    destruct (roomObjs s !! rid) as [r|]; [|split; [done|by intros s' [= <-]]].
    pose proof (broadcastCollisions_never_blocks now collisions r (connObjs s))
      as Hnb.
    destruct (broadcastCollisions now collisions r (connObjs s))
      as [cs| |] eqn:Hb; [|done|done].
    simpl. split; [done|]. intros s' [= <-]. simpl.
    split; [done|]. split; [|done].
    eapply broadcastCollisions_full; eauto.
Qed.

End Backpressure.

(** C8, the counterexample: room-1 broadcasts a frame while the queue of
    its member c1 is full; afterwards c1 is still registered and still in
    the roster. *)
Lemma broadcast_keeps_full_member :
  isFull (fullConn 1 (Some "room-1"))
  ∧ ∃ s' room, broadcastFrame 0 [someCollision] "room-1" crowdedServer
               = Returns s'
               ∧ "c1" ∈ connections s'
               ∧ roomObjs s' !! "room-1" = Some room
               ∧ is_Some (players room !! "c1").
Proof.
  split; [split; vm_compute; [reflexivity | done]|].
  exists crowdedServer, roomWithC1.
  split; [vm_compute; reflexivity|].
  split; [vm_compute; reflexivity|].
  split; [reflexivity|]. vm_compute. eauto.
Qed.

(** C8, a witness: the lobby whose member c1, registered as the code
    registers it, has a full queue: the send closes the connection and
    c1 is still in the roster of room-1. *)
Lemma full_queue_policy_witness :
  ∃ s' room,
    sendMessage 0 "c1"
      (Some (MessageData (mkMessage "leave_room_confirm" ""))) fullLobby
    = Returns s'
    ∧ ("c1" ∉ connections s')
    ∧ roomObjs s' !! "room-1" = Some room
    ∧ is_Some (players room !! "c1").
Proof.
  destruct (full_queue_policy 0 fullLobby "c1" (fullConn 1 None))
    as (_ & _ & _ & _ & H & _).
  - reflexivity.
  - vm_compute. reflexivity.
  - split; vm_compute; [reflexivity | done].
  - destruct (H ltac:(intros c pc;
                      destruct (decide (c = "c1")) as [->|Hne];
                      [by intros [= <-]
                      |unfold fullLobby; simpl;
                       by rewrite lookup_singleton_ne])
                (MessageData (mkMessage "leave_room_confirm" "")))
      as (s' & Hs & Hn & Hrooms).
    exists s', roomWithC1. split; [done|]. split; [done|].
    rewrite Hrooms. split; [reflexivity|]. vm_compute. eauto.
Defined.

(** ** Collision and combat *)

Section Combat.

Implicit Types (r : Room) (a b k : string) (pr : ProjectileEntity)
  (pl : PlayerEntity) (cs : list CollisionInfo).

Lemma hasHit_elem_of pr b : hasHit pr b = true ↔ b ∈ HitEntities pr.
Proof.
  unfold hasHit. rewrite existsb_exists. split.
  - intros (x & Hin & Heq). apply String.eqb_eq in Heq as <-.
    by apply list_elem_of_In.
  - intros Hin. exists b. split; [by apply list_elem_of_In|].
    apply String.eqb_refl.
Qed.

Lemma coreP_idemp pl : coreP (coreP pl) = coreP pl.
Proof. reflexivity. Qed.

(** Changing the counters of one player entity changes nothing the scan
    reads. *)
Lemma alterPlayer_view (f : PlayerEntity → PlayerEntity) r k :
  (∀ p, coreP (f p) = coreP p) →
  let r' := set_entities (alterPlayer f k (entities r)) r in
  (∀ j, getProjectile r' j = getProjectile r j)
  ∧ (∀ j, playerCore r' j = playerCore r j)
  ∧ (∀ j, is_Some (entities r' !! j) ↔ is_Some (entities r !! j)).
Proof.
  intros Hf r'. subst r'.
  unfold getProjectile, playerCore, getPlayer, alterPlayer. simpl.
  split; [|split]; intros j; rewrite lookup_alter; case_decide; subst;
    try done; destruct (entities r !! j) as [[p|p|p]|]; simpl; try done;
    try (by rewrite Hf); try (by split; eauto);
    by split; intros [? [=]].
Qed.

Lemma recordKill_view pr b r :
  let r' := recordKill pr b r in
  (∀ j, getProjectile r' j = getProjectile r j)
  ∧ (∀ j, playerCore r' j = playerCore r j)
  ∧ (∀ j, is_Some (entities r' !! j) ↔ is_Some (entities r !! j))
  ∧ FriendlyFire r' = FriendlyFire r
  ∧ players r' = players r.
Proof.
  unfold recordKill.
  destruct (String.eqb (OwnerID pr) ""); [done|].
  destruct (entities r !! OwnerID pr) as [[ownerPlayer|?|?]|]; try done.
  set (r1 := if rosterHas r (OwnerID pr) then _ else r).
  assert ((∀ j, getProjectile r1 j = getProjectile r j)
          ∧ (∀ j, playerCore r1 j = playerCore r j)
          ∧ (∀ j, is_Some (entities r1 !! j) ↔ is_Some (entities r !! j))
          ∧ FriendlyFire r1 = FriendlyFire r
          ∧ players r1 = players r) as (H1 & H2 & H3 & H4 & H5).
  { subst r1. destruct (rosterHas r (OwnerID pr)); [|done].
    destruct (alterPlayer_view (λ p, set_Kills (int_add (Kills p) 1) p) r
                (OwnerID pr)) as (? & ? & ?); [done|].
    done. }
  destruct (rosterHas r1 b); [|done].
  destruct (alterPlayer_view (λ p, set_Deaths (int_add (Deaths p) 1) p) r1 b)
    as (G1 & G2 & G3); [done|].
  simpl. split; [|split; [|split; [|done]]].
  - intros j. by rewrite G1.
  - intros j. by rewrite G2.
  - intros j. by rewrite G3, H3.
Qed.

Lemma getProjectile_Some r k pr :
  getProjectile r k = Some pr ↔ entities r !! k = Some (EProjectile pr).
Proof.
  unfold getProjectile. destruct (entities r !! k) as [[]|]; naive_solver.
Qed.

Lemma getPlayer_Some r k pl :
  getPlayer r k = Some pl ↔ entities r !! k = Some (EPlayer pl).
Proof.
  unfold getPlayer. destruct (entities r !! k) as [[]|]; naive_solver.
Qed.

Lemma hit_inserts_view a pr pr1 b pl pl1 r :
  entities r !! a = Some (EProjectile pr) →
  entities r !! b = Some (EPlayer pl) →
  let r1 := set_entities
              (<[b := EPlayer pl1]> (<[a := EProjectile pr1]> (entities r))) r in
  (∀ j, getProjectile r1 j
        = if decide (j = a) then Some pr1 else getProjectile r j)
  ∧ (∀ j, playerCore r1 j
          = if decide (j = b) then Some (coreP pl1) else playerCore r j)
  ∧ (∀ j, is_Some (entities r1 !! j) ↔ is_Some (entities r !! j))
  ∧ FriendlyFire r1 = FriendlyFire r
  ∧ players r1 = players r.
Proof.
  intros Ha Hb r1. subst r1.
  assert (a ≠ b) as Hab by (intros ->; congruence).
  unfold getProjectile, playerCore, getPlayer. simpl.
  split; [|split; [|split; [|done]]]; intros j.
  - destruct (decide (j = b)) as [->|Hjb].
    + rewrite lookup_insert_eq, decide_False by done. by rewrite Hb.
    + rewrite lookup_insert_ne by done.
      destruct (decide (j = a)) as [->|Hja].
      * by rewrite lookup_insert_eq.
      * by rewrite lookup_insert_ne.
  - destruct (decide (j = b)) as [->|Hjb].
    + by rewrite lookup_insert_eq.
    + rewrite lookup_insert_ne by done.
      destruct (decide (j = a)) as [->|Hja].
      * rewrite lookup_insert_eq. by rewrite Ha.
      * by rewrite lookup_insert_ne.
  - destruct (decide (j = b)) as [->|Hjb].
    + rewrite lookup_insert_eq, Hb. split; eauto.
    + rewrite lookup_insert_ne by done.
      destruct (decide (j = a)) as [->|Hja].
      * rewrite lookup_insert_eq, Ha. split; eauto.
      * by rewrite lookup_insert_ne.
Qed.

Lemma handleCollision_unfold a pr b pl r :
  handleCollision a pr b pl r
  = let pr1 := set_HitEntities (HitEntities pr ++ [b]) pr in
    let r1 := set_entities
                (<[b := EPlayer (damaged pl pr)]>
                   (<[a := EProjectile pr1]> (entities r))) r in
    if int_sub (Health pl) (Damage pr) <=? 0 then recordKill pr1 b r1 else r1.
Proof.
  unfold handleCollision, damaged. simpl.
  by destruct (int_sub (Health pl) (Damage pr) <=? 0).
Qed.

(** What [handleCollision] does to what the scan reads: the projectile's
    hit-set gains the player, and the player is damaged. *)
Lemma handleCollision_view a pr b pl r :
  getProjectile r a = Some pr →
  getPlayer r b = Some pl →
  let r' := handleCollision a pr b pl r in
  (∀ j, getProjectile r' j
        = if decide (j = a)
          then Some (set_HitEntities (HitEntities pr ++ [b]) pr)
          else getProjectile r j)
  ∧ (∀ j, playerCore r' j
          = if decide (j = b) then Some (coreP (damaged pl pr))
            else playerCore r j)
  ∧ (∀ j, is_Some (entities r' !! j) ↔ is_Some (entities r !! j))
  ∧ FriendlyFire r' = FriendlyFire r
  ∧ players r' = players r.
Proof.
  intros Ha Hb.
  apply getProjectile_Some in Ha. apply getPlayer_Some in Hb.
  rewrite handleCollision_unfold. cbv zeta.
  set (pr1 := set_HitEntities (HitEntities pr ++ [b]) pr).
  destruct (hit_inserts_view a pr pr1 b pl (damaged pl pr) r Ha Hb)
    as (H1 & H2 & H3 & H4 & H5).
  set (r1 := set_entities _ r) in *.
  destruct (int_sub (Health pl) (Damage pr) <=? 0); [|done].
  destruct (recordKill_view pr1 b r1) as (G1 & G2 & G3 & G4 & G5).
  split; [|split; [|split; [|split]]].
  - intros j. by rewrite G1, H1.
  - intros j. by rewrite G2, H2.
  - intros j. by rewrite G3, H3.
  - by rewrite G4.
  - by rewrite G5.
Qed.

(** The body of the scan for a projectile and a player: the four tests,
    then the hit. *)
Lemma resolve_wouldHit now a pr b pl r cs :
  ∃ c, EntityA c = a ∧ EntityB c = b
       ∧ resolve now a pr b pl (r, cs)
         = if wouldHit r pr b pl
           then (handleCollision a pr b pl r, cs ++ [c])
           else (r, cs).
Proof.
  eexists (mkCollisionInfo a b _ _ now). split; [done|]. split; [done|].
  unfold resolve, wouldHit.
  destruct (IsAlive pl), (hasHit pr b), (isFriendlyFire r pr pl),
    (intersects _ _); reflexivity.
Qed.

(** The two outcomes of the body of the scan for a pair: nothing, when the
    pair is not a projectile and a player that passes the four tests, or
    one hit. *)
Lemma checkPair_cases now x y r cs :
  (checkPair now x y (r, cs) = (r, cs)
   ∧ ∀ a b pr pl, (x = a ∧ y = b) ∨ (x = b ∧ y = a) →
       getProjectile r a = Some pr → getPlayer r b = Some pl →
       wouldHit r pr b pl = false)
  ∨ (∃ a b pr pl c,
       ((x = a ∧ y = b) ∨ (x = b ∧ y = a))
       ∧ getProjectile r a = Some pr ∧ getPlayer r b = Some pl
       ∧ wouldHit r pr b pl = true
       ∧ EntityA c = a ∧ EntityB c = b
       ∧ checkPair now x y (r, cs)
         = (handleCollision a pr b pl r, cs ++ [c])).
Proof.
  unfold checkPair. cbn [fst].
  destruct (entities r !! x) as [[px|jx|ex]|] eqn:Hx;
    destruct (entities r !! y) as [[py|jy|ey]|] eqn:Hy;
    try (left; split; [done|];
         intros a b pr pl [[-> ->]|[-> ->]];
         unfold getProjectile, getPlayer; rewrite ?Hx, ?Hy; congruence).
  - destruct (resolve_wouldHit now y jy x px r cs) as (c & Hc1 & Hc2 & ->).
    destruct (wouldHit r jy x px) eqn:Hw.
    + right. exists y, x, jy, px, c.
      unfold getProjectile, getPlayer. rewrite Hx, Hy. rewrite Hw. auto 10.
    + left. split; [done|].
      intros a b pr pl [[-> ->]|[-> ->]];
        unfold getProjectile, getPlayer; rewrite ?Hx, ?Hy; congruence.
  - destruct (resolve_wouldHit now x jx y py r cs) as (c & Hc1 & Hc2 & ->).
    destruct (wouldHit r jx y py) eqn:Hw.
    + right. exists x, y, jx, py, c.
      unfold getProjectile, getPlayer. rewrite Hx, Hy. auto 10.
    + left. split; [done|].
      intros a b pr pl [[-> ->]|[-> ->]];
        unfold getProjectile, getPlayer; rewrite ?Hx, ?Hy; congruence.
Qed.

(** An invariant of every step is an invariant of the fold. *)
Lemma scan_invariant (Φ : Room * list CollisionInfo → Prop) now
    (l : list (string * string)) (st : Room * list CollisionInfo) :
  (∀ st x y, Φ st → Φ (checkPair now x y st)) →
  Φ st → Φ (fold_left (λ st p, checkPair now p.1 p.2 st) l st).
Proof.
  intros Hstep. revert st.
  induction l as [|[x y] l IH]; intros st H; simpl; [done|].
  apply IH. by apply Hstep.
Qed.

Lemma coreP_getPlayer r k c :
  playerCore r k = Some c ↔ ∃ p, getPlayer r k = Some p ∧ coreP p = c.
Proof.
  unfold playerCore. destruct (getPlayer r k) as [p|]; simpl.
  - split; [intros [= <-]; eauto | intros (? & [= <-] & <-); done].
  - split; [done | intros (? & [=] & _)].
Qed.

Lemma playerCore_None r k : playerCore r k = None ↔ getPlayer r k = None.
Proof. unfold playerCore. by destruct (getPlayer r k). Qed.

Lemma stablePlayer_core pl pl' pl'' :
  stablePlayer pl pl' → coreP pl'' = coreP pl' → stablePlayer pl pl''.
Proof.
  unfold stablePlayer. intros H Hc.
  assert (PlayerBase pl'' = PlayerBase pl' ∧ team pl'' = team pl'
          ∧ MaxHealth pl'' = MaxHealth pl' ∧ PlayerID pl'' = PlayerID pl'
          ∧ IsAlive pl'' = IsAlive pl' ∧ Health pl'' = Health pl'
          ∧ RespawnTime pl'' = RespawnTime pl') as (-> & -> & -> & -> & -> & -> & ->).
  { destruct pl', pl''. unfold coreP in Hc. simpl in *.
    injection Hc; intros; subst; auto 10. }
  done.
Qed.

Lemma stablePlayer_refl pl : stablePlayer pl pl.
Proof. by unfold stablePlayer. Qed.

Lemma stablePlayer_trans pl1 pl2 pl3 :
  stablePlayer pl1 pl2 → stablePlayer pl2 pl3 → stablePlayer pl1 pl3.
Proof.
  unfold stablePlayer.
  intros (A1 & A2 & A3 & A4 & A5) (B1 & B2 & B3 & B4 & B5).
  split; [congruence|]. split; [congruence|]. split; [congruence|].
  split; [congruence|]. intros Hd.
  destruct (A5 Hd) as (Hd' & <- & <-). by apply B5.
Qed.

Lemma stablePlayer_damaged pl pr :
  IsAlive pl = true → stablePlayer pl (damaged pl pr).
Proof.
  intros Ha. unfold stablePlayer, damaged.
  destruct (int_sub (Health pl) (Damage pr) <=? 0); simpl;
    repeat split; congruence.
Qed.

Lemma stableProjectile_refl pr : stableProjectile pr pr.
Proof. exists []. rewrite app_nil_r. by destruct pr. Qed.

Lemma stableProjectile_trans pr1 pr2 pr3 :
  stableProjectile pr1 pr2 → stableProjectile pr2 pr3 →
  stableProjectile pr1 pr3.
Proof.
  intros [h1 ->] [h2 ->]. exists (h1 ++ h2). simpl. by rewrite app_assoc.
Qed.

Lemma scanned_refl r : scanned r r.
Proof.
  unfold scanned. repeat split; try done; intros k.
  - destruct (getProjectile r k); constructor. apply stableProjectile_refl.
  - destruct (getPlayer r k); constructor. apply stablePlayer_refl.
Qed.

Lemma scanned_trans r1 r2 r3 : scanned r1 r2 → scanned r2 r3 → scanned r1 r3.
Proof.
  intros (A1 & A2 & A3 & A4 & A5) (B1 & B2 & B3 & B4 & B5).
  split; [|split; [|split; [|split]]].
  - intros k. specialize (A1 k). specialize (B1 k).
    destruct A1 as [p1 p2 H12|]; inversion B1; subst; constructor.
    eauto using stableProjectile_trans.
  - intros k. specialize (A2 k). specialize (B2 k).
    destruct A2 as [p1 p2 H12|]; inversion B2; subst; constructor.
    eauto using stablePlayer_trans.
  - intros k. by rewrite B3, A3.
  - congruence.
  - congruence.
Qed.

(** A hit changes the room within the bounds of [scanned]. *)
Lemma handleCollision_scanned a pr b pl r :
  getProjectile r a = Some pr → getPlayer r b = Some pl →
  IsAlive pl = true →
  scanned r (handleCollision a pr b pl r).
Proof.
  intros Ha Hb Halive.
  destruct (handleCollision_view a pr b pl r Ha Hb) as (H1 & H2 & H3 & H4 & H5).
  split; [|split; [|split; [|split]]]; try done.
  - intros k. rewrite H1. case_decide as Hk.
    + subst k. rewrite Ha. constructor. by exists [b].
    + destruct (getProjectile r k); constructor. apply stableProjectile_refl.
  - intros k. specialize (H2 k). case_decide as Hk.
    + subst k. apply coreP_getPlayer in H2 as (p' & -> & Hc).
      rewrite Hb. constructor.
      eapply stablePlayer_core; [by apply stablePlayer_damaged | done].
    + destruct (getPlayer r k) as [p|] eqn:Hp.
      * assert (playerCore r k = Some (coreP p)) as Hpc
          by (unfold playerCore; by rewrite Hp).
        rewrite Hpc in H2. apply coreP_getPlayer in H2 as (p' & -> & Hc).
        constructor. eapply stablePlayer_core; [apply stablePlayer_refl|done].
      * assert (playerCore r k = None) as Hpc by (by apply playerCore_None).
        rewrite Hpc in H2. apply playerCore_None in H2 as ->. constructor.
Qed.

Lemma wouldHit_alive r pr b pl : wouldHit r pr b pl = true → IsAlive pl = true.
Proof. unfold wouldHit. by destruct (IsAlive pl). Qed.

Lemma checkPair_scanned now x y st : scanned st.1 (checkPair now x y st).1.
Proof.
  destruct st as [r cs].
  destruct (checkPair_cases now x y r cs)
    as [[-> _]|(a & b & pr & pl & c & _ & Ha & Hb & Hw & _ & _ & ->)].
  - apply scanned_refl.
  - simpl. apply handleCollision_scanned; eauto using wouldHit_alive.
Qed.

Lemma scan_scanned now l st :
  scanned st.1 (fold_left (λ st p, checkPair now p.1 p.2 st) l st).1.
Proof.
  apply (scan_invariant (λ st', scanned st.1 st'.1)).
  - intros st' x y H. eapply scanned_trans; [done|apply checkPair_scanned].
  - apply scanned_refl.
Qed.

(** The collision scan changes a room within the bounds of [scanned]. *)
Lemma detectCollisions_scanned now order r :
  scanned r (detectCollisions now order r).1.
Proof. apply (scan_scanned now (pairs order) (r, [])). Qed.


(** *** A projectile hits a player at most once *)

Lemma hitsOf_snoc a b cs (c : CollisionInfo) :
  hitsOf a b (cs ++ [c])
  = hitsOf a b cs ++ (if decide (EntityA c = a ∧ EntityB c = b) then [c] else []).
Proof. unfold hitsOf. by rewrite filter_app. Qed.

Lemma hitsOf_app a b cs1 cs2 :
  hitsOf a b (cs1 ++ cs2) = hitsOf a b cs1 ++ hitsOf a b cs2.
Proof. unfold hitsOf. by rewrite filter_app. Qed.

Lemma spent_scanned a b r r' : scanned r r' → spent a b r → spent a b r'.
Proof.
  intros (H1 & _) Hs pr' Hpr'. specialize (H1 a). rewrite Hpr' in H1.
  inversion H1 as [pr ? [hs ->] Heq|]; subst.
  simpl. apply elem_of_app. left. by apply Hs.
Qed.

Lemma checkPair_once now a b x y st :
  let st' := checkPair now x y st in
  (spent a b st.1 → spent a b st'.1 ∧ hitsOf a b st'.2 = hitsOf a b st.2)
  ∧ (hitsOf a b st'.2 = hitsOf a b st.2
     ∨ (∃ c, hitsOf a b st'.2 = hitsOf a b st.2 ++ [c]) ∧ spent a b st'.1).
Proof.
  intros st'.
  assert (spent a b st.1 → spent a b st'.1) as Hmono.
  { apply spent_scanned, checkPair_scanned. }
  subst st'. destruct st as [r cs].
  destruct (checkPair_cases now x y r cs)
    as [[-> _]|(a' & b' & pr & pl & c & _ & Ha & Hb & Hw & Hca & Hcb & Heq)].
  { split; [done | by left]. }
  rewrite Heq in *. simpl in *. rewrite hitsOf_snoc.
  destruct (decide (EntityA c = a ∧ EntityB c = b)) as [[Ea Eb]|Hne].
  - assert (a' = a) as -> by congruence. assert (b' = b) as -> by congruence.
    assert (¬ spent a b r) as Hns.
    { intros Hs. specialize (Hs pr Ha). apply hasHit_elem_of in Hs.
      unfold wouldHit in Hw. rewrite Hs in Hw.
      by destruct (IsAlive pl). }
    split; [done|]. right. split; [eauto|].
    intros pr' Hpr'.
    destruct (handleCollision_view a pr b pl r Ha Hb) as (H1 & _).
    rewrite H1, decide_True in Hpr' by done. injection Hpr' as <-.
    simpl. apply elem_of_app. right. by apply list_elem_of_singleton.
  - rewrite app_nil_r. split; [auto | by left].
Qed.

Lemma scan_once now a b l st :
  let st' := fold_left (λ st p, checkPair now p.1 p.2 st) l st in
  (spent a b st.1 → spent a b st'.1 ∧ hitsOf a b st'.2 = hitsOf a b st.2)
  ∧ (hitsOf a b st'.2 = hitsOf a b st.2
     ∨ (∃ c, hitsOf a b st'.2 = hitsOf a b st.2 ++ [c]) ∧ spent a b st'.1).
Proof.
  revert st. induction l as [|[x y] l IH]; intros st; simpl.
  { split; [done | by left]. }
  destruct (checkPair_once now a b x y st) as (H1 & H2).
  destruct (IH (checkPair now x y st)) as (G1 & G2).
  split.
  - intros Hs. destruct (H1 Hs) as (Hs' & <-). by apply G1.
  - destruct H2 as [<-|((c & Hc) & Hs)]; [done|].
    destruct (G1 Hs) as (Hs' & Heq). right. split; [|done].
    exists c. by rewrite Heq.
Qed.

(** One scan: no hit of [a] on [b] if [b] is in the hit-set of [a], at most
    one hit otherwise, after which [b] is in the hit-set. *)
Lemma detectCollisions_once now order a b r :
  let res := detectCollisions now order r in
  (spent a b r → spent a b res.1 ∧ hitsOf a b res.2 = [])
  ∧ (hitsOf a b res.2 = []
     ∨ (∃ c, hitsOf a b res.2 = [c]) ∧ spent a b res.1).
Proof. apply (scan_once now a b (pairs order) (r, [])). Qed.

(** *** The entity update *)

Lemma updateEntities_getProjectile deltaTime rnd r k :
  getProjectile (updateEntities deltaTime rnd r) k
  = getProjectile r k ≫= updateProjectile deltaTime.
Proof.
  unfold getProjectile, updateEntities. simpl. rewrite map_lookup_imap.
  destruct (entities r !! k) as [[p|p|p]|]; simpl; try done.
  by destruct (updateProjectile deltaTime p).
Qed.

Lemma updateEntities_getPlayer deltaTime rnd r k :
  getPlayer (updateEntities deltaTime rnd r) k
  = updatePlayer deltaTime (rnd k) <$> getPlayer r k.
Proof.
  unfold getPlayer, updateEntities. simpl. rewrite map_lookup_imap.
  destruct (entities r !! k) as [[p|p|p]|]; simpl; try done.
  by destruct (updateProjectile deltaTime p).
Qed.

Lemma updateProjectile_Some deltaTime pr pr' :
  updateProjectile deltaTime pr = Some pr' →
  HitEntities pr' = HitEntities pr ∧ OwnerID pr' = OwnerID pr
  ∧ Damage pr' = Damage pr ∧ SkillID pr' = SkillID pr
  ∧ LifeTime pr' = (LifeTime pr - deltaTime)%float
  ∧ (LifeTime pr - deltaTime <=? 0)%float = false.
Proof.
  unfold updateProjectile. simpl.
  destruct (LifeTime pr - deltaTime <=? 0)%float eqn:E; [done|].
  by intros [= <-].
Qed.

Lemma updateEntities_spent deltaTime rnd a b r :
  spent a b r → spent a b (updateEntities deltaTime rnd r).
Proof.
  intros Hs pr' Hpr'. rewrite updateEntities_getProjectile in Hpr'.
  destruct (getProjectile r a) as [pr|] eqn:Hpr; [|done]. simpl in Hpr'.
  apply updateProjectile_Some in Hpr' as (-> & _). by apply Hs.
Qed.

Lemma checkGameEnd_entities now r : entities (checkGameEnd now r) = entities r.
Proof.
  unfold checkGameEnd, endGame.
  destruct (_ <=? _)%float; [done|]. by destruct (existsb _ _).
Qed.

Lemma checkGameStart_entities now r :
  entities (checkGameStart now r) = entities r.
Proof.
  unfold checkGameStart, startGame.
  destruct (_ <? _)%nat; [done|]. by destruct (forallb _ _).
Qed.

(** The entities after a tick of a playing room: the update, then the
    scan. *)
Lemma update_entities now order rnd r :
  ∃ deltaTime r1,
    entities r1 = entities r ∧ FriendlyFire r1 = FriendlyFire r
    ∧ entities (update now order rnd r).1
      = entities (detectCollisions now order
                    (updateEntities deltaTime rnd r1)).1
    ∧ (update now order rnd r).2
      = (detectCollisions now order (updateEntities deltaTime rnd r1)).2.
Proof.
  unfold update.
  exists (Seconds (Sub now (lastFrameTime r))),
    (set_frameID (int_add (frameID r) 1) (set_lastFrameTime now r)).
  split; [done|]. split; [done|].
  destruct (detectCollisions _ _ _) as [r3 cs]. simpl.
  by rewrite checkGameEnd_entities.
Qed.

Lemma spent_entities a b r r' :
  entities r' = entities r → spent a b r → spent a b r'.
Proof. unfold spent, getProjectile. by intros ->. Qed.

Lemma gameLoopTick_once i a b r :
  let res := gameLoopTick (tickNow i) (tickOrder i) (tickRnd i) r in
  (spent a b r → spent a b res.1 ∧ hitsOf a b res.2 = [])
  ∧ (hitsOf a b res.2 = []
     ∨ (∃ c, hitsOf a b res.2 = [c]) ∧ spent a b res.1).
Proof.
  unfold gameLoopTick. destruct (Status r).
  - simpl. split; [|by left]. intros Hs. split; [|done].
    eapply spent_entities; [apply checkGameStart_entities|done].
  - destruct (update_entities (tickNow i) (tickOrder i) (tickRnd i) r)
      as (dt & r1 & He & _ & He' & ->).
    destruct (detectCollisions_once (tickNow i) (tickOrder i) a b
                (updateEntities dt (tickRnd i) r1)) as (H1 & H2).
    split.
    + intros Hs. destruct H1 as (Hs' & ->).
      { apply updateEntities_spent. by eapply spent_entities. }
      split; [|done]. by eapply spent_entities.
    + destruct H2 as [->|(Hc & Hs)]; [by left|]. right. split; [done|].
      by eapply spent_entities.
  - simpl. split; [done | by left].
Qed.

Lemma runTicks_cons i inputs r :
  runTicks (i :: inputs) r
  = let res := gameLoopTick (tickNow i) (tickOrder i) (tickRnd i) r in
    ((runTicks inputs res.1).1, res.2 ++ (runTicks inputs res.1).2).
Proof.
  simpl. destruct (gameLoopTick _ _ _ r) as [r1 c1]. simpl.
  by destruct (runTicks inputs r1).
Qed.

Lemma runTicks_once inputs a b r :
  let res := runTicks inputs r in
  (spent a b r → spent a b res.1 ∧ hitsOf a b res.2 = [])
  ∧ (hitsOf a b res.2 = []
     ∨ (∃ c, hitsOf a b res.2 = [c]) ∧ spent a b res.1).
Proof.
  revert r. induction inputs as [|i inputs IH]; intros r.
  { simpl. split; [done | by left]. }
  rewrite runTicks_cons. cbv zeta. simpl.
  destruct (gameLoopTick_once i a b r) as (H1 & H2).
  destruct (IH (gameLoopTick (tickNow i) (tickOrder i) (tickRnd i) r).1)
    as (G1 & G2).
  rewrite hitsOf_app. split.
  - intros Hs. destruct (H1 Hs) as (Hs' & ->).
    destruct (G1 Hs') as (Hs'' & ->). done.
  - destruct H2 as [->|((c & ->) & Hs)]; [done|].
    destruct (G1 Hs) as (Hs' & ->). right. eauto.
Qed.

(** *** The health floor *)

Lemma healthy_core p q : coreP p = coreP q → healthy p → healthy q.
Proof.
  intros Hc. unfold healthy.
  assert (MaxHealth q = MaxHealth p ∧ Health q = Health p
          ∧ IsAlive q = IsAlive p) as (-> & -> & ->); [|done].
  destruct p, q. unfold coreP in Hc. simpl in *.
  injection Hc; intros; subst; auto.
Qed.

Lemma healthy_damaged pl pr :
  IsAlive pl = true → 0 < MaxHealth pl → healthy (damaged pl pr).
Proof.
  intros Ha Hm. unfold healthy, damaged.
  destruct (int_sub (Health pl) (Damage pr) <=? 0) eqn:E; simpl.
  - split; [done|]. split; [done|]. split; [done | lia].
  - apply Z.leb_gt in E. rewrite Ha. split; [done|]. split; [lia | done].
Qed.

Lemma healthy_updatePlayer deltaTime u pl :
  healthy pl → healthy (updatePlayer deltaTime u pl).
Proof.
  intros (Hm & Hh & Ha). unfold healthy, updatePlayer.
  destruct (IsAlive pl) eqn:E; simpl; [by rewrite E|].
  destruct (int_sub (RespawnTime pl) (int_of_float deltaTime) <=? 0); simpl.
  - split; [done|]. split; [lia | done].
  - by rewrite E.
Qed.

Lemma checkPair_healthy now x y st :
  healthInvariant st.1 → healthInvariant (checkPair now x y st).1.
Proof.
  destruct st as [r cs]. intros Hinv.
  destruct (checkPair_cases now x y r cs)
    as [[-> _]|(a & b & pr & pl & c & _ & Ha & Hb & Hw & _ & _ & ->)];
    [exact Hinv|].
  simpl in *. intros k p' Hp'.
  destruct (handleCollision_view a pr b pl r Ha Hb) as (_ & H2 & _).
  specialize (H2 k).
  assert (playerCore (handleCollision a pr b pl r) k = Some (coreP p')) as Hc.
  { unfold playerCore. by rewrite Hp'. }
  rewrite Hc in H2. case_decide as Hk.
  - assert (coreP (damaged pl pr) = coreP p') as Hcd by congruence.
    apply (healthy_core (damaged pl pr)); [done|].
    apply healthy_damaged; [by eapply wouldHit_alive|].
    by destruct (Hinv b pl Hb).
  - symmetry in H2. apply coreP_getPlayer in H2 as (p & Hp & Hpc).
    apply (healthy_core p); [done|]. by apply (Hinv k).
Qed.

Lemma detectCollisions_healthy now order r :
  healthInvariant r → healthInvariant (detectCollisions now order r).1.
Proof.
  apply (scan_invariant (λ st, healthInvariant st.1) now (pairs order) (r, [])).
  intros st x y. apply checkPair_healthy.
Qed.

Lemma updateEntities_healthy deltaTime rnd r :
  healthInvariant r → healthInvariant (updateEntities deltaTime rnd r).
Proof.
  intros Hinv k p' Hp'. rewrite updateEntities_getPlayer in Hp'.
  destruct (getPlayer r k) as [p|] eqn:Hp; [|done].
  injection Hp' as <-. apply healthy_updatePlayer. by apply (Hinv k).
Qed.

Lemma healthInvariant_entities r r' :
  entities r' = entities r → healthInvariant r → healthInvariant r'.
Proof. unfold healthInvariant, getPlayer. by intros ->. Qed.

Lemma gameLoopTick_healthy i r :
  healthInvariant r →
  healthInvariant (gameLoopTick (tickNow i) (tickOrder i) (tickRnd i) r).1.
Proof.
  intros Hinv. unfold gameLoopTick. destruct (Status r); simpl.
  - eapply healthInvariant_entities; [apply checkGameStart_entities|done].
  - destruct (update_entities (tickNow i) (tickOrder i) (tickRnd i) r)
      as (dt & r1 & He & _ & He' & _).
    eapply healthInvariant_entities; [exact He'|].
    apply detectCollisions_healthy, updateEntities_healthy.
    by eapply healthInvariant_entities.
  - done.
Qed.

Lemma runTicks_healthy inputs r :
  healthInvariant r → healthInvariant (runTicks inputs r).1.
Proof.
  revert r. induction inputs as [|i inputs IH]; intros r Hinv; [done|].
  rewrite runTicks_cons. simpl. by apply IH, gameLoopTick_healthy.
Qed.

(** The rooms the server builds satisfy the invariant. *)
Lemma NewRoom_healthy roomID now name mode maxPlayers mapID :
  healthInvariant (NewRoom roomID now name mode maxPlayers mapID).
Proof. intros k p. unfold getPlayer. simpl. by rewrite lookup_empty. Qed.

Lemma AddPlayer_healthy connID conn characterID entityID u now r r' e :
  AddPlayer connID conn characterID entityID u now r = Returns (r', e) →
  healthInvariant r → healthInvariant r'.
Proof.
  intros Hadd Hinv.
  destruct (decide (MaxPlayers r <= Z.of_nat (size (players r)))) as [Hf|Hf].
  { rewrite AddPlayer_full in Hadd by done. by injection Hadd as <- _. }
  destruct (decide (Status r = RoomWaiting)) as [Hs|Hs].
  2: { rewrite AddPlayer_closed in Hadd by done. by injection Hadd as <- _. }
  rewrite AddPlayer_open in Hadd by done.
  destruct (assignTeam WriteLocked r) as [t| |]; simpl in Hadd; [|done|done].
  injection Hadd as <- _.
  intros k q. unfold getPlayer. simpl.
  destruct (decide (k = entityID)) as [->|Hne].
  - rewrite lookup_insert_eq. intros [= <-]. unfold healthy. simpl.
    split; [lia|]. split; [lia|]. split; [lia | done].
  - rewrite lookup_insert_ne by done. apply (Hinv k).
Qed.

(** The player a hit leaves behind. *)
Lemma handleCollision_victim a pr b pl r :
  getProjectile r a = Some pr → getPlayer r b = Some pl →
  ∃ pl', getPlayer (handleCollision a pr b pl r) b = Some pl'
         ∧ coreP pl' = coreP (damaged pl pr).
Proof.
  intros Ha Hb.
  destruct (handleCollision_view a pr b pl r Ha Hb) as (_ & H2 & _).
  specialize (H2 b). rewrite decide_True in H2 by done.
  by apply coreP_getPlayer in H2.
Qed.

Lemma coreP_vitals p q :
  coreP p = coreP q →
  Health p = Health q ∧ IsAlive p = IsAlive q
  ∧ RespawnTime p = RespawnTime q ∧ MaxHealth p = MaxHealth q
  ∧ team p = team q ∧ PlayerBase p = PlayerBase q.
Proof.
  intros Hc. destruct p, q. unfold coreP in Hc. simpl in *.
  injection Hc; intros; subst; auto 10.
Qed.

(** C2.  Health never goes below zero and the alive flag is true exactly
    when health is positive: this invariant of a room's player entities is
    kept by every run of game loop ticks.  A hit leaves the player with
    the health minus the damage if that is positive and otherwise with
    health 0, dead, and the respawn countdown at 5.  The collision scan
    leaves a dead player dead; the entity update makes a dead player alive
    only when its countdown, the tick's whole seconds taken off, is zero
    or less, and then its health is its maximum health. *)
Theorem health_floor :
  (∀ inputs r, healthInvariant r → healthInvariant (runTicks inputs r).1)
  ∧ (∀ a pr b pl r,
       getProjectile r a = Some pr → getPlayer r b = Some pl →
       ∃ pl', getPlayer (handleCollision a pr b pl r) b = Some pl'
              ∧ 0 <= Health pl'
              ∧ (int_sub (Health pl) (Damage pr) <= 0 →
                 Health pl' = 0 ∧ IsAlive pl' = false ∧ RespawnTime pl' = 5)
              ∧ (0 < int_sub (Health pl) (Damage pr) →
                 Health pl' = int_sub (Health pl) (Damage pr)
                 ∧ IsAlive pl' = IsAlive pl))
  ∧ (∀ now order r k pl,
       getPlayer r k = Some pl → IsAlive pl = false →
       ∃ pl', getPlayer (detectCollisions now order r).1 k = Some pl'
              ∧ IsAlive pl' = false ∧ Health pl' = Health pl
              ∧ RespawnTime pl' = RespawnTime pl)
  ∧ (∀ deltaTime rnd r k pl pl',
       getPlayer r k = Some pl → IsAlive pl = false →
       getPlayer (updateEntities deltaTime rnd r) k = Some pl' →
       IsAlive pl' = true →
       RespawnTime pl' = int_sub (RespawnTime pl) (int_of_float deltaTime)
       ∧ RespawnTime pl' <= 0
       ∧ Health pl' = MaxHealth pl').
Proof.
  split; [exact runTicks_healthy|]. split; [|split].
  - intros a pr b pl r Ha Hb.
    destruct (handleCollision_victim a pr b pl r Ha Hb) as (pl' & Hpl' & Hc).
    exists pl'. split; [done|].
    apply coreP_vitals in Hc as (-> & -> & -> & _).
    unfold damaged.
    destruct (int_sub (Health pl) (Damage pr) <=? 0) eqn:E; simpl.
    + apply Z.leb_le in E. split; [done|]. split; [done|]. lia.
    + apply Z.leb_gt in E. split; [lia|]. split; [lia|done].
  - intros now order r k pl Hpl Hd.
    destruct (detectCollisions_scanned now order r) as (_ & H2 & _).
    specialize (H2 k). rewrite Hpl in H2.
    inversion H2 as [pl0 pl' Hst Heq0 Heq'|]; subst.
    destruct Hst as (_ & _ & _ & _ & Hs).
    exists pl'. split; [done|]. by apply Hs.
  - intros deltaTime rnd r k pl pl' Hpl Hd Hpl' Ha.
    rewrite updateEntities_getPlayer, Hpl in Hpl'. injection Hpl' as <-.
    rewrite updatePlayer_countdown by done.
    destruct (decide (int_sub (RespawnTime pl) (int_of_float deltaTime) <= 0))
      as [Hle|Hgt].
    + destruct (updatePlayer_respawn deltaTime (rnd k) pl Hd Hle)
        as (_ & -> & -> & _). done.
    + rewrite updatePlayer_waiting in Ha by (done || lia).
      simpl in Ha. congruence.
Qed.

(** *** Friendly fire, and a projectile among many players *)

Lemma scanned_getProjectile r r' k pr :
  scanned r r' → getProjectile r k = Some pr →
  ∃ pr', getProjectile r' k = Some pr' ∧ stableProjectile pr pr'.
Proof.
  intros (H1 & _) Hpr. specialize (H1 k). rewrite Hpr in H1.
  inversion H1; subst. eauto.
Qed.

Lemma scanned_getProjectile_None r r' k :
  scanned r r' → getProjectile r k = None → getProjectile r' k = None.
Proof.
  intros (H1 & _) Hpr. specialize (H1 k). rewrite Hpr in H1.
  by inversion H1.
Qed.

Lemma scanned_getPlayer r r' k pl :
  scanned r r' → getPlayer r k = Some pl →
  ∃ pl', getPlayer r' k = Some pl' ∧ stablePlayer pl pl'.
Proof.
  intros (_ & H2 & _) Hpl. specialize (H2 k). rewrite Hpl in H2.
  inversion H2; subst. eauto.
Qed.

Lemma scanned_getPlayer_None r r' k :
  scanned r r' → getPlayer r k = None → getPlayer r' k = None.
Proof.
  intros (_ & H2 & _) Hpl. specialize (H2 k). rewrite Hpl in H2.
  by inversion H2.
Qed.

Lemma isFriendlyFire_owner r pr pl :
  isFriendlyFire r pr pl
  = match (if String.eqb (OwnerID pr) "" then None
           else getPlayer r (OwnerID pr)) with
    | Some ownerPlayer =>
        bool_decide (team ownerPlayer = team pl)
        && negb (bool_decide (team ownerPlayer = TeamNone))
        && negb (FriendlyFire r)
    | None => false
    end.
Proof.
  unfold isFriendlyFire, getPlayer.
  destruct (String.eqb (OwnerID pr) ""); [done|].
  by destruct (entities r !! OwnerID pr) as [[]|].
Qed.

(** The friendly-fire test gives the same answer all through a scan. *)
Lemma isFriendlyFire_scanned r r' pr pr' pl pl' :
  scanned r r' → stableProjectile pr pr' → stablePlayer pl pl' →
  isFriendlyFire r' pr' pl' = isFriendlyFire r pr pl.
Proof.
  intros Hs [hs ->] (_ & Ht & _). rewrite !isFriendlyFire_owner. simpl.
  destruct (String.eqb (OwnerID pr) ""); [done|].
  destruct Hs as (_ & H2 & _ & -> & _). specialize (H2 (OwnerID pr)).
  inversion H2 as [po po' (_ & Hto & _)|]; [|done].
  by rewrite Ht, Hto.
Qed.

Lemma isFriendlyFire_teammate r pr po pl :
  FriendlyFire r = false → OwnerID pr ≠ "" →
  getPlayer r (OwnerID pr) = Some po →
  team po = team pl → team po ≠ TeamNone →
  isFriendlyFire r pr pl = true.
Proof.
  intros Hff Ho Hpo Ht Hn. rewrite isFriendlyFire_owner.
  apply String.eqb_neq in Ho as ->. rewrite Hpo, Hff.
  rewrite bool_decide_eq_true_2 by done.
  by rewrite bool_decide_eq_false_2 by done.
Qed.

Lemma isFriendlyFire_enabled r pr pl :
  FriendlyFire r = true → isFriendlyFire r pr pl = false.
Proof.
  intros Hff. rewrite isFriendlyFire_owner, Hff.
  destruct (if String.eqb _ _ then _ else _); [|done].
  by rewrite !andb_false_r.
Qed.

(** With friendly fire off, a projectile of a teammate is never applied
    to the player, whatever else is in the room. *)
Lemma teammate_never_hit now order r a b pr po pl :
  getProjectile r a = Some pr → OwnerID pr ≠ "" →
  getPlayer r (OwnerID pr) = Some po → getPlayer r b = Some pl →
  team po = team pl → team po ≠ TeamNone →
  FriendlyFire r = false →
  hitsOf a b (detectCollisions now order r).2 = [].
Proof.
  intros Ha Ho Hpo Hb Ht Hn Hff.
  apply (scan_invariant
           (λ st, scanned r st.1 ∧ hitsOf a b st.2 = []) now (pairs order)
           (r, [])); [|split; [apply scanned_refl|done]].
  intros [r1 cs] x y [Hs Hnil]. simpl in *.
  split; [eapply scanned_trans; [done|apply (checkPair_scanned now x y (r1, cs))]|].
  destruct (checkPair_cases now x y r1 cs)
    as [[-> _]|(a' & b' & pr1 & pl1 & c & _ & Ha1 & Hb1 & Hw & Hca & Hcb & ->)];
    [done|].
  simpl. rewrite hitsOf_snoc, Hnil. simpl.
  case_decide as Hc; [|done]. destruct Hc as [Ea Eb].
  assert (a' = a) as -> by congruence. assert (b' = b) as -> by congruence.
  destruct (scanned_getProjectile r r1 a pr Hs Ha) as (pr' & Hpr' & Hsp).
  destruct (scanned_getPlayer r r1 b pl Hs Hb) as (pl' & Hpl' & Hsl).
  assert (pr' = pr1) as -> by congruence. assert (pl' = pl1) as -> by congruence.
  assert (isFriendlyFire r1 pr1 pl1 = true) as Hf.
  { rewrite (isFriendlyFire_scanned r r1 pr pr1 pl pl1) by done.
    by eapply isFriendlyFire_teammate. }
  unfold wouldHit in Hw. rewrite Hf in Hw.
  by destruct (IsAlive pl1), (hasHit pr1 b).
Qed.

(** The pairs of the two loops. *)
Lemma pairs_touch {A} (l : list A) (x y : A) :
  x ∈ l → y ∈ l → x ≠ y → (x, y) ∈ pairs l ∨ (y, x) ∈ pairs l.
Proof.
  induction l as [|z l IH]; intros Hx Hy Hne; [by apply elem_of_nil in Hx|].
  simpl. apply elem_of_cons in Hx as [->|Hx]; apply elem_of_cons in Hy as [->|Hy].
  - done.
  - left. apply elem_of_app. left. by apply list_elem_of_fmap_2.
  - right. apply elem_of_app. left. by apply list_elem_of_fmap_2.
  - destruct (IH Hx Hy Hne); [left | right]; apply elem_of_app; by right.
Qed.

Section SoleProjectile.

Variables (now : Time) (r0 : Room) (a b : string) (pr0 : ProjectileEntity)
  (pl0 : PlayerEntity).
Hypothesis Ha0 : getProjectile r0 a = Some pr0.
Hypothesis Hsole : soleProjectile a r0.
Hypothesis Hb0 : getPlayer r0 b = Some pl0.

Abbreviation before := (untouched a b pr0 pl0).
Abbreviation after := (struck a b pr0 pl0).

Lemma sole_ab : a ≠ b.
Proof.
  intros ->. unfold getProjectile, getPlayer in *.
  by destruct (entities r0 !! b) as [[]|].
Qed.

Lemma wouldHit_before (st : Room * list CollisionInfo) pr pl :
  scanned r0 st.1 → before st →
  getProjectile st.1 a = Some pr → getPlayer st.1 b = Some pl →
  wouldHit st.1 pr b pl = wouldHit r0 pr0 b pl0.
Proof.
  intros Hs (Hc & Hm & _) Hpr Hpl.
  destruct (scanned_getProjectile r0 st.1 a pr0 Hs Ha0) as (pr' & Hpr' & Hsp).
  assert (pr' = pr) as -> by congruence.
  assert (coreP pl = coreP pl0) as Hcore.
  { unfold playerCore in Hc. rewrite Hpl in Hc. simpl in Hc. congruence. }
  assert (stablePlayer pl0 pl) as Hsl.
  { eapply stablePlayer_core; [apply stablePlayer_refl|done]. }
  unfold wouldHit.
  rewrite (isFriendlyFire_scanned r0 st.1 pr0 pr pl0 pl) by done.
  destruct (coreP_vitals _ _ Hcore) as (_ & -> & _ & _ & _ & ->).
  assert (hasHit pr b = hasHit pr0 b) as ->.
  { apply eq_true_iff_eq. rewrite !hasHit_elem_of. by apply Hm. }
  destruct Hsp as [hs ->]. done.
Qed.

Lemma damaged_core pl pr :
  coreP pl = coreP pl0 → Damage pr = Damage pr0 →
  coreP (damaged pl pr) = coreP (damaged pl0 pr0).
Proof.
  intros Hc Hd. unfold damaged. rewrite Hd.
  destruct (coreP_vitals _ _ Hc) as (-> & _).
  destruct (int_sub (Health pl0) (Damage pr0) <=? 0);
    destruct pl, pl0; unfold coreP in *; simpl in *;
    injection Hc; intros; subst; reflexivity.
Qed.

Lemma sole_step (x y : string) (st : Room * list CollisionInfo) :
  scanned r0 st.1 →
  let st' := checkPair now x y st in
  (after st → after st')
  ∧ (before st →
     if wouldHit r0 pr0 b pl0 && touching a b (x, y) then after st'
     else before st').
Proof.
  intros Hs st'. subst st'. destruct st as [r cs]. simpl in Hs.
  destruct (checkPair_cases now x y r cs)
    as [[-> Hno]|(a' & b' & pr & pl & c & Hxy & Ha & Hb & Hw & Hca & Hcb & Heq)].
  { split; [done|]. intros Hbef.
    destruct (wouldHit r0 pr0 b pl0 && touching a b (x, y)) eqn:E; [|done].
    apply andb_true_iff in E as [Ew Et].
    apply bool_decide_eq_true in Et. simpl in Et.
    destruct (scanned_getProjectile r0 r a pr0 Hs Ha0) as (pr & Hpr & _).
    destruct (scanned_getPlayer r0 r b pl0 Hs Hb0) as (pl & Hpl & _).
    rewrite <- (wouldHit_before (r, cs) pr pl) in Ew by done.
    simpl in Ew. by rewrite (Hno a b pr pl Et Hpr Hpl) in Ew. }
  assert (a' = a) as ->.
  { destruct (decide (a' = a)) as [|Hne]; [done|].
    rewrite (scanned_getProjectile_None r0 r a' Hs (Hsole a' Hne)) in Ha.
    done. }
  rewrite Heq.
  destruct (handleCollision_view a pr b' pl r Ha Hb) as (H1 & H2 & _).
  destruct (decide (b' = b)) as [->|Hbb].
  - split.
    + intros (_ & Hsp & _). apply Hsp, hasHit_elem_of in Ha.
      unfold wouldHit in Hw. rewrite Ha in Hw. by destruct (IsAlive pl).
    + intros Hbef.
      rewrite <- (wouldHit_before (r, cs) pr pl) by done. simpl. rewrite Hw.
      assert (touching a b (x, y) = true) as ->.
      { apply bool_decide_eq_true. by simpl. }
      simpl. destruct Hbef as (Hc & Hm & Hnil). simpl in *.
      unfold struck. simpl. split; [|split].
      * rewrite H2, decide_True by done. f_equal. apply damaged_core.
        -- unfold playerCore in Hc. rewrite Hb in Hc. simpl in Hc. congruence.
        -- destruct (scanned_getProjectile r0 r a pr0 Hs Ha0)
             as (pr' & Hpr' & [hs ->]).
           assert (pr = set_HitEntities (HitEntities pr0 ++ hs) pr0)
             as -> by congruence.
           done.
      * intros pr'. rewrite H1, decide_True by done. intros [= <-]. simpl.
        apply elem_of_app. right. by apply list_elem_of_singleton.
      * rewrite hitsOf_snoc, Hnil, decide_True by done. eauto.
  - assert (touching a b (x, y) = false) as Ht.
    { apply bool_decide_eq_false. simpl. pose proof sole_ab.
      intros [[-> ->]|[-> ->]]; destruct Hxy as [[? ?]|[? ?]]; congruence. }
    rewrite Ht, andb_false_r.
    assert (hitsOf a b (cs ++ [c]) = hitsOf a b cs) as Hh.
    { rewrite hitsOf_snoc, decide_False, app_nil_r; [done|].
      intros [_ ?]. congruence. }
    split.
    + intros (Hc & Hsp & Hone). simpl in *. unfold struck. simpl.
      split; [|split].
      * by rewrite H2, decide_False.
      * eapply spent_scanned; [|exact Hsp].
        apply handleCollision_scanned; eauto using wouldHit_alive.
      * by rewrite Hh.
    + intros (Hc & Hm & Hnil). simpl in *. unfold untouched. simpl.
      split; [|split].
      * by rewrite H2, decide_False.
      * intros pr'. rewrite H1, decide_True by done. intros [= <-]. simpl.
        rewrite elem_of_app, list_elem_of_singleton, <- (Hm pr Ha).
        split; [intros [?|?]; [done|congruence] | auto].
      * by rewrite Hh.
Qed.

Lemma sole_scan (l : list (string * string)) (st : Room * list CollisionInfo) :
  scanned r0 st.1 →
  let st' := fold_left (λ st p, checkPair now p.1 p.2 st) l st in
  (after st → after st')
  ∧ (before st →
     if wouldHit r0 pr0 b pl0 && existsb (touching a b) l then after st'
     else before st').
Proof.
  revert st. induction l as [|[x y] l IH]; intros st Hs; simpl.
  { split; [done|]. by rewrite andb_false_r. }
  destruct (sole_step x y st Hs) as (S1 & S2).
  destruct (IH (checkPair now x y st)) as (I1 & I2).
  { eapply scanned_trans; [done|apply checkPair_scanned]. }
  split; [auto|]. intros Hbef. specialize (S2 Hbef).
  destruct (wouldHit r0 pr0 b pl0); simpl in *; [|by apply I2].
  destruct (touching a b (x, y)); simpl in *; [by apply I1 | by apply I2].
Qed.

Lemma before_start : before (r0, []).
Proof.
  split; [|split]; simpl; [|intros pr; rewrite Ha0; by intros [= <-]|done].
  unfold playerCore. by rewrite Hb0.
Qed.

(** The scan of a room with one projectile, seen from one player: the
    player is hit exactly when it passes the four tests at the start and
    the snapshot holds both, and then it is hit once. *)
Lemma sole_detectCollisions (order : list string) :
  let res := detectCollisions now order r0 in
  (wouldHit r0 pr0 b pl0 = true → a ∈ order → b ∈ order → after res)
  ∧ (wouldHit r0 pr0 b pl0 = false → before res).
Proof.
  destruct (sole_scan (pairs order) (r0, []) (scanned_refl r0)) as (_ & H).
  specialize (H before_start). split.
  - intros Hw Hia Hib. rewrite Hw in H.
    assert (existsb (touching a b) (pairs order) = true) as Ht.
    { apply existsb_exists.
      destruct (pairs_touch order a b Hia Hib sole_ab) as [Hin|Hin].
      - exists (a, b). split; [by apply list_elem_of_In|].
        apply bool_decide_eq_true. by left.
      - exists (b, a). split; [by apply list_elem_of_In|].
        apply bool_decide_eq_true. by right. }
    by rewrite Ht in H.
  - intros Hw. by rewrite Hw in H.
Qed.

End SoleProjectile.

Lemma update_updated now order rnd r :
  entities (update now order rnd r).1
  = entities (detectCollisions now order (updated now rnd r)).1
  ∧ (update now order rnd r).2
    = (detectCollisions now order (updated now rnd r)).2.
Proof.
  unfold update, updated.
  destruct (detectCollisions _ _ _) as [r3 cs]. simpl.
  by rewrite checkGameEnd_entities.
Qed.


Lemma damaged_reduces pl pr :
  0 < Damage pr → 0 < Health pl → in_int (Damage pr) → in_int (Health pl) →
  Health (damaged pl pr) < Health pl.
Proof.
  intros Hd Hh Hid Hih. unfold damaged, int_sub.
  rewrite wrap_in_int by (unfold in_int in *; lia).
  destruct (Health pl - Damage pr <=? 0) eqn:E; simpl; lia.
Qed.

(** C4.  A projectile [a] whose owner is a player of the room, and a
    player [b] of the owner's team, which is not the none team.  With
    friendly fire off, no scan ever applies [a] to [b]; if [a] is the only
    projectile of the room, [b] leaves the scan with the health it had.
    With friendly fire on, if [a] is the only projectile, [b] is alive, is
    not in the hit-set of [a] and intersects it, and the snapshot holds
    both, the scan applies [a] to [b] exactly once and leaves [b] with the
    health of the hit, which is lower when damage and health are
    positive. *)
Theorem friendly_fire_gate now order r a b pr po pl :
  getProjectile r a = Some pr → OwnerID pr ≠ "" →
  getPlayer r (OwnerID pr) = Some po → getPlayer r b = Some pl →
  team po = team pl → team po ≠ TeamNone →
  (FriendlyFire r = false →
   hitsOf a b (detectCollisions now order r).2 = []
   ∧ (soleProjectile a r →
      ∃ pl', getPlayer (detectCollisions now order r).1 b = Some pl'
             ∧ Health pl' = Health pl ∧ IsAlive pl' = IsAlive pl))
  ∧ (FriendlyFire r = true →
     soleProjectile a r → IsAlive pl = true → b ∉ HitEntities pr →
     intersects (Position (ProjectileBase pr)) (Position (PlayerBase pl))
     = true →
     a ∈ order → b ∈ order →
     (∃ c, hitsOf a b (detectCollisions now order r).2 = [c])
     ∧ ∃ pl', getPlayer (detectCollisions now order r).1 b = Some pl'
              ∧ Health pl' = Health (damaged pl pr)
              ∧ (0 < Damage pr → 0 < Health pl →
                 in_int (Damage pr) → in_int (Health pl) →
                 Health pl' < Health pl)).
Proof.
  intros Ha Ho Hpo Hb Ht Hn. split.
  - intros Hff. split; [by eapply teammate_never_hit|].
    intros Hsole.
    destruct (sole_detectCollisions now r a b pr pl Ha Hsole Hb order)
      as (_ & Hbef).
    destruct Hbef as (Hc & _).
    { unfold wouldHit.
      rewrite (isFriendlyFire_teammate r pr po pl) by done.
      by destruct (IsAlive pl), (hasHit pr b). }
    apply coreP_getPlayer in Hc as (pl' & Hpl' & Hc).
    exists pl'. split; [done|].
    by destruct (coreP_vitals _ _ Hc) as (-> & -> & _).
  - intros Hff Hsole Halive Hnin Hint Hia Hib.
    destruct (sole_detectCollisions now r a b pr pl Ha Hsole Hb order)
      as (Haft & _).
    destruct Haft as (Hc & _ & Hone); [|done|done|].
    { unfold wouldHit. rewrite Halive, Hint, isFriendlyFire_enabled by done.
      assert (hasHit pr b = false) as ->; [|done].
      apply not_true_is_false. by rewrite hasHit_elem_of. }
    split; [done|].
    apply coreP_getPlayer in Hc as (pl' & Hpl' & Hc).
    exists pl'. split; [done|].
    destruct (coreP_vitals _ _ Hc) as (-> & _).
    split; [done|]. apply damaged_reduces.
Qed.

(** *** The life of a projectile *)

Lemma updateProjectile_None deltaTime pr :
  updateProjectile deltaTime pr = None
  ↔ (LifeTime pr - deltaTime <=? 0)%float = true.
Proof.
  unfold updateProjectile. simpl.
  by destruct (LifeTime pr - deltaTime <=? 0)%float.
Qed.

Lemma updateEntities_projectile deltaTime rnd r k pr :
  getProjectile r k = Some pr →
  entities (updateEntities deltaTime rnd r) !! k
  = EProjectile <$> updateProjectile deltaTime pr.
Proof.
  intros Hpr%getProjectile_Some. unfold updateEntities. simpl.
  rewrite map_lookup_imap, Hpr. done.
Qed.

Lemma updateEntities_keeps deltaTime rnd r k e :
  entities r !! k = Some e →
  (∀ pr, e ≠ EProjectile pr) →
  is_Some (entities (updateEntities deltaTime rnd r) !! k).
Proof.
  intros He Hn. unfold updateEntities. simpl. rewrite map_lookup_imap, He.
  destruct e as [p|p|p]; simpl; eauto. by destruct (Hn p).
Qed.

Lemma update_gone now order rnd r k pr :
  getProjectile r k = Some pr →
  entities (update now order rnd r).1 !! k = None →
  (LifeTime pr - Seconds (Sub now (lastFrameTime r)) <=? 0)%float = true.
Proof.
  intros Hpr Hgone. unfold update in Hgone.
  set (dt := Seconds (Sub now (lastFrameTime r))) in *.
  set (r1 := set_frameID (int_add (frameID r) 1) (set_lastFrameTime now r))
    in *.
  destruct (detectCollisions_scanned now order (updateEntities dt rnd r1))
    as (_ & _ & Hdom & _).
  destruct (detectCollisions now order (updateEntities dt rnd r1))
    as [r3 cs]. cbn [fst snd] in Hgone, Hdom.
  rewrite checkGameEnd_entities in Hgone.
  assert (entities (updateEntities dt rnd r1) !! k = None) as Hnone.
  { apply eq_None_not_Some. rewrite <- Hdom. by apply eq_None_not_Some. }
  rewrite (updateEntities_projectile dt rnd r1 k pr) in Hnone by done.
  apply updateProjectile_None. by destruct (updateProjectile dt pr).
Qed.

(** The crowd. *)
Lemma bystander_inj i j : bystander i = bystander j → i = j.
Proof.
  unfold bystander. intros H. apply (inj (String.app "p")) in H.
  by apply (inj pretty) in H.
Qed.

Lemma crowd_projectile n :
  getProjectile (crowd n) "s1" = Some (shotAt "q1" 5 0).
Proof.
  unfold getProjectile, crowd. simpl.
  induction n as [|n IH]; simpl; [done|].
  by rewrite lookup_insert_ne.
Qed.

Lemma crowd_sole n : soleProjectile "s1" (crowd n).
Proof.
  intros k Hk. unfold getProjectile, crowd. simpl.
  induction n as [|n IH]; simpl.
  - by rewrite lookup_singleton_ne.
  - destruct (decide (k = bystander n)) as [->|Hne].
    + by rewrite lookup_insert_eq.
    + by rewrite lookup_insert_ne.
Qed.

Lemma crowd_player n i :
  (i < n)%nat →
  getPlayer (crowd n) (bystander i)
  = Some (playerAt (Z.of_nat i) TeamNone 0 0).
Proof.
  unfold getPlayer, crowd. simpl.
  induction n as [|n IH]; intros Hi; simpl; [lia|].
  destruct (decide (i = n)) as [->|Hne].
  - by rewrite lookup_insert_eq.
  - rewrite lookup_insert_ne; [apply IH; lia|].
    intros Heq%bystander_inj. lia.
Qed.

Lemma crowd_owner n : getPlayer (crowd n) "q1" = None.
Proof.
  unfold getPlayer, crowd. simpl.
  induction n as [|n IH]; simpl; [done|].
  by rewrite lookup_insert_ne.
Qed.

Lemma crowd_wouldHit n i :
  wouldHit (crowd n) (shotAt "q1" 5 0) (bystander i)
    (playerAt (Z.of_nat i) TeamNone 0 0) = true.
Proof.
  unfold wouldHit. rewrite isFriendlyFire_owner. simpl.
  rewrite crowd_owner. vm_compute. reflexivity.
Qed.

(** Roster changes keep the projectiles: a player who leaves takes its own
    entity with it, and a player who joins is registered under a fresh
    ID. *)
Lemma RemovePlayer_keeps_projectiles connID now r k pr :
  getProjectile r k = Some pr →
  (∀ ps, players r !! connID = Some ps → is_Some (getPlayer r (Entity_ ps))) →
  getProjectile (RemovePlayer connID now r) k = Some pr.
Proof.
  intros Hpr Hps. unfold RemovePlayer.
  destruct (players r !! connID) as [ps|] eqn:E; [|done].
  destruct (Hps ps eq_refl) as [pl Hpl].
  unfold getProjectile in *. simpl. rewrite lookup_delete_ne; [done|].
  intros Heq. unfold getPlayer in Hpl. rewrite Heq in Hpl.
  by destruct (entities r !! k) as [[]|].
Qed.

Lemma AddPlayer_keeps_projectiles connID conn characterID entityID u now r r'
    e k pr :
  AddPlayer connID conn characterID entityID u now r = Returns (r', e) →
  entities r !! entityID = None →
  getProjectile r k = Some pr →
  getProjectile r' k = Some pr.
Proof.
  intros Hadd Hfresh Hpr.
  destruct (decide (MaxPlayers r <= Z.of_nat (size (players r)))) as [Hf|Hf].
  { rewrite AddPlayer_full in Hadd by done. by injection Hadd as <- _. }
  destruct (decide (Status r = RoomWaiting)) as [Hs|Hs].
  2: { rewrite AddPlayer_closed in Hadd by done. by injection Hadd as <- _. }
  rewrite AddPlayer_open in Hadd by done.
  destruct (assignTeam WriteLocked r) as [t| |]; simpl in Hadd; [|done|done].
  injection Hadd as <- _.
  unfold getProjectile in *. simpl. rewrite lookup_insert_ne; [done|].
  intros <-. by rewrite Hfresh in Hpr.
Qed.


End Combat.

(** ** The respawn countdown in the game loop *)

Section RespawnLoop.

Lemma Sub_tickPeriod (t : Time) : Sub (t + tickPeriod) t = tickPeriod.
Proof.
  unfold Sub. replace (t + tickPeriod - t) with tickPeriod by lia.
  vm_compute. reflexivity.
Qed.

Lemma stalled_tick (t : Time) (rnd : string → float * float) (r : Room) :
  stalled t r →
  stalled (t + tickPeriod) (gameLoopTick (t + tickPeriod) ["p1"] rnd r).1.
Proof.
  intros (He & Hw & Hl). unfold gameLoopTick.
  destruct (Status r) eqn:Hs; [done| |].
  - unfold update. rewrite (Hl eq_refl), Sub_tickPeriod.
    unfold detectCollisions. simpl.
    assert (entities
              (updateEntities (Seconds tickPeriod) rnd
                 (set_frameID (int_add (frameID r) 1)
                    (set_lastFrameTime (t + tickPeriod) r)))
            = entities killedRoom) as He'.
    { unfold updateEntities. simpl. rewrite He. vm_compute. reflexivity. }
    unfold checkGameEnd, endGame.
    destruct (_ <=? _)%float; [|destruct (existsb _ _)]; simpl;
      rewrite ?Hs; repeat split; try done;
      unfold updateEntities; simpl; by rewrite ?Hs.
  - simpl. split; [done|]. split; [by rewrite Hs|]. by rewrite Hs.
Qed.

Lemma stalled_run (n : nat) (t : Time) (r : Room) :
  stalled t r →
  stalled (t + Z.of_nat n * tickPeriod) (runTicks (ticksFrom t ["p1"] n) r).1.
Proof.
  revert t r. induction n as [|n IH]; intros t r Hst.
  { simpl. by rewrite Z.add_0_r. }
  cbn [ticksFrom]. rewrite runTicks_cons. cbn [tickNow tickOrder tickRnd].
  cbv zeta. cbn [fst].
  replace (t + Z.of_nat (S n) * tickPeriod)
    with (t + tickPeriod + Z.of_nat n * tickPeriod) by lia.
  apply IH. by apply stalled_tick.
Qed.

(** At the ticker's period the killed player is never restored, however
    long the loop runs. *)
Lemma respawn_never_at_ticker_period (n : nat) :
  entities (runTicks (ticksFrom 0 ["p1"] n) killedRoom).1 !! "p1"
  = Some (EPlayer (killed (playerAt 1 TeamNone 0 0))).
Proof.
  destruct (stalled_run n 0 killedRoom) as (He & _).
  { repeat split; done. }
  rewrite He. reflexivity.
Qed.

(** C3, at the failing input.  A player is killed, which sets the
    countdown to 5 seconds; the game loop then ticks 313 times at its
    period of 16 ms, 5.008 s in all.  Each tick takes the whole seconds of
    its elapsed time off the countdown, which is none: the room is still
    playing and the player is still dead, with the countdown at 5; and so
    it is after any number of ticks. *)
Theorem respawn_countdown_stalls :
  int_of_float (Seconds tickPeriod) = 0
  ∧ 5 * Second <= 313 * tickPeriod
  ∧ Status (runTicks (ticksFrom 0 ["p1"] 313) killedRoom).1 = RoomPlaying
  ∧ lastFrameTime (runTicks (ticksFrom 0 ["p1"] 313) killedRoom).1
    = 313 * tickPeriod
  ∧ entities (runTicks (ticksFrom 0 ["p1"] 313) killedRoom).1 !! "p1"
    = Some (EPlayer (killed (playerAt 1 TeamNone 0 0)))
  ∧ ∀ n, entities (runTicks (ticksFrom 0 ["p1"] n) killedRoom).1 !! "p1"
         = Some (EPlayer (killed (playerAt 1 TeamNone 0 0))).
Proof.
  split; [vm_compute; reflexivity|]. split; [vm_compute; discriminate|].
  split; [vm_compute; reflexivity|]. split; [vm_compute; reflexivity|].
  split; [vm_compute; reflexivity|]. apply respawn_never_at_ticker_period.
Qed.



End RespawnLoop.

(** ** Skills *)

Section Skills.

Variable Atan2 : float → float → float.
Variables Cos Sin : float → float.

(** The basic shot (skill 1) and the piercing shot (skill 3) make the
    same kind of projectile: an empty hit-set, the player as owner; they
    differ in damage, speed and lifetime only. *)
Lemma UseSkill_projectile (uuid : nat → string) (now : Time)
    (playerID : string) (skillID : Z) (targetPos : Vector2D) (r : Room)
    (player : PlayerEntity) :
  getPlayer r playerID = Some player →
  SkillCooldowns player !! skillID = None →
  skillID = 1 ∨ skillID = 3 →
  ∃ pr, getProjectile
          (UseSkill Atan2 Cos Sin uuid now playerID skillID targetPos r)
          (uuid 0%nat) = Some pr
        ∧ HitEntities pr = [] ∧ OwnerID pr = playerID
        ∧ SkillID pr = skillID
        ∧ Damage pr = (if skillID =? 1 then 10 else 15).
Proof.
  intros Hp%getPlayer_Some Hc Hs. unfold UseSkill. rewrite Hp, Hc.
  destruct Hs as [-> | ->]; simpl; unfold getProjectile; simpl;
    unfold alterPlayer; rewrite lookup_alter; case_decide as Hk;
    rewrite ?Hk, ?lookup_insert_eq; simpl; eauto 10.
Qed.

End Skills.

(** ** The scenarios, evaluated *)

Lemma squadRoom_sole (friendlyFire : bool) :
  soleProjectile "s1" (squadRoom friendlyFire).
Proof.
  intros k Hk. unfold getProjectile, squadRoom, arena. simpl.
  destruct (decide (k = "p1")) as [->|H1]; [done|].
  destruct (decide (k = "p2")) as [->|H2]; [done|].
  rewrite !lookup_insert_ne by done. by rewrite lookup_singleton_ne.
Qed.

(** C4, a witness: the two players of the red team and the projectile of
    one of them, with friendly fire off and on. *)
Lemma friendly_fire_gate_witness :
  hitsOf "s1" "p2"
    (detectCollisions 0 ["p1"; "p2"; "s1"] (squadRoom false)).2 = []
  ∧ ∃ c, hitsOf "s1" "p2"
           (detectCollisions 0 ["p1"; "p2"; "s1"] (squadRoom true)).2 = [c].
Proof.
  split.
  - destruct (friendly_fire_gate 0 ["p1"; "p2"; "s1"] (squadRoom false)
                "s1" "p2" (shotAt "p1" 5 0) (playerAt 1 TeamRed 200 0)
                (playerAt 2 TeamRed 0 0)) as [H _];
      [reflexivity | discriminate | reflexivity | reflexivity | reflexivity
      | discriminate |].
    apply H. reflexivity.
  - destruct (friendly_fire_gate 0 ["p1"; "p2"; "s1"] (squadRoom true)
                "s1" "p2" (shotAt "p1" 5 0) (playerAt 1 TeamRed 200 0)
                (playerAt 2 TeamRed 0 0)) as [_ H];
      [reflexivity | discriminate | reflexivity | reflexivity | reflexivity
      | discriminate |].
    apply H.
    + reflexivity.
    + apply squadRoom_sole.
    + reflexivity.
    + apply not_elem_of_nil.
    + vm_compute. reflexivity.
    + apply list_elem_of_further, list_elem_of_further, list_elem_of_here.
    + apply list_elem_of_further, list_elem_of_here.
Defined.

(** The same scans, by evaluation: with friendly fire on the teammate
    loses the 10 points of the shot, with friendly fire off it keeps its
    100. *)
Example squadRoom_health :
  (Health <$> getPlayer
     (detectCollisions 0 ["p1"; "p2"; "s1"] (squadRoom true)).1 "p2")
  = Some 90
  ∧ (Health <$> getPlayer
       (detectCollisions 0 ["p1"; "p2"; "s1"] (squadRoom false)).1 "p2")
    = Some 100.
Proof. split; vm_compute; reflexivity. Qed.

(** The duel over 60 ticks, during all of which the projectile intersects
    the player: one damage application, and the player has lost the 10
    points of the shot once. *)
Example duelRoom_one_hit :
  length (hitsOf "s1" "p1" (runTicks (ticksFrom 0 ["p1"; "s1"] 60) duelRoom).2)
  = 1%nat
  ∧ (Health <$> getPlayer (runTicks (ticksFrom 0 ["p1"; "s1"] 60) duelRoom).1
                  "p1") = Some 90
  ∧ (HitEntities <$> getProjectile
                       (runTicks (ticksFrom 0 ["p1"; "s1"] 60) duelRoom).1
                       "s1") = Some ["p1"].
Proof. repeat split; vm_compute; reflexivity. Qed.

(** The last hit on p2: it is dead with health 0 and a countdown of 5; it
    has one death, the owner of the shot one kill and one score point. *)
Example lastHitRoom_kill :
  getPlayer (detectCollisions 0 ["p1"; "p2"; "s1"] lastHitRoom).1 "p2"
  = Some (set_Deaths 1 (killed (playerAt 2 TeamNone 0 0)))
  ∧ getPlayer (detectCollisions 0 ["p1"; "p2"; "s1"] lastHitRoom).1 "p1"
    = Some (set_Kills 1 (playerAt 1 TeamNone 200 0))
  ∧ scores (detectCollisions 0 ["p1"; "p2"; "s1"] lastHitRoom).1 !! 1
    = Some 1.
Proof. repeat split; vm_compute; reflexivity. Qed.

Lemma duelRoom_healthy : healthInvariant duelRoom.
Proof.
  intros k p. unfold getPlayer, duelRoom, arena. simpl.
  destruct (decide (k = "p1")) as [->|H1].
  - rewrite lookup_insert_eq. intros [= <-]. unfold healthy. simpl.
    split; [lia|]. split; [lia|]. split; [lia | done].
  - rewrite lookup_insert_ne by done.
    destruct (decide (k = "s1")) as [->|H2].
    + by rewrite lookup_singleton_eq.
    + by rewrite lookup_singleton_ne.
Qed.

(** C2, a witness: the duel room and 60 ticks. *)
Lemma health_floor_witness :
  healthInvariant (runTicks (ticksFrom 0 ["p1"; "s1"] 60) duelRoom).1.
Proof. apply (proj1 health_floor). apply duelRoom_healthy. Defined.

Lemma duelRoom_sole : soleProjectile "s1" duelRoom.
Proof.
  intros k Hk. unfold getProjectile, duelRoom, arena. simpl.
  destruct (decide (k = "p1")) as [->|H1]; [done|].
  rewrite lookup_insert_ne by done. by rewrite lookup_singleton_ne.
Qed.

(** The entity update of a tick adds no projectile. *)
Lemma updated_sole now rnd a r :
  soleProjectile a r → soleProjectile a (updated now rnd r).
Proof.
  intros Hsole k Hk. unfold updated.
  rewrite updateEntities_getProjectile.
  assert (getProjectile
            (set_frameID (int_add (frameID r) 1) (set_lastFrameTime now r)) k
          = None) as ->; [|done].
  apply (Hsole k Hk).
Qed.

(** ** Damage accounting of the collision scan *)

Section CombatHealth.

Implicit Types (r : Room) (a b k : string) (pr : ProjectileEntity)
  (pl : PlayerEntity) (cs : list CollisionInfo).

(** *** Every collision recorded is one damage application *)

Lemma hitHealth_damaged pl pr :
  Health (damaged pl pr) = hitHealth (Health pl) (Damage pr).
Proof.
  unfold damaged, hitHealth. cbv zeta.
  by destruct (int_sub (Health pl) (Damage pr) <=? 0).
Qed.

Lemma healthAfter_snoc r b cs (c : CollisionInfo) h :
  healthAfter r b (cs ++ [c]) h
  = if decide (EntityB c = b) then
      match getProjectile r (EntityA c) with
      | Some pr => hitHealth (healthAfter r b cs h) (Damage pr)
      | None => healthAfter r b cs h
      end
    else healthAfter r b cs h.
Proof. unfold healthAfter. by rewrite fold_left_app. Qed.

Lemma scanned_back_projectile r r' k pr' :
  scanned r r' → getProjectile r' k = Some pr' →
  ∃ pr, getProjectile r k = Some pr ∧ stableProjectile pr pr'.
Proof.
  intros (H1 & _) Hk. specialize (H1 k). rewrite Hk in H1.
  inversion H1; subst. eauto.
Qed.

Lemma scanned_back_player r r' k pl' :
  scanned r r' → getPlayer r' k = Some pl' →
  ∃ pl, getPlayer r k = Some pl ∧ stablePlayer pl pl'.
Proof.
  intros (_ & H2 & _) Hk. specialize (H2 k). rewrite Hk in H2.
  inversion H2; subst. eauto.
Qed.

Lemma stableProjectile_Damage pr pr' :
  stableProjectile pr pr' → Damage pr' = Damage pr.
Proof. by intros [hs ->]. Qed.

(** The health of every player after a scan is its health before with
    the hits recorded on it applied, each once. *)
Lemma scan_health now (l : list (string * string)) r :
  let res := fold_left (λ st p, checkPair now p.1 p.2 st) l (r, []) in
  ∀ b pl, getPlayer r b = Some pl →
    ∃ pl', getPlayer res.1 b = Some pl'
           ∧ Health pl' = healthAfter r b res.2 (Health pl).
Proof.
  intros res.
  assert (scanned r res.1
          ∧ ∀ b pl, getPlayer r b = Some pl →
              ∃ pl', getPlayer res.1 b = Some pl'
                     ∧ Health pl' = healthAfter r b res.2 (Health pl))
    as [_ H]; [|exact H].
  unfold res.
  apply (scan_invariant
    (λ st, scanned r st.1
           ∧ ∀ b pl, getPlayer r b = Some pl →
               ∃ pl', getPlayer st.1 b = Some pl'
                      ∧ Health pl' = healthAfter r b st.2 (Health pl))).
  - intros [r1 cs] x y [Hs Hinv]. split.
    { eapply scanned_trans; [exact Hs|].
      apply (checkPair_scanned now x y (r1, cs)). }
    destruct (checkPair_cases now x y r1 cs)
      as [[-> _]|(a' & b' & pr & pl1 & c & _ & Ha & Hb & Hw & Hca & Hcb & ->)];
      [done|].
    cbn [fst snd] in *. intros b pl Hpl.
    destruct (Hinv b pl Hpl) as (pl' & Hpl' & Hh).
    destruct (handleCollision_view a' pr b' pl1 r1 Ha Hb) as (_ & H2 & _).
    specialize (H2 b). rewrite healthAfter_snoc, Hcb, Hca.
    destruct (decide (b' = b)) as [->|Hne].
    + rewrite decide_True in H2 by done.
      apply coreP_getPlayer in H2 as (p'' & Hp'' & Hc).
      exists p''. split; [done|].
      destruct (coreP_vitals _ _ Hc) as (-> & _).
      rewrite hitHealth_damaged.
      assert (pl1 = pl') as -> by congruence. rewrite Hh.
      destruct (scanned_back_projectile r r1 a' pr Hs Ha) as (pr0 & -> & Hsp).
      by rewrite (stableProjectile_Damage pr0 pr Hsp).
    + rewrite decide_False in H2 by congruence.
      assert (playerCore r1 b = Some (coreP pl')) as Hpc
        by (unfold playerCore; by rewrite Hpl').
      rewrite Hpc in H2. apply coreP_getPlayer in H2 as (p'' & Hp'' & Hc).
      exists p''. split; [done|].
      by destruct (coreP_vitals _ _ Hc) as (-> & _).
  - split; [apply scanned_refl|]. intros b pl Hpl. by exists pl.
Qed.

Lemma detectCollisions_health now order r b pl :
  getPlayer r b = Some pl →
  ∃ pl', getPlayer (detectCollisions now order r).1 b = Some pl'
         ∧ Health pl'
           = healthAfter r b (detectCollisions now order r).2 (Health pl).
Proof. apply (scan_health now (pairs order) r). Qed.

(** Every collision recorded is of a projectile and a player of the
    room. *)
Lemma detectCollisions_records now order r (c : CollisionInfo) :
  c ∈ (detectCollisions now order r).2 →
  is_Some (getProjectile r (EntityA c)) ∧ is_Some (getPlayer r (EntityB c)).
Proof.
  revert c.
  assert (scanned r (detectCollisions now order r).1
          ∧ ∀ c : CollisionInfo, c ∈ (detectCollisions now order r).2 →
              is_Some (getProjectile r (EntityA c))
              ∧ is_Some (getPlayer r (EntityB c))) as [_ H]; [|exact H].
  unfold detectCollisions.
  apply (scan_invariant
    (λ st, scanned r st.1
           ∧ ∀ c : CollisionInfo, c ∈ st.2 →
               is_Some (getProjectile r (EntityA c))
               ∧ is_Some (getPlayer r (EntityB c)))).
  - intros [r1 cs] x y [Hs Hinv]. split.
    { eapply scanned_trans; [exact Hs|].
      apply (checkPair_scanned now x y (r1, cs)). }
    destruct (checkPair_cases now x y r1 cs)
      as [[-> _]|(a' & b' & pr & pl1 & c & _ & Ha & Hb & Hw & Hca & Hcb & ->)];
      [done|].
    cbn [fst snd] in *. intros c' Hc'.
    apply elem_of_app in Hc' as [Hc'|Hc'%list_elem_of_singleton];
      [by apply Hinv|].
    subst c'. rewrite Hca, Hcb.
    destruct (scanned_back_projectile r r1 a' pr Hs Ha) as (pr0 & -> & _).
    destruct (scanned_back_player r r1 b' pl1 Hs Hb) as (pl0 & -> & _).
    by split.
  - split; [apply scanned_refl|]. intros c Hc. by apply elem_of_nil in Hc.
Qed.

(** A player on whom no hit is recorded is, but for its counters, as it
    was. *)
Lemma detectCollisions_player_core now order r b :
  hitsOn b (detectCollisions now order r).2 = [] →
  playerCore (detectCollisions now order r).1 b = playerCore r b.
Proof.
  unfold detectCollisions.
  apply (scan_invariant
    (λ st, hitsOn b st.2 = [] → playerCore st.1 b = playerCore r b)).
  - intros [r1 cs] x y Hinv.
    destruct (checkPair_cases now x y r1 cs)
      as [[-> _]|(a' & b' & pr & pl1 & c & _ & Ha & Hb & Hw & Hca & Hcb & ->)];
      [done|].
    cbn [fst snd] in *. unfold hitsOn. rewrite filter_app.
    intros Hnil. apply app_eq_nil in Hnil as [Hnil Hc].
    destruct (handleCollision_view a' pr b' pl1 r1 Ha Hb) as (_ & H2 & _).
    rewrite H2. destruct (decide (b = b')) as [->|Hne]; [|by apply Hinv].
    rewrite filter_cons_True in Hc by done. done.
  - done.
Qed.

End CombatHealth.

Section AnyProjectiles.

Implicit Types (r : Room) (k : string) (pr : ProjectileEntity)
  (pl : PlayerEntity) (cs : list CollisionInfo).

Variables (now : Time) (r0 : Room) (a b : string) (pr0 : ProjectileEntity)
  (pl0 : PlayerEntity).
Hypothesis Ha0 : getProjectile r0 a = Some pr0.
Hypothesis Hb0 : getPlayer r0 b = Some pl0.
Hypothesis Hw0 : wouldHit r0 pr0 b pl0 = true.

Lemma any_ab : a ≠ b.
Proof.
  intros ->. unfold getProjectile, getPlayer in *.
  by destruct (entities r0 !! b) as [[]|].
Qed.

(** While [b] is alive and not yet met by [a], the four tests give what
    they gave at the start. *)
Lemma wouldHit_pending (st : Room * list CollisionInfo) pr pl :
  scanned r0 st.1 → pending a b pr0 st →
  getProjectile st.1 a = Some pr → getPlayer st.1 b = Some pl →
  wouldHit st.1 pr b pl = true.
Proof.
  intros Hs (_ & Hm & pl' & Hpl' & Halive) Hpr Hpl.
  assert (pl' = pl) as -> by congruence.
  destruct (scanned_getProjectile r0 st.1 a pr0 Hs Ha0) as (pr' & Hpr' & Hsp).
  assert (pr' = pr) as -> by congruence.
  destruct (scanned_getPlayer r0 st.1 b pl0 Hs Hb0) as (pl' & Hpl'' & Hsl).
  assert (pl' = pl) as -> by congruence.
  pose proof Hw0 as Hw. unfold wouldHit in Hw |- *.
  rewrite (isFriendlyFire_scanned r0 st.1 pr0 pr pl0 pl) by done.
  rewrite Halive.
  assert (hasHit pr b = hasHit pr0 b) as ->.
  { apply eq_true_iff_eq. rewrite !hasHit_elem_of. by apply Hm. }
  destruct Hsl as (-> & _). destruct Hsp as [hs ->]. simpl.
  by destruct (IsAlive pl0).
Qed.

Lemma any_step (x y : string) (st : Room * list CollisionInfo) :
  scanned r0 st.1 →
  let st' := checkPair now x y st in
  (hitOnce a b st → hitOnce a b st')
  ∧ (killedByOther a b st → killedByOther a b st')
  ∧ (pending a b pr0 st →
     if touching a b (x, y) then hitOnce a b st'
     else pending a b pr0 st' ∨ killedByOther a b st').
Proof.
  intros Hs st'. subst st'. destruct st as [r cs]. cbn [fst snd] in Hs.
  destruct (checkPair_cases now x y r cs)
    as [[-> Hno]|(a' & b' & pr & pl & c & Hxy & Ha & Hb & Hw & Hca & Hcb & Heq)].
  { split; [done|]. split; [done|]. intros Hpend.
    destruct (touching a b (x, y)) eqn:Et; [|by left].
    apply bool_decide_eq_true in Et. simpl in Et.
    destruct (scanned_getProjectile r0 r a pr0 Hs Ha0) as (pr & Hpr & _).
    destruct (scanned_getPlayer r0 r b pl0 Hs Hb0) as (pl & Hpl & _).
    pose proof (wouldHit_pending (r, cs) pr pl Hs Hpend Hpr Hpl) as Hw.
    simpl in Hw. by rewrite (Hno a b pr pl Et Hpr Hpl) in Hw. }
  rewrite Heq.
  destruct (handleCollision_view a' pr b' pl r Ha Hb) as (H1 & H2 & _).
  assert (scanned r (handleCollision a' pr b' pl r)) as Hstep
    by (apply handleCollision_scanned; eauto using wouldHit_alive).
  assert (hitsOf a b (cs ++ [c])
          = hitsOf a b cs
            ++ (if decide (a' = a ∧ b' = b) then [c] else [])) as Hh.
  { rewrite hitsOf_snoc, Hca, Hcb. done. }
  split; [|split].
  - (* after the hit *)
    intros ((c0 & Hc0) & Hsp). unfold hitOnce. cbn [fst snd] in *.
    assert (¬ (a' = a ∧ b' = b)) as Hne.
    { intros [-> ->]. apply Hsp, hasHit_elem_of in Ha.
      unfold wouldHit in Hw. rewrite Ha in Hw. by destruct (IsAlive pl). }
    rewrite Hh, decide_False, app_nil_r by done.
    split; [eauto|]. by eapply spent_scanned.
  - (* killed by another projectile *)
    intros (Hnil & (pd & Hpd & Hdead) & c0 & Hc0 & Hcb0 & Hca0).
    unfold killedByOther. cbn [fst snd] in *.
    assert (b' ≠ b) as Hne.
    { intros ->. assert (pl = pd) as -> by congruence.
      apply wouldHit_alive in Hw. congruence. }
    rewrite Hh, decide_False, app_nil_r by (by intros [_ ?]).
    split; [done|]. split.
    + specialize (H2 b). rewrite decide_False in H2 by done.
      assert (playerCore r b = Some (coreP pd)) as Hpc
        by (unfold playerCore; by rewrite Hpd).
      rewrite Hpc in H2. apply coreP_getPlayer in H2 as (p' & Hp' & Hc).
      exists p'. split; [done|].
      destruct (coreP_vitals _ _ Hc) as (_ & -> & _). done.
    + exists c0. split; [|done]. apply elem_of_app. by left.
  - (* before the two are met *)
    intros Hpend.
    destruct (touching a b (x, y)) eqn:Et.
    + apply bool_decide_eq_true in Et. simpl in Et.
      assert (a' = a ∧ b' = b) as [-> ->].
      { destruct (scanned_getPlayer r0 r b pl0 Hs Hb0) as (plb & Hplb & _).
        assert (a' ≠ b) as Hab'.
        { intros ->. unfold getProjectile, getPlayer in *.
          destruct (entities r !! b) as [[]|]; congruence. }
        destruct Et as [[E1 E2]|[E1 E2]], Hxy as [[E3 E4]|[E3 E4]];
          split; congruence. }
      destruct Hpend as (Hnil & _). cbn [fst snd] in *.
      unfold hitOnce. cbn [fst snd]. rewrite Hh, Hnil, decide_True by done.
      split; [eauto|]. intros pr'. rewrite H1, decide_True by done.
      intros [= <-]. simpl. apply elem_of_app. right.
      by apply list_elem_of_singleton.
    + apply bool_decide_eq_false in Et. simpl in Et.
      assert (¬ (a' = a ∧ b' = b)) as Hne.
      { intros [-> ->]. apply Et. destruct Hxy as [[-> ->]|[-> ->]]; tauto. }
      destruct Hpend as (Hnil & Hm & pb & Hpb & Halive). cbn [fst snd] in *.
      assert (hitsOf a b (cs ++ [c]) = []) as Hnil'
        by (by rewrite Hh, decide_False, app_nil_r).
      assert (∀ pr', getProjectile (handleCollision a' pr b' pl r) a = Some pr' →
                (b ∈ HitEntities pr' ↔ b ∈ HitEntities pr0)) as Hm'.
      { intros pr'. rewrite H1. destruct (decide (a = a')) as [<-|Haa].
        - intros [= <-]. simpl. rewrite <- (Hm pr Ha).
          rewrite elem_of_app, list_elem_of_singleton.
          split; [intros [? | ->]; [done|tauto] | auto].
        - apply Hm. }
      specialize (H2 b). destruct (decide (b = b')) as [<-|Hbb].
      * apply coreP_getPlayer in H2 as (p' & Hp' & Hc).
        destruct (IsAlive p') eqn:Ep'.
        -- left. unfold pending. cbn [fst snd]. eauto 10.
        -- right. unfold killedByOther. cbn [fst snd].
           split; [done|]. split; [eauto|]. exists c.
           split; [apply elem_of_app; right; by apply list_elem_of_singleton|].
           split; [done|]. rewrite Hca. intros ->. by apply Hne.
      * assert (playerCore r b = Some (coreP pb)) as Hpc
          by (unfold playerCore; by rewrite Hpb).
        rewrite Hpc in H2. apply coreP_getPlayer in H2 as (p' & Hp' & Hc).
        left. unfold pending. cbn [fst snd]. split; [done|]. split; [done|].
        exists p'. split; [done|].
        destruct (coreP_vitals _ _ Hc) as (_ & -> & _). done.
Qed.

Lemma any_scan (l : list (string * string)) (st : Room * list CollisionInfo) :
  scanned r0 st.1 →
  let st' := fold_left (λ st p, checkPair now p.1 p.2 st) l st in
  (hitOnce a b st → hitOnce a b st')
  ∧ (killedByOther a b st → killedByOther a b st')
  ∧ (pending a b pr0 st →
     if existsb (touching a b) l
     then hitOnce a b st' ∨ killedByOther a b st'
     else pending a b pr0 st' ∨ killedByOther a b st').
Proof.
  revert st. induction l as [|[x y] l IH]; intros st Hs; simpl.
  { split; [done|]. split; [done|]. by left. }
  destruct (any_step x y st Hs) as (S1 & S2 & S3).
  destruct (IH (checkPair now x y st)) as (I1 & I2 & I3).
  { eapply scanned_trans; [done|apply checkPair_scanned]. }
  split; [auto|]. split; [auto|]. intros Hpend. specialize (S3 Hpend).
  destruct (touching a b (x, y)); simpl in *.
  - left. by apply I1.
  - destruct S3 as [Hp|Hk].
    + by apply I3.
    + destruct (existsb (touching a b) l); right; by apply I2.
Qed.

Lemma pending_start : pending a b pr0 (r0, []).
Proof.
  split; [done|]. split; [simpl; intros pr; rewrite Ha0; by intros [= <-]|].
  exists pl0. split; [done|]. by apply wouldHit_alive in Hw0.
Qed.

(** A scan, seen from a projectile and a player that pass the four tests
    at its start and are both in the snapshot: the projectile hits the
    player, once, unless another projectile has killed the player before
    the two are met. *)
Lemma any_detectCollisions (order : list string) :
  a ∈ order → b ∈ order →
  hitOnce a b (detectCollisions now order r0)
  ∨ killedByOther a b (detectCollisions now order r0).
Proof.
  intros Hia Hib.
  destruct (any_scan (pairs order) (r0, []) (scanned_refl r0)) as (_ & _ & H).
  specialize (H pending_start).
  assert (existsb (touching a b) (pairs order) = true) as Ht.
  { apply existsb_exists.
    destruct (pairs_touch order a b Hia Hib any_ab) as [Hin|Hin].
    - exists (a, b). split; [by apply list_elem_of_In|].
      apply bool_decide_eq_true. by left.
    - exists (b, a). split; [by apply list_elem_of_In|].
      apply bool_decide_eq_true. by right. }
  by rewrite Ht in H.
Qed.

End AnyProjectiles.
Section OneApplication.

Implicit Types (r : Room) (a b k : string) (pr : ProjectileEntity)
  (pl : PlayerEntity) (cs : list CollisionInfo).

Lemma filter_agree {A} (P Q : A → Prop) `{!∀ x, Decision (P x)}
    `{!∀ x, Decision (Q x)} (l : list A) :
  (∀ x, x ∈ l → (P x ↔ Q x)) → filter P l = filter Q l.
Proof.
  induction l as [|x l IH]; intros Hall; [done|].
  rewrite !filter_cons.
  rewrite IH by (intros y Hy; apply Hall; by right).
  destruct (decide (P x)) as [HP|HP].
  - by rewrite decide_True by (by apply (Hall x); [left|]).
  - rewrite decide_False; [done|]. intros HQ. apply HP.
    by apply (Hall x); [left|].
Qed.

(** In a room with one projectile every hit is a hit of that
    projectile. *)
Lemma hitsOn_sole now order a b r :
  soleProjectile a r →
  hitsOn b (detectCollisions now order r).2
  = hitsOf a b (detectCollisions now order r).2.
Proof.
  intros Hsole. unfold hitsOn, hitsOf. apply filter_agree.
  intros c Hc. split; [|by intros [_ ?]]. intros Hb. split; [|done].
  destruct (detectCollisions_records now order r c Hc) as ([pr Hpr] & _).
  destruct (decide (EntityA c = a)) as [|Hne]; [done|].
  by rewrite (Hsole _ Hne) in Hpr.
Qed.

Lemma scanned_sole a r r' :
  scanned r r' → soleProjectile a r → soleProjectile a r'.
Proof.
  intros Hs Hsole k Hk. eapply scanned_getProjectile_None; [done|].
  by apply Hsole.
Qed.

Lemma entities_sole a r r' :
  entities r' = entities r → soleProjectile a r → soleProjectile a r'.
Proof. unfold soleProjectile, getProjectile. by intros ->. Qed.

Lemma updateEntities_sole deltaTime rnd a r :
  soleProjectile a r → soleProjectile a (updateEntities deltaTime rnd r).
Proof.
  intros Hsole k Hk. rewrite updateEntities_getProjectile.
  by rewrite (Hsole k Hk).
Qed.

(** The vital signs of a player: health and the alive flag. *)
Lemma updatePlayer_alive deltaTime u pl :
  IsAlive pl = true →
  Health (updatePlayer deltaTime u pl) = Health pl
  ∧ IsAlive (updatePlayer deltaTime u pl) = true.
Proof. intros Ha. unfold updatePlayer. by rewrite Ha. Qed.

(** A tick of a room whose only projectile has already hit [b] leaves
    the health of [b], alive, as it is. *)
Lemma spent_tick i a b r (h : Z) :
  soleProjectile a r → spent a b r →
  (∃ p, getPlayer r b = Some p ∧ Health p = h ∧ IsAlive p = true) →
  let r' := (gameLoopTick (tickNow i) (tickOrder i) (tickRnd i) r).1 in
  soleProjectile a r' ∧ spent a b r'
  ∧ ∃ p, getPlayer r' b = Some p ∧ Health p = h ∧ IsAlive p = true.
Proof.
  intros Hsole Hsp (p & Hp & Hh & Halive) r'. subst r'.
  unfold gameLoopTick. destruct (Status r); cbn [fst].
  - pose proof (checkGameStart_entities (tickNow i) r) as He.
    split; [by eapply entities_sole|].
    split; [by eapply spent_entities|].
    exists p. unfold getPlayer in *. by rewrite He.
  - destruct (update_entities (tickNow i) (tickOrder i) (tickRnd i) r)
      as (dt & r1 & He1 & _ & He & _).
    set (ru := updateEntities dt (tickRnd i) r1) in *.
    assert (soleProjectile a ru) as Hsole1.
    { apply updateEntities_sole. by eapply entities_sole. }
    assert (spent a b ru) as Hsp1.
    { apply updateEntities_spent. by eapply spent_entities. }
    assert (getPlayer ru b = Some (updatePlayer dt (tickRnd i b) p)) as Hp1.
    { unfold ru. rewrite updateEntities_getPlayer.
      unfold getPlayer in *. by rewrite He1, Hp. }
    destruct (updatePlayer_alive dt (tickRnd i b) p Halive) as (Hh1 & Ha1).
    pose proof (detectCollisions_scanned (tickNow i) (tickOrder i) ru) as Hs.
    destruct (detectCollisions_once (tickNow i) (tickOrder i) a b ru)
      as (H1 & _).
    destruct (H1 Hsp1) as (Hsp2 & Hnil).
    pose proof (detectCollisions_player_core (tickNow i) (tickOrder i) ru b)
      as Hcore.
    rewrite (hitsOn_sole (tickNow i) (tickOrder i) a b ru Hsole1) in Hcore.
    specialize (Hcore Hnil).
    assert (playerCore ru b = Some (coreP (updatePlayer dt (tickRnd i b) p)))
      as Hpc by (unfold playerCore; by rewrite Hp1).
    rewrite Hpc in Hcore. apply coreP_getPlayer in Hcore as (p' & Hp' & Hc).
    destruct (coreP_vitals _ _ Hc) as (Hh' & Ha' & _).
    split; [eapply entities_sole; [exact He|]; by eapply scanned_sole|].
    split; [by eapply spent_entities|].
    exists p'. split; [|split; congruence].
    unfold getPlayer in *. by rewrite He.
  - split; [done|]. split; [done|]. by exists p.
Qed.

Lemma spent_run inputs a b r (h : Z) :
  soleProjectile a r → spent a b r →
  (∃ p, getPlayer r b = Some p ∧ Health p = h ∧ IsAlive p = true) →
  ∃ p, getPlayer (runTicks inputs r).1 b = Some p
       ∧ Health p = h ∧ IsAlive p = true.
Proof.
  revert r. induction inputs as [|i inputs IH]; intros r Hsole Hsp Hp;
    [done|].
  rewrite runTicks_cons. cbv zeta. cbn [fst].
  destruct (spent_tick i a b r h Hsole Hsp Hp) as (Hsole' & Hsp' & Hp').
  by apply IH.
Qed.

(** The health of a player after a tick of a playing room is its health
    after the entity update with the hits the tick records applied. *)
Lemma gameLoopTick_health i r b pl :
  Status r = RoomPlaying →
  getPlayer (updated (tickNow i) (tickRnd i) r) b = Some pl →
  ∃ pl', getPlayer (gameLoopTick (tickNow i) (tickOrder i) (tickRnd i) r).1 b
         = Some pl'
         ∧ Health pl'
           = healthAfter (updated (tickNow i) (tickRnd i) r) b
               (gameLoopTick (tickNow i) (tickOrder i) (tickRnd i) r).2
               (Health pl).
Proof.
  intros Hst Hpl. unfold gameLoopTick. rewrite Hst.
  destruct (update_updated (tickNow i) (tickOrder i) (tickRnd i) r)
    as (He & ->).
  destruct (detectCollisions_health (tickNow i) (tickOrder i)
              (updated (tickNow i) (tickRnd i) r) b pl Hpl)
    as (pl' & Hpl' & Hh).
  exists pl'. split; [|done]. unfold getPlayer in *. by rewrite He.
Qed.

Lemma damaged_alive pl pr :
  IsAlive pl = true → 0 < hitHealth (Health pl) (Damage pr) →
  IsAlive (damaged pl pr) = true.
Proof.
  intros Ha. unfold damaged, hitHealth. cbv zeta.
  destruct (int_sub (Health pl) (Damage pr) <=? 0); [lia|done].
Qed.

End OneApplication.
Section HitsOnce.

Implicit Types (r : Room) (k : string) (pr : ProjectileEntity)
  (pl : PlayerEntity) (cs : list CollisionInfo).

(** C1.  For a projectile [a] and a player [b].  Every collision that a
    scan records is one damage application and nothing else touches
    health: the health of [b] after a scan, or after a tick, is its
    health before with the damage of each hit recorded on [b] taken off
    once, in order, not going below zero; and the scan leaves the player
    of every hit recorded in the hit-set of its projectile.  A scan of a
    room in which [b] is in the hit-set of [a] records no hit of [a] on
    [b], and leaves the health of [b] as it is when [a] is the only
    projectile.  So over any run of game loop ticks [a] is applied to [b]
    at most once, and exactly once in all if a tick of the run applies
    it, however many ticks follow and wherever the two are.  When, once
    the first tick has moved the entities, [b] passes the four tests of
    the scan (alive, not in the hit-set, no friendly fire, intersecting)
    and the snapshot holds both, the run applies [a] to [b] exactly once,
    unless another projectile kills [b] in that scan before the two are
    met.  When [a] is the only projectile the run applies it exactly
    once: the first tick takes the damage of [a] off the health of [b],
    and if [b] survives, its health is the same after all the ticks of
    the run. *)
Theorem projectile_hits_player_once (a b : string) :
  (∀ now order r pl,
     getPlayer r b = Some pl →
     ∃ pl', getPlayer (detectCollisions now order r).1 b = Some pl'
            ∧ Health pl'
              = healthAfter r b (detectCollisions now order r).2 (Health pl))
  ∧ (∀ i r pl,
       Status r = RoomPlaying →
       getPlayer (updated (tickNow i) (tickRnd i) r) b = Some pl →
       ∃ pl',
         getPlayer (gameLoopTick (tickNow i) (tickOrder i) (tickRnd i) r).1 b
         = Some pl'
         ∧ Health pl'
           = healthAfter (updated (tickNow i) (tickRnd i) r) b
               (gameLoopTick (tickNow i) (tickOrder i) (tickRnd i) r).2
               (Health pl))
  ∧ (∀ now order r c,
       c ∈ (detectCollisions now order r).2 →
       ∃ pr, getProjectile (detectCollisions now order r).1 (EntityA c)
             = Some pr
             ∧ EntityB c ∈ HitEntities pr)
  ∧ (∀ now order r pr,
       getProjectile r a = Some pr → b ∈ HitEntities pr →
       hitsOf a b (detectCollisions now order r).2 = []
       ∧ (soleProjectile a r →
          ∀ pl, getPlayer r b = Some pl →
            ∃ pl', getPlayer (detectCollisions now order r).1 b = Some pl'
                   ∧ Health pl' = Health pl ∧ IsAlive pl' = IsAlive pl))
  ∧ (∀ inputs r, (length (hitsOf a b (runTicks inputs r).2) <= 1)%nat)
  ∧ (∀ i inputs r,
       length (hitsOf a b
                 (gameLoopTick (tickNow i) (tickOrder i) (tickRnd i) r).2)
       = 1%nat →
       length (hitsOf a b (runTicks (i :: inputs) r).2) = 1%nat)
  ∧ (∀ i inputs r pr pl,
       Status r = RoomPlaying →
       getProjectile (updated (tickNow i) (tickRnd i) r) a = Some pr →
       getPlayer (updated (tickNow i) (tickRnd i) r) b = Some pl →
       wouldHit (updated (tickNow i) (tickRnd i) r) pr b pl = true →
       a ∈ tickOrder i → b ∈ tickOrder i →
       length (hitsOf a b (runTicks (i :: inputs) r).2) = 1%nat
       ∨ killedByOther a b
           (detectCollisions (tickNow i) (tickOrder i)
              (updated (tickNow i) (tickRnd i) r)))
  ∧ (∀ i inputs r pr pl,
       Status r = RoomPlaying →
       getProjectile (updated (tickNow i) (tickRnd i) r) a = Some pr →
       soleProjectile a (updated (tickNow i) (tickRnd i) r) →
       getPlayer (updated (tickNow i) (tickRnd i) r) b = Some pl →
       wouldHit (updated (tickNow i) (tickRnd i) r) pr b pl = true →
       a ∈ tickOrder i → b ∈ tickOrder i →
       length (hitsOf a b (runTicks (i :: inputs) r).2) = 1%nat
       ∧ (∃ pl',
            getPlayer
              (gameLoopTick (tickNow i) (tickOrder i) (tickRnd i) r).1 b
            = Some pl'
            ∧ Health pl' = hitHealth (Health pl) (Damage pr))
       ∧ (0 < hitHealth (Health pl) (Damage pr) →
          ∃ pl', getPlayer (runTicks (i :: inputs) r).1 b = Some pl'
                 ∧ Health pl' = hitHealth (Health pl) (Damage pr)
                 ∧ IsAlive pl' = true)).
Proof.
  assert (∀ i inputs r,
       length (hitsOf a b
                 (gameLoopTick (tickNow i) (tickOrder i) (tickRnd i) r).2)
       = 1%nat →
       length (hitsOf a b (runTicks (i :: inputs) r).2) = 1%nat) as Hfirst.
  { intros i inputs r Hone. rewrite runTicks_cons. cbv zeta. simpl.
    destruct (gameLoopTick_once i a b r) as (_ & [H0|((c & Hc) & Hs)]).
    { rewrite H0 in Hone. done. }
    destruct (runTicks_once inputs a b
                (gameLoopTick (tickNow i) (tickOrder i) (tickRnd i) r).1)
      as (G1 & _).
    destruct (G1 Hs) as (_ & G0).
    by rewrite hitsOf_app, Hc, G0. }
  split_and!.
  - intros now order r pl. apply detectCollisions_health.
  - intros i r pl. apply gameLoopTick_health.
  - intros now order r.
    apply (scan_invariant
      (λ st, ∀ c, c ∈ st.2 →
         ∃ pr, getProjectile st.1 (EntityA c) = Some pr
               ∧ EntityB c ∈ HitEntities pr) now (pairs order) (r, [])).
    + intros [r0 cs] x y Hinv.
      destruct (checkPair_cases now x y r0 cs)
        as [[-> _]|(a' & b' & pr & pl & c & _ & Ha & Hb & Hw & Hca & Hcb & ->)];
        [done|].
      simpl in *. intros c' Hc'.
      destruct (handleCollision_view a' pr b' pl r0 Ha Hb) as (H1 & _).
      apply elem_of_app in Hc' as [Hc'|Hc'%list_elem_of_singleton].
      * destruct (Hinv c' Hc') as (pr' & Hpr' & Hin).
        rewrite H1. case_decide as Hk.
        -- rewrite Hk in Hpr'. eexists. split; [done|]. simpl.
           apply elem_of_app. left. congruence.
        -- eauto.
      * subst c'. rewrite Hca, Hcb, H1, decide_True by done.
        eexists. split; [done|]. simpl.
        apply elem_of_app. right. by apply list_elem_of_singleton.
    + simpl. intros c Hc. by apply elem_of_nil in Hc.
  - intros now order r pr Hpr Hin.
    destruct (detectCollisions_once now order a b r) as (H1 & _).
    destruct H1 as (_ & Hnil); [intros pr' Hpr'; congruence|].
    split; [done|]. intros Hsole pl Hpl.
    pose proof (detectCollisions_player_core now order r b) as Hcore.
    rewrite (hitsOn_sole now order a b r Hsole) in Hcore.
    specialize (Hcore Hnil).
    assert (playerCore r b = Some (coreP pl)) as Hpc
      by (unfold playerCore; by rewrite Hpl).
    rewrite Hpc in Hcore. apply coreP_getPlayer in Hcore as (p' & Hp' & Hc).
    destruct (coreP_vitals _ _ Hc) as (Hh & Ha & _). eauto.
  - intros inputs r.
    destruct (runTicks_once inputs a b r) as (_ & [->|((c & ->) & _)]);
      simpl; lia.
  - exact Hfirst.
  - intros i inputs r pr pl Hst Ha Hb Hw Hia Hib.
    destruct (any_detectCollisions (tickNow i)
                (updated (tickNow i) (tickRnd i) r) a b pr pl Ha Hb Hw
                (tickOrder i) Hia Hib) as [((c & Hc) & _)|Hk]; [left|by right].
    apply Hfirst. unfold gameLoopTick. rewrite Hst.
    destruct (update_updated (tickNow i) (tickOrder i) (tickRnd i) r)
      as (_ & ->).
    by rewrite Hc.
  - intros i inputs r pr pl Hst Ha Hsole Hb Hw Hia Hib.
    destruct (sole_detectCollisions (tickNow i)
                (updated (tickNow i) (tickRnd i) r) a b pr pl Ha Hsole Hb
                (tickOrder i)) as (Haft & _).
    destruct (Haft Hw Hia Hib) as (Hcore & Hsp & c & Hc).
    destruct (update_updated (tickNow i) (tickOrder i) (tickRnd i) r)
      as (He & Hrec).
    assert (gameLoopTick (tickNow i) (tickOrder i) (tickRnd i) r
            = update (tickNow i) (tickOrder i) (tickRnd i) r) as Htick
      by (unfold gameLoopTick; by rewrite Hst).
    apply coreP_getPlayer in Hcore as (p' & Hp' & Hcp).
    destruct (coreP_vitals _ _ Hcp) as (Hh & Halive & _).
    rewrite hitHealth_damaged in Hh.
    assert (getPlayer
              (gameLoopTick (tickNow i) (tickOrder i) (tickRnd i) r).1 b
            = Some p') as Hp1.
    { rewrite Htick. unfold getPlayer in *. by rewrite He. }
    split; [|split].
    + apply Hfirst. by rewrite Htick, Hrec, Hc.
    + eauto.
    + intros Hpos. rewrite runTicks_cons. cbv zeta. cbn [fst].
      apply (spent_run inputs a b _ (hitHealth (Health pl) (Damage pr))).
      * rewrite Htick. eapply entities_sole; [exact He|].
        eapply scanned_sole; [apply detectCollisions_scanned|done].
      * rewrite Htick. by eapply spent_entities.
      * exists p'. split; [done|]. split; [done|]. rewrite Halive.
        apply damaged_alive; [by eapply wouldHit_alive|done].
Qed.

End HitsOnce.

(** C1, a witness: the duel room, in which the projectile stays within
    reach of the player, over 60 ticks: one hit is recorded and the
    player is left with 90 of its 100 health points. *)
Lemma projectile_hits_player_once_witness :
  length (hitsOf "s1" "p1"
            (runTicks (mkTickInput tickPeriod ["p1"; "s1"] (λ _, origin)
                       :: ticksFrom tickPeriod ["p1"; "s1"] 59) duelRoom).2)
  = 1%nat
  ∧ ∃ pl', getPlayer
             (runTicks (mkTickInput tickPeriod ["p1"; "s1"] (λ _, origin)
                        :: ticksFrom tickPeriod ["p1"; "s1"] 59) duelRoom).1
             "p1" = Some pl'
           ∧ Health pl' = 90 ∧ IsAlive pl' = true.
Proof.
  destruct (projectile_hits_player_once "s1" "p1")
    as (_ & _ & _ & _ & _ & _ & _ & H).
  destruct (H (mkTickInput tickPeriod ["p1"; "s1"] (λ _, origin))
              (ticksFrom tickPeriod ["p1"; "s1"] 59) duelRoom
              (set_LifeTime (2 - Seconds tickPeriod)%float (shotAt "p2" 5 0))
              (playerAt 1 TeamNone 0 0))
    as (H1 & _ & H3).
  - reflexivity.
  - vm_compute. reflexivity.
  - apply updated_sole, duelRoom_sole.
  - vm_compute. reflexivity.
  - vm_compute. reflexivity.
  - apply list_elem_of_further, list_elem_of_here.
  - apply list_elem_of_here.
  - split; [exact H1|]. apply H3. by vm_compute.
Defined.
Section ProjectileLifetime.

Implicit Types (r : Room) (a b k : string) (pr : ProjectileEntity)
  (pl : PlayerEntity) (cs : list CollisionInfo).

(** C10.  The entity update deletes a projectile exactly when its
    remaining lifetime, less the elapsed time, is zero or less, and a
    game loop tick after which a projectile is gone is such an update;
    handling a hit keeps every projectile in the mapping, as does the
    whole scan, which only ever appends to hit-sets.  So a projectile of
    any skill goes on to hit other players: in any room, a player of the
    snapshot that passes the four tests at the start of a scan is hit by
    the projectile in that scan, once, unless another projectile has
    killed it first; every hit recorded takes the damage of its
    projectile off the health of its player, once; and no player is hit
    twice by one projectile.  A projectile that is alone in the room
    takes its damage off the health of every player of the snapshot that
    passes the four tests, once each; and for every [n] there is a room
    in which one basic shot, in one scan, takes its 10 points off the
    health of each of [n] different players. *)
Theorem projectile_removed_only_by_lifetime :
  (∀ deltaTime rnd r k pr,
     getProjectile r k = Some pr →
     (entities (updateEntities deltaTime rnd r) !! k = None
      ↔ (LifeTime pr - deltaTime <=? 0)%float = true)
     ∧ ((LifeTime pr - deltaTime <=? 0)%float = false →
        ∃ pr', getProjectile (updateEntities deltaTime rnd r) k = Some pr'
               ∧ HitEntities pr' = HitEntities pr))
  ∧ (∀ i r k pr,
       getProjectile r k = Some pr →
       entities (gameLoopTick (tickNow i) (tickOrder i) (tickRnd i) r).1 !! k
       = None →
       Status r = RoomPlaying
       ∧ (LifeTime pr - Seconds (Sub (tickNow i) (lastFrameTime r)) <=? 0)%float
         = true)
  ∧ (∀ a pr b pl r k prk,
       getProjectile r a = Some pr → getPlayer r b = Some pl →
       getProjectile r k = Some prk →
       ∃ prk', getProjectile (handleCollision a pr b pl r) k = Some prk'
               ∧ stableProjectile prk prk')
  ∧ (∀ now order r k pr,
       getProjectile r k = Some pr →
       ∃ pr', getProjectile (detectCollisions now order r).1 k = Some pr'
              ∧ stableProjectile pr pr')
  ∧ (∀ now order r a pr b pl,
       getProjectile r a = Some pr → getPlayer r b = Some pl →
       wouldHit r pr b pl = true → a ∈ order → b ∈ order →
       ((∃ c, hitsOf a b (detectCollisions now order r).2 = [c])
        ∧ spent a b (detectCollisions now order r).1)
       ∨ killedByOther a b (detectCollisions now order r))
  ∧ (∀ now order r b pl,
       getPlayer r b = Some pl →
       ∃ pl', getPlayer (detectCollisions now order r).1 b = Some pl'
              ∧ Health pl'
                = healthAfter r b (detectCollisions now order r).2 (Health pl))
  ∧ (∀ now order r a b,
       (length (hitsOf a b (detectCollisions now order r).2) <= 1)%nat)
  ∧ (∀ now order r a pr b pl,
       getProjectile r a = Some pr → soleProjectile a r →
       getPlayer r b = Some pl → wouldHit r pr b pl = true →
       a ∈ order → b ∈ order →
       (∃ c, hitsOf a b (detectCollisions now order r).2 = [c])
       ∧ spent a b (detectCollisions now order r).1
       ∧ ∃ pl', getPlayer (detectCollisions now order r).1 b = Some pl'
                ∧ Health pl' = hitHealth (Health pl) (Damage pr))
  ∧ (∀ now n i,
       (i < n)%nat →
       SkillID (shotAt "q1" 5 0) = 1
       ∧ (∃ c, hitsOf "s1" (bystander i)
                 (detectCollisions now (crowdOrder n) (crowd n)).2 = [c])
       ∧ ∃ pl', getPlayer (detectCollisions now (crowdOrder n) (crowd n)).1
                  (bystander i) = Some pl'
                ∧ Health pl' = 90).
Proof.
  assert (∀ now order r a pr b pl,
       getProjectile r a = Some pr → soleProjectile a r →
       getPlayer r b = Some pl → wouldHit r pr b pl = true →
       a ∈ order → b ∈ order →
       (∃ c, hitsOf a b (detectCollisions now order r).2 = [c])
       ∧ spent a b (detectCollisions now order r).1
       ∧ ∃ pl', getPlayer (detectCollisions now order r).1 b = Some pl'
                ∧ Health pl' = hitHealth (Health pl) (Damage pr)) as Hsolehit.
  { intros now order r a pr b pl Ha Hsole Hb Hw Hia Hib.
    destruct (sole_detectCollisions now r a b pr pl Ha Hsole Hb order)
      as (Haft & _).
    destruct (Haft Hw Hia Hib) as (Hcore & Hsp & Hone).
    split; [done|]. split; [done|].
    apply coreP_getPlayer in Hcore as (p' & Hp' & Hc).
    destruct (coreP_vitals _ _ Hc) as (Hh & _).
    rewrite hitHealth_damaged in Hh. eauto. }
  split_and!.
  - intros deltaTime rnd r k pr Hpr. split.
    + rewrite (updateEntities_projectile deltaTime rnd r k pr Hpr).
      rewrite <- updateProjectile_None.
      by destruct (updateProjectile deltaTime pr).
    + intros Hlt. rewrite updateEntities_getProjectile, Hpr. simpl.
      unfold updateProjectile. simpl. rewrite Hlt. eauto.
  - intros i r k pr Hpr Hgone. unfold gameLoopTick in Hgone.
    destruct (Status r) eqn:Hst; simpl in Hgone.
    + rewrite checkGameStart_entities in Hgone.
      apply getProjectile_Some in Hpr. congruence.
    + split; [done|]. by eapply update_gone.
    + apply getProjectile_Some in Hpr. congruence.
  - intros a pr b pl r k prk Ha Hb Hk.
    destruct (handleCollision_view a pr b pl r Ha Hb) as (H1 & _).
    rewrite H1. case_decide as Hka.
    + subst k. assert (prk = pr) as -> by congruence.
      eexists. split; [done|]. by exists [b].
    + eexists. split; [done|]. apply stableProjectile_refl.
  - intros now order r k pr Hpr.
    eapply scanned_getProjectile; [apply detectCollisions_scanned|done].
  - intros now order r a pr b pl Ha Hb Hw Hia Hib.
    by apply (any_detectCollisions now r a b pr pl).
  - intros now order r b pl. apply detectCollisions_health.
  - intros now order r a b.
    destruct (detectCollisions_once now order a b r)
      as (_ & [->|((c & ->) & _)]); simpl; lia.
  - exact Hsolehit.
  - intros now n i Hi. split; [done|].
    destruct (Hsolehit now (crowdOrder n) (crowd n) "s1" (shotAt "q1" 5 0)
                (bystander i) (playerAt (Z.of_nat i) TeamNone 0 0))
      as (Hone & _ & Hhealth).
    + apply crowd_projectile.
    + apply crowd_sole.
    + by apply crowd_player.
    + apply crowd_wouldHit.
    + by left.
    + right. apply list_elem_of_fmap_2. apply elem_of_seq. lia.
    + done.
Qed.

End ProjectileLifetime.
(** * Further properties of the code *)

(** ** Decimal numbers *)

Section Decimal.

Import strconv.

Lemma digit_pretty_N_char (x : N) :
  (x < 10)%N → digit (pretty_N_char x) = Some (Z.of_N x).
Proof.
  intros Hx.
  assert (x = 0 ∨ x = 1 ∨ x = 2 ∨ x = 3 ∨ x = 4 ∨ x = 5 ∨ x = 6 ∨ x = 7
          ∨ x = 8 ∨ x = 9)%N as H by lia.
  repeat (destruct H as [->|H]; [reflexivity|]). by subst.
Qed.

Lemma digit_not_sign (c : Ascii.ascii) (d : Z) :
  digit c = Some d →
  Ascii.eqb c "+"%char = false ∧ Ascii.eqb c "-"%char = false.
Proof.
  destruct c as [[] [] [] [] [] [] [] []]; vm_compute; intros; by split.
Qed.

Lemma digits_acc (s : string) (acc : Z) :
  digits s acc
  = (λ v, acc * 10 ^ Z.of_nat (String.length s) + v) <$> digits s 0.
Proof.
  revert acc. induction s as [|c rest IH]; intros acc.
  - simpl. f_equal. lia.
  - cbn [digits String.length]. destruct (digit c) as [d|]; [|done].
    rewrite (IH (10 * acc + d)), (IH (10 * 0 + d)).
    destruct (digits rest 0) as [v|]; [|done]. simpl. f_equal.
    rewrite Nat2Z.inj_succ, Z.pow_succ_r by lia. lia.
Qed.

Lemma digits_pretty_N_go (x : N) (s : string) :
  digits (pretty_N_go x s) 0
  = (λ v, Z.of_N x * 10 ^ Z.of_nat (String.length s) + v) <$> digits s 0.
Proof.
  revert s. induction (N.lt_wf_0 x) as [x _ IH]; intros s.
  destruct (decide (x = 0)%N) as [->|Hx].
  - rewrite pretty_N_go_0. by destruct (digits s 0).
  - rewrite pretty_N_go_step by lia.
    rewrite IH by (apply N.div_lt; lia).
    cbn [digits String.length].
    rewrite digit_pretty_N_char by (apply N.mod_lt; lia).
    rewrite (digits_acc s).
    destruct (digits s 0) as [v|]; [|done]. simpl. f_equal.
    rewrite Nat2Z.inj_succ, Z.pow_succ_r by lia.
    pose proof (N.div_mod x 10 ltac:(lia)) as Hdm.
    assert (Z.of_N x = 10 * Z.of_N (x `div` 10) + Z.of_N (x `mod` 10)) as ->
      by lia.
    lia.
Qed.

Lemma magnitude_pretty_positive (p : positive) :
  magnitude (pretty p) = Some (Z.pos p)
  ∧ ∃ c rest, pretty p = String c rest ∧ Ascii.eqb c "+"%char = false
              ∧ Ascii.eqb c "-"%char = false.
Proof.
  assert (digits (pretty p) 0 = Some (Z.pos p)) as Hd.
  { unfold pretty, pretty_positive, pretty, pretty_N.
    rewrite decide_False by done. rewrite digits_pretty_N_go. simpl.
    f_equal. lia. }
  destruct (pretty p) as [|c rest] eqn:E; [simpl in Hd; by injection Hd|].
  split; [exact Hd|]. exists c, rest. split; [done|].
  cbn [digits] in Hd. destruct (digit c) as [d|] eqn:Ec; [|done].
  by apply digit_not_sign in Ec.
Qed.

(** Parsing the decimal rendering of an [int64] gives the number back. *)
Lemma ParseInt_pretty (n : Z) :
  - 2 ^ 63 <= n < 2 ^ 63 → ParseInt (pretty n) = Some n.
Proof.
  intros Hn. destruct n as [|p|p].
  - reflexivity.
  - destruct (magnitude_pretty_positive p) as (Hm & c & rest & E & Hp & Hm').
    change (pretty (Z.pos p)) with (pretty p). unfold ParseInt.
    rewrite E, Hp, Hm'. rewrite <- E, Hm. simpl.
    destruct (Z.pos p <? 2 ^ 63) eqn:F; [done|]. apply Z.ltb_ge in F. lia.
  - destruct (magnitude_pretty_positive p) as (Hm & _).
    change (pretty (Z.neg p)) with (String "-" (pretty p)).
    unfold ParseInt. change (Ascii.eqb "-"%char "+"%char) with false.
    change (Ascii.eqb "-"%char "-"%char) with true. cbv iota. rewrite Hm. simpl.
    destruct (Z.pos p <=? 2 ^ 63) eqn:F; [done|]. apply Z.leb_gt in F. lia.
Qed.

Lemma ParseInt_range (s : string) (n : Z) :
  ParseInt s = Some n → - 2 ^ 63 <= n < 2 ^ 63.
Proof.
  assert (∀ t acc v, 0 <= acc → digits t acc = Some v → 0 <= v) as Hpos.
  { induction t as [|c rest IH]; intros acc v Hacc; simpl.
    - intros [= <-]. done.
    - unfold digit. destruct (_ && _) eqn:E; [|done].
      apply andb_true_iff in E as [E1%Z.leb_le E2%Z.leb_le].
      apply IH. lia. }
  assert (∀ t v, magnitude t = Some v → 0 <= v) as Hmag.
  { intros [|c rest] v; [done|]. apply Hpos. done. }
  unfold ParseInt. destruct s as [|c rest]; [done|].
  destruct (Ascii.eqb c "+"); [|destruct (Ascii.eqb c "-")];
    destruct (magnitude _) as [un|] eqn:Em; simpl; try done;
    apply Hmag in Em.
  - destruct (un <? 2 ^ 63) eqn:F; [|done]. apply Z.ltb_lt in F.
    intros [= <-]. lia.
  - destruct (un <=? 2 ^ 63) eqn:F; [|done]. apply Z.leb_le in F.
    intros [= <-]. lia.
  - destruct (un <? 2 ^ 63) eqn:F; [|done]. apply Z.ltb_lt in F.
    intros [= <-]. lia.
Qed.

End Decimal.

(** ** The matchmaking queue: joining and leaving *)

Section QueueOperations.

Lemma findRequest_split (playerID : Z) (queue : list MatchRequest) (i : nat) :
  findRequest playerID queue = Some i →
  ∃ before req after,
    queue = before ++ req :: after ∧ length before = i
    ∧ ReqPlayerID req = playerID
    ∧ Forall (λ x, ReqPlayerID x ≠ playerID) before.
Proof.
  revert i. induction queue as [|q rest IH]; intros i; simpl; [done|].
  destruct (ReqPlayerID q =? playerID) eqn:E.
  - intros [= <-]. exists [], q, rest. apply Z.eqb_eq in E. by split_and!.
  - destruct (findRequest playerID rest) as [j|] eqn:F; simpl; [|done].
    intros [= <-]. destruct (IH j eq_refl) as (b & r & a & -> & Hl & Hr & Hf).
    exists (q :: b), r, a. apply Z.eqb_neq in E.
    split_and!; simpl; auto.
Qed.

Lemma findRequest_None (playerID : Z) (queue : list MatchRequest) :
  findRequest playerID queue = None ↔
  Forall (λ x, ReqPlayerID x ≠ playerID) queue.
Proof.
  induction queue as [|q rest IH]; simpl; [by split|].
  destruct (ReqPlayerID q =? playerID) eqn:E.
  - apply Z.eqb_eq in E. split; [done|]. by intros [? _]%Forall_cons.
  - apply Z.eqb_neq in E. rewrite Forall_cons, <- IH.
    destruct (findRequest playerID rest); simpl; split; try done.
    by intros [_ ?].
Qed.

Lemma take_drop_split {A} (before after : list A) (x : A) :
  take (length before) (before ++ x :: after)
  ++ drop (S (length before)) (before ++ x :: after)
  = before ++ after.
Proof.
  rewrite take_app_length.
  replace (S (length before)) with (length (before ++ [x]))
    by (rewrite length_app; simpl; lia).
  by rewrite (cons_middle x before after), app_assoc, drop_app_length.
Qed.

Lemma RemoveFromQueue_cases (playerID : Z) (gameMode : GameMode)
    (s : MatchService) :
  let queue := default [] (queues s !! gameMode) in
  let res := RemoveFromQueue playerID gameMode s in
  (res.2 = true ↔ ∃ req, req ∈ queue ∧ ReqPlayerID req = playerID)
  ∧ (res.2 = false → res.1 = s)
  ∧ (res.2 = true →
     ∃ before req after,
       queue = before ++ req :: after
       ∧ ReqPlayerID req = playerID
       ∧ Forall (λ x, ReqPlayerID x ≠ playerID) before
       ∧ queues res.1 = <[gameMode := before ++ after]> (queues s)
       ∧ gameServer res.1 = gameServer s).
Proof.
  unfold RemoveFromQueue.
  destruct (queues s !! gameMode) as [queue|] eqn:Hq; simpl.
  2: { split; [|by split]. split; [done|].
       intros (req & Hin & _). by apply elem_of_nil in Hin. }
  destruct (findRequest playerID queue) as [i|] eqn:Hf; simpl.
  - destruct (findRequest_split _ _ _ Hf) as (b & r & a & -> & <- & Hr & Hb).
    split; [|split; [done|]].
    + split; [|done]. intros _. exists r. split; [|done].
      apply elem_of_app. right. by left.
    + intros _. exists b, r, a. by rewrite take_drop_split.
  - apply findRequest_None in Hf. split; [|by split].
    split; [done|]. intros (req & Hin & Hreq).
    rewrite Forall_forall in Hf. by destruct (Hf req Hin).
Qed.

(** X1.  [RemoveFromQueue] reports success exactly when the mode's queue holds
    a request of the player (a mode without a queue holds none); it then
    takes out the first such request and nothing else, and otherwise
    leaves the service as it is. *)
Theorem RemoveFromQueue_first_request (playerID : Z) (gameMode : GameMode)
    (s : MatchService) :
  let queue := default [] (queues s !! gameMode) in
  let res := RemoveFromQueue playerID gameMode s in
  (res.2 = true ↔ ∃ req, req ∈ queue ∧ ReqPlayerID req = playerID)
  ∧ (res.2 = false → res.1 = s)
  ∧ (res.2 = true →
     ∃ before req after,
       queue = before ++ req :: after
       ∧ ReqPlayerID req = playerID
       ∧ Forall (λ x, ReqPlayerID x ≠ playerID) before
       ∧ queues res.1 = <[gameMode := before ++ after]> (queues s)
       ∧ gameServer res.1 = gameServer s).
Proof. exact (RemoveFromQueue_cases playerID gameMode s). Qed.

Lemma enqueue_queue (s : MatchService) (q : MatchRequest) (mode : GameMode) :
  queues (enqueue s q) !! mode
  = if decide (ReqGameMode q = mode)
    then Some (default [] (queues s !! mode) ++ [q])
    else queues s !! mode.
Proof.
  unfold enqueue, AddToQueue. simpl. destruct q as [p c m t sid]. simpl.
  case_decide as Hm.
  - subst. by rewrite lookup_insert_eq.
  - by rewrite lookup_insert_ne.
Qed.

Lemma enqueueAll_queue (qs : list MatchRequest) (s : MatchService)
    (mode : GameMode) :
  default [] (queues (enqueueAll qs s) !! mode)
  = default [] (queues s !! mode) ++ filter (λ q, ReqGameMode q = mode) qs
  ∧ (filter (λ q, ReqGameMode q = mode) qs = [] →
     queues (enqueueAll qs s) !! mode = queues s !! mode)
  ∧ gameServer (enqueueAll qs s) = gameServer s.
Proof.
  revert s. induction qs as [|q qs IH]; intros s; simpl.
  { by rewrite app_nil_r. }
  destruct (IH (enqueue s q)) as (H1 & H2 & H3).
  change (enqueueAll (q :: qs) s) with (enqueueAll qs (enqueue s q)).
  rewrite H1, H3, enqueue_queue, filter_cons. split; [|split].
  - case_decide; simpl; [|done]. by rewrite <- app_assoc.
  - case_decide as Hm; [done|]. intros Hnil. rewrite (H2 Hnil).
    by rewrite enqueue_queue, decide_False.
  - done.
Qed.

Lemma processMatching_at (now : Time) (stamp : string)
    (uuid : GameMode → string) (order : list GameMode) (s : MatchService)
    (mode : GameMode) :
  rangeOrder order s → is_Some (queues s !! mode) →
  ∃ l1 l2,
    order = l1 ++ mode :: l2 ∧ (mode ∉ l1) ∧ (mode ∉ l2)
    ∧ processMatching now stamp uuid order s
      = fold_left (matchMode now stamp uuid) l2
          (matchMode now stamp uuid
             (fold_left (matchMode now stamp uuid) l1 (mkPassState s [] []))
             mode).
Proof.
  intros [Hnd Hdom] Hq.
  assert (mode ∈ order) as Hin by by apply Hdom.
  apply list_elem_of_split in Hin as (l1 & l2 & ->).
  apply NoDup_app in Hnd as (_ & Hl1 & Hnd2).
  apply NoDup_cons in Hnd2 as [Hl2 _].
  exists l1, l2. split_and!; [done| |done|].
  - intros Hin1. apply (Hl1 _ Hin1). by left.
  - unfold processMatching. by rewrite fold_left_app.
Qed.

(** One pass on a mode whose queue is long enough: the first requests of
    the queue are matched and the rest stays. *)
Lemma processMatching_head (now : Time) (stamp : string)
    (uuid : GameMode → string) (order : list GameMode) (s : MatchService)
    (mode : GameMode) (queue : list MatchRequest) :
  rangeOrder order s → queues s !! mode = Some queue →
  getPlayersNeededForMode mode <= Z.of_nat (length queue) →
  let n := Z.to_nat (getPlayersNeededForMode mode) in
  let st := processMatching now stamp uuid order s in
  (uuid mode, take n queue) ∈ matched st
  ∧ queues (service st) !! mode = Some (drop n queue).
Proof.
  intros Hro Hq Hle n st.
  destruct (processMatching_at now stamp uuid order s mode Hro)
    as (l1 & l2 & _ & Hn1 & Hn2 & Hst); [by eexists|].
  unfold st. rewrite Hst.
  set (st1 := fold_left (matchMode now stamp uuid) l1 (mkPassState s [] [])).
  destruct (processMatching_frame now stamp uuid l1 (mkPassState s [] [])
              mode Hn1) as (Hq1 & _).
  fold st1 in Hq1. simpl in Hq1. rewrite Hq in Hq1.
  destruct (matchMode_full now stamp uuid st1 mode queue Hq1 Hle)
    as (Hq3 & _ & Hm3).
  destruct (processMatching_frame now stamp uuid l2
              (matchMode now stamp uuid st1 mode) mode Hn2)
    as (Hq2 & _ & Hm2).
  split; [by apply Hm2|]. by rewrite Hq2.
Qed.

(** X2.  First come, first served.  After any series of joins, the queue of a
    mode is what it was followed by the joins for the mode in the order
    they arrived, whoever the players are; the next matching pass, if the
    mode has enough requests waiting, matches the earliest ones and
    leaves the later ones queued in order. *)
Theorem enqueueAll_arrival_order (qs : list MatchRequest) (s : MatchService)
    (mode : GameMode) :
  let s' := enqueueAll qs s in
  let waiting :=
    default [] (queues s !! mode) ++ filter (λ q, ReqGameMode q = mode) qs in
  let needed := Z.to_nat (getPlayersNeededForMode mode) in
  default [] (queues s' !! mode) = waiting
  ∧ GetQueueLength mode s' = Z.of_nat (length waiting)
  ∧ gameServer s' = gameServer s
  ∧ (∀ now stamp uuid order,
       rangeOrder order s' → (needed <= length waiting)%nat →
       let st := processMatching now stamp uuid order s' in
       (uuid mode, take needed waiting) ∈ matched st
       ∧ queues (service st) !! mode = Some (drop needed waiting)).
Proof.
  intros s' waiting needed.
  destruct (enqueueAll_queue qs s mode) as (H1 & _ & H3).
  fold s' waiting in H1. split; [done|]. split; [|split; [done|]].
  - unfold GetQueueLength. rewrite <- H1.
    by destruct (queues s' !! mode).
  - intros now stamp uuid order Hro Hlen.
    pose proof (getPlayersNeededForMode_pos mode) as Hpos.
    assert (queues s' !! mode = Some waiting) as Hq.
    { destruct (queues s' !! mode) as [q|]; simpl in H1; [by subst|].
      rewrite <- H1 in Hlen. simpl in Hlen. lia. }
    apply (processMatching_head now stamp uuid order s' mode waiting Hro Hq).
    lia.
Qed.

Lemma findRequest_is_Some (playerID : Z) (queue : list MatchRequest)
    (req : MatchRequest) :
  req ∈ queue → ReqPlayerID req = playerID →
  is_Some (findRequest playerID queue).
Proof.
  intros Hin Hreq.
  destruct (findRequest playerID queue) eqn:Hf; [by eexists|].
  apply findRequest_None in Hf. rewrite Forall_forall in Hf.
  by destruct (Hf req Hin).
Qed.

(** X3.  [AddToQueue] does not look for an earlier request of the player.  Two
    joins of one player in a mode leave two requests in the queue; a
    leave takes out one of them and the player is still queued; and a
    room's worth of joins by one player is matched into a room by the
    next pass like any other. *)
Theorem AddToQueue_keeps_duplicates (playerID : Z) (mode : GameMode)
    (s : MatchService) :
  (∀ now1 now2 c1 c2 sid1 sid2,
     let s2 := AddToQueue now2 playerID c2 mode sid2
                 (AddToQueue now1 playerID c1 mode sid1 s) in
     GetQueueLength mode s2 = GetQueueLength mode s + 2
     ∧ (RemoveFromQueue playerID mode s2).2 = true
     ∧ (RemoveFromQueue playerID mode
          (RemoveFromQueue playerID mode s2).1).2 = true)
  ∧ (∀ qs now stamp uuid order,
       Forall (λ q, ReqPlayerID q = playerID ∧ ReqGameMode q = mode) qs →
       Z.of_nat (length qs) = getPlayersNeededForMode mode →
       queues s !! mode = None →
       rangeOrder order (enqueueAll qs s) →
       (uuid mode, qs)
       ∈ matched (processMatching now stamp uuid order (enqueueAll qs s))).
Proof.
  split.
  - intros now1 now2 c1 c2 sid1 sid2 s2.
    set (r1 := mkMatchRequest playerID c1 mode now1 sid1).
    set (r2 := mkMatchRequest playerID c2 mode now2 sid2).
    set (q0 := default [] (queues s !! mode)).
    assert (queues s2 !! mode = Some ((q0 ++ [r1]) ++ [r2])) as Hq2.
    { unfold s2, AddToQueue. simpl. by rewrite !lookup_insert_eq. }
    split.
    { unfold GetQueueLength. rewrite Hq2, !length_app. simpl.
      unfold q0. destruct (queues s !! mode); simpl; lia. }
    destruct (RemoveFromQueue_cases playerID mode s2)
      as (Hiff & _ & Htrue).
    rewrite Hq2 in Hiff, Htrue. simpl in Hiff, Htrue.
    assert ((RemoveFromQueue playerID mode s2).2 = true) as Hfirst.
    { apply Hiff. exists r2. split; [|done].
      apply elem_of_app. right. by left. }
    split; [done|].
    destruct (Htrue Hfirst) as (b & r & a & Heq & Hr & Hb & Hq' & _).
    destruct (RemoveFromQueue_cases playerID mode
                (RemoveFromQueue playerID mode s2).1) as (Hiff' & _).
    apply Hiff'. rewrite Hq', lookup_insert_eq. simpl.
    exists r2. split; [|done].
    (* the first request of the player is not the last of the queue *)
    destruct (decide (a = [])) as [->|Hne].
    + assert (r = r2) as ->.
      { apply (f_equal last) in Heq. rewrite !last_snoc in Heq.
        congruence. }
      apply app_inj_tail in Heq as [<- _].
      rewrite Forall_forall in Hb. destruct (Hb r1); [|done].
      apply elem_of_app. right. by left.
    + destruct (exists_last Hne) as (a' & x & ->).
      rewrite app_comm_cons, app_assoc in Heq.
      apply app_inj_tail in Heq as [_ <-].
      rewrite app_assoc. apply elem_of_app. right. by left.
  - intros qs now stamp uuid order Hall Hlen Hnone Hro.
    destruct (enqueueAll_queue qs s mode) as (H1 & _).
    rewrite Hnone in H1. simpl in H1.
    assert (filter (λ q, ReqGameMode q = mode) qs = qs) as Hf.
    { clear -Hall. induction Hall as [|q qs [_ Hm] _ IH]; [done|].
      by rewrite filter_cons, decide_True, IH. }
    rewrite Hf in H1.
    pose proof (getPlayersNeededForMode_pos mode) as Hpos.
    assert (queues (enqueueAll qs s) !! mode = Some qs) as Hq.
    { destruct (queues (enqueueAll qs s) !! mode) as [q|]; simpl in H1;
        [by subst|]. subst qs. simpl in Hlen. lia. }
    destruct (processMatching_head now stamp uuid order (enqueueAll qs s)
                mode qs Hro Hq) as (Hm & _); [lia|].
    replace (Z.to_nat (getPlayersNeededForMode mode)) with (length qs) in Hm
      by lia.
    by rewrite firstn_all in Hm.
Qed.

(** X4.  Joining and leaving through the endpoints.  A well-formed join of a
    player who has no request in the mode's queue is queued; a leave for
    the player's number in decimal then takes the request out again and
    reports success, so that every queue is as long as before; a second
    leave reports that the player is not queued.  A join that is turned
    down leaves the service as it was. *)
Theorem handleJoinQueue_then_leave (now : Time) (req : joinQueueRequest)
    (s : MatchService) :
  0 < JoinPlayerID req < 2 ^ 63 → 0 < JoinCharacterID req →
  JoinGameMode req ≠ "" → JoinSessionID req ≠ "" →
  Forall (λ q, ReqPlayerID q ≠ JoinPlayerID req)
    (default [] (queues s !! JoinGameMode req)) →
  let mode := JoinGameMode req in
  let idStr := pretty (JoinPlayerID req) in
  let joined := handleJoinQueue now "POST" (Some req) s in
  let left := handleLeaveQueue "POST" idStr mode joined.1 in
  joined.2 = mkReply 200 (Some true)
  ∧ GetQueueLength mode joined.1 = GetQueueLength mode s + 1
  ∧ left.2 = mkReply 200 (Some true)
  ∧ queues left.1 = <[mode := default [] (queues s !! mode)]> (queues s)
  ∧ (∀ m, GetQueueLength m left.1 = GetQueueLength m s)
  ∧ handleLeaveQueue "POST" idStr mode left.1 = (left.1, mkReply 200 (Some false))
  ∧ (∀ method body,
       StatusCode (handleJoinQueue now method body s).2 ≠ 200 →
       (handleJoinQueue now method body s).1 = s).
Proof.
  intros Hp Hc Hm Hs Hfresh mode idStr joined left.
  set (q0 := default [] (queues s !! mode)).
  set (r := mkMatchRequest (JoinPlayerID req) (JoinCharacterID req) mode now
              (JoinSessionID req)).
  assert (joined = (AddToQueue now (JoinPlayerID req) (JoinCharacterID req)
                      mode (JoinSessionID req) s, mkReply 200 (Some true)))
    as Hj.
  { unfold joined, handleJoinQueue.
    assert ((JoinPlayerID req <=? 0) = false) as -> by (apply Z.leb_gt; lia).
    assert ((JoinCharacterID req <=? 0) = false) as -> by (apply Z.leb_gt; lia).
    apply String.eqb_neq in Hm. apply String.eqb_neq in Hs.
    by rewrite Hm, Hs. }
  assert (queues joined.1 = <[mode := q0 ++ [r]]> (queues s)) as Hqj.
  { by rewrite Hj. }
  assert (strconv.ParseInt idStr = Some (JoinPlayerID req)) as Hparse.
  { apply ParseInt_pretty. lia. }
  assert (String.eqb idStr "" = false) as Hid.
  { apply String.eqb_neq. intros E. by rewrite E in Hparse. }
  assert (findRequest (JoinPlayerID req) (q0 ++ [r]) = Some (length q0))
    as Hfind.
  { clear -Hfresh. fold mode in Hfresh. fold q0 in Hfresh.
    induction Hfresh as [|q l Hq _ IH]; simpl.
    - by rewrite Z.eqb_refl.
    - apply Z.eqb_neq in Hq as ->. by rewrite IH. }
  assert (left = (mkMatchService (<[mode := q0]> (queues s)) (gameServer s),
                  mkReply 200 (Some true))) as Hl.
  { unfold left, handleLeaveQueue. rewrite Hid.
    apply String.eqb_neq in Hm. fold mode in Hm. rewrite Hm.
    cbn [negb andb orb String.eqb Ascii.eqb Bool.eqb]. rewrite Hparse.
    unfold RemoveFromQueue. rewrite Hqj, lookup_insert_eq, Hfind.
    rewrite take_app_length.
    replace (S (length q0)) with (length (q0 ++ [r]))
      by (rewrite length_app; simpl; lia).
    rewrite drop_all, app_nil_r, insert_insert_eq. by rewrite Hj. }
  split; [by rewrite Hj|]. split.
  { unfold GetQueueLength. rewrite Hqj, lookup_insert_eq, length_app. simpl.
    unfold q0. destruct (queues s !! mode); simpl; lia. }
  split; [by rewrite Hl|]. split; [by rewrite Hl|]. split.
  { intros m. rewrite Hl. unfold GetQueueLength. simpl.
    destruct (decide (m = mode)) as [->|Hne].
    - rewrite lookup_insert_eq. unfold q0. by destruct (queues s !! mode).
    - by rewrite lookup_insert_ne. }
  split.
  { rewrite Hl. unfold handleLeaveQueue. rewrite Hid.
    apply String.eqb_neq in Hm. fold mode in Hm. rewrite Hm.
    cbn [negb andb orb String.eqb Ascii.eqb Bool.eqb]. rewrite Hparse.
    unfold RemoveFromQueue. cbn [queues fst snd]. rewrite lookup_insert_eq.
    apply findRequest_None in Hfresh. fold mode q0 in Hfresh.
    by rewrite Hfresh. }
  intros method body. unfold handleJoinQueue.
  destruct (negb (String.eqb method "POST")); [done|].
  destruct body as [b|]; [|done].
  by destruct (_ || _).
Qed.

End QueueOperations.

Lemma handleJoinQueue_then_leave_witness :
  (handleLeaveQueue "POST" (pretty 7) DeathMatch
     (handleJoinQueue 0 "POST"
        (Some (mkJoinQueueRequest 7 1 DeathMatch "s7")) idleService).1).2
  = mkReply 200 (Some true).
Proof.
  destruct (handleJoinQueue_then_leave 0
              (mkJoinQueueRequest 7 1 DeathMatch "s7") idleService)
    as (_ & _ & H & _);
    [done|done|done|done|by vm_compute|exact H].
Defined.

(** ** The match history endpoint *)

Section MatchHistory.

Lemma take_min_length {A} (l : list A) (n : nat) :
  take (n `min` length l) l = take n l.
Proof.
  destruct (decide (n ≤ length l)%nat).
  - by rewrite Nat.min_l.
  - rewrite Nat.min_r by lia. by rewrite !take_ge by lia.
Qed.

Lemma queryInt_accept (str : string) (accept : Z → bool) (dflt : Z) :
  accept dflt = true →
  accept (queryInt str accept dflt) = true
  ∧ (- 2 ^ 63 <= dflt < 2 ^ 63 →
     - 2 ^ 63 <= queryInt str accept dflt < 2 ^ 63).
Proof.
  intros Hd. unfold queryInt, strconv.Atoi.
  destruct (String.eqb str ""); [tauto|].
  destruct (strconv.ParseInt str) as [n|] eqn:E; [|tauto].
  destruct (accept n) eqn:Ea; [|tauto].
  split; [done|]. intros _. by apply ParseInt_range in E.
Qed.

(** [getMatchHistory] on a limit and an offset that have passed the
    tests of the handler: the page is the entries from the offset on, at
    most [limit] of them. *)
Lemma getMatchHistory_page (playerID limit offset : Z) :
  0 < limit <= 100 → 0 <= offset < 2 ^ 63 →
  getMatchHistory playerID limit offset
  = Returns (take (Z.to_nat limit) (drop (Z.to_nat offset) allHistory), 3).
Proof.
  intros Hl Ho. unfold getMatchHistory.
  change (Z.of_nat (length allHistory)) with 3.
  destruct (3 <=? offset) eqn:E.
  - apply Z.leb_le in E. rewrite drop_ge by (simpl; lia).
    by rewrite take_nil.
  - apply Z.leb_gt in E. unfold int_add.
    rewrite wrap_in_int by (unfold in_int; lia).
    unfold slice. change (Z.of_nat (length allHistory)) with 3.
    set (e := if 3 <? offset + limit then 3 else offset + limit).
    assert (e = Z.min 3 (offset + limit)) as He.
    { unfold e. destruct (3 <? offset + limit) eqn:F;
        [apply Z.ltb_lt in F | apply Z.ltb_ge in F]; lia. }
    assert ((0 <=? offset) && (offset <=? e) && (e <=? 3) = true) as ->.
    { rewrite !andb_true_iff, !Z.leb_le. lia. }
    simpl. do 2 f_equal.
    rewrite <- (take_min_length _ (Z.to_nat limit)), length_drop.
    f_equal. simpl. lia.
Qed.

(** X5.  The match history endpoint never fails on its parameters: whatever
    the strings given for [limit] and [offset], a reply is written; a
    limit that is not a number from 1 to 100 counts as 20 and an offset
    that is not a number from 0 on counts as 0; and the page of a
    successful reply is the entries from the offset on, at most [limit]
    of them, of the three entries every player has. *)
Theorem handleMatchHistory_page (method path limitStr offsetStr : string) :
  let limit := queryInt limitStr (λ l, (0 <? l) && (l <=? 100)) 20 in
  let offset := queryInt offsetStr (λ o, 0 <=? o) 0 in
  0 < limit <= 100 ∧ 0 <= offset < 2 ^ 63
  ∧ ∃ reply data,
      handleMatchHistory method path limitStr offsetStr
      = Returns (reply, data)
      ∧ (StatusCode reply = 200 ↔ is_Some data)
      ∧ ∀ d, data = Some d →
          History d = take (Z.to_nat limit) (drop (Z.to_nat offset) allHistory)
          ∧ Total d = 3 ∧ Limit d = limit
          ∧ (offset < 2 ^ 63 - 1 → Page d = offset `quot` limit + 1).
Proof.
  intros limit offset.
  destruct (queryInt_accept limitStr (λ l, (0 <? l) && (l <=? 100)) 20
              eq_refl) as [Hl _].
  fold limit in Hl. apply andb_true_iff in Hl as [Hl1%Z.ltb_lt Hl2%Z.leb_le].
  destruct (queryInt_accept offsetStr (λ o, 0 <=? o) 0 eq_refl) as [Ho Ho'].
  fold offset in Ho, Ho'. apply Z.leb_le in Ho.
  specialize (Ho' ltac:(lia)).
  split; [lia|]. split; [lia|].
  unfold handleMatchHistory.
  destruct (negb (String.eqb method "GET")).
  { eexists _, None. split; [done|]. split; [|done].
    split; [done | by intros [? [=]]]. }
  destruct (strconv.ParseInt _) as [playerID|].
  2: { eexists _, None. split; [done|]. split; [|done].
       split; [done | by intros [? [=]]]. }
  fold limit offset.
  rewrite getMatchHistory_page by lia. simpl.
  eexists _, (Some _). split; [done|]. split; [by split; eauto|].
  intros d [= <-]. simpl. split_and!; try done.
  intros Hlt. unfold int_add. apply wrap_in_int. unfold in_int.
  pose proof (Z.quot_pos offset limit ltac:(lia) ltac:(lia)).
  assert (offset `quot` limit <= offset); [|lia].
  apply Z.quot_le_upper_bound; nia.
Qed.

End MatchHistory.

(** ** Rooms on the server: creation and cleanup *)

Section RoomRegistry.

Lemma cleanupRooms_fold (now : Time) (s : GameServer) (l : list string) :
  NoDup l →
  let s' := foldr (cleanupRoom now) s l in
  (∀ id, id ∈ rooms s' ↔
         id ∈ rooms s
         ∧ (bool_decide (id ∈ l) && dueForCleanup now s id) = false)
  ∧ (∀ id, roomObjs s' !! id
           = if bool_decide (id ∈ l) && dueForCleanup now s id
             then game.Stop now <$> roomObjs s !! id
             else roomObjs s !! id)
  ∧ connections s' = connections s
  ∧ connObjs s' = connObjs s.
Proof.
  induction 1 as [|x l Hx Hnd IH]; simpl.
  { assert (∀ id : string, bool_decide (id ∈ @nil string) = false) as Hnil.
    { intros id. apply bool_decide_eq_false_2, not_elem_of_nil. }
    split_and!; try done; intros id; rewrite ?Hnil; simpl; tauto. }
  destruct IH as (Hr & Ho & Hc & Hco).
  set (s1 := foldr (cleanupRoom now) s l) in *.
  assert (bool_decide (x ∈ l) = false) as Hxl
    by by apply bool_decide_eq_false_2.
  assert (bool_decide (x ∈ x :: l) = true) as Hxx
    by (apply bool_decide_eq_true_2; by left).
  assert (∀ id, id ≠ x → bool_decide (id ∈ x :: l) = bool_decide (id ∈ l))
    as Hne.
  { intros id Hid. apply bool_decide_ext. rewrite elem_of_cons. tauto. }
  assert (roomObjs s1 !! x = roomObjs s !! x) as Hox by by rewrite Ho, Hxl.
  assert (cleanupRoom now x s1
          = if dueForCleanup now s x
            then set_rooms (rooms s1 ∖ {[x]})
                   (set_roomObjs
                      (alter (game.Stop now) x (roomObjs s1)) s1)
            else s1) as ->.
  { unfold cleanupRoom, dueForCleanup. rewrite Hox.
    destruct (roomObjs s !! x) as [room|] eqn:Hroom; [|done].
    destruct (ShouldCleanup now room); [|done].
    do 2 f_equal. apply map_eq. intros j. rewrite lookup_alter.
    destruct (decide (x = j)) as [<-|Hj].
    - by rewrite lookup_insert_eq, Hox.
    - by rewrite lookup_insert_ne. }
  destruct (dueForCleanup now s x) eqn:Hdue; simpl.
  - split_and!; try done; intros id.
    + rewrite elem_of_difference, elem_of_singleton, Hr.
      destruct (decide (id = x)) as [->|Hid].
      * rewrite Hxx, Hdue. simpl. intuition congruence.
      * rewrite (Hne id Hid). tauto.
    + rewrite lookup_alter. destruct (decide (x = id)) as [<-|Hid].
      * by rewrite Hxx, Hdue, Hox.
      * rewrite Hne by done. apply Ho.
  - split_and!; try done; intros id.
    + rewrite Hr. destruct (decide (id = x)) as [->|Hid].
      * rewrite Hxx, Hxl, Hdue. tauto.
      * by rewrite (Hne id Hid).
    + rewrite Ho. destruct (decide (id = x)) as [->|Hid].
      * by rewrite Hxx, Hxl, Hdue.
      * by rewrite (Hne id Hid).
Qed.

Lemma cleanupRooms_rooms (now : Time) (s : GameServer) (id : string) :
  id ∈ rooms (cleanupRooms now s)
  ↔ id ∈ rooms s ∧ dueForCleanup now s id = false.
Proof.
  destruct (cleanupRooms_fold now s (elements (rooms s)))
    as (Hr & _); [apply NoDup_elements|].
  fold (cleanupRooms now s) in Hr. rewrite Hr.
  assert (id ∈ rooms s → bool_decide (id ∈ elements (rooms s)) = true) as Hel.
  { intros Hin. by apply bool_decide_eq_true_2, elem_of_elements. }
  split; intros [Hin Hd]; (split; [done|]).
  - by rewrite (Hel Hin) in Hd.
  - by rewrite (Hel Hin).
Qed.

(** X6.  A cleanup pass unregisters exactly the registered rooms that
    [ShouldCleanup] finds due, stopping each of them, and leaves the other
    rooms and all connections as they are; in particular a room that
    holds a player and has not ended is never unregistered. *)
Theorem cleanupRooms_removes_due (now : Time) (s : GameServer) :
  let s' := cleanupRooms now s in
  (∀ id, id ∈ rooms s' ↔ id ∈ rooms s ∧ dueForCleanup now s id = false)
  ∧ (∀ id room,
       id ∈ rooms s → roomObjs s !! id = Some room →
       ShouldCleanup now room = true →
       roomObjs s' !! id = Some (game.Stop now room))
  ∧ (∀ id, id ∈ rooms s' → roomObjs s' !! id = roomObjs s !! id)
  ∧ (∀ id room,
       id ∈ rooms s → roomObjs s !! id = Some room →
       players room ≠ ∅ → Status room ≠ RoomEnded → id ∈ rooms s')
  ∧ connections s' = connections s
  ∧ connObjs s' = connObjs s.
Proof.
  intros s'.
  destruct (cleanupRooms_fold now s (elements (rooms s)))
    as (Hr & Ho & Hc & Hco); [apply NoDup_elements|].
  fold (cleanupRooms now s) in Hr, Ho, Hc, Hco. fold s' in Hr, Ho, Hc, Hco.
  assert (∀ id, id ∈ rooms s → bool_decide (id ∈ elements (rooms s)) = true)
    as Hel.
  { intros id Hin. by apply bool_decide_eq_true_2, elem_of_elements. }
  assert (∀ id, id ∈ rooms s' ↔ id ∈ rooms s ∧ dueForCleanup now s id = false)
    as Hiff.
  { intros id. rewrite Hr. split; intros [Hin Hd]; (split; [done|]).
    - by rewrite (Hel id Hin) in Hd.
    - by rewrite (Hel id Hin). }
  split_and!; try done.
  - intros id room Hin Hroom Hdue. rewrite Ho, (Hel id Hin).
    unfold dueForCleanup. by rewrite Hroom, Hdue.
  - intros id [Hin Hdue]%Hiff. by rewrite Ho, Hdue, andb_false_r.
  - intros id room Hin Hroom Hne Hst. apply Hiff. split; [done|].
    unfold dueForCleanup. rewrite Hroom.
    destruct (ShouldCleanup now room) eqn:E; [|done].
    apply ShouldCleanup_cases in E as [[? _]|(_ & ? & _)]; done.
Qed.

Lemma Since_over (now t : Time) (d : Duration) :
  0 <= d < maxDuration → (d <? Since now t) = true ↔ d < now - t.
Proof.
  intros Hd. rewrite Z.ltb_lt. unfold Since, Sub, minDuration, maxDuration in *.
  lia.
Qed.

(** X7.  A room lives for five idle minutes.  [CreateRoom] registers a room
    that is started, waiting and empty; as long as nobody joins it, every
    cleanup pass up to five minutes after its creation keeps it and every
    later pass unregisters it. *)
Theorem CreateRoom_idle_lifetime (roomID : string) (t0 : Time) (name : string)
    (mode : GameMode) (maxPlayers mapID : Z) (s : GameServer) :
  let s1 := (CreateRoom roomID t0 name mode maxPlayers mapID s).1 in
  roomID ∈ rooms s1
  ∧ (∃ room, roomObjs s1 !! roomID = Some room
             ∧ players room = ∅ ∧ Status room = RoomWaiting
             ∧ isRunning room = true ∧ lastActivity room = t0
             ∧ Mode room = mode ∧ MaxPlayers room = maxPlayers)
  ∧ (∀ id, id ≠ roomID →
       (id ∈ rooms s1 ↔ id ∈ rooms s) ∧ roomObjs s1 !! id = roomObjs s !! id)
  ∧ (∀ now, roomID ∈ rooms (cleanupRooms now s1) ↔ now - t0 <= 5 * Minute).
Proof.
  intros s1. unfold s1, CreateRoom. simpl. split_and!.
  - apply elem_of_union. left. by apply elem_of_singleton.
  - rewrite lookup_insert_eq. eexists. split; [done|]. by split_and!.
  - intros id Hne. rewrite lookup_insert_ne by done. split; [|done].
    rewrite elem_of_union, elem_of_singleton. tauto.
  - intros now.
    pose proof (cleanupRooms_rooms now
                  (CreateRoom roomID t0 name mode maxPlayers mapID s).1 roomID)
      as Hiff.
    unfold CreateRoom in Hiff. simpl in Hiff. rewrite Hiff.
    unfold dueForCleanup. simpl. rewrite lookup_insert_eq.
    unfold ShouldCleanup. simpl.
    assert ((IsEmpty (set_lastActivity t0 (set_isRunning true
               (NewRoom roomID t0 name mode maxPlayers mapID)))) = true) as ->.
    { by apply IsEmpty_true. }
    simpl.
    assert (0 <= 5 * Minute < maxDuration) as Hfive by by vm_compute.
    pose proof (Since_over now t0 (5 * Minute) Hfive) as HS.
    destruct (decide (5 * Minute < now - t0)) as [Hlt|Hge].
    + rewrite (proj2 HS Hlt). split; [by intros [_ ?]|lia].
    + assert ((5 * Minute <? Since now t0) = false) as ->.
      { apply not_true_is_false. intros E. by apply HS in E. }
      split; [lia|]. intros _. split; [|done].
      apply elem_of_union. left. by apply elem_of_singleton.
Qed.

End RoomRegistry.

(** ** The rooms a matching pass creates *)

Section MatchedRooms.

Variables (now : Time) (stamp : string) (uuid : GameMode → string).

Lemma matchMode_server (st : PassState) (m : GameMode) :
  (∀ id, id ∈ rooms (gameServer (service st)) →
         id ∈ rooms (gameServer (service (matchMode now stamp uuid st m))))
  ∧ (∀ id, id ≠ uuid m →
       (id ∈ rooms (gameServer (service (matchMode now stamp uuid st m)))
        ↔ id ∈ rooms (gameServer (service st)))
       ∧ roomObjs (gameServer (service (matchMode now stamp uuid st m))) !! id
         = roomObjs (gameServer (service st)) !! id).
Proof.
  unfold matchMode.
  destruct (queues (service st) !! m) as [queue|]; [|by split].
  destruct (Z.of_nat (length queue) <? getPlayersNeededForMode m);
    [by split|].
  unfold CreateRoom. simpl. split.
  - intros id Hin. apply elem_of_union. by right.
  - intros id Hne. rewrite lookup_insert_ne by done. split; [|done].
    rewrite elem_of_union, elem_of_singleton. tauto.
Qed.

Lemma fold_matchMode_server (l : list GameMode) (st : PassState) :
  (∀ id, id ∈ rooms (gameServer (service st)) →
         id ∈ rooms (gameServer (service
                       (fold_left (matchMode now stamp uuid) l st))))
  ∧ (∀ id, (∀ m, m ∈ l → uuid m ≠ id) →
       (id ∈ rooms (gameServer (service
                      (fold_left (matchMode now stamp uuid) l st)))
        ↔ id ∈ rooms (gameServer (service st)))
       ∧ roomObjs (gameServer (service
                     (fold_left (matchMode now stamp uuid) l st))) !! id
         = roomObjs (gameServer (service st)) !! id).
Proof.
  revert st. induction l as [|m l IH]; intros st; simpl; [by split|].
  destruct (IH (matchMode now stamp uuid st m)) as (H1 & H2).
  destruct (matchMode_server st m) as (G1 & G2). split.
  - intros id Hin. by apply H1, G1.
  - intros id Hid.
    destruct (H2 id) as (E1 & E2).
    { intros m' Hm'. apply Hid. by right. }
    destruct (G2 id) as (F1 & F2).
    { intros ->. apply (Hid m); [by left|done]. }
    split; [by rewrite E1 | by rewrite E2].
Qed.

(** X8.  A matching pass that matches a mode registers a room for it on the
    game server: started, waiting for players, for as many players as the
    mode requires, and empty: the requests matched are taken from the
    queue but no player is put in the room.  The rooms registered before
    the pass stay registered. *)
Theorem processMatching_registers_room (order : list GameMode)
    (s : MatchService) (mode : GameMode) (queue : list MatchRequest) :
  rangeOrder order s → queues s !! mode = Some queue →
  getPlayersNeededForMode mode <= Z.of_nat (length queue) →
  (∀ m, m ∈ order → m ≠ mode → uuid m ≠ uuid mode) →
  let st := processMatching now stamp uuid order s in
  let gs := gameServer (service st) in
  uuid mode ∈ rooms gs
  ∧ (∃ room, roomObjs gs !! uuid mode = Some room
             ∧ players room = ∅ ∧ entities room = ∅
             ∧ Status room = RoomWaiting ∧ isRunning room = true
             ∧ Mode room = mode
             ∧ MaxPlayers room = getPlayersNeededForMode mode
             ∧ MapID room = 1 ∧ Name room = mode +:+ "-" +:+ stamp
             ∧ lastActivity room = now)
  ∧ (uuid mode, take (Z.to_nat (getPlayersNeededForMode mode)) queue)
    ∈ matched st
  ∧ (∀ id, id ∈ rooms (gameServer s) → id ∈ rooms gs).
Proof.
  intros Hro Hq Hle Huu st gs.
  destruct (processMatching_at now stamp uuid order s mode Hro)
    as (l1 & l2 & Hord & Hn1 & Hn2 & Hst); [by eexists|].
  set (st1 := fold_left (matchMode now stamp uuid) l1 (mkPassState s [] []))
    in *.
  set (st2 := matchMode now stamp uuid st1 mode) in *.
  destruct (processMatching_frame now stamp uuid l1 (mkPassState s [] [])
              mode Hn1) as (Hq1 & _).
  fold st1 in Hq1. simpl in Hq1. rewrite Hq in Hq1.
  destruct (fold_matchMode_server l1 (mkPassState s [] [])) as (K1 & _).
  fold st1 in K1. simpl in K1.
  destruct (fold_matchMode_server l2 st2) as (L1 & L2).
  fold st2 in Hst. rewrite <- Hst in L1, L2. fold st in L1, L2.
  fold gs in L1, L2.
  destruct (L2 (uuid mode)) as (M1 & M2).
  { intros m Hm. apply Huu.
    - rewrite Hord. apply elem_of_app. right. by right.
    - intros ->. done. }
  assert (gameServer (service st2)
          = (CreateRoom (uuid mode) now (mode +:+ "-" +:+ stamp) mode
               (getPlayersNeededForMode mode) 1
               (gameServer (service st1))).1) as Hgs2.
  { unfold st2, matchMode. rewrite Hq1.
    by apply Z.ltb_ge in Hle as ->. }
  split_and!.
  - apply M1. rewrite Hgs2. unfold CreateRoom. simpl.
    apply elem_of_union. left. by apply elem_of_singleton.
  - rewrite M2, Hgs2. unfold CreateRoom. simpl. rewrite lookup_insert_eq.
    eexists. split; [done|]. by split_and!.
  - apply (processMatching_head now stamp uuid order s mode queue Hro Hq Hle).
  - intros id Hin. apply L1. destruct (matchMode_server st1 mode) as (G1 & _).
    fold st2 in G1. by apply G1, K1.
Qed.

End MatchedRooms.

(** Four requests queued for death match, one pass: the room of the
    theorem above. *)
Lemma processMatching_registers_room_witness :
  "room-1" ∈ rooms (gameServer (service
     (processMatching 0 "120000" (λ _, "room-1") [DeathMatch] fourQueued)))
  ∧ ("room-1", fourRequests)
    ∈ matched (processMatching 0 "120000" (λ _, "room-1") [DeathMatch]
                 fourQueued).
Proof.
  destruct (processMatching_registers_room 0 "120000" (λ _, "room-1")
              [DeathMatch] fourQueued DeathMatch fourRequests
              fourQueued_order eq_refl) as (H1 & _ & H3 & _).
  - vm_compute. discriminate.
  - intros m Hm Hne. apply list_elem_of_singleton in Hm. done.
  - split; [exact H1 | exact H3].
Defined.

(** ** The life of a room *)

Section RoomLifecycle.

Import lifecycle.

(** X9.  Starting and stopping a room.  A room that is not running can be
    started, and a second [Start] is refused and changes nothing; [Stop]
    of a room that is not running does nothing, so a room that was never
    started is not ended by it; [Stop] of a running room ends it and
    closes its shutdown channel, and a second [Stop] does nothing.  But a
    stopped room can be started again, it stays ended, and the [Stop]
    that follows panics, closing the shutdown channel a second time. *)
Theorem Room_Start_Stop (now0 now1 now2 now3 now4 : Time) (h : RoomHandle) :
  isRunning (room h) = false → closed (shutdown h) = false →
  lifecycle.Stop now0 h = Returns h
  ∧ ∃ h1, Start now1 h = (h1, None)
      ∧ isRunning (room h1) = true ∧ Status (room h1) = Status (room h)
      ∧ Start now2 h1 = (h1, Some ErrAlreadyRunning)
      ∧ ∃ h2, lifecycle.Stop now2 h1 = Returns h2
          ∧ Status (room h2) = RoomEnded ∧ EndedAt (room h2) = now2
          ∧ isRunning (room h2) = false ∧ closed (shutdown h2) = true
          ∧ lifecycle.Stop now3 h2 = Returns h2
          ∧ ∃ h3, Start now3 h2 = (h3, None)
              ∧ Status (room h3) = RoomEnded ∧ isRunning (room h3) = true
              ∧ lifecycle.Stop now4 h3 = Panics.
Proof.
  intros Hrun Hopen. destruct h as [r sh]. simpl in *.
  unfold Stop, Start, game.Start. simpl. rewrite Hrun. simpl.
  split; [done|]. eexists. split; [done|]. simpl.
  split; [done|]. split; [done|]. split; [done|].
  unfold close_chan. rewrite Hopen. simpl.
  eexists. split; [done|]. simpl. by repeat (split; [done|]); eexists.
Qed.

Lemma Room_Start_Stop_witness :
  ∃ h1 h2 h3,
    Start 1 lobby = (h1, None)
    ∧ lifecycle.Stop 2 h1 = Returns h2
    ∧ Start 3 h2 = (h3, None)
    ∧ lifecycle.Stop 4 h3 = Panics.
Proof.
  destruct (Room_Start_Stop 0 1 2 3 4 lobby eq_refl eq_refl)
    as (_ & h1 & H1 & _ & _ & _ & h2 & H2 & _ & _ & _ & _ & _ & h3 & H3
        & _ & _ & H4).
  by exists h1, h2, h3.
Defined.

Lemma checkGameStart_nobodyReady (now : Time) (r : Room) :
  nobodyReady r → checkGameStart now r = r.
Proof.
  intros Hn. unfold checkGameStart.
  destruct (size (players r) <? 2)%nat eqn:E; [done|].
  apply Nat.ltb_ge in E.
  destruct (map_to_list (players r)) as [|[k ps] l] eqn:Hl.
  { apply map_to_list_empty_iff in Hl. rewrite Hl, map_size_empty in E. lia. }
  simpl. rewrite (Hn k ps); [done|].
  apply elem_of_map_to_list. rewrite Hl. by left.
Qed.

Variable Atan2 : float → float → float.
Variables Cos Sin : float → float.

Lemma UseSkill_lobby (uuid : nat → string) (now : Time) (playerID : string)
    (skillID : Z) (targetPos : Vector2D) (r : Room) :
  let r' := UseSkill Atan2 Cos Sin uuid now playerID skillID targetPos r in
  Status r' = Status r ∧ players r' = players r ∧ frameID r' = frameID r.
Proof.
  unfold UseSkill.
  destruct (entities r !! playerID) as [[player| |]|]; try done.
  destruct (match SkillCooldowns player !! skillID with
            | Some cooldown => (0 <? cooldown)%float
            | None => false
            end); [done|].
  repeat (match goal with |- context [if ?b then _ else _] => destruct b end);
    done.
Qed.

Lemma call_lobby (c : RoomCall) (h h' : RoomHandle) :
  call Atan2 Cos Sin c h = Returns h' →
  Status (room h) ≠ RoomPlaying → nobodyReady (room h) →
  Status (room h') ≠ RoomPlaying ∧ nobodyReady (room h')
  ∧ frameID (room h') = frameID (room h).
Proof.
  intros Hc Hst Hn. destruct c; simpl in Hc.
  - injection Hc as <-. unfold Start, game.Start.
    by destruct (isRunning (room h)).
  - unfold Stop in Hc. destruct (isRunning (room h)); simpl in Hc.
    + destruct (close_chan (shutdown h)); simpl in Hc; try done.
      by injection Hc as <-.
    + by injection Hc as <-.
  - destruct (AddPlayer connID conn characterID entityID u now (room h))
      as [[r' e]| |] eqn:Ha; simpl in Hc; try done.
    injection Hc as <-. simpl.
    destruct (decide (MaxPlayers (room h)
                      <= Z.of_nat (size (players (room h))))) as [Hf|Hf].
    { rewrite AddPlayer_full in Ha by done. by injection Ha as <- _. }
    destruct (decide (Status (room h) = RoomWaiting)) as [Hs|Hs].
    2: { rewrite AddPlayer_closed in Ha by done. by injection Ha as <- _. }
    rewrite AddPlayer_open in Ha by done.
    destruct (assignTeam WriteLocked (room h)) as [t| |]; simpl in Ha;
      try done.
    injection Ha as <- _. simpl. split_and!; try done.
    unfold nobodyReady. simpl. intros k ps.
    destruct (decide (k = connID)) as [->|Hk].
    + rewrite lookup_insert_eq. by intros [= <-].
    + rewrite lookup_insert_ne by done. apply Hn.
  - injection Hc as <-. simpl. unfold RemovePlayer.
    destruct (players (room h) !! connID) as [ps|] eqn:Hp; [|done].
    simpl. split_and!; try done.
    unfold nobodyReady. simpl.
    intros k ps'. intros Hk%lookup_delete_Some. by apply (Hn k), Hk.
  - by injection Hc as <-.
  - injection Hc as <-. simpl.
    destruct (UseSkill_lobby uuid now playerID skillID targetPos (room h))
      as (E1 & E2 & E3).
    unfold nobodyReady. by rewrite E1, E2, E3.
  - injection Hc as <-. simpl. unfold gameLoopTick.
    destruct (Status (room h)) eqn:Hs; simpl; [|done|by rewrite Hs].
    rewrite checkGameStart_nobodyReady by done. by rewrite Hs.
Qed.

(** X10.  No game ever begins.  [AddPlayer] enters every player as not ready
    and nothing marks a player ready ([handlePlayerReady] has no body),
    while [checkGameStart] waits for all players to be ready.  So
    whatever calls reach a room after [NewRoom] (starts, stops, joins,
    leaves, ready messages, skills, ticks), the room never plays: its
    frame counter stays 0 and a tick neither updates an entity nor scans
    for collisions. *)
Theorem room_never_plays (cs : list RoomCall) (roomID : string) (now : Time)
    (name : string) (mode : GameMode) (maxPlayers mapID : Z)
    (h : RoomHandle) :
  runCalls Atan2 Cos Sin cs (NewRoom roomID now name mode maxPlayers mapID)
  = Returns h →
  Status (room h) ≠ RoomPlaying
  ∧ nobodyReady (room h)
  ∧ frameID (room h) = 0
  ∧ (∀ i, gameLoopTick (tickNow i) (tickOrder i) (tickRnd i) (room h)
          = (room h, [])).
Proof.
  set (h0 := NewRoom roomID now name mode maxPlayers mapID).
  assert (Status (room h0) ≠ RoomPlaying ∧ nobodyReady (room h0)
          ∧ frameID (room h0) = 0) as H0.
  { split_and!; try done. }
  revert H0. generalize h0. clear h0.
  induction cs as [|c cs IH]; intros h0 (Hs & Hn & Hf); simpl.
  - intros [= <-]. split_and!; try done.
    intros i. unfold gameLoopTick.
    destruct (Status (room h0)) eqn:E; [|done..].
    by rewrite checkGameStart_nobodyReady.
  - destruct (call Atan2 Cos Sin c h0) as [h1| |] eqn:Hc; simpl; try done.
    destruct (call_lobby c h0 h1 Hc Hs Hn) as (Hs1 & Hn1 & Hf1).
    apply IH. split_and!; try done. congruence.
Qed.

End RoomLifecycle.

Lemma room_never_plays_witness :
  ∃ h, lifecycle.runCalls (λ _ _, 0%float) (λ _, 1%float) (λ _, 0%float)
         lobbyCalls lobby = Returns h
       ∧ Status (lifecycle.room h) ≠ RoomPlaying
       ∧ size (players (lifecycle.room h)) = 2%nat.
Proof.
  destruct (lifecycle.runCalls (λ _ _, 0%float) (λ _, 1%float) (λ _, 0%float)
              lobbyCalls lobby) as [h| |] eqn:E;
    [|by vm_compute in E..].
  exists h. split; [done|].
  destruct (room_never_plays _ _ _ lobbyCalls "room-1" 0 "dm" DeathMatch 4 1
              h E) as (Hs & _).
  split; [exact Hs|].
  vm_compute in E. injection E as <-. reflexivity.
Defined.

(** ** Joining and leaving a room *)

Section JoinLeave.

Lemma RemovePlayer_unknown (connID : string) (now : Time) (r : Room) :
  players r !! connID = None → RemovePlayer connID now r = r.
Proof. intros H. unfold RemovePlayer. by rewrite H. Qed.

(** X11.  A join undone by a leave.  When [AddPlayer] has let in a connection
    that was not in the roster, under an entity ID the room did not hold,
    [RemovePlayer] puts the roster and the entity mapping back as they
    were and a second [RemovePlayer] changes nothing.  But a connection
    let in twice leaves the entity of its first join behind: the one
    [RemovePlayer] deletes the entity of the second join only, and no
    roster entry points to the first any more. *)
Theorem AddPlayer_then_RemovePlayer (connID : string) (conn : PlayerConnection)
    (characterID : Z) (entityID : string) (u : float * float)
    (now now' : Time) (r r' : Room) :
  AddPlayer connID conn characterID entityID u now r = Returns (r', None) →
  entities r !! entityID = None →
  let r2 := RemovePlayer connID now' r' in
  entities r2 = entities r
  ∧ players r2 = delete connID (players r)
  ∧ (players r !! connID = None → players r2 = players r)
  ∧ lastActivity r2 = now' ∧ Status r2 = Status r ∧ scores r2 = scores r
  ∧ RemovePlayer connID now' r2 = r2
  ∧ (∀ ps p, players r !! connID = Some ps →
       entities r !! Entity_ ps = Some (EPlayer p) →
       entities r2 !! Entity_ ps = Some (EPlayer p)
       ∧ players r2 !! connID = None).
Proof.
  intros Hadd Hfresh r2.
  destruct (decide (MaxPlayers r <= Z.of_nat (size (players r)))) as [Hf|Hf].
  { by rewrite AddPlayer_full in Hadd. }
  destruct (decide (Status r = RoomWaiting)) as [Hs|Hs].
  2: { by rewrite AddPlayer_closed in Hadd. }
  rewrite AddPlayer_open in Hadd by done.
  destruct (assignTeam WriteLocked r) as [t| |]; simpl in Hadd; try done.
  injection Hadd as <-.
  assert (entities r2 = entities r) as He.
  { unfold r2, RemovePlayer. simpl. rewrite lookup_insert_eq. simpl.
    by rewrite delete_insert_id. }
  assert (players r2 = delete connID (players r)) as Hp.
  { unfold r2, RemovePlayer. simpl. rewrite lookup_insert_eq. simpl.
    by rewrite delete_insert_eq. }
  split; [done|]. split; [done|]. split.
  { intros Hnone. rewrite Hp. by apply delete_id. }
  split; [unfold r2, RemovePlayer; simpl; by rewrite lookup_insert_eq|].
  split; [unfold r2, RemovePlayer; simpl; by rewrite lookup_insert_eq|].
  split; [unfold r2, RemovePlayer; simpl; by rewrite lookup_insert_eq|].
  split.
  { apply RemovePlayer_unknown. rewrite Hp. apply lookup_delete_eq. }
  intros ps p Hps Hent. rewrite He, Hp. split; [done|].
  apply lookup_delete_eq.
Qed.

End JoinLeave.

Lemma AddPlayer_then_RemovePlayer_witness :
  entities (RemovePlayer "c1" 9 roomWithC1) = entities deathMatchRoom
  ∧ players (RemovePlayer "c1" 9 roomWithC1) = players deathMatchRoom.
Proof.
  destruct (AddPlayer_then_RemovePlayer "c1" (freshConn 1 None) 1 "e1" origin
              5 9 deathMatchRoom roomWithC1 eq_refl eq_refl)
    as (H1 & _ & H3 & _).
  split; [exact H1 | by apply H3].
Defined.

(** ** Tearing connections down *)

Section Teardown.

(** X12.  [closeConnection] closes a connection once: when it has returned, a
    second call for the same connection, whenever it comes, returns at
    once and changes nothing, so the queue is not closed twice. *)
Theorem closeConnection_twice (now now' : Time) (player : string)
    (s s' : GameServer) :
  closeConnection now player s = Returns s' →
  closeConnection now' player s' = Returns s'.
Proof.
  unfold closeConnection. case_bool_decide as Hin.
  2: { intros [= <-]. by rewrite bool_decide_eq_false_2. }
  destruct (connObjs s !! player) as [pc|] eqn:Hpc.
  2: { intros [= <-]. by rewrite bool_decide_eq_true_2, Hpc. }
  destruct (close_chan (Send pc)) as [ch| |]; simpl; try done.
  intros [= <-]. simpl. rewrite bool_decide_eq_false_2; [done|].
  rewrite elem_of_difference, elem_of_singleton. tauto.
Qed.

Lemma closeConnection_twice_witness :
  ∃ s', closeConnection 1 "c1" crowdedServer = Returns s'
        ∧ closeConnection 2 "c1" s' = Returns s'.
Proof.
  destruct (closeConnection 1 "c1" crowdedServer) as [s'| |] eqn:E;
    [|by vm_compute in E..].
  exists s'. split; [done|].
  exact (closeConnection_twice 1 2 "c1" crowdedServer s' E).
Defined.

(** A broadcast over a roster that holds a closed connection panics. *)
Lemma offerFrame_closed (data : Data) (player : string)
    (l : list PlayerState) (conns : gmap string PlayerConnection) :
  (∃ pc, conns !! player = Some pc ∧ closed (Send pc) = true) →
  let res := foldr (offerFrame data) (Returns conns) l in
  (res = Panics
   ∨ ∃ cs pc, res = Returns cs ∧ cs !! player = Some pc
              ∧ closed (Send pc) = true)
  ∧ ((∃ ps, ps ∈ l ∧ Connection ps = Some player) → res = Panics).
Proof.
  intros Hclosed. induction l as [|ps l IH]; simpl.
  { split; [right; destruct Hclosed as (pc & ? & ?); eauto|].
    intros (ps & Hin & _). by apply elem_of_nil in Hin. }
  destruct IH as (IH1 & IH2).
  set (rest := foldr (offerFrame data) (Returns conns) l) in *.
  assert (offerFrame data ps rest = Panics
          ∨ ∃ cs pc, offerFrame data ps rest = Returns cs
                     ∧ cs !! player = Some pc ∧ closed (Send pc) = true)
    as Hstep.
  { destruct IH1 as [->|(cs & pc & -> & Hcs & Hcl)]; [by left|].
    unfold offerFrame. simpl.
    destruct (Connection ps) as [c|]; [|right; eauto].
    destruct (cs !! c) as [pc'|] eqn:Hc; [|right; eauto].
    unfold try_send. destruct (closed (Send pc')) eqn:Hcl'; [by left|].
    destruct (_ <? _)%nat; [|right; eauto].
    right. destruct (decide (c = player)) as [->|Hne].
    - congruence.
    - exists (<[c := set_Send
                       (mkChan (buf (Send pc') ++ [data]) (cap (Send pc')) false)
                       pc']> cs), pc.
      by rewrite lookup_insert_ne. }
  split; [exact Hstep|].
  intros (ps' & Hin & Hconn).
  apply elem_of_cons in Hin as [->|Hin].
  - destruct IH1 as [->|(cs & pc & -> & Hcs & Hcl)]; [done|].
    unfold offerFrame. simpl. rewrite Hconn, Hcs. unfold try_send.
    by rewrite Hcl.
  - rewrite IH2 by eauto. done.
Qed.

(** X13.  A closed connection stays in its room.  [AddPlayer] enters the
    connection in the roster but does not set the connection's room
    pointer, and nothing else does; [closeConnection] therefore finds no
    room to remove the player from, closes the queue and leaves the
    roster entry behind; and the next collision frame the room
    broadcasts is sent on the closed queue, which panics. *)
Theorem closed_member_breaks_broadcast (now now' t0 : Time) (s : GameServer)
    (player rid entityID : string) (pc : PlayerConnection) (characterID : Z)
    (u : float * float) (r0 r : Room) (collisions : list CollisionInfo) :
  player ∈ connections s → connObjs s !! player = Some pc →
  closed (Send pc) = false → ConnRoom pc = None →
  AddPlayer player pc characterID entityID u t0 r0 = Returns (r, None) →
  roomObjs s !! rid = Some r →
  marshals (buildFrame now' collisions r) = true →
  ∃ s', closeConnection now player s = Returns s'
        ∧ (player ∉ connections s')
        ∧ roomObjs s' !! rid = Some r
        ∧ is_Some (players r !! player)
        ∧ broadcastFrame now' collisions rid s' = Panics.
Proof.
  intros Hin Hpc Hopen Hroom Hadd Hr Hm.
  assert (∃ ps, players r !! player = Some ps ∧ Connection ps = Some player)
    as (ps & Hps & Hconn).
  { destruct (decide (MaxPlayers r0 <= Z.of_nat (size (players r0))))
      as [Hf|Hf]; [by rewrite AddPlayer_full in Hadd|].
    destruct (decide (Status r0 = RoomWaiting)) as [Hs|Hs];
      [|by rewrite AddPlayer_closed in Hadd].
    rewrite AddPlayer_open in Hadd by done.
    destruct (assignTeam WriteLocked r0) as [t| |]; simpl in Hadd; try done.
    injection Hadd as <-. simpl. rewrite lookup_insert_eq. eauto. }
  unfold closeConnection. rewrite bool_decide_eq_true_2 by done.
  rewrite Hpc, Hroom. unfold close_chan. rewrite Hopen. simpl.
  eexists. split; [done|]. simpl. split_and!.
  - rewrite elem_of_difference, elem_of_singleton. tauto.
  - done.
  - by eexists.
  - unfold broadcastFrame. simpl. rewrite Hr.
    unfold broadcastCollisions. rewrite Hm.
    match goal with
    | |- context [foldr (offerFrame ?d) (Returns ?cs) ?l] =>
        assert (foldr (offerFrame d) (Returns cs) l = Panics) as ->;
          [apply (offerFrame_closed d player l cs)|reflexivity]
    end.
    + rewrite lookup_insert_eq. eexists. split; [done|]. done.
    + exists ps. split; [|done].
      apply list_elem_of_fmap. exists (player, ps). split; [done|].
      by apply elem_of_map_to_list.
Qed.

Lemma closeSend_fold (l : list string) (cs : gmap string PlayerConnection) :
  NoDup l →
  (∀ c, c ∈ l → ∃ pc, cs !! c = Some pc ∧ closed (Send pc) = false) →
  ∃ cs', foldr closeSend (Returns cs) l = Returns cs'
         ∧ (∀ c, c ∈ l → ∃ pc, cs' !! c = Some pc ∧ closed (Send pc) = true)
         ∧ (∀ c, c ∉ l → cs' !! c = cs !! c).
Proof.
  induction 1 as [|x l Hx Hnd IH]; intros Hopen; simpl.
  { exists cs. split; [done|]. split; [|done].
    intros c Hc. by apply elem_of_nil in Hc. }
  destruct IH as (cs1 & -> & Hcl & Hsame).
  { intros c Hc. apply Hopen. by right. }
  destruct (Hopen x) as (pc & Hpc & Hop); [by left|].
  unfold closeSend. simpl. rewrite (Hsame x Hx), Hpc.
  unfold close_chan. rewrite Hop. simpl.
  eexists. split; [done|]. split.
  - intros c [->|Hc]%elem_of_cons.
    + rewrite lookup_insert_eq. by eexists.
    + rewrite lookup_insert_ne by (intros ->; done). by apply Hcl.
  - intros c Hc. apply not_elem_of_cons in Hc as [Hne Hc].
    rewrite lookup_insert_ne by done. by apply Hsame.
Qed.

Lemma stopRooms_fold (clock : string → Time) (l : list string)
    (objs : gmap string Room) (id : string) :
  NoDup l →
  foldr (λ id m, alter (game.Stop (clock id)) id m) objs l !! id
  = if bool_decide (id ∈ l) then game.Stop (clock id) <$> objs !! id
    else objs !! id.
Proof.
  induction 1 as [|x l Hx Hnd IH]; simpl.
  { done. }
  rewrite lookup_alter. destruct (decide (x = id)) as [<-|Hne].
  - rewrite IH. rewrite (bool_decide_eq_false_2 (x ∈ l)) by done.
    by rewrite bool_decide_eq_true_2 by by left.
  - rewrite IH. apply (f_equal (λ b : bool, if b then _ else _)).
    apply bool_decide_ext. rewrite elem_of_cons. split; [tauto|].
    intros [->|?]; done.
Qed.

(** X14.  Stopping the game server.  On a running server whose registered
    connections are open, [Stop] returns: it closes the shutdown channel,
    stops every running room and closes the queue of every registered
    connection, but it leaves the connections in the registry.  So the
    teardown of any of them that follows ([closeConnection], which the
    read loop calls when its connection ends) closes the queue a second
    time and panics, as does a send to it.  And if the HTTP server fails
    to shut down, the server is left marked as running, and a second
    [Stop] panics on the shutdown channel. *)
Theorem Stop_leaves_connections_registered (clock : string → Time)
    (httpDown : bool) (shutdown : Chan unit) (s : GameServer) (now : Time) :
  serverRunning s = true → closed shutdown = false → registryOpen s →
  ∃ s' sh',
    server.Stop clock httpDown shutdown s = Returns (s', sh', negb httpDown)
    ∧ closed sh' = true
    ∧ serverRunning s' = negb httpDown
    ∧ connections s' = connections s ∧ rooms s' = rooms s
    ∧ (∀ c, c ∈ connections s →
         closeConnection now c s' = Panics
         ∧ ∀ data, sendMessage now c (Some data) s' = Panics)
    ∧ (∀ id room, id ∈ rooms s → roomObjs s !! id = Some room →
         isRunning room = true →
         ∃ room', roomObjs s' !! id = Some room'
                  ∧ Status room' = RoomEnded ∧ isRunning room' = false
                  ∧ EndedAt room' = clock id)
    ∧ (∀ clock' d,
         server.Stop clock' d sh' s'
         = if httpDown then Returns (s', sh', false) else Panics).
Proof.
  intros Hrun Hsh Hreg. unfold server.Stop. rewrite Hrun. simpl.
  unfold close_chan at 1. rewrite Hsh. simpl.
  destruct (closeSend_fold (elements (connections s)) (connObjs s))
    as (cs' & -> & Hcl & Hsame).
  { apply NoDup_elements. }
  { intros c Hc. apply Hreg. by apply elem_of_elements. }
  simpl.
  set (objs := foldr (λ id m, alter (game.Stop (clock id)) id m) (roomObjs s)
                 (elements (rooms s))).
  assert (∀ id room, id ∈ rooms s → roomObjs s !! id = Some room →
            objs !! id = Some (game.Stop (clock id) room)) as Hobjs.
  { intros id room Hin Hroom. unfold objs.
    rewrite stopRooms_fold by apply NoDup_elements.
    rewrite bool_decide_eq_true_2 by by apply elem_of_elements.
    by rewrite Hroom. }
  set (s1 := set_connObjs cs' (set_roomObjs objs s)).
  set (s' := if httpDown then set_serverRunning false s1 else s1).
  assert (connections s' = connections s ∧ rooms s' = rooms s
          ∧ connObjs s' = cs' ∧ roomObjs s' = objs
          ∧ serverRunning s' = negb httpDown) as (Hc1 & Hr1 & Ho1 & Hb1 & Hk1).
  { unfold s'. destruct httpDown; simpl; by rewrite ?Hrun. }
  exists s', (mkChan (buf shutdown) (cap shutdown) true).
  split; [unfold s'; by destruct httpDown|].
  split; [done|]. split; [done|]. split; [done|]. split; [done|].
  split; [|split].
  - intros c Hc.
    destruct (Hcl c) as (pc & Hpc & Hclosed); [by apply elem_of_elements|].
    split.
    + unfold closeConnection. rewrite bool_decide_eq_true_2 by by rewrite Hc1.
      rewrite Ho1, Hpc. unfold close_chan. by rewrite Hclosed.
    + intros data. unfold sendMessage. rewrite Ho1, Hpc. unfold try_send.
      by rewrite Hclosed.
  - intros id room Hin Hroom Hr. rewrite Hb1, (Hobjs id room Hin Hroom).
    eexists. split; [done|]. unfold game.Stop. by rewrite Hr.
  - intros clock' d. unfold server.Stop. rewrite Hk1.
    by destruct httpDown.
Qed.

End Teardown.

Lemma closed_member_breaks_broadcast_witness :
  ∃ s', closeConnection 6 "c1" lobbyServer = Returns s'
        ∧ broadcastFrame 7 [someCollision] "room-1" s' = Panics.
Proof.
  destruct (closed_member_breaks_broadcast 6 7 5 lobbyServer "c1" "room-1"
              "e1" (freshConn 1 None) 1 origin deathMatchRoom roomWithC1
              [someCollision])
    as (s' & H1 & _ & _ & _ & H2);
    [by vm_compute|done|done|done|done|done|by vm_compute|].
  by exists s'.
Defined.

Lemma lobbyServer_open : registryOpen lobbyServer.
Proof.
  intros c Hc. unfold lobbyServer in Hc. simpl in Hc.
  apply elem_of_singleton in Hc as ->.
  exists (freshConn 1 None). by split.
Qed.

Lemma Stop_leaves_connections_registered_witness :
  ∃ s' sh', server.Stop (λ _, 9) true (make_chan 0) lobbyServer
            = Returns (s', sh', false)
            ∧ closeConnection 10 "c1" s' = Panics.
Proof.
  destruct (Stop_leaves_connections_registered (λ _, 9) true (make_chan 0)
              lobbyServer 10 eq_refl eq_refl lobbyServer_open)
    as (s' & sh' & H1 & _ & _ & _ & _ & H2 & _).
  exists s', sh'. split; [exact H1|]. apply H2. by vm_compute.
Defined.


(** ** The server-wide broadcast *)

Section Broadcast.

Lemma offerMessage_fold (data : Data) (l : list string)
    (cs : gmap string PlayerConnection) (full : list string) :
  NoDup l →
  (∀ c, c ∈ l → ∃ pc, cs !! c = Some pc ∧ closed (Send pc) = false) →
  ∃ cs' full',
    fold_left (offerMessage data) l (Returns (cs, full))
    = Returns (cs', full ++ full')
    ∧ NoDup full'
    ∧ (∀ c, c ∈ full' ↔ c ∈ l ∧ ∃ pc, cs !! c = Some pc ∧ isFull pc)
    ∧ (∀ c pc, c ∈ l → cs !! c = Some pc →
         cs' !! c = Some (if bool_decide (isFull pc) then pc
                          else queued data pc))
    ∧ (∀ c, c ∉ l → cs' !! c = cs !! c).
Proof.
  intros Hnd. revert cs full.
  induction Hnd as [|x l Hx Hnd IH]; intros cs full Hopen; cbn [fold_left].
  { exists cs, []. rewrite app_nil_r. split_and!; try done.
    - constructor.
    - intros c. rewrite !elem_of_nil. tauto.
    - intros c pc Hc. by apply elem_of_nil in Hc. }
  destruct (Hopen x) as (pc & Hpc & Hop); [by left|].
  assert (offerMessage data (Returns (cs, full)) x
          = if (length (buf (Send pc)) <? cap (Send pc))%nat
            then Returns (<[x := queued data pc]> cs, full)
            else Returns (cs, full ++ [x])) as ->.
  { unfold offerMessage. simpl. rewrite Hpc. unfold try_send. rewrite Hop.
    by destruct (_ <? _)%nat. }
  destruct (length (buf (Send pc)) <? cap (Send pc))%nat eqn:Hroom.
  - (* queued *)
    apply Nat.ltb_lt in Hroom.
    assert (¬ isFull pc) as Hnf by (unfold isFull; lia).
    destruct (IH (<[x := queued data pc]> cs) full)
      as (cs' & full' & Hfold & Hnd' & Hfull & Hsent & Hsame).
    { intros c Hc. rewrite lookup_insert_ne by (intros ->; done).
      apply Hopen. by right. }
    exists cs', full'. split; [exact Hfold|]. split; [done|]. split_and!.
    + intros c. rewrite Hfull, elem_of_cons. split.
      * intros (Hc & pc' & Hpc' & Hf).
        rewrite lookup_insert_ne in Hpc' by (intros ->; done). eauto.
      * intros ([->|Hc] & pc' & Hpc' & Hf); [congruence|].
        split; [done|]. exists pc'.
        by rewrite lookup_insert_ne by (intros ->; done).
    + intros c pc' [->|Hc]%elem_of_cons Hpc'.
      * rewrite Hsame by done. rewrite lookup_insert_eq.
        assert (pc' = pc) as -> by congruence.
        by rewrite bool_decide_eq_false_2.
      * apply Hsent; [done|]. by rewrite lookup_insert_ne by (intros ->; done).
    + intros c [Hne Hc]%not_elem_of_cons.
      rewrite Hsame by done. by rewrite lookup_insert_ne.
  - (* the default branch *)
    apply Nat.ltb_ge in Hroom.
    assert (isFull pc) as Hf by (by split).
    destruct (IH cs (full ++ [x]))
      as (cs' & full' & Hfold & Hnd' & Hfull & Hsent & Hsame).
    { intros c Hc. apply Hopen. by right. }
    exists cs', (x :: full'). rewrite <- app_assoc in Hfold.
    split; [exact Hfold|]. split_and!.
    + constructor; [|done]. rewrite Hfull. tauto.
    + intros c. rewrite !elem_of_cons, Hfull. split.
      * intros [->|(Hc & Hrest)]; [split; eauto|split; [by right|done]].
      * intros ([->|Hc] & Hrest); [by left|right; by split].
    + intros c pc' [->|Hc]%elem_of_cons Hpc'.
      * rewrite Hsame by done.
        assert (pc' = pc) as -> by congruence.
        by rewrite bool_decide_eq_true_2.
      * by apply Hsent.
    + intros c [Hne Hc]%not_elem_of_cons. by apply Hsame.
Qed.

Lemma closeAll_fold (now : Time) (l : list string) (s : GameServer) :
  NoDup l →
  (∀ c, c ∈ l → c ∈ connections s
                ∧ ∃ pc, connObjs s !! c = Some pc ∧ closed (Send pc) = false) →
  ∃ s', closeAll now l s = Returns s'
        ∧ (∀ c, c ∈ connections s' ↔ c ∈ connections s ∧ c ∉ l)
        ∧ (∀ c, c ∉ l → connObjs s' !! c = connObjs s !! c).
Proof.
  intros Hnd. revert s. unfold closeAll.
  induction Hnd as [|x l Hx Hnd IH]; intros s Hopen; simpl.
  { exists s. split; [done|]. split; [|done].
    intros c. rewrite elem_of_nil. tauto. }
  destruct (Hopen x) as (Hin & pc & Hpc & Hop); [by left|].
  destruct (closeConnection_registered now x s pc Hpc Hin Hop)
    as (s1 & -> & Hout & _ & _ & Hframe).
  destruct (IH s1) as (s' & Hfold & Hconn & Hobjs).
  { intros c Hc. assert (c ≠ x) as Hne by (intros ->; done).
    destruct (Hframe c Hne) as (F1 & F2). rewrite F1, F2.
    apply Hopen. by right. }
  exists s'. split; [exact Hfold|]. split.
  - intros c. rewrite Hconn, elem_of_cons.
    destruct (decide (c = x)) as [->|Hne].
    + tauto.
    + destruct (Hframe c Hne) as (F1 & _). rewrite F1. tauto.
  - intros c [Hne Hc]%not_elem_of_cons. rewrite Hobjs by done.
    by destruct (Hframe c Hne) as (_ & F2).
Qed.

(** X15.  [broadcastMessage] on a registry of open connections never blocks
    and never panics.  Every registered connection whose queue has room
    gets the message at the end of its queue; for every one whose queue
    is full a goroutine is launched to close it, and once these have run
    exactly the connections that were full are gone from the registry,
    the others being as the broadcast left them. *)
Theorem broadcastMessage_delivery (data : Data) (order : list string)
    (s : GameServer) (now : Time) :
  NoDup order → (∀ c, c ∈ order ↔ c ∈ connections s) → registryOpen s →
  ∃ s1 full,
    broadcastMessage (Some data) order s = Returns (s1, full)
    ∧ connections s1 = connections s
    ∧ (∀ c, c ∈ full ↔
            c ∈ connections s ∧ ∃ pc, connObjs s !! c = Some pc ∧ isFull pc)
    ∧ (∀ c pc, c ∈ connections s → connObjs s !! c = Some pc →
         connObjs s1 !! c
         = Some (if bool_decide (isFull pc) then pc else queued data pc))
    ∧ ∃ s2, closeAll now full s1 = Returns s2
        ∧ (∀ c, c ∈ connections s2 ↔ c ∈ connections s ∧ c ∉ full)
        ∧ (∀ c, c ∉ full → connObjs s2 !! c = connObjs s1 !! c).
Proof.
  intros Hnd Hdom Hreg.
  destruct (offerMessage_fold data order (connObjs s) []) as
    (cs' & full & Hfold & Hndf & Hfull & Hsent & Hsame); [done| |].
  { intros c Hc. apply Hreg. by apply Hdom. }
  unfold broadcastMessage. rewrite Hfold. simpl.
  eexists _, _. split; [done|]. simpl. split; [done|]. split.
  { intros c. rewrite Hfull, Hdom. tauto. }
  split.
  { intros c pc Hc Hpc. apply Hsent; [by apply Hdom|done]. }
  destruct (closeAll_fold now full (set_connObjs cs' s) Hndf)
    as (s2 & Hclose & Hconn & Hobjs).
  { intros c Hc. apply Hfull in Hc as (Hc & pc & Hpc & Hf). simpl.
    split; [by apply Hdom|]. exists pc.
    rewrite (Hsent c pc Hc Hpc), bool_decide_eq_true_2 by done.
    split; [done | apply Hf]. }
  exists s2. split; [done|]. split; [|done].
  intros c. rewrite Hconn. simpl. tauto.
Qed.

End Broadcast.

Lemma twoConnections_open : registryOpen twoConnections.
Proof.
  intros c Hc. unfold twoConnections in *. simpl in *.
  apply elem_of_union in Hc as [->%elem_of_singleton | ->%elem_of_singleton].
  - exists (fullConn 1 None). by rewrite lookup_insert_eq.
  - exists (freshConn 2 None).
    by rewrite lookup_insert_ne, lookup_singleton_eq.
Qed.

Lemma broadcastMessage_delivery_witness :
  ∃ s1 full, broadcastMessage (Some ping) ["c1"; "c2"] twoConnections
             = Returns (s1, full)
             ∧ ("c1" ∈ full) ∧ ("c2" ∉ full).
Proof.
  destruct (broadcastMessage_delivery ping ["c1"; "c2"] twoConnections 0)
    as (s1 & full & H1 & _ & H3 & _).
  - apply NoDup_cons. split; [|apply NoDup_singleton].
    rewrite list_elem_of_singleton. done.
  - intros c. unfold twoConnections. simpl.
    rewrite elem_of_cons, list_elem_of_singleton, elem_of_union,
      !elem_of_singleton. tauto.
  - exact twoConnections_open.
  - exists s1, full. split; [exact H1|]. split.
    + apply H3. split; [by vm_compute|]. exists (fullConn 1 None).
      split; [done|]. split; [done|]. by vm_compute.
    + intros Hin. apply H3 in Hin as (_ & pc & Hpc & _ & Hlen).
      vm_compute in Hpc. injection Hpc as <-. simpl in Hlen. lia.
Defined.

(** ** Skills *)

Section SkillUse.

Variable Atan2 : float → float → float.
Variables Cos Sin : float → float.

Lemma float_sub_diag (x : float) :
  finiteFloat x = true → (x - x)%float = 0%float.
Proof.
  intros Hx. rewrite <- (SF2Prim_Prim2SF (x - x)), sub_spec.
  unfold finiteFloat in Hx. unfold SF64sub.
  destruct (Prim2SF x) as [[] | [] | | s m e]; try done.
  unfold SFsub. rewrite Z.sub_diag. reflexivity.
Qed.

Lemma intersects_same (pos : Vector2D) :
  finiteFloat (X pos) = true → finiteFloat (Y pos) = true →
  intersects pos pos = true.
Proof.
  intros Hx Hy. unfold intersects, distance.
  rewrite (float_sub_diag _ Hx), (float_sub_diag _ Hy). reflexivity.
Qed.

(** The room after a skill that fires: the projectiles are new entries of
    the entity mapping and the player has the cooldown. *)
Lemma UseSkill_fires (uuid : nat → string) (now : Time) (p : string)
    (skillID : Z) (targetPos : Vector2D) (r : Room) (pl : PlayerEntity) :
  getPlayer r p = Some pl →
  (∀ c, SkillCooldowns pl !! skillID = Some c → (0 <? c)%float = false) →
  skillID = 1 ∨ skillID = 3 →
  uuid 0%nat ≠ p →
  let r1 := UseSkill Atan2 Cos Sin uuid now p skillID targetPos r in
  (∃ pr, getProjectile r1 (uuid 0%nat) = Some pr
         ∧ Position (ProjectileBase pr) = Position (PlayerBase pl)
         ∧ OwnerID pr = p ∧ HitEntities pr = []
         ∧ Damage pr = skillDamage skillID ∧ SkillID pr = skillID)
  ∧ getPlayer r1 p = Some (setCooldown skillID (skillCooldown skillID) pl)
  ∧ (∀ k, k ≠ uuid 0%nat → k ≠ p → entities r1 !! k = entities r !! k)
  ∧ FriendlyFire r1 = FriendlyFire r ∧ players r1 = players r
  ∧ scores r1 = scores r.
Proof.
  intros Hp%getPlayer_Some Hc Hs Hne. unfold UseSkill. rewrite Hp.
  assert (match SkillCooldowns pl !! skillID with
          | Some cooldown => (0 <? cooldown)%float
          | None => false
          end = false) as ->.
  { destruct (SkillCooldowns pl !! skillID) as [c|] eqn:E; [|done].
    by apply Hc. }
  destruct Hs as [-> | ->]; simpl; unfold getProjectile, getPlayer,
    CreateProjectile, alterPlayer; simpl.
  all: split_and!; try done.
  all: try (rewrite lookup_alter_ne by done; rewrite lookup_insert_eq;
            by eexists).
  all: try (rewrite lookup_alter_eq, lookup_insert_ne, Hp by done; done).
  all: intros k Hk1 Hk2; rewrite lookup_alter_ne by done;
    by rewrite lookup_insert_ne.
Qed.

(** X16.  A shot hits the shooter.  [CreateProjectile] places the projectile
    at the position of its owner and the collision scan does not exempt
    the owner, only team mates under friendly-fire protection.  So when
    a living player of no team (or of any team, with friendly fire on)
    fires the basic or the piercing shot in a room without projectiles,
    the scan of the room as [UseSkill] leaves it records a hit of the
    projectile on the player who fired it, who loses the skill's damage
    and dies of it when no more health is left. *)
Theorem own_projectile_hits_shooter (uuid : nat → string) (now now' : Time)
    (p : string) (skillID : Z) (targetPos : Vector2D) (r : Room)
    (pl : PlayerEntity) (order : list string) :
  getPlayer r p = Some pl → IsAlive pl = true →
  team pl = TeamNone ∨ FriendlyFire r = true →
  finiteFloat (X (Position (PlayerBase pl))) = true →
  finiteFloat (Y (Position (PlayerBase pl))) = true →
  (∀ c, SkillCooldowns pl !! skillID = Some c → (0 <? c)%float = false) →
  skillID = 1 ∨ skillID = 3 →
  (∀ k, getProjectile r k = None) → entities r !! uuid 0%nat = None →
  p ∈ order → uuid 0%nat ∈ order →
  let r1 := UseSkill Atan2 Cos Sin uuid now p skillID targetPos r in
  let res := detectCollisions now' order r1 in
  let health := int_sub (Health pl) (skillDamage skillID) in
  ∃ c pl',
    hitsOf (uuid 0%nat) p res.2 = [c]
    ∧ getPlayer res.1 p = Some pl'
    ∧ Health pl' = (if health <=? 0 then 0 else health)
    ∧ IsAlive pl' = negb (health <=? 0).
Proof.
  intros Hp Halive Hteam Hx Hy Hcool Hskill Hnone Hfresh Hpo Hao r1 res health.
  assert (uuid 0%nat ≠ p) as Hne.
  { intros E. rewrite E in Hfresh. apply getPlayer_Some in Hp. congruence. }
  destruct (UseSkill_fires uuid now p skillID targetPos r pl Hp Hcool Hskill
              Hne) as ((pr & Hpr & Hpos & Hown & Hhit & Hdmg & _) & Hpl1
                       & Hrest & Hff & _).
  fold r1 in Hpr, Hpl1, Hrest, Hff.
  set (pl1 := setCooldown skillID (skillCooldown skillID) pl) in *.
  assert (soleProjectile (uuid 0%nat) r1) as Hsole.
  { intros k Hk. destruct (decide (k = p)) as [->|Hkp].
    - unfold getProjectile. apply getPlayer_Some in Hpl1. by rewrite Hpl1.
    - unfold getProjectile. rewrite Hrest by done. apply Hnone. }
  assert (wouldHit r1 pr p pl1 = true) as Hw.
  { unfold wouldHit. rewrite isFriendlyFire_owner, Hown.
    assert (hasHit pr p = false) as -> by (unfold hasHit; by rewrite Hhit).
    assert (intersects (Position (ProjectileBase pr))
              (Position (PlayerBase pl1)) = true) as ->.
    { rewrite Hpos. by apply intersects_same. }
    change (IsAlive pl1) with (IsAlive pl). rewrite Halive. simpl.
    destruct (String.eqb p ""); [done|]. rewrite Hpl1.
    change (team pl1) with (team pl). rewrite Hff.
    destruct Hteam as [-> | ->]; [done|].
    by rewrite andb_false_r. }
  destruct (sole_detectCollisions now' r1 (uuid 0%nat) p pr pl1 Hpr Hsole
              Hpl1 order) as (Hafter & _).
  destruct (Hafter Hw Hao Hpo) as (Hcore & _ & c & Hc).
  fold res in Hcore, Hc.
  apply coreP_getPlayer in Hcore as (pl' & Hpl' & Hcore).
  exists c, pl'. split; [done|]. split; [done|].
  destruct (coreP_vitals _ _ Hcore) as (-> & -> & _).
  unfold damaged. change (Health pl1) with (Health pl). rewrite Hdmg.
  fold health. by destruct (health <=? 0).
Qed.

(** X17.  Skills and their cooldown.  A skill that is not cooling down fires
    whether its player is alive or dead: [UseSkill] does not look at
    [IsAlive].  The basic shot, the spread and the piercing shot put the
    skill on cooldown, so that a second use right away does nothing; the
    spread adds three projectiles of damage 8 at the player's position;
    and any other skill number does nothing at all. *)
Theorem UseSkill_cooldown (uuid : nat → string) (now : Time) (p : string)
    (skillID : Z) (targetPos : Vector2D) (r : Room) (pl : PlayerEntity) :
  getPlayer r p = Some pl →
  (∀ c, SkillCooldowns pl !! skillID = Some c → (0 <? c)%float = false) →
  uuid 0%nat ≠ p → uuid 1%nat ≠ p → uuid 2%nat ≠ p →
  let r1 := UseSkill Atan2 Cos Sin uuid now p skillID targetPos r in
  (skillID = 1 ∨ skillID = 2 ∨ skillID = 3 →
   getPlayer r1 p = Some (setCooldown skillID (skillCooldown skillID) pl)
   ∧ ∀ uuid' now' targetPos',
       UseSkill Atan2 Cos Sin uuid' now' p skillID targetPos' r1 = r1)
  ∧ (skillID ≠ 1 → skillID ≠ 2 → skillID ≠ 3 → r1 = r)
  ∧ (skillID = 2 →
     uuid 0%nat ≠ uuid 1%nat → uuid 0%nat ≠ uuid 2%nat →
     uuid 1%nat ≠ uuid 2%nat →
     ∀ i, (i < 3)%nat →
       ∃ pr, getProjectile r1 (uuid i) = Some pr
             ∧ Damage pr = 8 ∧ OwnerID pr = p ∧ HitEntities pr = []
             ∧ Position (ProjectileBase pr) = Position (PlayerBase pl)).
Proof.
  intros Hp%getPlayer_Some Hc H0 H1 H2 r1.
  assert (match SkillCooldowns pl !! skillID with
          | Some cooldown => (0 <? cooldown)%float
          | None => false
          end = false) as Hoff.
  { destruct (SkillCooldowns pl !! skillID) as [c|] eqn:E; [|done].
    by apply Hc. }
  split; [|split].
  - intros Hs.
    assert (getPlayer r1 p
            = Some (setCooldown skillID (skillCooldown skillID) pl)) as Hp1.
    { unfold r1, UseSkill. rewrite Hp, Hoff.
      destruct Hs as [-> | [-> | ->]]; simpl;
        unfold getPlayer, CreateProjectile, alterPlayer; simpl;
        rewrite lookup_alter_eq, ?lookup_insert_ne, Hp by done; done. }
    split; [done|]. intros uuid' now' targetPos'.
    apply getPlayer_Some in Hp1. unfold UseSkill at 1. rewrite Hp1.
    unfold setCooldown. simpl. rewrite lookup_insert_eq.
    by destruct Hs as [-> | [-> | ->]].
  - intros N1 N2 N3. unfold r1, UseSkill. rewrite Hp, Hoff.
    apply Z.eqb_neq in N1 as ->. apply Z.eqb_neq in N2 as ->.
    by apply Z.eqb_neq in N3 as ->.
  - intros -> D01 D02 D12 i Hi. unfold r1, UseSkill. rewrite Hp, Hoff.
    simpl. unfold getProjectile, CreateProjectile, alterPlayer. simpl.
    destruct i as [|[|[|i]]]; [| | |lia].
    + rewrite lookup_alter_ne by done.
      rewrite !lookup_insert_ne, lookup_insert_eq by done. by eexists.
    + rewrite lookup_alter_ne by done.
      rewrite lookup_insert_ne, lookup_insert_eq by done. by eexists.
    + rewrite lookup_alter_ne by done.
      rewrite lookup_insert_eq. by eexists.
Qed.

End SkillUse.



Lemma soloRoom_no_projectile (k : string) : getProjectile soloRoom k = None.
Proof.
  unfold getProjectile, soloRoom. simpl.
  destruct (decide (k = "p1")) as [->|Hk].
  - by rewrite lookup_singleton_eq.
  - by rewrite lookup_singleton_ne.
Qed.

Lemma own_projectile_hits_shooter_witness :
  ∃ c pl',
    hitsOf "shot-0" "p1"
      (detectCollisions 1 ["p1"; "shot-0"]
         (UseSkill (λ _ _, 0%float) (λ _, 1%float) (λ _, 0%float) shotID 0
            "p1" 1 (mkVector2D 200 100) soloRoom)).2 = [c]
    ∧ getPlayer
        (detectCollisions 1 ["p1"; "shot-0"]
           (UseSkill (λ _ _, 0%float) (λ _, 1%float) (λ _, 0%float) shotID 0
              "p1" 1 (mkVector2D 200 100) soloRoom)).1 "p1" = Some pl'
    ∧ Health pl' = 90.
Proof.
  destruct (own_projectile_hits_shooter (λ _ _, 0%float) (λ _, 1%float)
              (λ _, 0%float) shotID 0 1 "p1" 1 (mkVector2D 200 100) soloRoom
              (playerAt 1 TeamNone 100 100) ["p1"; "shot-0"])
    as (c & pl' & H1 & H2 & H3 & _).
  - reflexivity.
  - reflexivity.
  - by left.
  - reflexivity.
  - reflexivity.
  - intros c Hc. discriminate Hc.
  - by left.
  - exact soloRoom_no_projectile.
  - reflexivity.
  - by left.
  - right. by left.
  - exists c, pl'. split; [exact H1|]. split; [exact H2|]. exact H3.
Defined.

Lemma UseSkill_cooldown_witness :
  UseSkill (λ _ _, 0%float) (λ _, 1%float) (λ _, 0%float) shotID 1 "p1" 1
    (mkVector2D 0 0)
    (UseSkill (λ _ _, 0%float) (λ _, 1%float) (λ _, 0%float) shotID 0
       "p1" 1 (mkVector2D 200 100) soloRoom)
  = UseSkill (λ _ _, 0%float) (λ _, 1%float) (λ _, 0%float) shotID 0
      "p1" 1 (mkVector2D 200 100) soloRoom.
Proof.
  destruct (UseSkill_cooldown (λ _ _, 0%float) (λ _, 1%float) (λ _, 0%float)
              shotID 0 "p1" 1 (mkVector2D 200 100) soloRoom
              (playerAt 1 TeamNone 100 100)) as (H & _).
  - reflexivity.
  - intros c Hc. discriminate Hc.
  - by vm_compute.
  - by vm_compute.
  - by vm_compute.
  - destruct H as (_ & H); [by left|]. apply H.
Defined.

(** ** Kills and scores *)

Section Kills.

Lemma checkGameEnd_score (now : Time) (r : Room) (k score : Z) :
  scores r !! k = Some score → ScoreLimit r <= score →
  Status (checkGameEnd now r) = RoomEnded
  ∧ EndedAt (checkGameEnd now r) = now.
Proof.
  intros Hk Hle. unfold checkGameEnd.
  destruct (_ <=? _)%float; [done|].
  assert (existsb (λ score, ScoreLimit r <=? score)
            (map_to_list (scores r)).*2 = true) as ->.
  { apply existsb_exists. exists score. split; [|by apply Z.leb_le].
    apply list_elem_of_In, list_elem_of_fmap. exists (k, score).
    split; [done|]. by apply elem_of_map_to_list. }
  done.
Qed.

Lemma recordKill_ScoreLimit (pr : ProjectileEntity) (b : string) (r : Room) :
  ScoreLimit (recordKill pr b r) = ScoreLimit r.
Proof.
  unfold recordKill. destruct (String.eqb (OwnerID pr) ""); [done|].
  destruct (entities r !! OwnerID pr) as [[po| |]|]; try done.
  destruct (rosterHas r (OwnerID pr)); simpl;
    match goal with |- context [if ?c then _ else _] => destruct c end; done.
Qed.

(** X18.  The books of a kill.  When a hit takes the last health of a player,
    and the projectile's owner is a player entity of the room other than
    the victim, with both in the roster: the owner's kills and the score
    of the owner's player number go up by one (the score from 0 if there
    was none), the victim's deaths go up by one, and no other score
    changes; a score that thereby reaches the room's limit ends the game
    at the next check.  When the owner is the victim, the one player gets
    the kill, the point and the death.  When the owner has no entity in
    the room any more, nothing is counted, not even the victim's
    death. *)
Theorem kill_accounting (a b : string) (pr : ProjectileEntity)
    (pl : PlayerEntity) (r : Room) :
  getProjectile r a = Some pr → getPlayer r b = Some pl →
  int_sub (Health pl) (Damage pr) <= 0 →
  let r' := handleCollision a pr b pl r in
  let dead := set_RespawnTime 5 (set_IsAlive false (set_Health 0 pl)) in
  (∀ po, OwnerID pr ≠ "" → OwnerID pr ≠ b →
     getPlayer r (OwnerID pr) = Some po →
     rosterHas r (OwnerID pr) = true → rosterHas r b = true →
     let score := int_add (default 0 (scores r !! PlayerID po)) 1 in
     scores r' = <[PlayerID po := score]> (scores r)
     ∧ getPlayer r' (OwnerID pr) = Some (set_Kills (int_add (Kills po) 1) po)
     ∧ getPlayer r' b = Some (set_Deaths (int_add (Deaths pl) 1) dead)
     ∧ (∀ now, ScoreLimit r <= score →
          Status (checkGameEnd now r') = RoomEnded))
  ∧ (OwnerID pr = b → b ≠ "" → rosterHas r b = true →
     scores r'
     = <[PlayerID pl := int_add (default 0 (scores r !! PlayerID pl)) 1]>
         (scores r)
     ∧ getPlayer r' b
       = Some (set_Deaths (int_add (Deaths pl) 1)
                 (set_Kills (int_add (Kills pl) 1) dead)))
  ∧ (OwnerID pr = "" ∨ getPlayer r (OwnerID pr) = None →
     scores r' = scores r ∧ getPlayer r' b = Some dead).
Proof.
  intros Ha Hb Hle r' dead.
  assert (a ≠ b) as Hab.
  { intros ->. unfold getProjectile, getPlayer in *.
    by destruct (entities r !! b) as [[]|]. }
  apply getProjectile_Some in Ha. apply getPlayer_Some in Hb.
  set (pr1 := set_HitEntities (HitEntities pr ++ [b]) pr).
  set (r1 := set_entities
               (<[b := EPlayer dead]> (<[a := EProjectile pr1]> (entities r)))
               r).
  assert (r' = recordKill pr1 b r1) as Hr'.
  { unfold r'. rewrite handleCollision_unfold. cbv zeta.
    apply Z.leb_le in Hle. unfold damaged. by rewrite Hle. }
  assert (∀ k, rosterHas r1 k = rosterHas r k) as Hroster by done.
  split; [|split].
  - intros po Ho Hob Hpo Hro Hrb score. apply getPlayer_Some in Hpo.
    assert (OwnerID pr ≠ a) as Hoa by (intros E; rewrite E in Hpo; congruence).
    assert (entities r1 !! OwnerID pr = Some (EPlayer po)) as Hpo1.
    { unfold r1. simpl. by rewrite !lookup_insert_ne. }
    assert (scores r' = <[PlayerID po := score]> (scores r)
            ∧ getPlayer r' (OwnerID pr)
              = Some (set_Kills (int_add (Kills po) 1) po)
            ∧ getPlayer r' b
              = Some (set_Deaths (int_add (Deaths pl) 1) dead)) as H.
    { rewrite Hr'. unfold recordKill. change (OwnerID pr1) with (OwnerID pr).
      apply String.eqb_neq in Ho. rewrite Ho, Hpo1, Hroster, Hro.
      cbv zeta.
      assert (rosterHas
                (set_scores
                   (<[PlayerID po :=
                        int_add (default 0 (scores r1 !! PlayerID po)) 1]>
                      (scores r1))
                   (set_entities
                      (alterPlayer (λ p, set_Kills (int_add (Kills p) 1) p)
                         (OwnerID pr) (entities r1)) r1)) b = true) as ->
        by exact Hrb.
      simpl. unfold getPlayer, alterPlayer. simpl. split; [done|]. split.
      - rewrite lookup_alter_ne by done. rewrite lookup_alter_eq.
        by rewrite !lookup_insert_ne, Hpo.
      - rewrite lookup_alter_eq, lookup_alter_ne by done.
        by rewrite lookup_insert_eq. }
    destruct H as (H1 & H2 & H3). split; [exact H1|]. split; [exact H2|].
    split; [exact H3|]. intros now Hlim.
    apply (checkGameEnd_score now r' (PlayerID po) score).
    + by rewrite H1, lookup_insert_eq.
    + by rewrite Hr', recordKill_ScoreLimit.
  - intros Ho Hne Hrb.
    assert (entities r1 !! b = Some (EPlayer dead)) as Hb1.
    { unfold r1. simpl. by rewrite lookup_insert_eq. }
    rewrite Hr'. unfold recordKill. change (OwnerID pr1) with (OwnerID pr).
    rewrite Ho. apply String.eqb_neq in Hne. rewrite Hne, Hb1, Hroster, Hrb.
    cbv zeta.
    assert (rosterHas
              (set_scores
                 (<[PlayerID dead :=
                      int_add (default 0 (scores r1 !! PlayerID dead)) 1]>
                    (scores r1))
                 (set_entities
                    (alterPlayer (λ p, set_Kills (int_add (Kills p) 1) p)
                       b (entities r1)) r1)) b = true) as ->
      by exact Hrb.
    simpl. unfold getPlayer, alterPlayer. simpl. split; [done|].
    by rewrite !lookup_alter_eq, lookup_insert_eq.
  - intros Hgone.
    assert (recordKill pr1 b r1 = r1) as Hrec.
    { unfold recordKill. change (OwnerID pr1) with (OwnerID pr).
      destruct (String.eqb (OwnerID pr) "") eqn:E; [done|].
      apply String.eqb_neq in E. destruct Hgone as [?|Hgone]; [done|].
      assert (OwnerID pr ≠ b) as Hob.
      { intros E'. rewrite E' in Hgone. unfold getPlayer in Hgone.
        by rewrite Hb in Hgone. }
      assert (entities r1 !! OwnerID pr
              = if decide (OwnerID pr = a) then Some (EProjectile pr1)
                else entities r !! OwnerID pr) as ->.
      { unfold r1. simpl. rewrite lookup_insert_ne by done.
        case_decide as Hoa.
        - by rewrite Hoa, lookup_insert_eq.
        - by rewrite lookup_insert_ne. }
      case_decide; [done|]. unfold getPlayer in Hgone.
      by destruct (entities r !! OwnerID pr) as [[]|]. }
    rewrite Hr', Hrec. split; [done|]. unfold getPlayer, r1. simpl.
    by rewrite lookup_insert_eq.
Qed.

End Kills.

Lemma kill_accounting_witness :
  scores (handleCollision "s1" (shotAt "p1" 5 0) "p2"
            (set_Health 10 (playerAt 2 TeamNone 0 0)) lastHitRoom)
  = <[1 := 1]> ∅.
Proof.
  destruct (kill_accounting "s1" "p2" (shotAt "p1" 5 0)
              (set_Health 10 (playerAt 2 TeamNone 0 0)) lastHitRoom)
    as (H & _); [reflexivity|reflexivity|by vm_compute|].
  destruct (H (playerAt 1 TeamNone 200 0)) as (H1 & _);
    [done|done|reflexivity|by vm_compute|by vm_compute|].
  exact H1.
Defined.
(** ** The gateway's service registry *)

Section ServiceRegistry.

Import gateway.

Lemma validateAuth_token (authorization tokenParam : string) :
  validateAuth authorization tokenParam
  = negb (String.eqb authorization "" && String.eqb tokenParam "").
Proof.
  unfold validateAuth.
  destruct (String.eqb authorization ""); [|done].
  by destruct (String.eqb tokenParam "").
Qed.

Lemma getServiceInstance_pick (unixNano : Z) (serviceType : ServiceType)
    (g : Gateway) (instances : list ServiceInstance) :
  services g !! serviceType = Some instances → 0 <= unixNano →
  let healthy := filter (λ instance, Health instance = true) instances in
  getServiceInstance unixNano serviceType g
  = Returns (healthy !! Z.to_nat (unixNano mod Z.of_nat (length healthy)))
  ∧ (healthy ≠ [] →
     is_Some (healthy !! Z.to_nat (unixNano mod Z.of_nat (length healthy)))).
Proof.
  intros Hl Hn healthy. unfold getServiceInstance. rewrite Hl.
  fold healthy.
  destruct (Nat.eqb_spec (length instances) 0) as [E|E].
  { apply nil_length_inv in E. subst instances. by split. }
  destruct (Nat.eqb_spec (length healthy) 0) as [E'|E'].
  { apply nil_length_inv in E'. rewrite E'. by split. }
  assert (0 < Z.of_nat (length healthy)) as Hpos by lia.
  rewrite Z.rem_mod_nonneg by lia.
  pose proof (Z.mod_pos_bound unixNano _ Hpos) as Hb.
  destruct (Z.ltb_spec (unixNano mod Z.of_nat (length healthy)) 0); [lia|].
  assert (is_Some (healthy !! Z.to_nat (unixNano mod Z.of_nat (length healthy))))
    as [i Hi] by (apply lookup_lt_is_Some; lia).
  rewrite Hi. by split.
Qed.

(** X19.  Where a request to a forwarded service goes.  A request without an
    Authorization header and without a token parameter is refused,
    whatever the state of the services, unless it is for the
    authentication service.  Any other request, at a clock reading that
    is not negative, is forwarded to an instance registered for the type
    and marked healthy, and is answered "unavailable" exactly when the
    type has no such instance; an unhealthy instance never receives a
    request.  Every healthy instance is the one chosen at some clock
    reading. *)
Theorem forwardRequest_routing (unixNano : Z) (authorization tokenParam : string)
    (serviceType : ServiceType) (g : Gateway) :
  0 <= unixNano →
  let registered := default [] (services g !! serviceType) in
  (authorization = "" → tokenParam = "" → serviceType ≠ ServiceAuth →
   forwardRequest unixNano authorization tokenParam serviceType g
   = Returns Unauthorized)
  ∧ (authorization ≠ "" ∨ tokenParam ≠ "" ∨ serviceType = ServiceAuth →
     (∃ instance,
        forwardRequest unixNano authorization tokenParam serviceType g
        = Returns (ForwardedTo instance)
        ∧ instance ∈ registered ∧ Health instance = true)
     ∨ (forwardRequest unixNano authorization tokenParam serviceType g
        = Returns Unavailable
        ∧ Forall (λ instance, Health instance = false) registered))
  ∧ (∀ instance, instance ∈ registered → Health instance = true →
     ∃ reading, 0 <= reading
       ∧ forwardRequest reading "token" "" serviceType g
         = Returns (ForwardedTo instance)).
Proof.
  intros Hn registered. split; [|split].
  - intros -> -> Hty. unfold forwardRequest.
    apply String.eqb_neq in Hty. by rewrite Hty.
  - intros Hauth. unfold forwardRequest. rewrite validateAuth_token.
    assert (negb (negb (String.eqb authorization "" && String.eqb tokenParam ""))
            && negb (String.eqb serviceType ServiceAuth) = false) as ->.
    { destruct Hauth as [H|[H|H]].
      - apply String.eqb_neq in H. by rewrite H.
      - apply String.eqb_neq in H. rewrite H.
        by destruct (String.eqb authorization "").
      - rewrite H. by rewrite andb_comm. }
    unfold registered.
    destruct (services g !! serviceType) as [instances|] eqn:Hl.
    + destruct (getServiceInstance_pick unixNano serviceType g instances Hl Hn)
        as [-> Hsome]. simpl.
      destruct (filter (λ instance, Health instance = true) instances)
        as [|i0 healthy] eqn:Hf.
      * right. split; [done|]. apply Forall_forall. intros i Hi.
        destruct (Health i) eqn:Hh; [|done].
        assert (i ∈ filter (λ instance, Health instance = true) instances)
          as Hin by (by apply list_elem_of_filter).
        rewrite Hf in Hin. by apply not_elem_of_nil in Hin.
      * left. destruct Hsome as [i Hi]; [done|]. rewrite Hi. exists i.
        split; [done|]. apply list_elem_of_lookup_2 in Hi. rewrite <- Hf in Hi.
        by apply list_elem_of_filter in Hi as [? ?].
    + right. unfold getServiceInstance. rewrite Hl. simpl. by split.
  - intros instance Hin Hh. unfold registered in Hin.
    destruct (services g !! serviceType) as [instances|] eqn:Hl;
      [|by apply not_elem_of_nil in Hin].
    simpl in Hin.
    assert (instance ∈ filter (λ instance, Health instance = true) instances)
      as Hf by (by apply list_elem_of_filter).
    apply list_elem_of_lookup_1 in Hf as [j Hj].
    pose proof (lookup_lt_Some _ _ _ Hj) as Hlt.
    exists (Z.of_nat j). split; [lia|]. unfold forwardRequest.
    rewrite validateAuth_token. simpl.
    destruct (getServiceInstance_pick (Z.of_nat j) serviceType g instances Hl)
      as [-> _]; [lia|].
    simpl. rewrite Z.mod_small by lia. by rewrite Nat2Z.id, Hj.
Qed.

Lemma forwardRequest_routing_witness :
  forwardRequest 7 "" "" ServiceGame twoGames = Returns Unauthorized.
Proof.
  destruct (forwardRequest_routing 7 "" "" ServiceGame twoGames) as (H & _);
    [lia|].
  by apply H.
Defined.

Lemma forwardRequest_pick (unixNano : Z) (authorization tokenParam : string)
    (serviceType : ServiceType) (g : Gateway) :
  0 <= unixNano →
  authorization ≠ "" ∨ tokenParam ≠ "" ∨ serviceType = ServiceAuth →
  let healthy :=
    filter (λ instance, Health instance = true)
      (default [] (services g !! serviceType)) in
  forwardRequest unixNano authorization tokenParam serviceType g
  = Returns
      match healthy !! Z.to_nat (unixNano mod Z.of_nat (length healthy)) with
      | Some instance => ForwardedTo instance
      | None => Unavailable
      end.
Proof.
  intros Hn Hauth healthy. unfold forwardRequest. rewrite validateAuth_token.
  assert (negb (negb (String.eqb authorization "" && String.eqb tokenParam ""))
          && negb (String.eqb serviceType ServiceAuth) = false) as ->.
  { destruct Hauth as [H|[H|H]].
    - apply String.eqb_neq in H. by rewrite H.
    - apply String.eqb_neq in H. rewrite H.
      by destruct (String.eqb authorization "").
    - rewrite H. by rewrite andb_comm. }
  unfold healthy.
  destruct (services g !! serviceType) as [instances|] eqn:Hl.
  - destruct (getServiceInstance_pick unixNano serviceType g instances Hl Hn)
      as [-> _]. simpl.
    by destruct (filter _ instances !! _).
  - unfold getServiceInstance. by rewrite Hl.
Qed.

Lemma checkServicesHealth_lookup (probe : ServiceType → nat → Probe)
    (serviceType : ServiceType) (g : Gateway) :
  default [] (services (checkServicesHealth probe g) !! serviceType)
  = imap (λ i, checkInstance (probe serviceType i))
      (default [] (services g !! serviceType)).
Proof.
  unfold checkServicesHealth. simpl. rewrite map_lookup_imap.
  by destruct (services g !! serviceType).
Qed.

(** X20.  Health checks decide who is served.  After a round of probes, a
    request that carries a token is forwarded only to an instance whose
    probe was answered, with the identifier and the address it was
    registered with; every instance whose probe was answered is chosen at
    some clock reading, also one that was marked unhealthy before; and
    when no probe of the type was answered the request is answered
    "unavailable", however healthy the instances were marked before. *)
Theorem checkServicesHealth_then_forward (probe : ServiceType → nat → Probe)
    (unixNano : Z) (authorization tokenParam : string)
    (serviceType : ServiceType) (g : Gateway) :
  0 <= unixNano →
  authorization ≠ "" ∨ tokenParam ≠ "" →
  let registered := default [] (services g !! serviceType) in
  let g' := checkServicesHealth probe g in
  ((∃ j old,
      registered !! j = Some old ∧ answered (probe serviceType j) = true
      ∧ forwardRequest unixNano authorization tokenParam serviceType g'
        = Returns
            (ForwardedTo
               (mkServiceInstance (ID old) (Type_ old) (URL old) true
                  (checkedAt (probe serviceType j)))))
   ∨ (forwardRequest unixNano authorization tokenParam serviceType g'
      = Returns Unavailable
      ∧ ∀ j, (j < length registered)%nat →
             answered (probe serviceType j) = false))
  ∧ (∀ j old,
       registered !! j = Some old → answered (probe serviceType j) = true →
       ∃ reading, 0 <= reading
         ∧ forwardRequest reading authorization tokenParam serviceType g'
           = Returns
               (ForwardedTo
                  (mkServiceInstance (ID old) (Type_ old) (URL old) true
                     (checkedAt (probe serviceType j))))).
Proof.
  intros Hn Hauth registered g'.
  assert (authorization ≠ "" ∨ tokenParam ≠ "" ∨ serviceType = ServiceAuth)
    as Hauth' by tauto.
  set (checked := imap (λ i, checkInstance (probe serviceType i)) registered).
  set (healthy := filter (λ instance, Health instance = true) checked).
  assert (∀ reading, 0 <= reading →
            forwardRequest reading authorization tokenParam serviceType g'
            = Returns
                match healthy !! Z.to_nat (reading mod Z.of_nat (length healthy))
                with
                | Some instance => ForwardedTo instance
                | None => Unavailable
                end) as Hfw.
  { intros reading Hr.
    rewrite (forwardRequest_pick reading authorization tokenParam serviceType g'
               Hr Hauth').
    unfold g'. by rewrite checkServicesHealth_lookup. }
  split.
  - rewrite (Hfw unixNano Hn).
    destruct (healthy !! Z.to_nat (unixNano mod Z.of_nat (length healthy)))
      as [i|] eqn:Hi.
    + left. apply list_elem_of_lookup_2 in Hi.
      apply list_elem_of_filter in Hi as [Hh Hin].
      apply elem_of_lookup_imap in Hin as (j & old & -> & Hold).
      exists j, old. split; [done|]. simpl in Hh. split; [done|].
      unfold checkInstance. by rewrite Hh.
    + right. split; [done|]. intros j Hj.
      destruct (answered (probe serviceType j)) eqn:Ha; [|done].
      destruct (lookup_lt_is_Some_2 registered j Hj) as [old Hold].
      assert (checkInstance (probe serviceType j) old ∈ healthy) as Hin.
      { apply list_elem_of_filter. split; [done|].
        apply elem_of_lookup_imap. by exists j, old. }
      assert (healthy ≠ []) as Hne
        by (intros E; rewrite E in Hin; by apply not_elem_of_nil in Hin).
      apply lookup_ge_None in Hi.
      assert (0 < Z.of_nat (length healthy)) as Hpos.
      { destruct healthy; [done|]. simpl. lia. }
      pose proof (Z.mod_pos_bound unixNano _ Hpos). lia.
  - intros j old Hold Ha.
    assert (checkInstance (probe serviceType j) old ∈ healthy) as Hin.
    { apply list_elem_of_filter. split; [done|].
      apply elem_of_lookup_imap. by exists j, old. }
    apply list_elem_of_lookup_1 in Hin as [k Hk].
    pose proof (lookup_lt_Some _ _ _ Hk) as Hlt.
    exists (Z.of_nat k). split; [lia|]. rewrite Hfw by lia.
    rewrite Z.mod_small by lia. rewrite Nat2Z.id, Hk.
    unfold checkInstance. by rewrite Ha.
Qed.

Lemma checkServicesHealth_then_forward_witness :
  forwardRequest 7 "token" "" ServiceGame
    (checkServicesHealth (λ _ j, mkProbe (bool_decide (j = 0%nat)) 5) twoGames)
  = Returns (ForwardedTo (mkServiceInstance "game-1" ServiceGame
                            (localhost 8081) true 5)).
Proof.
  destruct (checkServicesHealth_then_forward
              (λ _ j, mkProbe (bool_decide (j = 0%nat)) 5) 7 "token" ""
              ServiceGame twoGames) as ([(j & old & H1 & H2 & H3)|[H _]] & _);
    [lia|by left| |by vm_compute in H].
  destruct j as [|[|j]]; [|done|done].
  injection H1 as <-. exact H3.
Defined.

(** X21.  Registration and its undoing.  A registered instance is named after
    its service type and the clock reading of its registration, and is
    unregistered by that name: the earlier instances of the type stay, in
    order.  When an earlier instance of the type carries the same name,
    which the same clock reading gives, it is the earlier one that is
    taken out and the new one stays registered.  Unregistering a name
    that no instance of the type carries changes nothing. *)
Theorem RegisterService_then_Unregister (unixNano : Z) (now : Time)
    (serviceType : ServiceType) (parsedURL : ParsedURL) (g : Gateway) :
  let earlier := default [] (services g !! serviceType) in
  let name := serviceType +:+ "-" +:+ pretty unixNano in
  let instance := mkServiceInstance name serviceType parsedURL true now in
  let g1 := (RegisterService unixNano now serviceType (Some parsedURL) g).1 in
  (Forall (λ i, ID i ≠ name) earlier →
   UnregisterService serviceType name g1
   = (set_services (<[serviceType := earlier]> (services g)) g, true))
  ∧ (∀ i old,
       earlier !! i = Some old → ID old = name →
       Forall (λ x, ID x ≠ name) (take i earlier) →
       UnregisterService serviceType name g1
       = (set_services
            (<[serviceType := take i earlier ++ drop (S i) earlier ++ [instance]]>
               (services g)) g,
          true))
  ∧ (∀ other,
       other ≠ name → Forall (λ i, ID i ≠ other) earlier →
       UnregisterService serviceType other g1 = (g1, false)).
Proof.
  intros earlier name instance g1.
  assert (services g1 !! serviceType = Some (earlier ++ [instance])) as Hg1.
  { unfold g1. simpl. by rewrite lookup_insert_eq. }
  assert (∀ l, set_services (<[serviceType := l]> (services g1)) g1
               = set_services (<[serviceType := l]> (services g)) g) as Hset.
  { intros l. unfold g1, set_services. simpl. by rewrite insert_insert_eq. }
  split; [|split].
  - intros Hfresh. unfold UnregisterService. rewrite Hg1.
    assert (list_find (λ i, ID i = name) (earlier ++ [instance])
            = Some (length earlier, instance)) as ->.
    { apply list_find_Some. split; [|split].
      - by rewrite lookup_app_r, Nat.sub_diag by lia.
      - done.
      - intros j y Hj Hlt. rewrite lookup_app_l in Hj by done.
        rewrite Forall_forall in Hfresh. apply Hfresh.
        by apply list_elem_of_lookup_2 in Hj. }
    rewrite Hset, take_app_length.
    rewrite drop_ge by (rewrite length_app; simpl; lia).
    by rewrite app_nil_r.
  - intros i old Hold Hid Hfresh. unfold UnregisterService. rewrite Hg1.
    pose proof (lookup_lt_Some _ _ _ Hold) as Hlt.
    assert (list_find (λ i, ID i = name) (earlier ++ [instance])
            = Some (i, old)) as ->.
    { apply list_find_Some. split; [|split].
      - by rewrite lookup_app_l.
      - done.
      - intros j y Hj Hji. rewrite lookup_app_l in Hj by lia.
        rewrite Forall_forall in Hfresh. apply Hfresh.
        apply list_elem_of_lookup_2 with j. rewrite lookup_take_lt by done.
        done. }
    rewrite Hset. rewrite take_app_le by lia.
    rewrite drop_app_le by lia. done.
  - intros other Hne Hfresh. unfold UnregisterService. rewrite Hg1.
    assert (list_find (λ i, ID i = other) (earlier ++ [instance]) = None) as ->.
    { apply list_find_None. apply Forall_app. split; [done|].
      apply Forall_singleton. simpl. congruence. }
    done.
Qed.

Lemma RegisterService_then_Unregister_witness :
  UnregisterService ServiceGame "game-9"
    (RegisterService 9 1 ServiceGame (Some (localhost 8083)) twoGames).1
  = (twoGames, true).
Proof.
  destruct (RegisterService_then_Unregister 9 1 ServiceGame (localhost 8083)
              twoGames) as (H & _).
  exact (H ltac:(by repeat constructor)).
Defined.

Lemma registerInternalServices_lookup (clock : ServiceType → Z * Time)
    (gamePort matchPort gatewayPort : Z) (serviceType : ServiceType) (port : Z) :
  (serviceType = ServiceGame ∧ port = gamePort)
  ∨ (serviceType = ServiceMatch ∧ port = matchPort) →
  services
    (registerInternalServices clock gamePort matchPort gatewayPort NewGateway)
  !! serviceType
  = if 0 <=? port
    then Some [mkServiceInstance
                 (serviceType +:+ "-" +:+ pretty (clock serviceType).1)
                 serviceType (localhost port) true (clock serviceType).2]
    else None.
Proof.
  intros [[-> ->]|[-> ->]]; unfold registerInternalServices, parseLocalhost;
    destruct (0 <=? gamePort), (0 <=? matchPort), (0 <=? gatewayPort); simpl;
    repeat first
      [ done
      | rewrite lookup_insert_eq
      | rewrite lookup_insert_ne by done
      | rewrite lookup_empty ].
Qed.

(** X22.  The gateway after its start.  Started from new, the gateway forwards
    a game request that carries a token to [localhost] at the configured
    game port, and a match request to the match port, at every clock
    reading that is not negative; a service whose configured port is
    negative is not registered, and its requests are answered
    "unavailable".  Starting a running gateway is refused and registers
    nothing. *)
Theorem Start_then_forward (clock : ServiceType → Z * Time)
    (gamePort matchPort gatewayPort unixNano : Z)
    (authorization tokenParam : string) :
  0 <= unixNano →
  authorization ≠ "" ∨ tokenParam ≠ "" →
  let g := (Start clock gamePort matchPort gatewayPort NewGateway).1 in
  let target serviceType port :=
    if 0 <=? port
    then ForwardedTo
           (mkServiceInstance
              (serviceType +:+ "-" +:+ pretty (clock serviceType).1)
              serviceType (localhost port) true (clock serviceType).2)
    else Unavailable in
  handleGameRequest unixNano authorization tokenParam g
  = Returns (target ServiceGame gamePort)
  ∧ handleMatchRequest unixNano authorization tokenParam g
    = Returns (target ServiceMatch matchPort)
  ∧ ∀ clock', Start clock' gamePort matchPort gatewayPort g = (g, true).
Proof.
  intros Hn Hauth g target.
  assert (authorization ≠ "" ∨ tokenParam ≠ "" ∨ ServiceGame = ServiceAuth)
    as Hg by tauto.
  assert (authorization ≠ "" ∨ tokenParam ≠ "" ∨ ServiceMatch = ServiceAuth)
    as Hm by tauto.
  unfold handleGameRequest, handleMatchRequest.
  rewrite (forwardRequest_pick unixNano authorization tokenParam ServiceGame g
             Hn Hg),
    (forwardRequest_pick unixNano authorization tokenParam ServiceMatch g
       Hn Hm).
  unfold g, Start. cbn [isRunning NewGateway fst set_isRunning services].
  rewrite (registerInternalServices_lookup clock gamePort matchPort gatewayPort
             ServiceGame gamePort) by tauto.
  rewrite (registerInternalServices_lookup clock gamePort matchPort gatewayPort
             ServiceMatch matchPort) by tauto.
  unfold target.
  split; [|split]; [| |done].
  - destruct (0 <=? gamePort); [|done]. simpl.
    by rewrite Z.mod_1_r.
  - destruct (0 <=? matchPort); [|done]. simpl.
    by rewrite Z.mod_1_r.
Qed.

Lemma Start_then_forward_witness :
  handleGameRequest 7 "token" ""
    (Start (λ _, (3, 4)) 8081 8082 8080 NewGateway).1
  = Returns (ForwardedTo (mkServiceInstance "game-3" ServiceGame
                            (localhost 8081) true 4)).
Proof.
  destruct (Start_then_forward (λ _, (3, 4)) 8081 8082 8080 7 "token" "")
    as (H & _); [lia|by left|].
  exact H.
Defined.

End ServiceRegistry.
(** ** The rate limiter *)

Section RateLimit.

Import ratelimit.

Lemma Minute_pos : 0 < Minute.
Proof. done. Qed.

Lemma filter_fmap {A B} (f : A → B) (P : B → Prop) `{!∀ y, Decision (P y)}
    (l : list A) :
  filter P (f <$> l) = f <$> filter (λ x, P (f x)) l.
Proof.
  induction l as [|x l IH]; [done|].
  rewrite fmap_cons, !filter_cons.
  destruct (decide (P (f x))); by rewrite IH.
Qed.

Lemma filter_none {A} (P : A → Prop) `{!∀ y, Decision (P y)} (l : list A) :
  (∀ x, x ∈ l → ¬ P x) → filter P l = [].
Proof.
  induction l as [|x l IH]; intros Hall; [done|].
  rewrite filter_cons_False by (apply Hall; left).
  apply IH. intros y Hy. apply Hall. by right.
Qed.

Lemma passedSince_snoc (cutoff : Time) (ip : string) (log : list Served)
    (s : Served) :
  passedSince cutoff ip (log ++ [s])
  = passedSince cutoff ip log
    ++ (if decide (client s = ip ∧ passed s = true ∧ cutoff < servedAt s)
        then [s] else []).
Proof. unfold passedSince. by rewrite filter_app. Qed.

Lemma passedSince_later (c1 c2 : Time) (ip : string) (log : list Served) :
  c1 <= c2 →
  filter (λ s, c2 < servedAt s) (passedSince c1 ip log) = passedSince c2 ip log.
Proof.
  intros Hle. unfold passedSince. rewrite list_filter_filter.
  apply list_filter_iff. intros s. intuition lia.
Qed.

Lemma consistent_mono (T T' : Time) (rl : RateLimiter) (log : list Served) :
  T <= T' → consistent T rl log → consistent T' rl log.
Proof.
  intros Hle [H1 H2]. split.
  - intros s Hs. specialize (H1 s Hs).
    destruct (clients rl !! client s); [done|lia].
  - intros ip ci E. destruct (H2 ip ci E). split; [done|lia].
Qed.

Lemma validRequests_log (T : Time) (rl : RateLimiter) (log : list Served)
    (now : Time) (ip : string) :
  consistent T rl log → T <= now →
  filter (λ reqTime, gotime.After reqTime (gotime.Add now (- Minute)) = true)
    (Requests match clients rl !! ip with
              | Some client => client
              | None => {| Requests := []; LastSeen := now |}
              end)
  = servedAt <$> passedSince (now - Minute) ip log.
Proof.
  intros [H1 H2] HT. pose proof Minute_pos.
  destruct (clients rl !! ip) as [ci|] eqn:E.
  - destruct (H2 ip ci E) as [-> HLS]. rewrite filter_fmap. f_equal.
    rewrite <- (passedSince_later (LastSeen ci - Minute) (now - Minute)) by lia.
    apply list_filter_iff. intros s. unfold gotime.After, gotime.Add.
    rewrite Z.ltb_lt. lia.
  - assert (passedSince (now - Minute) ip log = []) as ->; [|done].
    apply filter_none. intros s Hs (Hc & _ & Hlt). specialize (H1 s Hs).
    rewrite Hc, E in H1. lia.
Qed.

Lemma allowRequest_decision (T : Time) (rl : RateLimiter) (log : list Served)
    (now : Time) (ip : string) :
  consistent T rl log → T <= now →
  (allowRequest now ip rl).2
  = bool_decide
      (Z.of_nat (length (passedSince (now - Minute) ip log))
       < RequestsPerMinute rl).
Proof.
  intros Hc HT. unfold allowRequest. cbv zeta.
  rewrite (validRequests_log T rl log now ip Hc HT), length_fmap.
  destruct (Z.leb_spec (RequestsPerMinute rl)
              (Z.of_nat (length (passedSince (now - Minute) ip log))));
    simpl; symmetry; [apply bool_decide_eq_false_2|apply bool_decide_eq_true_2];
    lia.
Qed.

Lemma allowRequest_consistent (T : Time) (rl : RateLimiter)
    (log : list Served) (now : Time) (ip : string) :
  consistent T rl log → T <= now →
  consistent now (allowRequest now ip rl).1
    (log ++ [mkServed now ip (allowRequest now ip rl).2]).
Proof.
  intros Hc HT. pose proof Minute_pos.
  pose proof (validRequests_log T rl log now ip Hc HT) as Hv.
  destruct Hc as [H1 H2].
  set (ok := (allowRequest now ip rl).2).
  assert (clients (allowRequest now ip rl).1
          = <[ip := {| Requests :=
                         (servedAt <$> passedSince (now - Minute) ip log)
                         ++ (if ok then [now] else []);
                       LastSeen := now |}]> (clients rl)) as Hcl.
  { unfold ok, allowRequest. cbv zeta. rewrite Hv.
    destruct (_ <=? _); simpl; [by rewrite app_nil_r|done]. }
  split.
  - intros s Hs. rewrite Hcl. apply elem_of_app in Hs as [Hs|Hs].
    + specialize (H1 s Hs). destruct (decide (ip = client s)) as [Heq|Hne].
      * rewrite <- Heq in H1 |- *. rewrite lookup_insert_eq. simpl.
        destruct (clients rl !! ip) as [ci|] eqn:E; [|lia].
        destruct (H2 ip ci E). lia.
      * rewrite lookup_insert_ne by done.
        destruct (clients rl !! client s); [done|lia].
    + apply list_elem_of_singleton in Hs as ->. simpl.
      rewrite lookup_insert_eq. simpl. lia.
  - intros ip' ci. rewrite Hcl. destruct (decide (ip = ip')) as [<-|Hne].
    + rewrite lookup_insert_eq. intros [= <-]. simpl. split; [|lia].
      rewrite passedSince_snoc, fmap_app. f_equal. simpl.
      destruct ok.
      * rewrite decide_True; [done|]. split_and!; [done|done|lia].
      * rewrite decide_False; [done|]. by intros (_ & ? & _).
    + rewrite lookup_insert_ne by done. intros E.
      destruct (H2 ip' ci E) as [HR HL]. split; [|lia].
      rewrite passedSince_snoc. simpl.
      rewrite decide_False by (by intros (? & _)).
      by rewrite app_nil_r.
Qed.

Lemma cleanupTick_consistent (T : Time) (rl : RateLimiter)
    (log : list Served) (now : Time) :
  consistent T rl log → T <= now → consistent now (cleanupTick now rl) log.
Proof.
  intros [H1 H2] HT. pose proof Minute_pos. split.
  - intros s Hs. specialize (H1 s Hs). unfold cleanupTick. simpl.
    match goal with |- match ?m !! _ with _ => _ end => set (kept := m) end.
    destruct (kept !! client s) as [ci|] eqn:E.
    + apply map_lookup_filter_Some in E as [E _]. by rewrite E in H1.
    + destruct (clients rl !! client s) as [ci|] eqn:E'; [|lia].
      apply map_lookup_filter_None in E as [E|E]; [congruence|].
      specialize (E ci E'). simpl in E. apply dec_stable in E.
      unfold gotime.Before, gotime.Add in E. apply Z.ltb_lt in E. lia.
  - intros ip ci E. unfold cleanupTick in E. simpl in E.
    apply map_lookup_filter_Some in E as [E _].
    destruct (H2 ip ci E). split; [done|lia].
Qed.

Lemma allowRequest_RequestsPerMinute (now : Time) (ip : string)
    (rl : RateLimiter) :
  RequestsPerMinute (allowRequest now ip rl).1 = RequestsPerMinute rl.
Proof. unfold allowRequest. cbv zeta. by destruct (_ <=? _). Qed.

Lemma run_snoc (es : list Event) (e : Event) (rl : RateLimiter) :
  run (es ++ [e]) rl = step (run es rl) e.
Proof. unfold run. by rewrite fold_left_app. Qed.

Lemma step_Serve (st : RateLimiter * list Served) (now : Time) (r : Request) :
  step st (Serve now r)
  = ((allowRequest now (getClientIP r) st.1).1,
     st.2 ++ [mkServed now (getClientIP r)
                (allowRequest now (getClientIP r) st.1).2]).
Proof.
  unfold step, Middleware. by destruct (allowRequest now (getClientIP r) st.1).
Qed.

Lemma run_consistent (es : list Event) (rpm burst : Z) :
  StronglySorted Z.le (at_ <$> es) →
  ∀ T, Forall (λ e, at_ e <= T) es →
  consistent T (run es (NewRateLimiter rpm burst)).1
    (run es (NewRateLimiter rpm burst)).2
  ∧ RequestsPerMinute (run es (NewRateLimiter rpm burst)).1 = rpm.
Proof.
  induction es as [|e es IH] using rev_ind; intros Hs T HT.
  - split; [|done]. split.
    + intros s Hin. by apply not_elem_of_nil in Hin.
    + intros ip ci E. simpl in E. by rewrite lookup_empty in E.
  - rewrite fmap_app in Hs. apply StronglySorted_app in Hs as (Hle & Hs & _).
    apply Forall_app in HT as [_ HT]. rewrite Forall_singleton in HT.
    destruct (IH Hs (at_ e)) as [Hc Hrpm].
    { apply Forall_forall. intros x Hx. apply Hle.
      - apply list_elem_of_fmap. by exists x.
      - simpl. by left. }
    rewrite run_snoc. destruct e as [now r|now]; simpl in Hc, HT.
    + rewrite step_Serve. simpl. split.
      * apply (consistent_mono now); [done|].
        by apply (allowRequest_consistent now).
      * by rewrite allowRequest_RequestsPerMinute.
    + simpl. split; [|done]. apply (consistent_mono now); [done|].
      by apply (cleanupTick_consistent now).
Qed.

Lemma run_decision (es : list Event) (now : Time) (ip : string)
    (rpm burst : Z) :
  StronglySorted Z.le (at_ <$> es) → Forall (λ e, at_ e <= now) es →
  (allowRequest now ip (run es (NewRateLimiter rpm burst)).1).2
  = bool_decide
      (Z.of_nat
         (length (passedSince (now - Minute) ip
                    (run es (NewRateLimiter rpm burst)).2)) < rpm).
Proof.
  intros Hs Hle. destruct (run_consistent es rpm burst Hs now Hle) as [Hc Hrpm].
  rewrite (allowRequest_decision now _ _ now ip Hc) by lia.
  by rewrite Hrpm.
Qed.

(** X23.  The sliding window.  Over any run of requests and firings of the
    clean-up ticker whose clock readings do not decrease, a request is
    handed on exactly when fewer than [RequestsPerMinute] requests
    counted for the same client were handed on within the minute before
    it, and is answered 429 otherwise.  So the requests of a client
    handed on within the minute up to one that is handed on, that one
    included, are never more than [RequestsPerMinute]; refused requests
    do not count; and the removal of idle clients never changes an
    answer. *)
Theorem allowRequest_sliding_window (es : list Event) (now : Time)
    (r : Request) (rpm burst : Z) :
  StronglySorted Z.le (at_ <$> es ++ [Serve now r]) →
  let st := run es (NewRateLimiter rpm burst) in
  (Middleware now r st.1).2
  = bool_decide
      (Z.of_nat (length (passedSince (now - Minute) (getClientIP r) st.2))
       < rpm).
Proof.
  intros Hs st. rewrite fmap_app in Hs.
  apply StronglySorted_app in Hs as (Hle & Hs & _).
  unfold Middleware, st. apply run_decision; [done|].
  apply Forall_forall. intros x Hx. apply Hle.
  - apply list_elem_of_fmap. by exists x.
  - simpl. by left.
Qed.

Lemma allowRequest_sliding_window_witness :
  (Middleware 10 caller
     (run [Serve 0 caller; Tick 5] (NewRateLimiter 1 10)).1).2 = false.
Proof.
  etrans;
    [apply (allowRequest_sliding_window [Serve 0 caller; Tick 5] 10 caller
              1 10)|by vm_compute].
  repeat constructor; simpl; lia.
Defined.

Lemma run_clients (es : list Event) (rl : RateLimiter) :
  client <$> (run es rl).2
  = omap (λ e, match e with
               | Serve _ r => Some (getClientIP r)
               | Tick _ => None
               end) es.
Proof.
  induction es as [|e es IH] using rev_ind; [done|].
  rewrite run_snoc, omap_app, <- IH. destruct e as [now r|now].
  - rewrite step_Serve. simpl. by rewrite fmap_app.
  - simpl. by rewrite app_nil_r.
Qed.

Lemma getClientIP_forwarded (r : Request) :
  XForwardedFor r ≠ "" → getClientIP r = XForwardedFor r.
Proof.
  intros H. unfold getClientIP. apply String.eqb_neq in H. by rewrite H.
Qed.

(** X24.  The limit is counted per forwarding header.  The client a request is
    counted for is the value of its [X-Forwarded-For] header, whatever
    address it comes from; so requests whose headers differ from each
    other are all handed on, however many they are and however fast they
    come, as long as one request a minute is allowed at all. *)
Theorem forwarded_header_evades_limit (reqs : list (Time * Request))
    (rpm burst : Z) :
  StronglySorted Z.le reqs.*1 → 0 < rpm →
  Forall (λ tr, XForwardedFor tr.2 ≠ "") reqs →
  NoDup ((λ tr, XForwardedFor tr.2) <$> reqs) →
  passed <$> (run ((λ tr, Serve tr.1 tr.2) <$> reqs)
                (NewRateLimiter rpm burst)).2
  = replicate (length reqs) true.
Proof.
  intros Hs Hrpm. induction reqs as [|[t r] reqs IH] using rev_ind;
    intros Hx Hnd; [done|].
  rewrite fmap_app in Hs. apply StronglySorted_app in Hs as (Hle & Hs & _).
  apply Forall_app in Hx as [Hx Hr]. rewrite Forall_singleton in Hr.
  rewrite fmap_app in Hnd. apply NoDup_app in Hnd as (Hnd & Hnew & _).
  simpl in Hr.
  rewrite (fmap_app _ reqs [(t, r)]).
  change ((λ tr : Time * Request, Serve tr.1 tr.2) <$> [(t, r)])
    with [Serve t r].
  rewrite run_snoc, step_Serve. simpl.
  rewrite fmap_app, (IH Hs Hx Hnd), length_app, Nat.add_comm. simpl.
  rewrite replicate_cons_app. f_equal. simpl. f_equal.
  set (es := (λ tr : Time * Request, Serve tr.1 tr.2) <$> reqs).
  assert (at_ <$> es = reqs.*1) as Hat.
  { unfold es. rewrite <- list_fmap_compose. by apply list_fmap_ext. }
  rewrite (run_decision es t (getClientIP r) rpm burst).
  - assert (passedSince (t - Minute) (getClientIP r)
              (run es (NewRateLimiter rpm burst)).2 = []) as ->;
      [|by apply bool_decide_eq_true_2].
    apply filter_none. intros s Hin (Hc & _ & _).
    assert (client s ∈ client <$> (run es (NewRateLimiter rpm burst)).2) as Hcl
      by (apply list_elem_of_fmap; by exists s).
    rewrite run_clients in Hcl. apply list_elem_of_omap in Hcl as (e & He & Hcl).
    unfold es in He. apply list_elem_of_fmap in He as ([t' r'] & -> & He).
    simpl in Hcl. injection Hcl as Hcl.
    rewrite Forall_forall in Hx. pose proof (Hx _ He) as Hx'. simpl in Hx'.
    rewrite getClientIP_forwarded in Hcl by done.
    rewrite Hc, getClientIP_forwarded in Hcl by done.
    apply (Hnew (XForwardedFor r')).
    + apply list_elem_of_fmap. by exists (t', r').
    + rewrite Hcl. simpl. by left.
  - by rewrite Hat.
  - apply Forall_forall. intros e He. apply Hle.
    + rewrite <- Hat. apply list_elem_of_fmap. by exists e.
    + simpl. by left.
Qed.

Lemma forwarded_header_evades_limit_witness :
  passed <$> (run [Serve 0 (forwardedFor "a"); Serve 0 (forwardedFor "b")]
                (NewRateLimiter 1 10)).2
  = [true; true].
Proof.
  apply (forwarded_header_evades_limit
           [(0, forwardedFor "a"); (0, forwardedFor "b")] 1 10).
  - repeat constructor; simpl; lia.
  - lia.
  - by repeat constructor.
  - apply NoDup_cons. split; [|apply NoDup_singleton].
    simpl. intros H. by apply list_elem_of_singleton in H.
Defined.

Lemma filter_passed (a b : nat) (log : list Served) :
  passed <$> log = replicate a true ++ replicate b false →
  length (filter (λ s, passed s = true) log) = a.
Proof.
  revert a b. induction log as [|s log IH]; intros a b H.
  - destruct a; [done|]. by destruct b.
  - rewrite fmap_cons in H. destruct a as [|a].
    + destruct b as [|b]; [done|]. simpl in H. injection H as Hs H.
      rewrite filter_cons_False by (rewrite Hs; done).
      by apply (IH 0%nat b).
    + simpl in H. injection H as Hs H.
      rewrite filter_cons_True by done. simpl. f_equal. by apply (IH a b).
Qed.

Lemma run_same_instant (n : nat) (t : Time) (r : Request) (rl : RateLimiter) :
  Forall (λ s, client s = getClientIP r ∧ servedAt s = t)
    (run (replicate n (Serve t r)) rl).2.
Proof.
  induction n as [|n IH]; [by constructor|].
  rewrite replicate_S_end, run_snoc, step_Serve. simpl.
  apply Forall_app. split; [done|]. by apply Forall_singleton.
Qed.

Lemma passedSince_same_instant (t : Time) (ip : string) (log : list Served) :
  Forall (λ s, client s = ip ∧ servedAt s = t) log →
  passedSince (t - Minute) ip log = filter (λ s, passed s = true) log.
Proof.
  pose proof Minute_pos. unfold passedSince.
  induction 1 as [|s log [Hc Ht] _ IH]; [done|].
  rewrite !filter_cons, IH.
  destruct (decide (passed s = true)) as [Hp|Hp].
  - rewrite decide_True; [done|]. split_and!; [done|done|lia].
  - rewrite decide_False; [done|]. by intros (_ & ? & _).
Qed.

(** X25.  No burst limit.  Of the requests that one client sends at the same
    instant, the first [RequestsPerMinute] are handed on and the others
    are answered 429, whatever [BurstSize] the limiter was made with:
    the burst size takes no part in any decision. *)
Theorem burst_is_not_limited (n : nat) (t : Time) (r : Request)
    (rpm burst : Z) :
  passed <$> (run (replicate n (Serve t r)) (NewRateLimiter rpm burst)).2
  = replicate (n `min` Z.to_nat rpm) true
    ++ replicate (n - Z.to_nat rpm) false.
Proof.
  induction n as [|n IH]; [done|].
  rewrite replicate_S_end, run_snoc, step_Serve. cbn [snd].
  rewrite fmap_app, IH. cbn [fmap list_fmap passed].
  rewrite (run_decision (replicate n (Serve t r)) t (getClientIP r) rpm burst).
  - assert (passedSince (t - Minute) (getClientIP r)
              (run (replicate n (Serve t r)) (NewRateLimiter rpm burst)).2
            = filter (λ s, passed s = true)
                (run (replicate n (Serve t r)) (NewRateLimiter rpm burst)).2)
      as ->.
    { apply passedSince_same_instant, run_same_instant. }
    rewrite (filter_passed _ _ _ IH).
    destruct (decide (n < Z.to_nat rpm)%nat) as [Hlt|Hge].
    + rewrite bool_decide_eq_true_2 by lia.
      replace (n - Z.to_nat rpm)%nat with 0%nat by lia.
      replace (S n - Z.to_nat rpm)%nat with 0%nat by lia.
      replace (n `min` Z.to_nat rpm)%nat with n by lia.
      replace (S n `min` Z.to_nat rpm)%nat with (S n) by lia.
      cbn [replicate]. by rewrite !app_nil_r, <- replicate_S_end.
    + rewrite bool_decide_eq_false_2 by lia.
      replace (S n - Z.to_nat rpm)%nat with (S (n - Z.to_nat rpm)) by lia.
      replace (S n `min` Z.to_nat rpm)%nat with (n `min` Z.to_nat rpm)%nat
        by lia.
      by rewrite <- app_assoc, <- replicate_S_end.
  - rewrite fmap_replicate. simpl. clear IH.
    induction n as [|n IHn]; [constructor|].
    simpl. constructor; [done|]. by apply Forall_replicate.
  - by apply Forall_replicate.
Qed.

End RateLimit.
(** ** The response cache *)

Section ResponseCache.

Import cache.

Lemma oldest_fold (mc : MemoryCache) (order : list string) :
  entries mc !! "" = None →
  let acc := fold_left (oldest mc) order ("", zeroTime) in
  (acc.1 = "" ∧ ∀ k, k ∈ order → entries mc !! k = None)
  ∨ (acc.1 ≠ ""
     ∧ ∃ e, entries mc !! acc.1 = Some e ∧ acc.2 = ExpiresAt e
          ∧ ∀ k e', k ∈ order → entries mc !! k = Some e' →
                    ExpiresAt e <= ExpiresAt e').
Proof.
  intros Hno. induction order as [|k order IH] using rev_ind.
  - left. split; [done|]. intros k Hk. by apply not_elem_of_nil in Hk.
  - rewrite fold_left_app. cbn [fold_left].
    set (acc := fold_left (oldest mc) order ("", zeroTime)) in *.
    cbv zeta in IH. unfold oldest.
    destruct (entries mc !! k) as [ek|] eqn:Ek.
    + assert (k ≠ "") as Hk by (intros ->; congruence).
      destruct IH as [[Hacc Hnone]|(Hacc & e & He & Ht & Hmin)].
      * rewrite Hacc. simpl. right. split; [done|]. exists ek.
        split; [done|]. split; [done|]. intros k' e' Hin Hk'.
        apply elem_of_app in Hin as [Hin|Hin].
        -- rewrite (Hnone k' Hin) in Hk'. done.
        -- apply list_elem_of_singleton in Hin as ->.
           rewrite Ek in Hk'. injection Hk' as <-. lia.
      * apply String.eqb_neq in Hacc as Hacc'. rewrite Hacc'. simpl.
        unfold gotime.Before.
        destruct (Z.ltb_spec (ExpiresAt ek) acc.2) as [Hlt|Hge]; simpl.
        -- right. split; [done|]. exists ek. split; [done|]. split; [done|].
           intros k' e' Hin Hk'. apply elem_of_app in Hin as [Hin|Hin].
           ++ specialize (Hmin k' e' Hin Hk'). lia.
           ++ apply list_elem_of_singleton in Hin as ->.
              rewrite Ek in Hk'. injection Hk' as <-. lia.
        -- right. split; [done|]. exists e. split; [done|]. split; [done|].
           intros k' e' Hin Hk'. apply elem_of_app in Hin as [Hin|Hin].
           ++ by apply (Hmin k' e' Hin Hk').
           ++ apply list_elem_of_singleton in Hin as ->.
              rewrite Ek in Hk'. injection Hk' as <-. lia.
    + destruct IH as [[Hacc Hnone]|(Hacc & e & He & Ht & Hmin)].
      * left. split; [done|]. intros k' Hin.
        apply elem_of_app in Hin as [Hin|Hin]; [by apply Hnone|].
        by apply list_elem_of_singleton in Hin as ->.
      * right. split; [done|]. exists e. split; [done|]. split; [done|].
        intros k' e' Hin Hk'. apply elem_of_app in Hin as [Hin|Hin].
        -- by apply (Hmin k' e' Hin Hk').
        -- apply list_elem_of_singleton in Hin as ->. congruence.
Qed.

Lemma evictOldest_spec (mc : MemoryCache) (order : list string) :
  entries mc !! "" = None →
  (∀ k, is_Some (entries mc !! k) → k ∈ order) →
  entries mc ≠ ∅ →
  ∃ o e, entries mc !! o = Some e
         ∧ evictOldest order mc = set_entries (delete o (entries mc)) mc
         ∧ ∀ k e', entries mc !! k = Some e' → ExpiresAt e <= ExpiresAt e'.
Proof.
  intros Hno Horder Hne. pose proof (oldest_fold mc order Hno) as H.
  cbv zeta in H. unfold evictOldest.
  destruct (fold_left (oldest mc) order ("", zeroTime)) as [o t].
  simpl in H. destruct H as [[_ Hnone]|(Ho & e & He & _ & Hmin)].
  - apply map_choose in Hne as (k & x & Hk).
    rewrite (Hnone k) in Hk; [done|]. apply Horder. by rewrite Hk.
  - exists o, e. split; [done|]. apply String.eqb_neq in Ho. rewrite Ho.
    split; [done|]. intros k e' Hk. apply (Hmin k e'); [|done].
    apply Horder. by rewrite Hk.
Qed.

(** X26.  What [Set] keeps and what it evicts.  Let the cache hold no more
    entries than [MaxEntries], which is at least 1, and no entry under
    the empty key.  After [Set], the key holds the new entry, the cache
    again holds no more than [MaxEntries] entries, and no other entry
    was added or changed.  Below the limit no entry is removed.  At the
    limit, an entry that is removed had either expired, or expires no
    later than every entry that stays: room is made by dropping the
    entry that is first to expire, also when it has not expired yet. *)
Theorem Set_eviction (now : Time) (order : list string) (key : string)
    (entry : CacheEntry) (mc : MemoryCache) :
  1 <= MaxEntries mc → len mc <= MaxEntries mc →
  entries mc !! "" = None → key ≠ "" →
  (∀ k, is_Some (entries (evictExpired now mc) !! k) → k ∈ order) →
  let mc' := Set_ now order key entry mc in
  entries mc' !! key = Some entry
  ∧ len mc' <= MaxEntries mc'
  ∧ entries mc' !! "" = None
  ∧ (∀ k e, k ≠ key → entries mc' !! k = Some e → entries mc !! k = Some e)
  ∧ (len mc < MaxEntries mc →
     ∀ k, k ≠ key → entries mc' !! k = entries mc !! k)
  ∧ (∀ k e, k ≠ key → entries mc !! k = Some e → entries mc' !! k = None →
       gotime.After now (ExpiresAt e) = true
       ∨ ∀ k' e', k' ≠ key → entries mc' !! k' = Some e' →
                   ExpiresAt e <= ExpiresAt e').
Proof.
  intros Hmax Hlen Hno Hkey Horder mc'.
  assert (∃ E1 : gmap string CacheEntry,
            mc' = set_entries (<[key := entry]> E1) mc
            ∧ (Z.of_nat (size E1) < MaxEntries mc)
            ∧ (∀ k e, E1 !! k = Some e → entries mc !! k = Some e)
            ∧ (len mc < MaxEntries mc → E1 = entries mc)
            ∧ (∀ k e, entries mc !! k = Some e → E1 !! k = None →
                 gotime.After now (ExpiresAt e) = true
                 ∨ ∀ k' e', E1 !! k' = Some e' → ExpiresAt e <= ExpiresAt e'))
    as (E1 & -> & Hsize & Hsub & Hsame & Hgone).
  { unfold mc', Set_. destruct (Z.leb_spec (MaxEntries mc) (len mc)) as [Hfull|Hroom].
    - set (F := filter (λ kv : string * CacheEntry,
                          ¬ gotime.After now (ExpiresAt kv.2) = true)
                  (entries mc)).
      assert (size F ≤ size (entries mc))%nat as HF
        by apply map_subseteq_size, map_filter_subseteq.
      assert (∀ k e, F !! k = Some e → entries mc !! k = Some e) as HFsub.
      { intros k e Hk. by apply map_lookup_filter_Some in Hk as [? _]. }
      assert (∀ k e, entries mc !! k = Some e → F !! k = None →
                gotime.After now (ExpiresAt e) = true) as HFgone.
      { intros k e Hk HFk. apply map_lookup_filter_None in HFk as [?|HFk];
          [congruence|].
        specialize (HFk e Hk). simpl in HFk. by apply dec_stable in HFk. }
      change (MaxEntries (evictExpired now mc)) with (MaxEntries mc).
      change (len (evictExpired now mc)) with (Z.of_nat (size F)).
      destruct (Z.leb_spec (MaxEntries mc) (Z.of_nat (size F))) as [Hstill|Hnow].
      + destruct (evictOldest_spec (evictExpired now mc) order)
          as (o & e & Ho & -> & Hmin).
        * apply map_lookup_filter_None_2. by left.
        * exact Horder.
        * apply map_size_non_empty_iff. change (size F ≠ 0%nat). lia.
        * change (entries (evictExpired now mc)) with F in *.
          exists (delete o F). split; [done|]. split.
          { rewrite map_size_delete_Some by (by rewrite Ho).
            unfold len in Hlen. lia. }
          split.
          { intros k x Hk. apply lookup_delete_Some in Hk as [_ Hk].
            by apply HFsub. }
          split; [unfold len in *; lia|].
          intros k x Hk Hdel. apply lookup_delete_None in Hdel as [<-|Hdel].
          -- right. intros k' e' Hk'. apply lookup_delete_Some in Hk' as [_ Hk'].
             apply HFsub in Ho. rewrite Ho in Hk. injection Hk as <-.
             by apply (Hmin k' e').
          -- left. by apply (HFgone k x).
      + exists F. split; [done|]. split; [done|]. split; [done|].
        split; [unfold len in *; lia|].
        intros k x Hk HFk. left. by apply (HFgone k x).
    - exists (entries mc). split; [done|]. split; [done|]. split; [done|].
      split; [done|]. intros k e Hk Hk'. congruence. }
  simpl. split; [by rewrite lookup_insert_eq|]. split.
  { unfold len. simpl. rewrite map_size_insert.
    destruct (E1 !! key); simpl; lia. }
  split.
  { rewrite lookup_insert_ne by done.
    destruct (E1 !! "") as [e|] eqn:E; [|done].
    apply Hsub in E. congruence. }
  split.
  { intros k e Hk. rewrite lookup_insert_ne by done. apply Hsub. }
  split.
  { intros Hroom k Hk. rewrite lookup_insert_ne by done.
    by rewrite (Hsame Hroom). }
  intros k e Hk Hold Hnew. rewrite lookup_insert_ne in Hnew by done.
  destruct (Hgone k e Hold Hnew) as [?|Hmin]; [by left|right].
  intros k' e' Hk' Hin. rewrite lookup_insert_ne in Hin by done.
  by apply (Hmin k' e').
Qed.

Lemma Set_eviction_witness :
  entries (Set_ 5 ["/characters"; "/stats/leaderboard"] "/players/characters/7"
             (page "seven" 30) smallCache) !! "/players/characters/7"
  = Some (page "seven" 30)
  ∧ len (Set_ 5 ["/characters"; "/stats/leaderboard"] "/players/characters/7"
           (page "seven" 30) smallCache)
    <= MaxEntries (Set_ 5 ["/characters"; "/stats/leaderboard"]
                     "/players/characters/7" (page "seven" 30) smallCache).
Proof.
  destruct (Set_eviction 5 ["/characters"; "/stats/leaderboard"]
              "/players/characters/7" (page "seven" 30) smallCache)
    as (H1 & H2 & _); [done|by vm_compute|done|done| |by split].
  intros k [x Hk]. apply map_lookup_filter_Some in Hk as [Hk _].
  destruct (decide (k = "/characters")) as [->|Hk1]; [by left|].
  destruct (decide (k = "/stats/leaderboard")) as [->|Hk2]; [by right; left|].
  unfold smallCache in Hk. simpl in Hk.
  by rewrite !lookup_insert_ne, lookup_empty in Hk.
Defined.

Lemma getTTL_unique (cm : CacheMiddleware) (order : list string)
    (path pattern : string) (ttl : Duration) :
  CacheTTL cm !! pattern = Some ttl → HasPrefix path pattern = true →
  (∀ p t, CacheTTL cm !! p = Some t → HasPrefix path p = true → p = pattern) →
  pattern ∈ order →
  getTTL order path cm = ttl.
Proof.
  intros Hp Hpre Huniq. induction order as [|p order IH]; intros Hin.
  - by apply not_elem_of_nil in Hin.
  - simpl. destruct (CacheTTL cm !! p) as [t|] eqn:Ep.
    + destruct (HasPrefix path p) eqn:Epre.
      * rewrite (Huniq p t Ep Epre) in Ep. congruence.
      * apply IH. apply elem_of_cons in Hin as [->|Hin]; [congruence|done].
    + apply IH. apply elem_of_cons in Hin as [->|Hin]; [congruence|done].
Qed.

Lemma CacheTTL_New (p : string) (t : Duration) :
  CacheTTL NewCacheMiddleware !! p = Some t →
  (p = "/characters" ∧ t = 10 * Minute)
  ∨ (p = "/stats/leaderboard" ∧ t = 2 * Minute)
  ∨ (p = "/players/" ∧ t = 1 * Minute).
Proof.
  unfold NewCacheMiddleware. simpl. intros H.
  destruct (decide (p = "/characters")) as [->|H1].
  { rewrite lookup_insert_eq in H. left. split; congruence. }
  rewrite lookup_insert_ne in H by done.
  destruct (decide (p = "/stats/leaderboard")) as [->|H2].
  { rewrite lookup_insert_eq in H. right. left. split; congruence. }
  rewrite lookup_insert_ne in H by done.
  destruct (decide (p = "/players/")) as [->|H3].
  { rewrite lookup_insert_eq in H. right. right. split; congruence. }
  by rewrite lookup_insert_ne, lookup_empty in H.
Qed.

Lemma prefix_app_l (p1 p2 s : string) :
  String.prefix (p1 +:+ p2) s = true → String.prefix p1 s = true.
Proof.
  revert s. induction p1 as [|a p1 IH]; intros s H; [by destruct s|].
  destruct s as [|b s]; [done|]. simpl in *.
  destruct (Ascii.ascii_dec a b); [by apply IH|done].
Qed.

Lemma prefix_second (a b b' : Ascii.ascii) (p p' s : string) :
  String.prefix (String a (String b p)) s = true →
  String.prefix (String a (String b' p')) s = true → b = b'.
Proof.
  destruct s as [|x [|y s]]; simpl;
    repeat match goal with
           | |- context [Ascii.ascii_dec ?u ?v] =>
               destruct (Ascii.ascii_dec u v)
           end; congruence.
Qed.

(** X27.  Every cacheable path has a life time of its own.  Whatever order
    the patterns of [CacheTTL] are visited in, a path under
    [/characters] is cached for ten minutes, one under
    [/stats/leaderboard] for two, and one under [/players/characters/]
    or [/players/default-character/] for one: no path that the
    middleware caches matches two patterns, and none falls back on the
    cache's default of five minutes. *)
Theorem getTTL_cacheable (order : list string) (path : string) :
  (∀ pattern, is_Some (CacheTTL NewCacheMiddleware !! pattern) →
     pattern ∈ order) →
  shouldCache path NewCacheMiddleware = true →
  getTTL order path NewCacheMiddleware
  = if HasPrefix path "/characters" then 10 * Minute
    else if HasPrefix path "/stats/leaderboard" then 2 * Minute
    else 1 * Minute.
Proof.
  intros Horder Hcache.
  assert (∀ pattern ttl,
            CacheTTL NewCacheMiddleware !! pattern = Some ttl →
            HasPrefix path pattern = true →
            getTTL order path NewCacheMiddleware = ttl) as Hget.
  { intros pattern ttl Hp Hpre.
    apply (getTTL_unique NewCacheMiddleware order path pattern ttl Hp Hpre);
      [|apply Horder; by rewrite Hp].
    intros p t Ep Epre.
    apply CacheTTL_New in Hp as [[-> _]|[[-> _]|[-> _]]];
      apply CacheTTL_New in Ep as [[-> _]|[[-> _]|[-> _]]]; try done;
      unfold HasPrefix in *;
      by pose proof (prefix_second _ _ _ _ _ _ Hpre Epre). }
  assert (HasPrefix path "/characters" = true
          ∨ HasPrefix path "/stats/leaderboard" = true
          ∨ HasPrefix path "/players/" = true) as Hcases.
  { unfold shouldCache, NewCacheMiddleware in Hcache. simpl in Hcache.
    rewrite !orb_true_iff in Hcache.
    destruct Hcache as [H|[H|[H|[H|H]]]]; [tauto|tauto| | |done].
    - right. right. unfold HasPrefix in *.
      by apply (prefix_app_l "/players/" "characters/").
    - right. right. unfold HasPrefix in *.
      by apply (prefix_app_l "/players/" "default-character/"). }
  destruct (HasPrefix path "/characters") eqn:E1.
  { by apply (Hget "/characters"). }
  destruct (HasPrefix path "/stats/leaderboard") eqn:E2.
  { by apply (Hget "/stats/leaderboard"). }
  apply (Hget "/players/"); [done|]. destruct Hcases as [?|[?|?]]; done.
Qed.

Lemma getTTL_cacheable_witness :
  getTTL ["/players/"; "/stats/leaderboard"; "/characters"] "/characters/3"
    NewCacheMiddleware
  = 10 * Minute.
Proof.
  apply (getTTL_cacheable ["/players/"; "/stats/leaderboard"; "/characters"]
           "/characters/3"); [|done].
  intros pattern [t Hp].
  apply CacheTTL_New in Hp as [[-> _]|[[-> _]|[-> _]]];
    repeat first [by left | right].
Defined.

End ResponseCache.

Section CachedResponses.

Import cache.

Variable md5hex : string → string.

(** X28.  A response is recorded once and served from the cache until it
    expires.  When a GET request for a cacheable path finds no live
    entry and the next handler answers 200 with a body, the response is
    stored under the path and the query.  Until the entry expires, the
    instant of expiry included, every GET request for the same path and
    query is answered from the cache with the recorded body and headers,
    or with 304 when its [If-None-Match] header is the entry's tag,
    without the next handler taking part.  But if the removal of the key
    that a look-up of an expired entry hands to a goroutine runs only
    after the new entry was stored, the new entry is removed with it,
    and the next request is handed on again. *)
Theorem Middleware_hit_after_miss (now stamp evictAt : Time)
    (ttlOrder order : list string) (r : Request) (recorded : Recorded)
    (cm : CacheMiddleware) :
  Method r = "GET" → shouldCache (Path r) cm = true →
  (Get now (generateCacheKey r) (cache_ cm)).1 = None →
  statusCode recorded = 200 → body recorded ≠ "" →
  let entry :=
    {| Data := body recorded;
       Headers := headers recorded;
       ExpiresAt := stamp + getTTL ttlOrder (Path r) cm;
       ETag := generateETag md5hex (body recorded) |} in
  let first := Middleware md5hex now stamp evictAt ttlOrder order r recorded cm in
  let cm1 := first.1.1 in
  first.2 = Handled true
  ∧ (∀ now' stamp' evictAt' ttlOrder' order' recorded' ifNoneMatch,
       now' <= ExpiresAt entry →
       Middleware md5hex now' stamp' evictAt' ttlOrder' order'
         (mkRequest "GET" (Path r) (RawQuery r) ifNoneMatch) recorded' cm1
       = (cm1, false,
          if negb (String.eqb ifNoneMatch "")
             && String.eqb ifNoneMatch (ETag entry)
          then NotModified else Cached entry))
  ∧ (∀ now' stamp' evictAt' ttlOrder' order' recorded' ifNoneMatch,
       ∃ stored,
         (Middleware md5hex now' stamp' evictAt' ttlOrder' order'
            (mkRequest "GET" (Path r) (RawQuery r) ifNoneMatch) recorded'
            (set_cache (removeLater (generateCacheKey r) (cache_ cm1)) cm1)).2
         = Handled stored).
Proof.
  intros Hget Hcache Hmiss Hstatus Hbody entry first cm1.
  assert ((0 <? Z.of_nat (String.length (body recorded))) = true) as Hlen.
  { destruct (body recorded); [done|]. apply Z.ltb_lt. simpl. lia. }
  assert (first
          = (set_cache (Set_ evictAt order (generateCacheKey r) entry (cache_ cm))
               cm,
             (Get now (generateCacheKey r) (cache_ cm)).2, Handled true))
    as Hfirst.
  { unfold first, Middleware. rewrite Hget, Hcache. simpl.
    destruct (Get now (generateCacheKey r) (cache_ cm)) as [[e|] later];
      [done|].
    by rewrite Hstatus, Hlen. }
  assert (entries (cache_ cm1) !! generateCacheKey r = Some entry) as Hentry.
  { unfold cm1. rewrite Hfirst. simpl. by rewrite lookup_insert_eq. }
  assert (shouldCache (Path r) cm1 = true) as Hcache1.
  { unfold cm1. by rewrite Hfirst. }
  split; [by rewrite Hfirst|]. split.
  - intros now' stamp' evictAt' ttlOrder' order' recorded' ifNoneMatch Hlive.
    unfold Middleware. cbn [Method Path RawQuery IfNoneMatch].
    rewrite Hcache1. simpl.
    change (generateCacheKey (mkRequest "GET" (Path r) (RawQuery r) ifNoneMatch))
      with (generateCacheKey r).
    unfold Get. rewrite Hentry. unfold gotime.After.
    destruct (Z.ltb_spec (ExpiresAt entry) now') as [Hlt|_]; [lia|].
    change (ETag entry) with (generateETag md5hex (body recorded)).
    by destruct (negb (String.eqb ifNoneMatch "")
                 && String.eqb ifNoneMatch (generateETag md5hex (body recorded))).
  - intros now' stamp' evictAt' ttlOrder' order' recorded' ifNoneMatch.
    unfold Middleware. cbn [Method Path RawQuery IfNoneMatch].
    change (shouldCache (Path r)
              (set_cache (removeLater (generateCacheKey r) (cache_ cm1)) cm1))
      with (shouldCache (Path r) cm1).
    rewrite Hcache1. simpl.
    change (generateCacheKey (mkRequest "GET" (Path r) (RawQuery r) ifNoneMatch))
      with (generateCacheKey r).
    unfold Get. simpl. rewrite lookup_delete_eq.
    destruct ((statusCode recorded' =? 200)
              && (0 <? Z.of_nat (String.length (body recorded'))));
      by eexists.
Qed.

End CachedResponses.

Lemma Middleware_hit_after_miss_witness :
  (cache.Middleware (λ _, "00") 40 41 42 [] [] listCharacters
     (cache.mkRecorded 200 ∅ "new")
     (cache.set_cache smallCache cache.NewCacheMiddleware)).2
  = cache.Handled true.
Proof.
  destruct (Middleware_hit_after_miss (λ _, "00") 40 41 42 [] [] listCharacters
              (cache.mkRecorded 200 ∅ "new")
              (cache.set_cache smallCache cache.NewCacheMiddleware))
    as (H & _); [done|done|by vm_compute|done|done|].
  exact H.
Defined.
(** ** Connecting *)

Section Connecting.

(** X29.  A connection needs no valid token.  Every request with a player ID
    and a token that are not empty is connected, once upgraded: as the
    player that the ID names in decimal, and as player 0 when the ID is
    not a decimal [int64].  What the token says is never looked at, the
    other connections stay as they are, and a player that is connected
    already is connected once more. *)
Theorem handleWSConnection_any_token (now : Time)
    (connID playerID token : string) (s : GameServer) :
  playerID ≠ "" → token ≠ "" →
  let result := handleWSConnection now connID playerID token true s in
  result.2 = Some connID
  ∧ connID ∈ connections result.1
  ∧ (∃ pc, connObjs result.1 !! connID = Some pc
           ∧ ConnRoom pc = None ∧ Send pc = make_chan 256
           ∧ (∀ n, - 2 ^ 63 <= n < 2 ^ 63 → playerID = pretty n →
                   ConnPlayerID pc = n)
           ∧ (strconv.ParseInt playerID = None → ConnPlayerID pc = 0))
  ∧ (∀ other, other ≠ connID →
       connObjs result.1 !! other = connObjs s !! other
       ∧ (other ∈ connections result.1 ↔ other ∈ connections s)).
Proof.
  intros Hp Ht result. unfold result, handleWSConnection.
  apply String.eqb_neq in Hp, Ht. rewrite Hp, Ht. simpl.
  split; [done|]. split.
  { apply elem_of_union. left. by apply elem_of_singleton. }
  split.
  - eexists. split; [by rewrite lookup_insert_eq|]. simpl.
    split; [done|]. split; [done|]. split.
    + intros n Hn ->. unfold parseInt64. by rewrite ParseInt_pretty.
    + intros E. unfold parseInt64. by rewrite E.
  - intros other Hne. split; [by rewrite lookup_insert_ne|].
    rewrite elem_of_union, elem_of_singleton. tauto.
Qed.

Lemma handleWSConnection_any_token_witness :
  (handleWSConnection 5 "c9" "1" "anything" true lobbyServer).2 = Some "c9".
Proof.
  destruct (handleWSConnection_any_token 5 "c9" "1" "anything" lobbyServer)
    as (H & _); [done|done|].
  exact H.
Defined.

End Connecting.
